(* ===== verification/_CoqProject ===== *)
-Q . S2P
Prelude.v
Logging.v
PyNum.v
Heapq.v
Values.v
Decode.v
Events.v
EventStore.v
Sync.v
Transactions.v
RuntimeState.v
StorePorts.v
StoreThreads.v
Snapshots.v
Tasks.v
Recovery.v
Policy.v
TaskQueue.v
QueuePort.v
QueueSpec.v
QueueThreads.v
QueueRecovery.v
PolicyOrder.v
Admission.v
Retry.v
Delayed.v
Scheduler.v
WorkerPool.v
Accounting.v
System.v
Timeline.v
Runtime.v
Protocol.v
Lifecycle.v
WorkflowModels.v
Dag.v
Builder.v
Sdk.v
Planner.v
Orchestrator.v
WorkflowMachine.v
WorkflowQueue.v
WorkflowRuntime.v
Execution.v
Middleware.v
Executors.v
Http.v
Registry.v
Metrics.v
Tracing.v
Application.v
Monitoring.v
EventBus.v
Exporters.v
Diagnostics.v
Telemetry.v
