(* ===== verification/Prelude.v ===== *)
(** * Mollis runtime: verification library

    Mollis (under [src/app/runtime/]) schedules tasks on worker threads, runs
    workflows as graphs of tasks, logs every change as an event, and recovers
    from the log.  This library translates its Python code into executable
    definitions and proves what the code guarantees, errors included.  This
    file is the root and the prelude: exceptions, the state-and-exception
    monad, ordered dictionaries, lenses and the shared tactics.

    ** Conventions

    - A method is a function in the monad [M S A := S → outcome A * S]: a method
      that raises keeps the mutations made before.  [catch], [swallow] and
      [finally] are Python's [try] forms; [env], [zoom] and [Lens] run a method
      of a component inside a larger state.
    - A [dict] is an [odict], a list of pairs in insertion order; a set whose
      order shows is a list.  A [str] is a sequence of characters below 256.
      A JSON text is the value it denotes ([Values]).
    - An [int] is unbounded, a [float] is an IEEE 754 double computed by
      [SpecFloat], and mixed comparisons follow CPython ([PyNum]).
    - Tasks are objects: a heap [env_tasks] maps references to [Task] records,
      and queue, timers, workers and manager hold references, so aliasing is as
      in the code.
    - What the code reads from outside is a parameter with its documented
      behaviour: [Oracle] (UUIDs, clocks, date parsing, [pow],
      which statements and which COMMITs the database refuses), [SchedulerPort] (the scheduler an orchestrator submits to),
      [Host] (metrics sink and thread joins of the middlewares) and [OS]
      (subprocesses, called objects, the file system).  Laws about them
      ([PowLaws], [UuidLaws], [ReliableStore]) are named classes, and every
      theorem that uses one is applied to a concrete instance.
    - Log lines are no part of the state.  [Logging] ([config/], [logger/]): the
      settings and the logger factory over the tree of loggers.
    - A method that holds a lock is one operation.  [Sync] shows why this loses
      nothing: under any lock that keeps its contract, threads that interrupt each
      other between single statements run as whole critical sections.

    ** Scheduling ([scheduling/], [managers/], [models/], [runtime.py])

    - [Tasks]: [Task], [TaskManager], the environment all components share.
    - [Heapq]: [heapq] over any order.  [Policy]: the interface
      [SchedulingPolicy] with its laws; FIFO, priority and deadline policies.
      [PolicyOrder]: a heap policy serves like a stable sorted list, while no
      id is added again before its old entry is popped; what happens otherwise.
    - [TaskQueue]: [InMemoryTaskQueue] over any policy.  [QueuePort]: the
      abstract [BaseTaskQueue] as a class with the laws its documentation
      promises, which [InMemoryTaskQueue] keeps.  [QueueSpec]: a queue that keeps
      them refines a bounded list of waiting tasks.
    - [Sync] ([queue/sync.py]): [LockInterface] with its laws,
      [LocalThreadingLock], critical sections as programs of statements on guarded
      and on shared data, threads as a step relation; what [LocalThreadingLock]
      makes atomic.  [QueueThreads]: the queue's methods statement by statement,
      which any number of threads call while other code changes task objects and
      the event store: every run is one of the bounded list of [QueueSpec].
    - [Admission], [Retry], [Delayed]: plugin chain; retry policy and engine;
      timer heap and polling loop.
    - [Scheduler]: [Runtime.submit_task] and the methods of
      [IntelligentScheduler].
    - [WorkerPool]: workers, pool, supervisor, time-out manager.  A worker's
      thread is a program counter, and the code between two points where it
      holds no lock and others can observe it is one action: the loop's test,
      [get], the marking of the worker, the events before the execution, the
      call of the executor, what follows it, the [finally] block.
    - [Accounting]: where task references can be.  [System]: all threads
      together; a run is any sequence of actions ([action]).  Theorems: workers'
      published states and program counters agree; while the time-out monitor
      does not fire, no task is in two places, hence never executed twice at a
      time; dispatch, completion and failure; what a time-out or a store failure
      breaks.
    - [Timeline]: every operation only moves the clock forward and only appends
      to the log ([Timeline], [forward]).  [Runtime]: the wiring of
      [Runtime.__init__] and sessions of clients (submit, start, stop) beside
      the threads, from the constructor on: exclusive execution without any
      assumption on the state, an append-only log, and a submission that is
      admitted, dispatched, executed and completed.
    - [Protocol]: the life of a task in the event log as a state machine
      ([phase_of]), and a separation logic whose tokens are task references at
      a stage of that life ([legal], [keeps]).  [Lifecycle]: every session's log
      is legal and agrees with where the tasks are; recovery from it finds the
      queue.
    - [Application] ([main.py]): the program of the repository, from its imports
      to its last line.

    ** Persistence ([persistence/])

    - [Events]: event classes, [to_dict], registry, [from_dict].
    - [EventStore]: the [events] table.  Its writes use [with self._conn], which
      CPython rolls back when the COMMIT fails, so a write is all or nothing.
    - [Transactions]: the connection (what is committed, and the open transaction
      if there is one) and [SQLiteTransaction] with its lock, where all failures
      of BEGIN, the body and COMMIT are told apart.  A refused COMMIT leaves the
      transaction open; ROLLBACK is taken to succeed.
    - [RuntimeState]: the tables of the state store and its methods on the
      connection; saving and loading is a round trip, and what a refused COMMIT
      leaves behind.
    - [StorePorts]: the ports of [domain/ports.py] as classes with laws that the
      SQLite adapters satisfy: repositories are maps, the event store is a log,
      named snapshots are a map until a COMMIT is refused.
      [StoreThreads]: the methods of both stores statement by statement on the
      connection and the lock they share: every run of any number of threads is
      serializable, and a read without the lock is not isolated.
    - [Snapshots]: [SnapshotSerializer] and [SnapshotManager], the latter
      proved against the port, not the adapter.
    - [Recovery]: [RecoveryManager] from a saved state or from the first event.
      [QueueRecovery]: what is recovered from the queue's events is what waits
      in the queue.

    ** Workflows ([workflow/])

    - [WorkflowModels]: definitions, plans, instances and their dictionaries.
    - [Dag]: acyclic graphs and topological orders.  [Builder]: the fluent
      builder; [build] succeeds just on acyclic graphs over declared nodes.
      [Planner]: levels, phases, critical path.  [Sdk]: the decorators that
      record a Python function as a graph.
    - [Orchestrator]: [WorkflowOrchestrator].  [WorkflowMachine]: the abstract
      machine of an instance, and that every method of the orchestrator moves
      along it: no node before its predecessors, finished instances frozen; the
      machine's parameter is what it trusts events to say ([trust]).  A read or a
      write of the two workflow tables may fail, but the COMMIT of a
      checkpoint is taken to succeed.
    - [WorkflowQueue]: the orchestrator on the real scheduler and queue; how a
      built workflow starts, what a dispatch enqueues and a cancellation
      withdraws.  [WorkflowRuntime]: its
      calls interleaved with the runtime's threads; what the runtime logs names
      no workflow ([inert]), so dependent nodes wait for ever.

    ** Execution ([executors/], [registry/])

    - [Execution]: requests, results and their dictionaries.  [Middleware]: the
      onion of middlewares; retries are bounded, observers change nothing.
    - [Executors], [Http]: local environment, Python, shell, mock, function and
      HTTP executors, and the adapter through which workers call them.
    - [Registry]: [ExecutorRegistry] with lazy builders and fallbacks, and
      [Runtime.execute_task].

    ** Observability ([observability/])

    - [Metrics], [Tracing], [Monitoring] (health, alerts, timeline, replay),
      [EventBus] (publication, event-store proxy, subscriber), [Exporters]
      (JSON and CSV), [Diagnostics] (the SQL summaries), [Telemetry] (telemetry
      events, structured log lines, the exporter port).

    ** Fuel

    Loops without structural measure take fuel, always given by the definition
    that starts them or quantified in the theorem: a heap's sift loops, its
    length; [pop_due] and the skipping of cancelled entries, the heap's size;
    Kahn's algorithm, the levels and the critical path, the number of nodes; the
    middleware chain, its length.  Each such theorem shows that the fuel is
    enough.  The retry loop is proved for all fuel from [max_retries] on and an
    executor lookup for all fuel from 2 on.  Two of these loops really diverge
    in the code, and no fuel is enough there: planning a cyclic graph
    ([Planner.plan_diverges]) and a lookup whose default is not registered
    ([Registry.default_unregistered_diverges]).

    ** Not modelled

    The joins of [stop] and the timing of the threads' sleeps (any interleaving
    is allowed instead).  Code outside the repository is a parameter: the order
    SQLite gives to snapshots with equal timestamps ([SqlOrder]) and zlib with
    base64 (the codec of [Snapshots]).  [BaseAgent] and
    [BaseMemory] are empty classes; the abstract ports that no component is proved against have no
    behaviour of their own. *)
From stdpp Require Export prelude list gmap strings sorting.
#[global] Set Default Goal Selector "!".

(** * Exceptions

    The exceptions the modelled code raises or lets escape.  [UserExc] stands
    for an exception raised by code outside the repository (an executor's
    payload, a plugin): its method resolution order and its message. *)
Inductive exn : Type :=
  | TaskNotFoundError (task_id : string)
  | DuplicateTaskError (task_id : string)
  | InvalidTaskTitleError
  | AdmissionError (msg : string)
  | QueueFullError (capacity : Z)
  | QueueEmptyError
  | ValueError (msg : string)
  | RuntimeError (msg : string)
  | TypeError (msg : string)
  | AttributeError (msg : string)
  | KeyError (key : string)
  | IndexError
  | OverflowError
  | TimeoutError (msg : string)
  | RecursionError
  | UserExc (mro : list string) (msg : string).

#[export] Instance exn_eq_dec : EqDecision exn.
Proof. solve_decision. Defined.

(** The classes an exception is an instance of, most derived first
    (exceptions/*.py and the built-in hierarchy). *)
Definition exn_mro (e : exn) : list string :=
  match e with
  | TaskNotFoundError _ => ["TaskNotFoundError"; "TaskError"; "Exception"]
  | DuplicateTaskError _ => ["DuplicateTaskError"; "TaskError"; "Exception"]
  | InvalidTaskTitleError => ["InvalidTaskTitleError"; "TaskError"; "Exception"]
  | AdmissionError _ => ["AdmissionError"; "SchedulingError"; "Exception"]
  | QueueFullError _ => ["QueueFullError"; "QueueError"; "SchedulingError"; "Exception"]
  | QueueEmptyError => ["QueueEmptyError"; "QueueError"; "SchedulingError"; "Exception"]
  | ValueError _ => ["ValueError"; "Exception"]
  | RuntimeError _ => ["RuntimeError"; "Exception"]
  | TypeError _ => ["TypeError"; "Exception"]
  | AttributeError _ => ["AttributeError"; "Exception"]
  | KeyError _ => ["KeyError"; "LookupError"; "Exception"]
  | IndexError => ["IndexError"; "LookupError"; "Exception"]
  | OverflowError => ["OverflowError"; "ArithmeticError"; "Exception"]
  | TimeoutError _ => ["TimeoutError"; "OSError"; "Exception"]
  | RecursionError => ["RecursionError"; "RuntimeError"; "Exception"]
  | UserExc mro _ => mro
  end%string.

Definition isinstance (e : exn) (cls : string) : bool := bool_decide (cls ∈ exn_mro e).

(** * The state-and-exception monad

    Python code that raises keeps the mutations it has made: a computation
    returns an outcome together with the state it leaves, in both cases. *)
Inductive outcome (A : Type) : Type :=
  | Ok (a : A)
  | Raise (e : exn).
Arguments Ok {A} a.
Arguments Raise {A} e.

Definition M (S A : Type) : Type := S → outcome A * S.

Section monad.
Context {S : Type}.

Definition ret {A} (a : A) : M S A := λ s, (Ok a, s).
Definition raise {A} (e : exn) : M S A := λ s, (Raise e, s).
Definition bind {A B} (m : M S A) (k : A → M S B) : M S B := λ s,
  match m s with
  | (Ok a, s') => k a s'
  | (Raise e, s') => (Raise e, s')
  end.
Definition get : M S S := λ s, (Ok s, s).
Definition gets {A} (f : S → A) : M S A := λ s, (Ok (f s), s).
Definition modify (f : S → S) : M S unit := λ s, (Ok tt, f s).
Definition catch {A} (m : M S A) (h : exn → M S A) : M S A := λ s,
  match m s with
  | (Ok a, s') => (Ok a, s')
  | (Raise e, s') => h e s'
  end.
Definition of_outcome {A} (o : outcome A) : M S A := λ s, (o, s).
End monad.

#[export] Instance outcome_eq_dec {A} `{EqDecision A} : EqDecision (outcome A).
Proof. solve_decision. Defined.

(** [try: m; except Exception: log] *)
Definition swallow {S} (m : M S unit) : M S unit :=
  catch m (λ x, if isinstance x "Exception" then ret tt else raise x).
(** [try: m finally: f] *)
Definition finally {S A} (m : M S A) (f : M S unit) : M S A := λ s,
  let '(o, s') := m s in
  match f s' with
  | (Ok _, s'') => (o, s'')
  | (Raise x, s'') => (Raise x, s'')
  end.

Definition omap_ok {A B} (f : A → B) (o : outcome A) : outcome B :=
  match o with Ok a => Ok (f a) | Raise e => Raise e end.

Declare Scope py_scope.
Delimit Scope py_scope with py.
Notation "x <- m ;; k" := (bind m (λ x, k))
  (at level 100, m at next level, right associativity) : py_scope.
Notation "m ;;; k" := (bind m (λ _, k))
  (at level 100, right associativity) : py_scope.
Definition obind {A B} (o : outcome A) (k : A → outcome B) : outcome B :=
  match o with Ok a => k a | Raise e => Raise e end.
Notation "'let?' x ':=' o 'in' k" := (obind o (λ x, k))
  (at level 10, x name, o at level 100, k at level 200) : py_scope.
Infix "=s?" := String.eqb (at level 70) : py_scope.
Open Scope py_scope.

Lemma bind_ret_run {S A B} (m : M S A) (f : A → B) s o s' :
  m s = (o, s') → (x <- m ;; ret (f x)) s = (omap_ok f o, s').
Proof. unfold bind, ret. intros ->. by destruct o. Qed.

(** [[f x for x in l]] for an [f] that may raise *)
Fixpoint omapM {A B} (f : A → outcome B) (l : list A) : outcome (list B) :=
  match l with
  | [] => Ok []
  | x :: l' => let? y := f x in let? ys := omapM f l' in Ok (y :: ys)
  end.

Lemma omapM_Ok {A B} (f : A → outcome B) (g : B → A) l :
  Forall (λ y, f (g y) = Ok y) l → omapM f (map g l) = Ok l.
Proof. induction 1 as [|y l Hy _ IH]; simpl; [done|]. by rewrite Hy; simpl; rewrite IH. Qed.

Lemma omapM_app {A B} (f : A → outcome B) l1 l2 :
  omapM f (l1 ++ l2) = let? a := omapM f l1 in let? b := omapM f l2 in Ok (a ++ b).
Proof.
  induction l1 as [|x l1 IH]; simpl; [by destruct (omapM f l2)|].
  destruct (f x); simpl; [|done]. rewrite IH. destruct (omapM f l1), (omapM f l2); done.
Qed.

(** [for x in l: body x] *)
Fixpoint for_each {S A} (l : list A) (body : A → M S unit) : M S unit :=
  match l with
  | [] => ret tt
  | x :: l' => body x ;;; for_each l' body
  end.

(** * Lenses: an operation on a component, run on the state that holds it *)
Record lens (S T : Type) : Type := Lens {
  lget : S → T;
  lset : T → S → S
}.
Arguments Lens {S T} lget lset.
Arguments lget {S T} l s.
Arguments lset {S T} l t s.

Class LensLaws {S T} (l : lens S T) : Prop := {
  lget_lset : ∀ t s, lget l (lset l t s) = t;
  lset_lget : ∀ s, lset l (lget l s) s = s;
  lset_lset : ∀ t t' s, lset l t (lset l t' s) = lset l t s
}.

Definition zoom {S T A} (l : lens S T) (m : M T A) : M S A := λ s,
  let '(o, t) := m (lget l s) in (o, lset l t s).

(** An object's own state next to the environment it shares. *)
Definition self_lens {C E} : lens (C * E) C := Lens fst (λ c s, (c, s.2)).
Definition env_lens {C E} : lens (C * E) E := Lens snd (λ e s, (s.1, e)).
Abbreviation self m := (zoom self_lens m).
Abbreviation env m := (zoom env_lens m).

#[export] Instance self_lens_laws {C E} : LensLaws (@self_lens C E).
Proof. split; [done|by intros [??]|done]. Qed.
#[export] Instance env_lens_laws {C E} : LensLaws (@env_lens C E).
Proof. split; [done|by intros [??]|done]. Qed.

(** * Insertion-ordered dictionaries

    A Python [dict]: updating a present key keeps its position, a new key goes
    last, iteration follows insertion order. *)
Definition odict (V : Type) : Type := list (string * V).

Section odict.
Context {V : Type}.
Implicit Types (d : odict V) (k : string) (v : V).

Fixpoint dget d k : option V :=
  match d with
  | [] => None
  | (k', v) :: d' => if decide (k = k') then Some v else dget d' k
  end.

Lemma dget_cons d k' v k :
  dget ((k', v) :: d) k = if String.eqb k k' then Some v else dget d k.
Proof. simpl. destruct (String.eqb_spec k k'), (decide (k = k')); done. Qed.

Fixpoint dset d k v : odict V :=
  match d with
  | [] => [(k, v)]
  | (k', v') :: d' => if decide (k = k') then (k', v) :: d' else (k', v') :: dset d' k v
  end.

Lemma dset_cons d k' v' k v :
  dset ((k', v') :: d) k v = if String.eqb k k' then (k', v) :: d else (k', v') :: dset d k v.
Proof. simpl. destruct (String.eqb_spec k k'), (decide (k = k')); done. Qed.

Fixpoint ddel d k : odict V :=
  match d with
  | [] => []
  | (k', v) :: d' => if decide (k = k') then d' else (k', v) :: ddel d' k
  end.

Definition dhas d k : bool := bool_decide (is_Some (dget d k)).
Definition dkeys d : list string := d.*1.
Definition dvals d : list V := d.*2.

(** [d1.update(d2)], also [{**d1, **d2}] *)
Definition dupdate d1 (d2 : odict V) : odict V :=
  foldl (λ d kv, dset d kv.1 kv.2) d1 d2.

(** No key twice: what a real dictionary satisfies. *)
Definition dwf d : Prop := NoDup (dkeys d).

Lemma dget_dset_eq d k v : dget (dset d k v) k = Some v.
Proof.
  induction d as [|[k' v'] d IH]; simpl; [by rewrite decide_True|].
  case_decide; simpl; [by rewrite decide_True|by rewrite decide_False].
Qed.

Lemma dget_dset_ne d k k' v : k ≠ k' → dget (dset d k v) k' = dget d k'.
Proof.
  intros Hne. induction d as [|[k2 v2] d IH]; simpl.
  - by rewrite decide_False.
  - case_decide; subst; simpl; [by rewrite !decide_False by done|].
    by rewrite IH.
Qed.

Lemma dget_dset d k k' v :
  dget (dset d k v) k' = if decide (k = k') then Some v else dget d k'.
Proof. case_decide; subst; [apply dget_dset_eq|by apply dget_dset_ne]. Qed.

Lemma dget_Some_elem d k v : dget d k = Some v → (k, v) ∈ d.
Proof.
  induction d as [|[k' v'] d IH]; simpl; [done|].
  case_decide; intros ?; simplify_eq; [by left|right; auto].
Qed.

Lemma dget_None d k : dget d k = None ↔ k ∉ dkeys d.
Proof.
  unfold dkeys. induction d as [|[k' v'] d IH]; csimpl.
  - split; [intros _; apply not_elem_of_nil|done].
  - rewrite not_elem_of_cons. case_decide as Hk; [split; [done|tauto]|].
    rewrite IH. tauto.
Qed.

Lemma dget_is_Some d k : is_Some (dget d k) ↔ k ∈ dkeys d.
Proof.
  rewrite <-not_eq_None_Some, dget_None.
  destruct (decide (k ∈ dkeys d)); tauto.
Qed.

Lemma dhas_true d k : dhas d k = true ↔ k ∈ dkeys d.
Proof. unfold dhas. by rewrite bool_decide_eq_true, dget_is_Some. Qed.

Lemma dhas_false d k : dhas d k = false ↔ k ∉ dkeys d.
Proof. unfold dhas. by rewrite bool_decide_eq_false, dget_is_Some. Qed.

Lemma dget_elem d k v : dwf d → (k, v) ∈ d → dget d k = Some v.
Proof.
  unfold dwf, dkeys. induction d as [|[k' v'] d IH]; csimpl.
  - intros _ []%not_elem_of_nil.
  - rewrite NoDup_cons, elem_of_cons. intros [Hni Hnd] [?|Hin]; simplify_eq.
    + case_decide; done.
    + case_decide; [subst|auto]. destruct Hni. apply list_elem_of_fmap. by exists (k', v).
Qed.

Lemma dset_fresh d k v : k ∉ dkeys d → dset d k v = d ++ [(k, v)].
Proof.
  unfold dkeys. induction d as [|[k' v'] d IH]; csimpl; [done|].
  rewrite not_elem_of_cons. intros [??]. rewrite decide_False by done. by rewrite IH.
Qed.

Lemma dkeys_dset_in d k v : k ∈ dkeys d → dkeys (dset d k v) = dkeys d.
Proof.
  unfold dkeys. induction d as [|[k' v'] d IH]; csimpl.
  - intros []%not_elem_of_nil.
  - rewrite elem_of_cons. case_decide; subst; csimpl; [done|].
    intros [?|?]; [done|]. by rewrite IH.
Qed.

Lemma dkeys_dset d k v :
  dkeys (dset d k v) = if decide (k ∈ dkeys d) then dkeys d else dkeys d ++ [k].
Proof.
  case_decide; [by apply dkeys_dset_in|].
  rewrite dset_fresh by done. unfold dkeys. by rewrite fmap_app.
Qed.

Lemma elem_of_dkeys_dset d k k' v : k' ∈ dkeys (dset d k v) ↔ k' = k ∨ k' ∈ dkeys d.
Proof. rewrite dkeys_dset. case_decide; set_solver. Qed.

Lemma dset_wf d k v : dwf d → dwf (dset d k v).
Proof.
  unfold dwf. rewrite dkeys_dset. case_decide as Hk; [done|].
  intros. apply NoDup_app. split_and!; [done| |apply NoDup_singleton]. set_solver.
Qed.

Lemma dset_same d k v : dget d k = Some v → dset d k v = d.
Proof.
  induction d as [|[k' v'] d IH]; csimpl; [done|].
  case_decide; intros; simplify_eq; [done|]. by rewrite IH.
Qed.

Lemma dset_dset d k v v' : dset (dset d k v) k v' = dset d k v'.
Proof.
  induction d as [|[k' v2] d IH]; csimpl; [by rewrite decide_True|].
  case_decide; csimpl; [by rewrite decide_True|by rewrite decide_False, IH].
Qed.

Lemma dkeys_ddel_sub d k k' : k' ∈ dkeys (ddel d k) → k' ∈ dkeys d.
Proof.
  unfold dkeys. induction d as [|[k2 v2] d IH]; csimpl; [done|].
  case_decide; csimpl; rewrite ?elem_of_cons; tauto.
Qed.

Lemma ddel_wf d k : dwf d → dwf (ddel d k).
Proof.
  unfold dwf. induction d as [|[k2 v2] d IH]; csimpl; [done|].
  intros [Hni Hnd]%NoDup_cons. case_decide; [done|].
  csimpl. apply NoDup_cons; split; [|auto]. intros Hin. by apply dkeys_ddel_sub in Hin.
Qed.

Lemma dget_ddel_eq d k : dwf d → dget (ddel d k) k = None.
Proof.
  unfold dwf. induction d as [|[k2 v2] d IH]; csimpl; [done|].
  intros [Hni Hnd]%NoDup_cons. case_decide; subst.
  - by apply dget_None.
  - csimpl. rewrite decide_False by done. auto.
Qed.

Lemma dget_ddel_ne d k k' : k ≠ k' → dget (ddel d k) k' = dget d k'.
Proof.
  intros Hne. induction d as [|[k2 v2] d IH]; csimpl; [done|].
  case_decide; subst; [by rewrite decide_False by done|].
  csimpl. by rewrite IH.
Qed.

Lemma length_ddel d k : k ∈ dkeys d → S (length (ddel d k)) = length d.
Proof.
  unfold dkeys. induction d as [|[k2 v2] d IH]; csimpl; [by intros ?%not_elem_of_nil|].
  rewrite elem_of_cons. case_decide; [done|].
  intros [?|?]; [done|]. csimpl. f_equal; auto.
Qed.
End odict.

Lemma dkeys_fmap {V W} (f : V → W) (d : odict V) :
  dkeys (prod_map id f <$> d) = dkeys d.
Proof. unfold dkeys. rewrite <-list_fmap_compose. by apply list_fmap_ext. Qed.

Lemma dget_fmap {V W} (f : V → W) (d : odict V) k :
  dget (prod_map id f <$> d) k = f <$> dget d k.
Proof. induction d as [|[k' v] d IH]; csimpl; [done|]. case_decide; auto. Qed.

(** * Lists *)
Section lists.
Context {A : Type} (P : A → Prop) `{!∀ x, Decision (P x)}.
Implicit Types (l : list A).

Lemma filter_all l : Forall P l → filter P l = l.
Proof.
  induction 1 as [|x l Hx _ IH]; [done|].
  rewrite filter_cons, decide_True, IH by done. done.
Qed.
Lemma filter_none l : Forall (λ x, ¬ P x) l → filter P l = [].
Proof.
  induction 1 as [|x l Hx _ IH]; [done|]. by rewrite filter_cons, decide_False, IH by done.
Qed.

Lemma filter_ext_in (Q : A → Prop) `{!∀ x, Decision (Q x)} l :
  (∀ x, x ∈ l → P x ↔ Q x) → filter P l = filter Q l.
Proof.
  induction l as [|x l IH]; intros Hl; [done|]. rewrite !filter_cons.
  rewrite IH by (intros; apply Hl; by right).
  specialize (Hl x ltac:(left)). by destruct (decide (P x)), (decide (Q x)); try tauto.
Qed.

Lemma StronglySorted_filter (R : A → A → Prop) l :
  StronglySorted R l → StronglySorted R (filter P l).
Proof.
  induction 1 as [|x l Hs IH Hx]; [constructor|]. rewrite filter_cons.
  case_decide; [|done]. constructor; [done|].
  rewrite Forall_forall in *. intros y [_ Hy]%list_elem_of_filter. auto.
Qed.
End lists.

Lemma list_filter_fmap {A B} (f : A → B) (P : B → Prop) `{!∀ x, Decision (P x)} (l : list A) :
  filter P (f <$> l) = f <$> filter (λ x, P (f x)) l.
Proof.
  induction l as [|x l IH]; [done|]. csimpl. rewrite !filter_cons.
  destruct (decide (P (f x))); csimpl; by rewrite IH.
Qed.

Lemma forallb_ext {A} (f g : A → bool) (l : list A) :
  (∀ x, f x = g x) → forallb f l = forallb g l.
Proof. intros Hfg. induction l as [|x l IH]; simpl; [done|]. by rewrite Hfg, IH. Qed.

(** Local sortedness is global where the relation is transitive on the list. *)
Lemma sorted_strong {A} (R : A → A → Prop) (ok : A → Prop) l :
  (∀ a b c, ok a → ok b → ok c → R a b → R b c → R a c) →
  Forall ok l → Sorted R l → StronglySorted R l.
Proof.
  intros Htr Hok Hs. induction Hs as [|x l Hs IH Hhd]; [constructor|].
  apply Forall_cons in Hok as [Hx Hok]. specialize (IH Hok). constructor; [done|].
  destruct Hhd as [|y l Hxy]; [constructor|].
  apply Forall_cons in Hok as [Hy Hok]. apply StronglySorted_inv in IH as [_ IH].
  constructor; [done|]. rewrite Forall_forall in *. intros z Hz. eauto.
Qed.

(** Evaluate the monadic structure of an operation. *)
Ltac run_step :=
  unfold bind, ret, raise, get, gets, modify, catch, of_outcome, zoom; simpl.
(** Split on the conditionals of a run, in the goal and in a hypothesis. *)
Ltac run_cases :=
  repeat (run_step; case_match; simplify_eq/=).

(** Look concrete keys up in a literal dictionary. *)
Ltac dget_simpl :=
  repeat (first [rewrite !dget_cons | rewrite !dset_cons]; cbn [String.eqb Ascii.eqb Bool.eqb]).

Create HintDb pydict.
Create Rewrite HintDb pydict_rw.
#[export] Hint Resolve dset_wf ddel_wf dget_dset_eq : pydict.
#[export] Hint Rewrite @dget_dset_eq @dget_dset_ne @dget_fmap @dkeys_fmap using done : pydict_rw.
