(* ===== verification/Logging.v ===== *)
(** [config/settings.py], [logger/logger.py]: the settings and the logger
    factory, over the tree of loggers of the standard [logging] package. *)
From S2P Require Import Prelude.
From stdpp Require Import gmap.
Open Scope Z_scope.

(** [Settings] and its one instance *)
Record Settings : Type := {
  APP_NAME : string;
  APP_VERSION : string;
  LOG_LEVEL : string;
  MAX_TASKS : Z;
  DEBUG : bool
}.
Definition settings : Settings :=
  {| APP_NAME := "Mollis Runtime"; APP_VERSION := "0.1.0"; LOG_LEVEL := "INFO"; MAX_TASKS := 100; DEBUG := true |}.

(** * [logging] *)

(** [getattr(logging, name)] for the names of levels *)
Definition level_of (name : string) : option Z :=
  if name =s? "DEBUG" then Some 10 else if name =s? "INFO" then Some 20 else if name =s? "WARNING" then Some 30
  else if name =s? "ERROR" then Some 40 else if name =s? "CRITICAL" then Some 50 else None.

(** A logger's name is the list of its parts, as the dots separate them; its
    ancestors are the prefixes, the root has no parts. *)
Fixpoint parts (cur s : string) : list string :=
  match s with
  | EmptyString => [cur]
  | String c s' => if decide (c = Ascii.ascii_of_nat 46) then cur :: parts "" s' else parts (cur +:+ String c "") s'
  end.
(** the empty name and [root] are the root *)
Definition logger_path (name : string) : list string :=
  if (name =s? "") || (name =s? "root") then [] else parts "" name.
(** The loggers a record passes on its way to the root, the nearest first. *)
Definition chain (p : list string) : list (list string) := map (λ n, take n p) (reverse (seq 0 (S (length p)))).

(** Handlers by their format, and the levels that are set. *)
Record Loggers : Type := {
  lg_handlers : gmap (list string) (list string);
  lg_levels : gmap (list string) Z
}.
Definition handlers_at (t : Loggers) (p : list string) : list string := default [] (lg_handlers t !! p).
(** The handlers that get a record of [p]; [hasHandlers] *)
Definition reached (t : Loggers) (p : list string) : list string := concat (map (handlers_at t) (chain p)).
Definition has_handlers (t : Loggers) (p : list string) : bool := existsb (λ p, negb (bool_decide (handlers_at t p = []))) (chain p).
(** [getEffectiveLevel]: the nearest level that is set; [WARNING] at the root *)
Definition effective_level (t : Loggers) (p : list string) : Z := default 30 (head (omap (λ p, lg_levels t !! p) (chain p))).
(** What a record of some level is formatted with. *)
Definition written (t : Loggers) (p : list string) (level : Z) : list string :=
  if effective_level t p <=? level then reached t p else [].

(** * The factory *)
Definition line_format : string := "%(asctime)s | %(levelname)s | %(name)s | %(message)s".
Definition get_logger (name : string) : M Loggers (list string) :=
  let p := logger_path name in
  t <- get ;;
  if has_handlers t p then ret p
  else
    match level_of (LOG_LEVEL settings) with
    | Some l => modify (λ t, {| lg_handlers := lg_handlers t; lg_levels := <[p := l]> (lg_levels t) |})
    | None => raise (AttributeError ("module 'logging' has no attribute '" +:+ LOG_LEVEL settings +:+ "'"))
    end ;;;
    modify (λ t, {| lg_handlers := <[p := handlers_at t p ++ [line_format]]> (lg_handlers t); lg_levels := lg_levels t |}) ;;;
    ret p.
Definition new_loggers : Loggers := {| lg_handlers := ∅; lg_levels := ∅ |}.
Fixpoint get_loggers (names : list string) : M Loggers unit :=
  match names with [] => ret tt | n :: names' => get_logger n ;;; get_loggers names' end.

(** * Correctness *)
Implicit Types (t : Loggers) (p q : list string).

Lemma elem_of_chain q p : q ∈ chain p ↔ q `prefix_of` p.
Proof.
  unfold chain. rewrite list_elem_of_fmap. split.
  - intros (n & -> & _). apply prefix_take.
  - intros Hq. exists (length q). split.
    + destruct Hq as [k ->]. by rewrite take_app_length.
    + apply elem_of_reverse, elem_of_seq. apply prefix_length in Hq. lia.
Qed.
Lemma chain_NoDup p : NoDup (chain p).
Proof.
  unfold chain. apply NoDup_fmap_2_strong; [|rewrite reverse_Permutation; apply NoDup_seq].
  intros n m Hn Hm E. apply elem_of_reverse, elem_of_seq in Hn, Hm.
  apply (f_equal length) in E. rewrite !length_take in E. lia.
Qed.
Lemma has_handlers_true t p : has_handlers t p = true ↔ ∃ q, q `prefix_of` p ∧ handlers_at t q ≠ [].
Proof.
  unfold has_handlers. rewrite existsb_exists. split.
  - intros (q & Hq%list_elem_of_In%elem_of_chain & Hh). exists q. by rewrite negb_true_iff, bool_decide_eq_false in Hh.
  - intros (q & Hq & Hh). exists q. split; [by apply list_elem_of_In, elem_of_chain|].
    by rewrite negb_true_iff, bool_decide_eq_false.
Qed.

(** A list with one element that counts. *)
Lemma concat_single {A B} (f : A → list B) l a b :
  NoDup l → a ∈ l → f a = [b] → (∀ a', a' ∈ l → f a' ≠ [] → a' = a) → concat (map f l) = [b].
Proof.
  intros Hnd (l1 & l2 & ->)%list_elem_of_split Ha Hu.
  assert (∀ l', (∀ a', a' ∈ l' → a' ≠ a ∧ a' ∈ l1 ++ a :: l2) → concat (map f l') = []) as Hnil.
  { intros l'. induction l' as [|a' l' IH]; intros Hl; simpl; [done|].
    rewrite IH by (intros; apply Hl; by right). destruct (Hl a') as [Hne Hin]; [by left|].
    destruct (f a') eqn:E; [done|]. destruct Hne. apply Hu; [done|]. by rewrite E. }
  apply NoDup_app in Hnd as (_ & Hd & [Hn _]%NoDup_cons).
  rewrite map_app, concat_app. simpl. rewrite Ha, (Hnil l1), (Hnil l2); [done|..].
  - intros a' Hin. split; [by intros ->|set_solver].
  - intros a' Hin. split; [intros ->; apply (Hd a Hin); by left|set_solver].
Qed.
Lemma omap_concat {A B} (f : A → option B) l : omap f l = concat (map (λ a, option_list (f a)) l).
Proof. induction l as [|a l IH]; simpl; [done|]. unfold omap in IH. rewrite <-IH. by destruct (f a). Qed.

(** What the factory keeps: only loggers it was asked for have a handler, the
    one it made, and a level; and above each of them, itself included, there is
    exactly one. *)
Record one_handler (asked : list (list string)) t : Prop := {
  oh_made q : handlers_at t q ≠ [] → q ∈ asked ∧ handlers_at t q = [line_format];
  oh_level q : lg_levels t !! q = if decide (handlers_at t q = []) then None else Some 20;
  oh_one p : p ∈ asked → ∃ q, q `prefix_of` p ∧ handlers_at t q ≠ [] ∧
    ∀ q', q' `prefix_of` p → handlers_at t q' ≠ [] → q' = q
}.

Lemma get_logger_one asked t name :
  one_handler asked t → (∀ p, p ∈ asked → logger_path name `prefix_of` p → logger_path name ∈ asked) →
  (get_logger name t).1 = Ok (logger_path name) ∧ one_handler (logger_path name :: asked) (get_logger name t).2.
Proof.
  set (m := logger_path name). intros [Hmade Hlev Hone] Hord. unfold get_logger. fold m. run_step.
  destruct (has_handlers t m) eqn:Hh; simpl; (split; [done|]).
  - apply has_handlers_true in Hh as (q & Hq & Hqh). split.
    + intros q' Hq'. destruct (Hmade q' Hq'). split; [by right|done].
    + done.
    + intros p [->|Hp]%elem_of_cons; [|by apply Hone]. exists q. split_and!; [done..|]. intros q' Hq' Hqh'.
      destruct (prefix_weak_total q q' m Hq Hq') as [Hpre|Hpre].
      * destruct (Hone q' (proj1 (Hmade q' Hqh'))) as (u & _ & _ & Hu).
        by rewrite (Hu q' (reflexivity q') Hqh'), (Hu q Hpre Hqh).
      * destruct (Hone q (proj1 (Hmade q Hqh))) as (u & _ & _ & Hu).
        by rewrite (Hu q (reflexivity q) Hqh), (Hu q' Hpre Hqh').
  - assert (∀ q, q `prefix_of` m → handlers_at t q = []) as Hno.
    { intros q Hq. destruct (handlers_at t q) as [|x l] eqn:E; [done|].
      assert (has_handlers t m = true) as Ht; [|by rewrite Hh in Ht]. apply has_handlers_true. exists q. by rewrite E. }
    change (handlers_at {| lg_handlers := _; lg_levels := _ |} m) with (handlers_at t m).
    rewrite (Hno m (reflexivity m)). simpl.
    assert (∀ q, default [] (<[m := [line_format]]> (lg_handlers t) !! q) =
      if decide (q = m) then [line_format] else handlers_at t q) as Hat.
    { intros q. case_decide; [subst; by rewrite lookup_insert_eq|by rewrite lookup_insert_ne]. }
    split.
    + intros q. unfold handlers_at; simpl. rewrite Hat. case_decide; [subst; by split; [left|]|].
      intros Hq. destruct (Hmade q Hq). split; [by right|done].
    + intros q. unfold handlers_at; simpl. rewrite Hat. destruct (decide (q = m)) as [->|Hne].
      * by rewrite lookup_insert_eq.
      * rewrite lookup_insert_ne by done. apply Hlev.
    + unfold handlers_at; simpl. intros p [->|Hp]%elem_of_cons.
      * exists m. rewrite Hat, decide_True by done. split_and!; [done..|]. intros q' Hq'. rewrite Hat.
        case_decide; [done|]. by rewrite Hno.
      * destruct (Hone p Hp) as (q & Hq & Hqh & Hu). assert (¬ m `prefix_of` p) as Hm.
        { intros Hm. destruct (Hone m (Hord p Hp Hm)) as (u & Hum & Huh & _). by rewrite (Hno u Hum) in Huh. }
        exists q. rewrite Hat. rewrite decide_False by (by intros ->). split_and!; [done..|].
        intros q' Hq'. rewrite Hat. case_decide; [by subst|]. by apply Hu.
Qed.

Lemma one_handler_written asked t p :
  one_handler asked t → p ∈ asked → written t p 20 = [line_format] ∧ written t p 10 = [].
Proof.
  intros [Hmade Hlev Hone] Hp. destruct (Hone p Hp) as (q & Hq & Hqh & Hu). apply elem_of_chain in Hq.
  assert (reached t p = [line_format]) as Hr.
  { apply (concat_single (handlers_at t) (chain p) q); [apply chain_NoDup|done|by apply Hmade|].
    intros q' Hq'%elem_of_chain. by apply Hu. }
  assert (effective_level t p = 20) as He.
  { unfold effective_level. rewrite omap_concat.
    rewrite (concat_single _ (chain p) q 20); [done|apply chain_NoDup|done|by rewrite Hlev, decide_False|].
    intros q' Hq'%elem_of_chain. rewrite Hlev. case_decide; [done|]. intros _. by apply Hu. }
  unfold written. by rewrite He, Hr.
Qed.

(** No logger is obtained for the first time after one below it. *)
Fixpoint parents_first (asked : list (list string)) (names : list string) : bool :=
  match names with
  | [] => true
  | n :: names' =>
      forallb (λ p, implb (bool_decide (logger_path n `prefix_of` p)) (bool_decide (logger_path n ∈ asked))) asked &&
      parents_first (logger_path n :: asked) names'
  end.

Lemma get_loggers_one names asked t :
  one_handler asked t → parents_first asked names = true →
  ∃ t', get_loggers names t = (Ok tt, t') ∧ one_handler (reverse (map logger_path names) ++ asked) t'.
Proof.
  revert asked t. induction names as [|n names IH]; intros asked t Ht Hord; [by exists t|].
  simpl in Hord. apply andb_true_iff in Hord as [Hn Hord]. rewrite forallb_forall in Hn.
  destruct (get_logger_one asked t n Ht) as [Hr Ht1].
  { intros p Hp%list_elem_of_In Hpre. specialize (Hn p Hp). rewrite bool_decide_true in Hn by done.
    by apply bool_decide_eq_true in Hn. }
  destruct (get_logger n t) as [o t1] eqn:Hg; simpl in *; subst o.
  destruct (IH _ t1 Ht1 Hord) as (t' & Hrun & Ht'). exists t'. split; [unfold bind; by rewrite Hg|].
  by rewrite reverse_cons, <-(assoc_L (++)).
Qed.

(** Loggers obtained parents first write every line of level INFO once, and no
    line of level DEBUG; asking again changes nothing. *)
Theorem loggers_write_once names :
  parents_first [] names = true →
  ∃ t, get_loggers names new_loggers = (Ok tt, t) ∧
    ∀ n, n ∈ names → written t (logger_path n) 20 = [line_format] ∧ written t (logger_path n) 10 = [] ∧
      get_logger n t = (Ok (logger_path n), t).
Proof.
  intros Hord. destruct (get_loggers_one names [] new_loggers) as (t & Hrun & Ht); [|done|].
  { split; [done|done|]. by intros p ?%not_elem_of_nil. }
  exists t. split; [done|]. intros n Hn.
  assert (logger_path n ∈ reverse (map logger_path names) ++ []) as Hin.
  { rewrite app_nil_r. apply elem_of_reverse. by apply (list_elem_of_fmap_2 logger_path). }
  destruct (one_handler_written _ t _ Ht Hin) as [H1 H2]. split_and!; [done..|].
  destruct (oh_one _ _ Ht _ Hin) as (q & Hq & Hqh & _).
  unfold get_logger. run_step. by rewrite (proj2 (has_handlers_true t _) ltac:(by exists q)).
Qed.

(** * Examples *)
Lemma loggers_write_once_witness :
  ∃ t, get_loggers ["runtime"; "runtime.runtime"; "runtime.queue"; "runtime"] new_loggers = (Ok tt, t) ∧
    written t ["runtime"; "queue"] 20 = [line_format].
Proof.
  destruct (loggers_write_once ["runtime"; "runtime.runtime"; "runtime.queue"; "runtime"]) as (t & Hrun & Hw);
    [vm_compute; reflexivity|].
  exists t. split; [exact Hrun|]. apply (Hw "runtime.queue"). by right; right; left.
Defined.
(** The other order: the child's line is written twice. *)
Example child_first :
  let t := (get_loggers ["runtime.queue"; "runtime"] new_loggers).2 in
  written t (logger_path "runtime.queue") 20 = [line_format; line_format].
Proof. vm_compute. reflexivity. Qed.
