(* ===== verification/PyNum.v ===== *)
(** Python numbers and strings as the runtime uses them: [int] (unbounded),
    [float] (IEEE 754 binary64, computed by the standard library's
    [SpecFloat]), the mixed comparisons and arithmetic of the two, and
    [str.strip], [str.lower] on Latin-1 characters. *)
From S2P Require Import Prelude.
From Stdlib Require Export SpecFloat.
From Stdlib Require Import Ascii.
Open Scope Z_scope.

Inductive num : Type :=
  | PInt (z : Z)
  | PFloat (f : spec_float).

(** * Binary64 arithmetic *)
Definition fadd : spec_float → spec_float → spec_float := SFadd 53 1024.
Definition fsub : spec_float → spec_float → spec_float := SFsub 53 1024.
Definition fmul : spec_float → spec_float → spec_float := SFmul 53 1024.
Definition fdiv : spec_float → spec_float → spec_float := SFdiv 53 1024.
(** [round_to_float m e] is the double nearest to [m * 2^e]. *)
Definition round_to_float (m e : Z) : spec_float := binary_normalize 53 1024 m e false.
Definition f_zero : spec_float := S754_zero false.
Definition f_inf : spec_float := S754_infinity false.
(** The double nearest to the decimal fraction [n / d]. *)
Definition f_ratio (n d : Z) : spec_float := fdiv (round_to_float n 0) (round_to_float d 0).

Definition is_nan (f : spec_float) : bool :=
  match f with S754_nan => true | _ => false end.
Definition is_inf (f : spec_float) : bool :=
  match f with S754_infinity _ => true | _ => false end.

(** [float(z)] *)
Definition float_of_int (z : Z) : outcome spec_float :=
  let f := round_to_float z 0 in if is_inf f then Raise OverflowError else Ok f.
(** Integers of 64 bits, signed. *)
Definition in_int64 (z : Z) : bool := (- 2 ^ 63 <=? z) && (z <? 2 ^ 63).
Definition to_float (n : num) : outcome spec_float :=
  match n with PInt z => float_of_int z | PFloat f => Ok f end.

Definition num_neg (n : num) : num :=
  match n with PInt z => PInt (- z) | PFloat f => PFloat (SFopp f) end.

(** An arithmetic operator on two numbers: exact on two ints, binary64 as soon
    as one is a float. *)
Definition num_op (opi : Z → Z → Z) (opf : spec_float → spec_float → spec_float)
    (a b : num) : outcome num :=
  match a, b with
  | PInt x, PInt y => Ok (PInt (opi x y))
  | _, _ =>
      match to_float a, to_float b with
      | Ok x, Ok y => Ok (PFloat (opf x y))
      | Raise e, _ => Raise e
      | _, Raise e => Raise e
      end
  end.
Definition num_add : num → num → outcome num := num_op Z.add fadd.
Definition num_mul : num → num → outcome num := num_op Z.mul fmul.

#[global] Arguments num_op : simpl never.
#[global] Arguments num_add : simpl never.
#[global] Arguments num_mul : simpl never.

(** * Exact comparison of ints and floats *)

(** The value of a number that is not NaN: [XFin m e] is [m * 2^e]. *)
Inductive xval : Type :=
  | XNegInf
  | XFin (m e : Z)
  | XPosInf.

Definition num_val (n : num) : option xval :=
  match n with
  | PInt z => Some (XFin z 0)
  | PFloat (S754_zero _) => Some (XFin 0 0)
  | PFloat (S754_infinity s) => Some (if s then XNegInf else XPosInf)
  | PFloat (S754_finite s m e) => Some (XFin (if s then Zneg m else Zpos m) e)
  | PFloat S754_nan => None
  end.

Definition xcmp (a b : xval) : comparison :=
  match a, b with
  | XNegInf, XNegInf | XPosInf, XPosInf => Eq
  | XNegInf, _ | _, XPosInf => Lt
  | _, XNegInf | XPosInf, _ => Gt
  | XFin m1 e1, XFin m2 e2 =>
      let k := Z.min e1 e2 in (Z.shiftl m1 (e1 - k)) ?= (Z.shiftl m2 (e2 - k))
  end.

(** [None] when a NaN is involved: every comparison but [!=] is then false. *)
Definition num_cmp (a b : num) : option comparison :=
  match num_val a, num_val b with
  | Some x, Some y => Some (xcmp x y)
  | _, _ => None
  end.
Definition num_lt (a b : num) : bool :=
  match num_cmp a b with Some Lt => true | _ => false end.
Definition num_le (a b : num) : bool :=
  match num_cmp a b with Some Lt | Some Eq => true | _ => false end.
Definition num_eq (a b : num) : bool :=
  match num_cmp a b with Some Eq => true | _ => false end.
(** [max(a, b)] and [min(a, b)] keep the first argument on ties. *)
Definition num_max (a b : num) : num := if num_lt a b then b else a.
Definition num_min (a b : num) : num := if num_lt b a then b else a.
Definition num_truthy (n : num) : bool := negb (num_eq n (PInt 0)).

Lemma num_cmp_int a b : num_cmp (PInt a) (PInt b) = Some (a ?= b)%Z.
Proof. unfold num_cmp; simpl. by rewrite !Z.shiftl_0_r. Qed.
Lemma num_le_int a b : num_le (PInt a) (PInt b) = bool_decide (a ≤ b)%Z.
Proof.
  unfold num_le. rewrite num_cmp_int. destruct (Z.compare_spec a b); case_bool_decide; (done || lia).
Qed.
Lemma num_lt_int a b : num_lt (PInt a) (PInt b) = bool_decide (a < b)%Z.
Proof.
  unfold num_lt. rewrite num_cmp_int. destruct (Z.compare_spec a b); case_bool_decide; (done || lia).
Qed.

Definition not_nan (n : num) : Prop := is_Some (num_val n).

(** ** The order of the values *)

(** A value placed on a common scale [2^k]. *)
Definition xrank (k : Z) (v : xval) : Z * Z :=
  match v with
  | XNegInf => (-1, 0)
  | XFin m e => (0, m * 2 ^ (e - k))
  | XPosInf => (1, 0)
  end.
Definition xexp (v : xval) : Z := match v with XFin _ e => e | _ => 0 end.
Definition lex_cmp (a b : Z * Z) : comparison :=
  match a.1 ?= b.1 with Eq => a.2 ?= b.2 | c => c end.

Lemma xcmp_rank k a b : k ≤ xexp a → k ≤ xexp b → xcmp a b = lex_cmp (xrank k a) (xrank k b).
Proof.
  destruct a as [|m1 e1|], b as [|m2 e2|]; try done.
  unfold xcmp, lex_cmp; simpl. intros H1 H2.
  set (l := Z.min e1 e2). rewrite !Z.shiftl_mul_pow2 by (unfold l; lia).
  replace (e1 - k) with ((e1 - l) + (l - k)) by lia.
  replace (e2 - k) with ((e2 - l) + (l - k)) by lia.
  rewrite !Z.pow_add_r, !Z.mul_assoc by (unfold l; lia).
  assert (0 < 2 ^ (l - k)) by (apply Z.pow_pos_nonneg; unfold l; lia).
  apply Zmult_compare_compat_r. lia.
Qed.

Lemma lex_cmp_antisym a b : lex_cmp b a = CompOpp (lex_cmp a b).
Proof.
  unfold lex_cmp. rewrite (Z.compare_antisym a.1 b.1), (Z.compare_antisym a.2 b.2).
  by destruct (a.1 ?= b.1).
Qed.

Lemma lex_cmp_le_trans a b c : lex_cmp b a ≠ Lt → lex_cmp c b ≠ Lt → lex_cmp c a ≠ Lt.
Proof.
  unfold lex_cmp.
  destruct (Z.compare_spec b.1 a.1), (Z.compare_spec c.1 b.1), (Z.compare_spec c.1 a.1);
    try done; try lia;
  destruct (Z.compare_spec b.2 a.2), (Z.compare_spec c.2 b.2), (Z.compare_spec c.2 a.2);
    try done; lia.
Qed.

Lemma lex_cmp_eq a b : lex_cmp a b = Eq ↔ a = b.
Proof.
  unfold lex_cmp. destruct a as [a1 a2], b as [b1 b2]; simpl.
  destruct (Z.compare_spec a1 b1), (Z.compare_spec a2 b2); split; intros; simplify_eq; try done; lia.
Qed.

Lemma xcmp_antisym a b : xcmp b a = CompOpp (xcmp a b).
Proof.
  rewrite !(xcmp_rank (Z.min (xexp a) (xexp b))) by lia. apply lex_cmp_antisym.
Qed.
Lemma xcmp_le_trans a b c : xcmp b a ≠ Lt → xcmp c b ≠ Lt → xcmp c a ≠ Lt.
Proof.
  rewrite !(xcmp_rank (Z.min (xexp a) (Z.min (xexp b) (xexp c)))) by lia.
  apply lex_cmp_le_trans.
Qed.
Lemma xcmp_eq_l a b c : xcmp a b = Eq → xcmp a c = xcmp b c.
Proof.
  rewrite !(xcmp_rank (Z.min (xexp a) (Z.min (xexp b) (xexp c)))) by lia.
  by intros ->%lex_cmp_eq.
Qed.
Lemma xcmp_eq_r a b c : xcmp a b = Eq → xcmp c a = xcmp c b.
Proof. intros. rewrite (xcmp_antisym a c), (xcmp_antisym b c). f_equal. by apply xcmp_eq_l. Qed.
Lemma xcmp_refl a : xcmp a a = Eq.
Proof. rewrite (xcmp_rank (xexp a)) by lia. by apply lex_cmp_eq. Qed.

(** * Lexicographic comparison of heap items

    [(a, n, s) < (a', n', s')] for a number, an int and a string, as Python
    compares tuples: at the first component that differs. *)
Definition entry : Type := num * Z * string.

Definition entry_lt (x y : entry) : bool :=
  let '(a, n, s) := x in
  let '(a', n', s') := y in
  if num_eq a a' then
    if n =? n' then negb (String.leb s' s) else n <? n'
  else num_lt a a'.

Definition entry_ok (x : entry) : Prop := not_nan x.1.1.

Lemma num_cmp_ok a b : not_nan a → not_nan b → ∃ x y,
  num_val a = Some x ∧ num_val b = Some y ∧ num_cmp a b = Some (xcmp x y).
Proof. intros [x Hx] [y Hy]. exists x, y. unfold num_cmp. by rewrite Hx, Hy. Qed.

(** [entry_lt] on items without NaN, through the values of the keys. *)
Lemma entry_lt_val a n s a' n' s' x y :
  num_val a = Some x → num_val a' = Some y →
  entry_lt (a, n, s) (a', n', s') =
    match xcmp x y with
    | Lt => true
    | Gt => false
    | Eq => match n ?= n' with
            | Lt => true
            | Gt => false
            | Eq => negb (String.leb s' s)
            end
    end.
Proof.
  intros Hx Hy. unfold entry_lt, num_eq, num_lt, num_cmp. rewrite Hx, Hy.
  destruct (xcmp x y); [|done..].
  destruct (Z.compare_spec n n'); subst.
  - by rewrite Z.eqb_refl.
  - rewrite (proj2 (Z.eqb_neq n n')) by lia. by apply Z.ltb_lt.
  - rewrite (proj2 (Z.eqb_neq n n')) by lia. apply Z.ltb_ge. lia.
Qed.

Lemma leb_le s t : String.leb s t = true ↔ String.le s t.
Proof. unfold String.le. by destruct (String.leb s t). Qed.
Lemma leb_not_le s t : String.leb s t = false ↔ ¬ String.le s t.
Proof. unfold String.le. destruct (String.leb s t); naive_solver. Qed.

Lemma entry_lt_asym x y :
  entry_ok x → entry_ok y → entry_lt x y = true → entry_lt y x = false.
Proof.
  destruct x as [[a n] s], y as [[a' n'] s']. intros [u Hu] [v Hv]; cbn [fst] in Hu, Hv.
  rewrite (entry_lt_val _ _ _ _ _ _ u v), (entry_lt_val _ _ _ _ _ _ v u) by done.
  rewrite (xcmp_antisym u v), (Z.compare_antisym n n').
  destruct (xcmp u v), (n ?= n'); simpl; try done.
  rewrite !negb_true_iff, negb_false_iff, leb_not_le, leb_le.
  destruct (total String.le s s'); tauto.
Qed.

Lemma entry_le_trans x y z :
  entry_ok x → entry_ok y → entry_ok z →
  entry_lt y x = false → entry_lt z y = false → entry_lt z x = false.
Proof.
  destruct x as [[a n] s], y as [[a' n'] s'], z as [[a'' n''] s''].
  intros [u Hu] [v Hv] [w Hw]; cbn [fst] in Hu, Hv, Hw.
  rewrite (entry_lt_val _ _ _ _ _ _ v u), (entry_lt_val _ _ _ _ _ _ w v),
    (entry_lt_val _ _ _ _ _ _ w u) by done.
  intros H1 H2. pose proof (xcmp_le_trans u v w) as Htr.
  destruct (xcmp v u) eqn:E1; [|done|].
  - rewrite <-(xcmp_eq_r v u w) by done.
    destruct (xcmp w v) eqn:E2; [|done|done].
    destruct (Z.compare_spec n' n), (Z.compare_spec n'' n'), (Z.compare_spec n'' n);
      try done; try lia; subst.
    rewrite negb_false_iff in *. rewrite leb_le in *. by etrans.
  - destruct (xcmp w v) eqn:E2; [|done|].
    + by rewrite (xcmp_eq_l w v u), E1.
    + specialize (Htr ltac:(done) ltac:(done)).
      destruct (xcmp w u) eqn:E3; [|done|done]. exfalso.
      pose proof (xcmp_eq_l w u v E3) as E4. rewrite E2 in E4.
      rewrite (xcmp_antisym v u), E1 in E4. done.
Qed.

(** * Strings (Latin-1) *)

(** [str.isspace] of one character *)
Definition is_space (c : ascii) : bool :=
  let n := Z.of_N (N_of_ascii c) in
  ((9 <=? n) && (n <=? 13)) || ((28 <=? n) && (n <=? 32)) || (n =? 133) || (n =? 160).

(** [s.strip() != ""]: [strip] removes the spaces at both ends, so its result
    is empty exactly when every character is a space. *)
Fixpoint lstrip (s : string) : string :=
  match s with
  | EmptyString => EmptyString
  | String c s' => if is_space c then lstrip s' else s
  end.
Fixpoint rstrip (s : string) : string :=
  match s with
  | EmptyString => EmptyString
  | String c s' =>
      match rstrip s' with
      | EmptyString => if is_space c then EmptyString else String c EmptyString
      | r => String c r
      end
  end.
Definition strip (s : string) : string := rstrip (lstrip s).
Definition str_truthy (s : string) : bool := negb (String.eqb s "").

Definition lower_char (c : ascii) : ascii :=
  let n := Z.of_N (N_of_ascii c) in
  if ((65 <=? n) && (n <=? 90)) || ((192 <=? n) && (n <=? 222) && negb (n =? 215))
  then ascii_of_N (Z.to_N (n + 32)) else c.
(** [str.lower()] *)
Fixpoint lower (s : string) : string :=
  match s with
  | EmptyString => EmptyString
  | String c s' => String (lower_char c) (lower s')
  end.

Lemma rstrip_nonspace c s : is_space c = false → rstrip (String c s) ≠ EmptyString.
Proof. simpl. intros ->. by destruct (rstrip s). Qed.

Lemma strip_nonempty s c : is_space c = false →
  (∃ a b, s = a +:+ String c b) → str_truthy (strip s) = true.
Proof.
  intros Hc (a & b & ->). unfold strip, str_truthy.
  apply negb_true_iff, String.eqb_neq.
  induction a as [|x a IH].
  - replace (lstrip _) with (String c b) by (simpl; by rewrite Hc). by apply rstrip_nonspace.
  - change (lstrip (String x a +:+ String c b))
      with (if is_space x then lstrip (a +:+ String c b) else String x (a +:+ String c b)).
    destruct (is_space x) eqn:Hx; [done|]. by apply rstrip_nonspace.
Qed.

(** [s or ...] of an optional string *)
Definition opt_truthy (o : option string) : option string :=
  match o with Some s => if str_truthy s then Some s else None | None => None end.

(** [sorted(l)] of strings *)
Definition str_le (a b : string) : Prop := String.leb a b = true.
#[export] Instance str_le_dec a b : Decision (str_le a b) := decide (String.leb a b = true).
#[export] Instance str_le_total : Total str_le.
Proof. intros a b. unfold str_le. destruct (String.leb_total a b); auto. Qed.
#[export] Instance str_le_trans : Transitive str_le.
Proof. intros a b c. unfold str_le. rewrite !leb_le. apply transitivity. Qed.
Definition sorted_strings (l : list string) : list string := merge_sort str_le l.

Lemma sorted_strings_last l : l ≠ [] →
  ∃ s, last (sorted_strings l) = Some s ∧ s ∈ l ∧ ∀ s', s' ∈ l → str_le s' s.
Proof.
  intros Hl. pose proof (merge_sort_Permutation str_le l) as Hp.
  pose proof (StronglySorted_merge_sort str_le l) as Hs. fold (sorted_strings l) in Hp, Hs.
  destruct (sorted_strings l) as [|x k] using rev_ind.
  { apply Permutation_nil_l in Hp. done. }
  exists x. rewrite last_snoc. split_and!; [done|rewrite <-Hp; set_solver|].
  intros y. rewrite <-Hp, elem_of_app, list_elem_of_singleton. intros [Hy| ->].
  - eapply StronglySorted_app_1_elem_of; [exact Hs|done|set_solver].
  - by destruct (total str_le x x).
Qed.

(** [p in s] of strings *)
Fixpoint str_prefix (p s : string) : bool :=
  match p, s with
  | EmptyString, _ => true
  | String a p', String b s' => Ascii.eqb a b && str_prefix p' s'
  | _, EmptyString => false
  end.
Fixpoint str_contains (p s : string) : bool :=
  str_prefix p s || match s with EmptyString => false | String _ s' => str_contains p s' end.
