(* ===== verification/Heapq.v ===== *)
(** The standard library's [heapq] on a Python list, as the scheduling
    policies and the delayed-task tracker use it: the array algorithm of
    CPython ([_siftdown], [_siftup], [heappush], [heappop]) over an arbitrary
    boolean [<], and its contract: the heap shape, the multiset of the items,
    and the minimality of what is popped. *)
From S2P Require Import Prelude.
From stdpp Require Import sorting.

(** [(pos - 1) >> 1] *)
Definition parent (i : nat) : nat := (i - 1) `div` 2.

Section heapq.
Context {A : Type} (lt : A → A → bool).
Implicit Types (h : list A) (x : A).

(** [_siftdown(heap, 0, pos)], the item in hand being [x]: parents larger
    than [x] move down into the hole. *)
Fixpoint siftdown (fuel : nat) (h : list A) (pos : nat) (x : A) : list A :=
  match fuel with
  | O => <[pos := x]> h
  | S fuel' =>
      if decide (0 < pos) then
        let parentpos := parent pos in
        match h !! parentpos with
        | Some parent =>
            if lt x parent
            then siftdown fuel' (<[pos := parent]> h) parentpos x
            else <[pos := x]> h
        | None => h
        end
      else <[pos := x]> h
  end.

(** The first loop of [_siftup]: the hole at [pos] moves to a leaf along the
    smaller children.  Returns the array and the final hole. *)
Fixpoint sift_hole (fuel : nat) (h : list A) (pos : nat) : list A * nat :=
  match fuel with
  | O => (h, pos)
  | S fuel' =>
      let childpos := 2 * pos + 1 in
      match h !! childpos with
      | None => (h, pos)
      | Some c =>
          let best :=
            match h !! (childpos + 1) with
            | Some r => if lt c r then (childpos, c) else (childpos + 1, r)
            | None => (childpos, c)
            end in
          sift_hole fuel' (<[pos := best.2]> h) best.1
      end
  end.

(** [_siftup(heap, 0)] with the item [x] written at the root first *)
Definition siftup (h : list A) (x : A) : list A :=
  let '(h', pos) := sift_hole (length h) h 0 in
  siftdown (length h) (<[pos := x]> h') pos x.

Definition heappush (h : list A) (x : A) : list A :=
  let h' := h ++ [x] in
  siftdown (length h') h' (length h) x.

(** [None] is the [IndexError] of an empty heap. *)
Definition heappop (h : list A) : option (A * list A) :=
  match last h with
  | None => None
  | Some lastelt =>
      let h' := take (length h - 1) h in
      match h' with
      | [] => Some (lastelt, [])
      | returnitem :: _ => Some (returnitem, siftup (<[0 := lastelt]> h') lastelt)
      end
  end.

(** The array is a heap: no item is smaller than its parent. *)
Definition is_heap (h : list A) : Prop :=
  ∀ i x p, 0 < i → h !! i = Some x → h !! parent i = Some p → lt x p = false.
End heapq.

(** * Index arithmetic and the exchange of two cells *)
Lemma parent_lt i : 0 < i → parent i < i.
Proof. unfold parent. intros. apply Nat.Div0.div_lt_upper_bound; lia. Qed.

Lemma parent_child i pos : parent i = pos → 0 < i → i = 2 * pos + 1 ∨ i = 2 * pos + 2.
Proof.
  unfold parent. intros <- ?. pose proof (Nat.div_mod_eq (i - 1) 2).
  pose proof (Nat.mod_upper_bound (i - 1) 2). lia.
Qed.

Lemma parent_left pos : parent (2 * pos + 1) = pos.
Proof. unfold parent. replace (2 * pos + 1 - 1) with (pos * 2) by lia. by rewrite Nat.div_mul. Qed.

Lemma parent_right pos : parent (2 * pos + 1 + 1) = pos.
Proof.
  unfold parent. replace (2 * pos + 1 + 1 - 1) with (1 + pos * 2) by lia.
  rewrite Nat.div_add by done. done.
Qed.

Lemma delete_insert_same {A} (h : list A) i x : delete i (<[i:=x]> h) = delete i h.
Proof. revert i. induction h as [|y h IH]; intros [|i]; simpl; [done..|]. by rewrite IH. Qed.

Lemma insert_exchange {A} (h : list A) i j x p :
  i ≠ j → i < length h → h !! j = Some p →
  <[j := x]> (<[i := p]> h) ≡ₚ <[i := x]> h.
Proof.
  intros Hne Hi Hj. set (m := <[i := p]> h).
  assert (Hmj : m !! j = Some p) by (unfold m; by rewrite list_lookup_insert_ne).
  assert (Hmi : m !! i = Some p) by (unfold m; by rewrite list_lookup_insert_eq).
  assert (Hdel : delete j m ≡ₚ delete i h).
  { apply (Permutation_cons_inv (a:=p)).
    rewrite <-(delete_Permutation m j p Hmj), (delete_Permutation m i p Hmi).
    unfold m. by rewrite delete_insert_same. }
  rewrite (delete_Permutation (<[j := x]> m) j x), (delete_Permutation (<[i := x]> h) i x).
  - by rewrite !delete_insert_same, Hdel.
  - by rewrite list_lookup_insert_eq.
  - rewrite list_lookup_insert_eq; [done|]. by apply lookup_lt_is_Some; exists p.
Qed.

(** * The contract *)
Section contract.
Context {A : Type} (lt : A → A → bool) (ok : A → Prop).
(** On the items that are [ok], "not greater than" is a total preorder. *)
Hypothesis lt_asym : ∀ a b, ok a → ok b → lt a b = true → lt b a = false.
Hypothesis le_trans : ∀ a b c, ok a → ok b → ok c →
  lt b a = false → lt c b = false → lt c a = false.
Implicit Types (h : list A) (x : A).

Lemma siftdown_perm fuel h pos x :
  pos < length h → siftdown lt fuel h pos x ≡ₚ <[pos := x]> h.
Proof.
  revert h pos. induction fuel as [|fuel IH]; intros h pos Hpos; simpl; [done|].
  case_decide as H0; [|done].
  pose proof (parent_lt pos H0).
  destruct (lookup_lt_is_Some_2 h (parent pos)) as [p Hp]; [lia|].
  rewrite Hp. destruct (lt x p); [|done].
  rewrite IH by (rewrite length_insert; lia).
  apply insert_exchange; [lia|done|done].
Qed.

Lemma length_siftdown fuel h pos x :
  pos < length h → length (siftdown lt fuel h pos x) = length h.
Proof. intros. by rewrite siftdown_perm, length_insert. Qed.

(** Every edge of the tree is in order but those at the hole. *)
Definition edge_ok (h : list A) (i : nat) : Prop :=
  ∀ x p, h !! i = Some x → h !! parent i = Some p → lt x p = false.

Lemma siftdown_heap fuel h pos x :
  pos ≤ fuel → pos < length h → Forall ok (<[pos := x]> h) →
  (∀ i, 0 < i → i ≠ pos → edge_ok (<[pos := x]> h) i) →
  (∀ i y p, 0 < pos → 0 < i → parent i = pos → h !! i = Some y →
     h !! parent pos = Some p → lt y p = false) →
  is_heap lt (siftdown lt fuel h pos x).
Proof.
  revert h pos. induction fuel as [|fuel IH]; intros h pos Hfuel Hpos Hok H1 H2; simpl.
  { intros i y p ?. apply H1; lia. }
  case_decide as H0; [|intros i y p ?; apply H1; lia].
  pose proof (parent_lt pos H0) as Hlt.
  destruct (lookup_lt_is_Some_2 h (parent pos)) as [p Hp]; [lia|]. rewrite Hp.
  assert (Hg : <[pos := x]> h !! parent pos = Some p) by (rewrite list_lookup_insert_ne; [done|lia]).
  assert (Hx : <[pos := x]> h !! pos = Some x) by (by rewrite list_lookup_insert_eq).
  assert (ok x ∧ ok p) as [Hokx Hokp] by (rewrite Forall_lookup in Hok; eauto).
  destruct (lt x p) eqn:Hxp.
  2: { intros i y q Hi. destruct (decide (i = pos)) as [->|]; [congruence|by apply H1]. }
  assert (Hother : ∀ i, i ≠ pos → i ≠ parent pos →
    <[parent pos := x]> (<[pos := p]> h) !! i = <[pos := x]> h !! i).
  { intros i ??. by rewrite !list_lookup_insert_ne by done. }
  assert (Hatp : <[parent pos := x]> (<[pos := p]> h) !! pos = Some p).
  { rewrite list_lookup_insert_ne by lia. by rewrite list_lookup_insert_eq. }
  assert (Hatpp : <[parent pos := x]> (<[pos := p]> h) !! parent pos = Some x).
  { rewrite list_lookup_insert_eq; [done|]. rewrite length_insert; lia. }
  apply IH; [lia|rewrite length_insert; lia| | |].
  - rewrite insert_exchange; [done|lia|done|done].
  - intros i Hi Hne y q Hy Hq. destruct (decide (i = pos)) as [->|Hip].
    { assert (y = p) as -> by congruence. assert (q = x) as -> by congruence. auto. }
    rewrite Hother in Hy by done. destruct (decide (parent i = pos)) as [Hc|Hc].
    { assert (q = p) as -> by congruence. apply (H2 i); [done..| |done].
      by rewrite list_lookup_insert_ne in Hy by done. }
    destruct (decide (parent i = parent pos)) as [Hs|Hs].
    { assert (q = x) as -> by congruence. rewrite Hs in *.
      apply (le_trans x p y); [done|done| |by apply lt_asym|].
      - rewrite Forall_lookup in Hok; eauto.
      - eapply (H1 i); [done|done|done|by rewrite Hs]. }
    rewrite Hother in Hq by done. eapply H1; eauto.
  - intros i y q Hpp Hi Hpar Hy Hq.
    pose proof (parent_lt (parent pos) Hpp).
    rewrite list_lookup_insert_ne in Hq by lia.
    assert (Hpq : lt p q = false).
    { apply (H1 (parent pos)); [done|lia|done|]. rewrite list_lookup_insert_ne by lia. done. }
    destruct (decide (i = pos)) as [->|Hip].
    { rewrite list_lookup_insert_eq in Hy by done. congruence. }
    rewrite list_lookup_insert_ne in Hy by done.
    assert (Hy' : <[pos := x]> h !! i = Some y) by (by rewrite list_lookup_insert_ne).
    apply (le_trans q p y); [|done| |done|].
    + rewrite Forall_lookup in Hok. apply (Hok (parent (parent pos))).
      rewrite list_lookup_insert_ne by lia. done.
    + rewrite Forall_lookup in Hok; eauto.
    + eapply (H1 i); [done|done|done|by rewrite Hpar].
Qed.

(** Edges in order away from the hole, and across it. *)
Definition hole_ok (h : list A) (pos : nat) : Prop :=
  (∀ i, 0 < i → i ≠ pos → parent i ≠ pos → edge_ok h i) ∧
  (∀ i y p, 0 < pos → 0 < i → parent i = pos → h !! i = Some y →
     h !! parent pos = Some p → lt y p = false).

(** The smaller child that moves up into the hole. *)
Lemma sift_hole_step h pos c best :
  hole_ok h pos → pos < length h → Forall ok h →
  h !! (2 * pos + 1) = Some c →
  best = match h !! (2 * pos + 1 + 1) with
         | Some r => if lt c r then (2 * pos + 1, c) else (2 * pos + 1 + 1, r)
         | None => (2 * pos + 1, c)
         end →
  h !! best.1 = Some best.2 ∧ parent best.1 = pos ∧ pos < best.1 ∧
  hole_ok (<[pos := best.2]> h) best.1.
Proof.
  intros [Ha Hb] Hpos Hok Hc Hbest.
  assert (h !! best.1 = Some best.2 ∧ parent best.1 = pos ∧ pos < best.1 ∧
    ∀ i y, 0 < i → parent i = pos → i ≠ best.1 → h !! i = Some y → lt y best.2 = false)
    as (Hbl & Hbp & Hlt & Hmin).
  { destruct (h !! (2 * pos + 1 + 1)) as [r|] eqn:Hr;
      [destruct (lt c r) eqn:Hcr|]; subst best; cbn [fst snd] in *.
    - split_and!; [done|apply parent_left|lia|].
      intros i y Hi [->| ->]%parent_child Hne Hy; [lia| |done].
      replace (2 * pos + 2) with (2 * pos + 1 + 1) in Hy by lia. simplify_eq.
      apply lt_asym; rewrite ?Forall_lookup in Hok; eauto.
    - split_and!; [done|apply parent_right|lia|].
      intros i y Hi [->| ->]%parent_child Hne Hy; [congruence|lia|done].
    - split_and!; [done|apply parent_left|lia|].
      intros i y Hi [->| ->]%parent_child Hne Hy; [lia| |done].
      replace (2 * pos + 2) with (2 * pos + 1 + 1) in Hy by lia. congruence. }
  clear Hbest. split; [done|]. split; [done|]. split; [done|]. split.
  - intros i Hi Hne Hpne y p Hy Hp. destruct (decide (i = pos)) as [->|].
    + rewrite list_lookup_insert_eq in Hy by done. injection Hy as <-.
      pose proof (parent_lt pos Hi). rewrite list_lookup_insert_ne in Hp by lia.
      eapply (Hb best.1); [done|lia|done|done|done].
    + rewrite list_lookup_insert_ne in Hy by done. destruct (decide (parent i = pos)) as [E|].
      * rewrite E, list_lookup_insert_eq in Hp by done. injection Hp as <-. eauto.
      * rewrite list_lookup_insert_ne in Hp by done. by eapply (Ha i).
  - intros i y p _ Hi Hpar Hy Hp.
    pose proof (parent_lt i Hi).
    rewrite Hbp, list_lookup_insert_eq in Hp by done. injection Hp as <-.
    rewrite list_lookup_insert_ne in Hy by lia.
    eapply (Ha i); [done|lia|lia|done|by rewrite Hpar].
Qed.

Lemma sift_hole_spec fuel h pos :
  length h - pos ≤ fuel → pos < length h → hole_ok h pos → Forall ok h →
  let '(h', pos') := sift_hole lt fuel h pos in
  length h' = length h ∧ pos' < length h' ∧ Forall ok h' ∧ hole_ok h' pos' ∧
  h' !! (2 * pos' + 1) = None ∧
  ∀ x, <[pos' := x]> h' ≡ₚ <[pos := x]> h.
Proof.
  revert h pos. induction fuel as [|fuel IH]; intros h pos Hfuel Hpos Hole Hok; [lia|].
  cbn [sift_hole]. destruct (h !! (2 * pos + 1)) as [c|] eqn:Hc.
  2: { split_and!; done. }
  match goal with |- context [sift_hole lt fuel (<[pos := ?b.2]> h) _] => set (best := b) end.
  destruct (sift_hole_step h pos c best Hole Hpos Hok Hc eq_refl) as (Hbl & Hbp & Hlt & Hole').
  pose proof (lookup_lt_Some _ _ _ Hbl).
  assert (Hokb : ok best.2) by (rewrite Forall_lookup in Hok; eauto).
  specialize (IH (<[pos := best.2]> h) best.1). rewrite length_insert in IH.
  destruct (sift_hole lt fuel _ _) as [h' pos'].
  destruct IH as (Hlen & Hp' & Hok' & Hho & Hleaf & Hperm); [lia|done|done|by apply Forall_insert|].
  split_and!; [done..|]. intros x. rewrite Hperm. apply insert_exchange; [lia|done|done].
Qed.

Lemma siftup_spec h x top :
  is_heap lt (top :: h) → Forall ok (x :: h) →
  is_heap lt (siftup lt (x :: h) x) ∧ siftup lt (x :: h) x ≡ₚ x :: h.
Proof.
  intros Hh Hok. unfold siftup.
  assert (Hole : hole_ok (x :: h) 0).
  { split; [|intros; lia]. intros [|i] Hi Hne Hpne y p Hy Hp; [lia|].
    apply (Hh (S i) y p); [done|done|]. by destruct (parent (S i)). }
  pose proof (sift_hole_spec (length (x :: h)) (x :: h) 0 ltac:(simpl; lia) ltac:(simpl; lia) Hole Hok) as Hsp.
  destruct (sift_hole lt _ _ _) as [h' pos'].
  destruct Hsp as (Hlen & Hp' & Hok' & [Ha Hb] & Hleaf & Hperm).
  assert (Hok'' : Forall ok (<[pos' := x]> h')).
  { apply Forall_insert; [done|]. by apply Forall_cons in Hok as [? ?]. }
  assert (Hnochild : ∀ i, 0 < i → parent i = pos' → h' !! i = None).
  { intros i Hi [->| ->]%parent_child; [done| |done].
    apply lookup_ge_None_2. apply lookup_ge_None_1 in Hleaf. lia. }
  assert (Hlp : pos' < length (<[pos' := x]> h')) by (by rewrite length_insert).
  split.
  - apply siftdown_heap; rewrite ?list_insert_insert_eq; [simpl in *; lia|done|done| |].
    + intros i Hi Hne y p Hy Hp. rewrite list_lookup_insert_ne in Hy by done.
      destruct (decide (parent i = pos')) as [E|]; [by rewrite Hnochild in Hy|].
      rewrite list_lookup_insert_ne in Hp by done. by eapply (Ha i).
    + intros i y p Hp0 Hi Hpar Hy. pose proof (parent_lt i Hi).
      rewrite list_lookup_insert_ne, Hnochild in Hy by (done || lia). done.
  - rewrite siftdown_perm, list_insert_insert_eq, Hperm by done. done.
Qed.

Lemma heappush_perm h x : heappush lt h x ≡ₚ x :: h.
Proof.
  unfold heappush. rewrite siftdown_perm by (rewrite length_app; simpl; lia).
  rewrite list_insert_id by (by rewrite lookup_app_r, Nat.sub_diag by lia).
  by rewrite Permutation_app_comm.
Qed.

Lemma heappush_heap h x :
  is_heap lt h → Forall ok (x :: h) → is_heap lt (heappush lt h x).
Proof.
  intros Hh Hok. apply Forall_cons in Hok as [Hx Hok]. unfold heappush.
  assert (Hlook : (h ++ [x]) !! length h = Some x) by (by rewrite lookup_app_r, Nat.sub_diag by lia).
  apply siftdown_heap; rewrite ?list_insert_id by done.
  - rewrite length_app; simpl; lia.
  - rewrite length_app; simpl; lia.
  - apply Forall_app; auto.
  - intros i Hi Hne y p Hy Hp. pose proof (lookup_lt_Some _ _ _ Hy) as Hl.
    rewrite length_app in Hl; simpl in Hl. pose proof (parent_lt i Hi).
    rewrite lookup_app_l in Hy, Hp by lia. by eapply Hh.
  - intros i y p H0 Hi [Hc|Hc]%parent_child Hy _; [| |done];
      apply lookup_lt_Some in Hy; rewrite length_app in Hy; simpl in Hy; lia.
Qed.

Lemma heap_head_min h top :
  is_heap lt h → Forall ok h → h !! 0 = Some top →
  ∀ x, x ∈ h → lt x top = false.
Proof.
  intros Hh Hok H0 x [i Hi]%list_elem_of_lookup. rewrite Forall_lookup in Hok.
  revert x Hi. induction i as [i IH] using lt_wf_ind; intros x Hi.
  destruct (decide (0 < i)) as [Hpos|].
  - pose proof (parent_lt i Hpos).
    destruct (lookup_lt_is_Some_2 h (parent i)) as [p Hp]; [apply lookup_lt_Some in Hi; lia|].
    apply (le_trans top p x); eauto.
  - assert (i = 0) as -> by lia. simplify_eq.
    destruct (lt top top) eqn:E; [|done]. rewrite <-E at 1. by apply lt_asym; eauto.
Qed.

Lemma heappop_None h : heappop lt h = None ↔ h = [].
Proof.
  unfold heappop. destruct (last h) eqn:E.
  - split; [by repeat case_match|]. intros ->. done.
  - apply last_None in E. done.
Qed.

(** [heappop] returns a least item and leaves a heap of the others. *)
Lemma heappop_spec h x h' :
  is_heap lt h → Forall ok h → heappop lt h = Some (x, h') →
  h ≡ₚ x :: h' ∧ is_heap lt h' ∧ h !! 0 = Some x.
Proof.
  intros Hh Hok. unfold heappop. destruct (last h) as [y|] eqn:Hlast; [|done].
  apply last_Some in Hlast as [l ->].
  rewrite length_app; simpl. rewrite Nat.add_sub, take_app_length.
  destruct l as [|top l]; simpl; intros ?; simplify_eq.
  - split_and!; [done| |done]. intros i ? p. by rewrite lookup_nil.
  - assert (Hpre : is_heap lt (x :: l)).
    { intros i y' p Hi Hy Hp. apply (Hh i y' p Hi); by apply lookup_app_l_Some. }
    assert (Hok' : Forall ok (y :: l)).
    { apply Forall_app in Hok as [[? ?]%Forall_cons [? _]%Forall_cons]. by constructor. }
    destruct (siftup_spec l y x Hpre Hok') as [Hheap Hperm].
    split_and!; [|done|done]. rewrite Hperm. simpl. f_equiv. by rewrite Permutation_app_comm.
Qed.
End contract.

(** Whatever the order, [heappop] removes one item and keeps the others. *)
Section multiset.
Context {A : Type} (lt : A → A → bool).

Lemma sift_hole_perm fuel (h : list A) pos :
  pos < length h →
  let '(h', pos') := sift_hole lt fuel h pos in
  length h' = length h ∧ pos' < length h' ∧ ∀ x, <[pos' := x]> h' ≡ₚ <[pos := x]> h.
Proof.
  revert h pos. induction fuel as [|fuel IH]; intros h pos Hpos; [done|].
  cbn [sift_hole]. destruct (h !! (2 * pos + 1)) as [c|] eqn:Hc; [|done].
  match goal with |- context [sift_hole lt fuel (<[pos := ?b.2]> h) _] => set (best := b) end.
  assert (Hb : h !! best.1 = Some best.2 ∧ pos < best.1).
  { subst best. destruct (h !! (2 * pos + 1 + 1)) as [r|] eqn:Hr; simpl; [|split; [done|lia]].
    destruct (lt c r); simpl; (split; [done|lia]). }
  destruct Hb as [Hb Hlt]. specialize (IH (<[pos := best.2]> h) best.1).
  rewrite length_insert in IH. destruct (sift_hole lt fuel _ _) as [h' pos'].
  destruct IH as (Hlen & Hp & Hperm); [by eapply lookup_lt_Some|].
  split_and!; [done..|]. intros x. rewrite Hperm. apply insert_exchange; [lia|done|done].
Qed.

Lemma heappop_perm (h : list A) x h' : heappop lt h = Some (x, h') → h ≡ₚ x :: h'.
Proof.
  unfold heappop. destruct (last h) as [y|] eqn:Hlast; [|done].
  apply last_Some in Hlast as [l ->]. rewrite length_app; simpl.
  rewrite Nat.add_sub, take_app_length.
  destruct l as [|top l]; simpl; intros ?; simplify_eq; [done|].
  unfold siftup. pose proof (sift_hole_perm (length (y :: l)) (y :: l) 0 ltac:(simpl; lia)) as Hs.
  destruct (sift_hole lt _ _ _) as [h'' pos']. destruct Hs as (Hlen & Hp & Hperm).
  rewrite siftdown_perm by (by rewrite length_insert).
  rewrite list_insert_insert_eq, Hperm. simpl. f_equiv. by rewrite Permutation_app_comm.
Qed.
End multiset.
