(* ===== verification/Values.v ===== *)
(** Python values: what task metadata, payloads, outputs and JSON columns hold.
    Also the two scheduling policies that travel inside task metadata, and the
    oracle of the values the runtime does not compute itself. *)
From S2P Require Import Prelude PyNum.
From stdpp Require Import pretty.
Open Scope Z_scope.

(** [scheduling/retry/policy.py], [RetryPolicy]: exception types by name. *)
Record RetryPolicy : Type := {
  max_retries : Z;
  initial_delay_seconds : num;
  backoff_factor : num;
  retryable_exceptions : option (list string)
}.

(** [scheduling/timeout/policy.py], [TimeoutPolicy] *)
Record TimeoutPolicy : Type := { timeout_seconds : num }.

(** [VObj cls n] is any other object, of class [cls], with identity [n]. *)
Inductive pyval : Type :=
  | VNone
  | VBool (b : bool)
  | VNum (n : num)
  | VStr (s : string)
  | VList (l : list pyval)
  | VDict (d : list (string * pyval))
  | VRetryPolicy (p : RetryPolicy)
  | VTimeoutPolicy (p : TimeoutPolicy)
  | VObj (cls : string) (ident : nat).

Abbreviation VInt z := (VNum (PInt z)).

(** [bool(v)] *)
Definition truthy (v : pyval) : bool :=
  match v with
  | VNone => false
  | VBool b => b
  | VNum n => num_truthy n
  | VStr s => str_truthy s
  | VList l => negb (bool_decide (length l = 0%nat))
  | VDict d => negb (bool_decide (length d = 0%nat))
  | VRetryPolicy _ | VTimeoutPolicy _ | VObj _ _ => true
  end.

(** The number a value is in arithmetic: [bool] is a subclass of [int]. *)
Definition as_num (v : pyval) : option num :=
  match v with
  | VBool b => Some (PInt (if b then 1 else 0))
  | VNum n => Some n
  | _ => None
  end.

Definition opt_str (o : option string) : pyval :=
  match o with Some s => VStr s | None => VNone end.

(** [dataclasses.asdict] applied inside a container: dataclass instances become
    dictionaries, containers are copied.  A set of types stays an object. *)
Definition retry_policy_dict (p : RetryPolicy) : odict pyval :=
  [("max_retries", VInt (max_retries p));
   ("initial_delay_seconds", VNum (initial_delay_seconds p));
   ("backoff_factor", VNum (backoff_factor p));
   ("retryable_exceptions",
     match retryable_exceptions p with None => VNone | Some _ => VObj "set" 0 end)]%string.

Fixpoint asdict (v : pyval) : pyval :=
  match v with
  | VList l => VList (map asdict l)
  | VDict d => VDict (map (λ kv, (kv.1, asdict kv.2)) d)
  | VRetryPolicy p => VDict (retry_policy_dict p)
  | VTimeoutPolicy p => VDict [("timeout_seconds"%string, VNum (timeout_seconds p))]
  | _ => v
  end.

(** ** JSON

    A JSON text is represented by the value it denotes: [json_ok] tells the
    values [json.dumps] accepts, [dumps] raises on the others, and [json.loads]
    of a text is the value itself. *)
Fixpoint json_ok (v : pyval) : bool :=
  match v with
  | VNone | VBool _ | VNum _ | VStr _ => true
  | VList l => forallb json_ok l
  | VDict d => forallb (λ kv, json_ok kv.2) d
  | VRetryPolicy _ | VTimeoutPolicy _ | VObj _ _ => false
  end.

Abbreviation json := pyval.
Definition dumps (v : pyval) : outcome json :=
  if json_ok v then Ok v else Raise (TypeError "not JSON serializable").
Definition loads (j : json) : pyval := j.

Lemma loads_dumps v j : dumps v = Ok j → loads j = v.
Proof. unfold dumps. case_match; intros; by simplify_eq. Qed.

Section pyval_ind.
Variable P : pyval → Prop.
Hypothesis Hnone : P VNone.
Hypothesis Hbool : ∀ b, P (VBool b).
Hypothesis Hnum : ∀ n, P (VNum n).
Hypothesis Hstr : ∀ s, P (VStr s).
Hypothesis Hlist : ∀ l, Forall P l → P (VList l).
Hypothesis Hdict : ∀ d, Forall (λ kv, P kv.2) d → P (VDict d).
Hypothesis Hretry : ∀ p, P (VRetryPolicy p).
Hypothesis Htimeout : ∀ p, P (VTimeoutPolicy p).
Hypothesis Hobj : ∀ c n, P (VObj c n).

Fixpoint pyval_nested_ind (v : pyval) : P v :=
  match v with
  | VNone => Hnone
  | VBool b => Hbool b
  | VNum n => Hnum n
  | VStr s => Hstr s
  | VList l => Hlist l ((fix go l : Forall P l :=
      match l with [] => Forall_nil_2 _ | x :: l' => Forall_cons_2 _ _ _ (pyval_nested_ind x) (go l') end) l)
  | VDict d => Hdict d ((fix go (d : list (string * pyval)) : Forall (λ kv, P kv.2) d :=
      match d with [] => Forall_nil_2 _ | kv :: d' => Forall_cons_2 _ _ _ (pyval_nested_ind kv.2) (go d') end) d)
  | VRetryPolicy p => Hretry p
  | VTimeoutPolicy p => Htimeout p
  | VObj c n => Hobj c n
  end.
End pyval_ind.

(** On the values [json.dumps] accepts, [asdict] is a copy. *)
Lemma asdict_json_ok v : json_ok v = true → asdict v = v.
Proof.
  induction v as [| | | |l IH|d IH| | |] using pyval_nested_ind; simpl; intros Hok;
    try done; f_equal.
  - induction IH as [|x l Hx _ IH]; simpl in *; [done|].
    apply andb_true_iff in Hok as [??]. f_equal; auto.
  - induction IH as [|[k x] d Hx _ IH]; simpl in *; [done|].
    apply andb_true_iff in Hok as [??]. repeat f_equal; auto.
Qed.

(** * The oracle

    What the code obtains from outside: the [n]-th UUID, wall-clock reading
    (as [isoformat()] text, as [time.time()], and as a [datetime] in
    microseconds), the parse of an ISO date by
    [datetime.fromisoformat(s).timestamp()] (time-zone dependent), C's [pow]
    on a double and an int, and whether the [n]-th database access fails, as it
    begins or in one of its statements ([store_error]) or in the [COMMIT] of
    its transaction ([commit_error]). *)
Class Oracle : Type := {
  uuid4 : nat → string;
  now_iso : nat → string;
  time_now : nat → spec_float;
  now_us : nat → Z;
  iso_timestamp : string → outcome spec_float;
  fpow : spec_float → Z → spec_float;
  store_error : nat → option exn;
  commit_error : nat → option exn
}.

(** Documented behaviour of C's [pow]: anything to the power zero is one. *)
Class PowLaws `{Oracle} : Prop := {
  fpow_0 : ∀ f, fpow f 0 = round_to_float 1 0
}.

(** [b ** n] for [0 <= n]: exact on an int, [pow] on a double, which raises
    [OverflowError] when a finite base gives an infinity. *)
Definition num_pow `{Oracle} (b : num) (n : Z) : outcome num :=
  match b with
  | PInt z => Ok (PInt (z ^ n))
  | PFloat f =>
      let r := fpow f n in
      if is_inf r && negb (is_inf f) then Raise OverflowError else Ok (PFloat r)
  end.

(** [timedelta(seconds=n)] in microseconds: a float is rounded to the nearest,
    ties to even; [OverflowError] beyond 999999999 days, and on infinities. *)
Definition round_half_even (n d : Z) : Z :=
  let q := n / d in let r := n mod d in
  if 2 * r <? d then q else if d <? 2 * r then q + 1 else if Z.even q then q else q + 1.
Definition timedelta_us (n : num) : outcome Z :=
  let? us := (match n with
    | PInt z => Ok (z * 10 ^ 6)
    | PFloat (S754_zero _) => Ok 0
    | PFloat (S754_finite s m e) =>
        let z := (if s then Z.neg m else Z.pos m) * 10 ^ 6 in
        Ok (if 0 <=? e then z * 2 ^ e else round_half_even z (2 ^ (- e)))
    | PFloat S754_nan => Raise (ValueError "cannot convert float NaN to integer")
    | PFloat (S754_infinity _) => Raise OverflowError
    end) in
  let days := us / 86400000000 in
  if (-999999999 <=? days) && (days <=? 999999999) then Ok us else Raise OverflowError.
(** [timedelta.total_seconds()] *)
Definition total_seconds (us : Z) : spec_float := f_ratio us (10 ^ 6).

(** A concrete oracle, for evaluating the model on examples: the clock advances
    by one second per reading, no date parses and no write fails. *)
Definition nat_string (n : nat) : string := pretty (N.of_nat n).
Fixpoint iter_mul (f : spec_float) (n : nat) : spec_float :=
  match n with O => round_to_float 1 0 | S n' => fmul f (iter_mul f n') end.
Definition sample_oracle : Oracle := {|
  uuid4 n := "id-" +:+ nat_string n;
  now_iso n := "2026-01-01T00:00:" +:+ nat_string n;
  time_now n := round_to_float (Z.of_nat n) 0;
  now_us n := Z.of_nat n * 10 ^ 6;
  iso_timestamp s := Raise (ValueError "Invalid isoformat string");
  fpow f n := iter_mul f (Z.to_nat n);
  store_error n := None;
  commit_error n := None
|}.

Lemma sample_pow_laws : @PowLaws sample_oracle.
Proof. by constructor. Qed.
