(* ===== verification/Decode.v ===== *)
(** Reading dictionaries decoded from JSON back into typed fields: what every
    [from_dict] of the code shares. *)
From S2P Require Import Prelude PyNum Values.
Open Scope Z_scope.

Definition strs (l : list string) : pyval := VList (map VStr l).
Definition opt_num (o : option num) : pyval := match o with Some n => VNum n | None => VNone end.

(** [data[k]] raises [KeyError]; [data.get(k, default)] does not.  A present
    value of another type than the field's (no dictionary written by a [to_dict]
    of the code has one) is reported as [bad_field]. *)
Definition bad_field : exn := TypeError "missing or ill-typed field".
Definition req (d : odict pyval) (k : string) : outcome pyval :=
  match dget d k with Some v => Ok v | None => Raise (KeyError k) end.
Definition as_str (v : pyval) : outcome string :=
  match v with VStr s => Ok s | _ => Raise bad_field end.
Definition as_dict (v : pyval) : outcome (odict pyval) :=
  match v with VDict d => Ok d | _ => Raise bad_field end.
Definition as_strs (v : pyval) : outcome (list string) :=
  match v with VList l => omapM as_str l | _ => Raise bad_field end.
Definition as_bool (v : pyval) : outcome bool :=
  match v with VBool b => Ok b | _ => Raise bad_field end.
Definition as_opt_num (v : pyval) : outcome (option num) :=
  match v with VNum n => Ok (Some n) | VNone => Ok None | _ => Raise bad_field end.
Definition as_opt_str (v : pyval) : outcome (option string) :=
  match v with VStr s => Ok (Some s) | VNone => Ok None | _ => Raise bad_field end.
Definition as_number (v : pyval) : outcome num :=
  match v with VNum n => Ok n | _ => Raise bad_field end.
Definition as_int (v : pyval) : outcome Z :=
  match v with VInt z => Ok z | _ => Raise bad_field end.
Definition get_or (d : odict pyval) (k : string) (def : pyval) : pyval := default def (dget d k).
Definition req_str (d : odict pyval) (k : string) : outcome string := let? v := req d k in as_str v.
(** [{k: f(v) for k, v in d.items()}] *)
Definition map_items {A} (f : pyval → outcome A) (d : odict pyval) : outcome (odict A) :=
  omapM (λ kv, let? a := f kv.2 in Ok (kv.1, a)) d.
(** [C( **d )]: the keywords must be fields of the class. *)
Definition kwargs (fields : list string) (d : odict pyval) : outcome (odict pyval) :=
  if forallb (λ k, bool_decide (k ∈ fields)) (dkeys d) then Ok d
  else Raise (TypeError "unexpected keyword argument").

(** * Lemmas *)
Ltac read_dict :=
  unfold get_or, req_str, req;
  repeat (cbn [default from_option id as_dict as_str as_bool as_int obind]; dget_simpl);
  cbn [default from_option id as_dict as_str as_bool as_int obind].
Lemma as_strs_strs l : as_strs (strs l) = Ok l.
Proof. unfold as_strs, strs. apply omapM_Ok. by apply Forall_true. Qed.
Lemma as_opt_str_opt o : as_opt_str (opt_str o) = Ok o.
Proof. by destruct o. Qed.
Lemma as_opt_num_opt o : as_opt_num (opt_num o) = Ok o.
Proof. by destruct o. Qed.

Lemma map_items_Ok {A} (f : pyval → outcome A) (g : A → pyval) (d : odict A) :
  Forall (λ kv, f (g kv.2) = Ok kv.2) d → map_items f (map (λ kv, (kv.1, g kv.2)) d) = Ok d.
Proof.
  intros Hd. unfold map_items. apply (omapM_Ok _ (λ kv, (kv.1, g kv.2))).
  eapply Forall_impl; [exact Hd|]. intros [k v]; simpl. by intros ->.
Qed.

Lemma forallb_Forall_true {A} (f : A → bool) l : forallb f l = true ↔ Forall (λ x, f x = true) l.
Proof. rewrite forallb_forall, Forall_forall. by setoid_rewrite list_elem_of_In. Qed.

Lemma forallb_map_pair {A B} (f : B → bool) (g : A → B) (l : odict A) :
  forallb (λ kv, f kv.2) (map (λ kv, (kv.1, g kv.2)) l) = forallb (λ kv, f (g kv.2)) l.
Proof. induction l as [|x l IH]; simpl; [done|]. by rewrite IH. Qed.

Lemma json_strs l : json_ok (strs l) = true.
Proof. induction l as [|x l IH]; [done|]. exact IH. Qed.
Lemma json_opt_str o : json_ok (opt_str o) = true.
Proof. by destruct o. Qed.

Lemma json_dict_nil : json_ok (VDict []) = true.
Proof. done. Qed.
Lemma json_dict_cons k v d : json_ok (VDict ((k, v) :: d)) = json_ok v && json_ok (VDict d).
Proof. done. Qed.
Lemma json_dict_map {A} (g : A → pyval) (d : odict A) :
  json_ok (VDict (map (λ kv, (kv.1, g kv.2)) d)) = forallb (λ kv, json_ok (g kv.2)) d.
Proof. apply (forallb_map_pair json_ok g). Qed.

