(* ===== verification/Events.v ===== *)
(** [persistence/domain/events.py]: the runtime's domain events, their
    dictionary form and the registry that rebuilds them. *)
From S2P Require Import Prelude PyNum Values Decode.
Open Scope Z_scope.

(** The event classes with the fields each adds to [RuntimeEvent]; [EBase] is
    a plain [RuntimeEvent]. *)
Inductive event_data : Type :=
  | EBase
  | TaskSubmitted (task_id title task_type : string)
  | TaskQueued (task_id : string)
  | TaskDequeued (task_id : string)
  | TaskStarted (task_id : string)
  | TaskCompleted (task_id : string)
  | TaskFailed (task_id error_message : string)
  | TaskCancelled (task_id : string)
  | TaskTimedOut (task_id : string)
  | TaskRetried (task_id : string) (retry_count : Z)
  | WorkerStarted (worker_id : string)
  | WorkerStopped (worker_id : string)
  | WorkerHeartbeat (worker_id heartbeat_time : string)
  | WorkerFailed (worker_id error_message : string)
  | WorkerRecovered (worker_id : string)
  | SchedulerStarted
  | SchedulerStopped
  | RetryScheduled (task_id : string) (delay_seconds : num)
  | TimeoutTriggered (task_id : string) (timeout_seconds : num)
  | DelayedTaskReleased (task_id : string)
  | RuntimeStarted
  | RuntimeStopped
  | RuntimeRecovered
  | SnapshotCreated (snapshot_id : string)
  | SnapshotLoaded (snapshot_id : string).

Record RuntimeEvent : Type := {
  event_id : string;
  runtime_id : string;
  correlation_id : option string;
  causation_id : option string;
  timestamp : string;
  event_type : string;
  event_version : Z;
  event_metadata : odict pyval;
  data : event_data
}.

(** [event.__class__.__name__] *)
Definition class_name (d : event_data) : string :=
  match d with
  | EBase => "RuntimeEvent"
  | TaskSubmitted _ _ _ => "TaskSubmitted"
  | TaskQueued _ => "TaskQueued"
  | TaskDequeued _ => "TaskDequeued"
  | TaskStarted _ => "TaskStarted"
  | TaskCompleted _ => "TaskCompleted"
  | TaskFailed _ _ => "TaskFailed"
  | TaskCancelled _ => "TaskCancelled"
  | TaskTimedOut _ => "TaskTimedOut"
  | TaskRetried _ _ => "TaskRetried"
  | WorkerStarted _ => "WorkerStarted"
  | WorkerStopped _ => "WorkerStopped"
  | WorkerHeartbeat _ _ => "WorkerHeartbeat"
  | WorkerFailed _ _ => "WorkerFailed"
  | WorkerRecovered _ => "WorkerRecovered"
  | SchedulerStarted => "SchedulerStarted"
  | SchedulerStopped => "SchedulerStopped"
  | RetryScheduled _ _ => "RetryScheduled"
  | TimeoutTriggered _ _ => "TimeoutTriggered"
  | DelayedTaskReleased _ => "DelayedTaskReleased"
  | RuntimeStarted => "RuntimeStarted"
  | RuntimeStopped => "RuntimeStopped"
  | RuntimeRecovered => "RuntimeRecovered"
  | SnapshotCreated _ => "SnapshotCreated"
  | SnapshotLoaded _ => "SnapshotLoaded"
  end.

(** The fields a class adds, in declaration order. *)
Definition class_fields (d : event_data) : odict pyval :=
  match d with
  | TaskSubmitted i t ty => [("task_id", VStr i); ("title", VStr t); ("task_type", VStr ty)]
  | TaskQueued i | TaskDequeued i | TaskStarted i | TaskCompleted i
  | TaskCancelled i | TaskTimedOut i | DelayedTaskReleased i => [("task_id", VStr i)]
  | TaskFailed i m => [("task_id", VStr i); ("error_message", VStr m)]
  | TaskRetried i n => [("task_id", VStr i); ("retry_count", VInt n)]
  | WorkerStarted w | WorkerStopped w | WorkerRecovered w => [("worker_id", VStr w)]
  | WorkerHeartbeat w t => [("worker_id", VStr w); ("heartbeat_time", VStr t)]
  | WorkerFailed w m => [("worker_id", VStr w); ("error_message", VStr m)]
  | RetryScheduled i n => [("task_id", VStr i); ("delay_seconds", VNum n)]
  | TimeoutTriggered i n => [("task_id", VStr i); ("timeout_seconds", VNum n)]
  | SnapshotCreated i | SnapshotLoaded i => [("snapshot_id", VStr i)]
  | EBase | SchedulerStarted | SchedulerStopped | RuntimeStarted | RuntimeStopped
  | RuntimeRecovered => []
  end.

(** [RuntimeEvent.to_dict] *)
Definition to_dict (e : RuntimeEvent) : odict pyval :=
  let fields :=
    [("event_id", VStr (event_id e)); ("runtime_id", VStr (runtime_id e));
     ("correlation_id", opt_str (correlation_id e));
     ("causation_id", opt_str (causation_id e)); ("timestamp", VStr (timestamp e));
     ("event_type", VStr (event_type e)); ("version", VInt (event_version e));
     ("metadata", asdict (VDict (event_metadata e)))] ++ class_fields (data e) in
  dset fields "event_type" (VStr (class_name (data e))).

(** Typed reads of a decoded dictionary: a field missing without a default is
    the [TypeError] of the dataclass constructor. *)
Definition field_str (d : odict pyval) (k : string) : outcome string :=
  match dget d k with Some (VStr s) => Ok s | _ => Raise bad_field end.
Definition field_str_default (d : odict pyval) (k def : string) : outcome string :=
  match dget d k with None => Ok def | Some (VStr s) => Ok s | _ => Raise bad_field end.
Definition field_opt_str (d : odict pyval) (k : string) : outcome (option string) :=
  match dget d k with
  | None | Some VNone => Ok None
  | Some (VStr s) => Ok (Some s)
  | _ => Raise bad_field
  end.
Definition field_int (d : odict pyval) (k : string) : outcome Z :=
  match dget d k with Some (VInt z) => Ok z | _ => Raise bad_field end.
Definition field_int_default (d : odict pyval) (k : string) (def : Z) : outcome Z :=
  match dget d k with None => Ok def | Some (VInt z) => Ok z | _ => Raise bad_field end.
Definition field_num (d : odict pyval) (k : string) : outcome num :=
  match dget d k with Some (VNum n) => Ok n | _ => Raise bad_field end.
Definition field_dict_default (d : odict pyval) (k : string) : outcome (odict pyval) :=
  match dget d k with None => Ok [] | Some (VDict m) => Ok m | _ => Raise bad_field end.

(** The class [EVENT_REGISTRY.get(name, RuntimeEvent)] and its own fields. *)
Definition registry_build (name : string) (d : odict pyval) : outcome event_data :=
  let task k := let? i := field_str d "task_id" in Ok (k i) in
  let worker k := let? w := field_str d "worker_id" in Ok (k w) in
  let snapshot k := let? s := field_str d "snapshot_id" in Ok (k s) in
  if name =s? "TaskSubmitted" then
    let? i := field_str d "task_id" in let? t := field_str d "title" in
    let? ty := field_str d "task_type" in Ok (TaskSubmitted i t ty)
  else if name =s? "TaskQueued" then task TaskQueued
  else if name =s? "TaskDequeued" then task TaskDequeued
  else if name =s? "TaskStarted" then task TaskStarted
  else if name =s? "TaskCompleted" then task TaskCompleted
  else if name =s? "TaskFailed" then
    let? i := field_str d "task_id" in let? m := field_str d "error_message" in Ok (TaskFailed i m)
  else if name =s? "TaskCancelled" then task TaskCancelled
  else if name =s? "TaskTimedOut" then task TaskTimedOut
  else if name =s? "TaskRetried" then
    let? i := field_str d "task_id" in let? n := field_int d "retry_count" in Ok (TaskRetried i n)
  else if name =s? "WorkerStarted" then worker WorkerStarted
  else if name =s? "WorkerStopped" then worker WorkerStopped
  else if name =s? "WorkerHeartbeat" then
    let? w := field_str d "worker_id" in let? t := field_str d "heartbeat_time" in
    Ok (WorkerHeartbeat w t)
  else if name =s? "WorkerFailed" then
    let? w := field_str d "worker_id" in let? m := field_str d "error_message" in
    Ok (WorkerFailed w m)
  else if name =s? "WorkerRecovered" then worker WorkerRecovered
  else if name =s? "SchedulerStarted" then Ok SchedulerStarted
  else if name =s? "SchedulerStopped" then Ok SchedulerStopped
  else if name =s? "RetryScheduled" then
    let? i := field_str d "task_id" in let? n := field_num d "delay_seconds" in
    Ok (RetryScheduled i n)
  else if name =s? "TimeoutTriggered" then
    let? i := field_str d "task_id" in let? n := field_num d "timeout_seconds" in
    Ok (TimeoutTriggered i n)
  else if name =s? "DelayedTaskReleased" then task DelayedTaskReleased
  else if name =s? "RuntimeStarted" then Ok RuntimeStarted
  else if name =s? "RuntimeStopped" then Ok RuntimeStopped
  else if name =s? "RuntimeRecovered" then Ok RuntimeRecovered
  else if name =s? "SnapshotCreated" then snapshot SnapshotCreated
  else if name =s? "SnapshotLoaded" then snapshot SnapshotLoaded
  else Ok EBase.

(** [RuntimeEvent.from_dict]; [fresh_id] and [now] are the defaults of a missing
    [event_id] and [timestamp]. *)
Definition from_dict (fresh_id now : string) (d : odict pyval) : outcome RuntimeEvent :=
  let? name := field_str_default d "event_type" "RuntimeEvent" in
  let? payload := registry_build name d in
  let? i := field_str_default d "event_id" fresh_id in
  let? r := field_str_default d "runtime_id" "default-runtime" in
  let? co := field_opt_str d "correlation_id" in
  let? ca := field_opt_str d "causation_id" in
  let? ts := field_str_default d "timestamp" now in
  let? ty := field_str_default d "event_type" (class_name payload) in
  let? v := field_int_default d "version" 1 in
  let? m := field_dict_default d "metadata" in
  Ok {| event_id := i; runtime_id := r; correlation_id := co; causation_id := ca;
        timestamp := ts; event_type := ty; event_version := v; event_metadata := m;
        data := payload |}.

(** Events as the code creates them: [event_type] is the class default, and the
    version fits its column. *)
Definition event_wf (e : RuntimeEvent) : Prop :=
  event_type e = class_name (data e) ∧ json_ok (VDict (event_metadata e)) = true ∧
  in_int64 (event_version e) = true.

(** ** Writing an event and reading it back *)
Theorem from_dict_to_dict fresh now e :
  event_wf e → from_dict fresh now (to_dict e) = Ok e.
Proof.
  destruct e as [i r co ca ts ty v m d]. intros (Hty & Hm & _); simpl in Hty, Hm; subst ty.
  unfold to_dict. cbn [event_metadata]. rewrite asdict_json_ok by done.
  destruct d; destruct co, ca; reflexivity.
Qed.
