(* ===== verification/EventStore.v ===== *)
(** [persistence/adapters/sqlite/event_store.py]: the append-only [events]
    table.  SQLite is modelled by the rows in sequence order, the next
    [AUTOINCREMENT] number, and a write that may fail ([store_error]). *)
From stdpp Require Import sorting.
From S2P Require Import Prelude PyNum Values Decode Events.
Open Scope Z_scope.

(** A row of [events] (schema.py, [CREATE_EVENTS_TABLE]): the columns the
    queries select on, and the payload. *)
Record event_row : Type := {
  sequence_number : Z;
  row_event_id : string;
  row_runtime_id : string;
  row_timestamp : string;
  row_event_type : string;
  version_column : Z;
  metadata_column : json;
  data_payload : json
}.

Record EventTable : Type := { rows : list event_row; next_sequence : Z }.
Definition empty_table : EventTable := {| rows := []; next_sequence := 1 |}.

Definition IntegrityError : exn :=
  UserExc ["IntegrityError"; "DatabaseError"; "Error"; "Exception"] "UNIQUE constraint failed: events.event_id".

(** Binding a Python int to a column. *)
Definition sql_int (z : Z) : outcome Z := if in_int64 z then Ok z else Raise OverflowError.

(** The row an event becomes; [json.dumps] of the metadata and of the payload
    may raise, and so may the version. *)
Definition event_to_row (n : Z) (e : RuntimeEvent) : outcome event_row :=
  let payload := to_dict e in
  let? mj := dumps (VDict (event_metadata e)) in
  let? pj := dumps (VDict payload) in
  let? v := sql_int (event_version e) in
  Ok {| sequence_number := n; row_event_id := event_id e; row_runtime_id := runtime_id e;
        row_timestamp := timestamp e; row_event_type := class_name (data e);
        version_column := v; metadata_column := mj; data_payload := pj |}.

Definition row_to_event (r : event_row) : outcome RuntimeEvent :=
  match loads (data_payload r) with
  | VDict d => from_dict "" "" d
  | _ => Raise bad_field
  end.

(** One [INSERT]: the [UNIQUE] constraint on [event_id], then the row. *)
Definition insert_event (e : RuntimeEvent) (t : EventTable) : outcome EventTable :=
  let? r := event_to_row (next_sequence t) e in
  if decide (event_id e ∈ map row_event_id (rows t)) then Raise IntegrityError
  else Ok {| rows := rows t ++ [r]; next_sequence := next_sequence t + 1 |}.

Fixpoint insert_events (es : list RuntimeEvent) (t : EventTable) : outcome EventTable :=
  match es with
  | [] => Ok t
  | e :: es' => let? t' := insert_event e t in insert_events es' t'
  end.

(** [with self._conn:] commits on success and rolls back on an exception. *)
Definition transaction {S} (f : S → outcome S) : M S unit := λ s,
  match f s with Ok s' => (Ok tt, s') | Raise e => (Raise e, s) end.

Section event_store.
Context `{!Oracle}.

(** [append] (the [n]-th write of the run) *)
Definition append (n : nat) (e : RuntimeEvent) : M EventTable unit :=
  transaction (λ t, match store_error n with Some x => Raise x | None => insert_event e t end).

(** [append_batch]: one transaction, begun by the first [INSERT] *)
Definition append_batch (n : nat) (es : list RuntimeEvent) : M EventTable unit :=
  transaction (λ t, match store_error n, es with
                    | Some x, _ :: _ => Raise x
                    | _, _ => insert_events es t
                    end).
End event_store.

(** [LIMIT limit OFFSET offset]: a negative limit is no limit, a negative
    offset is none. *)
Definition sql_window {A} (limit offset : Z) (l : list A) : list A :=
  let l' := drop (Z.to_nat offset) l in
  if limit <? 0 then l' else take (Z.to_nat limit) l'.

(** [load] *)
Definition load (eid : string) (t : EventTable) : outcome (option RuntimeEvent) :=
  match filter (λ r, row_event_id r = eid) (rows t) with
  | [] => Ok None
  | r :: _ => let? e := row_to_event r in Ok (Some e)
  end.

(** [stream] *)
Definition stream (limit offset : Z) (t : EventTable) : outcome (list RuntimeEvent) :=
  omapM row_to_event (sql_window limit offset (rows t)).

(** [stream_from]: text comparison of the timestamps *)
Definition stream_from (start_timestamp : string) (limit offset : Z) (t : EventTable) :
    outcome (list RuntimeEvent) :=
  omapM row_to_event (sql_window limit offset
    (filter (λ r, String.leb start_timestamp (row_timestamp r) = true) (rows t))).

(** The default arguments [limit=100, offset=0] *)
Definition default_limit : Z := 100.

(** [replay] *)
Definition replay (rid : string) (t : EventTable) : outcome (list RuntimeEvent) :=
  omapM row_to_event (filter (λ r, row_runtime_id r = rid) (rows t)).

(** [count] *)
Definition count (t : EventTable) : Z := Z.of_nat (length (rows t)).

(** [truncate]: [DELETE] does not reset the [AUTOINCREMENT] counter *)
Definition truncate (t : EventTable) : EventTable :=
  {| rows := []; next_sequence := next_sequence t |}.

(** * Correctness *)

(** A row stores the event [e]. *)
Definition stores (r : event_row) (e : RuntimeEvent) : Prop :=
  event_wf e ∧ event_to_row (sequence_number r) e = Ok r.

(** The table holds the events [es], in the order of their sequence numbers. *)
Definition holds (t : EventTable) (es : list RuntimeEvent) : Prop :=
  Forall2 stores (rows t) es ∧
  Forall (λ r, sequence_number r < next_sequence t) (rows t) ∧
  StronglySorted Z.lt (map sequence_number (rows t)).

Lemma event_to_row_wf n e : event_wf e → ∃ r, event_to_row n e = Ok r.
Proof.
  intros (Hty & Hm & Hv). unfold event_to_row, dumps. rewrite Hm. cbn [obind].
  assert (json_ok (VDict (to_dict e)) = true) as Hd; [|unfold sql_int; rewrite Hd, Hv; by eexists].
  unfold to_dict. rewrite asdict_json_ok by done.
  destruct e as [i r co ca ts ty v m d]; simpl in *.
  destruct co, ca, d; cbn -[json_ok]; simpl; by rewrite ?Hm.
Qed.

Lemma event_to_row_inv n e r : event_to_row n e = Ok r →
  sequence_number r = n ∧ row_event_id r = event_id e ∧
  row_timestamp r = timestamp e ∧ row_runtime_id r = runtime_id e ∧
  data_payload r = VDict (to_dict e).
Proof.
  unfold event_to_row, dumps, sql_int. case_match; [|done]. simpl. case_match; [|done].
  simpl. case_match; [|done]. simpl. intros [= <-]. done.
Qed.

Lemma stores_inv r e : stores r e →
  row_event_id r = event_id e ∧ row_timestamp r = timestamp e ∧
  row_runtime_id r = runtime_id e ∧ row_to_event r = Ok e.
Proof.
  intros [Hwf Hr]. destruct (event_to_row_inv _ _ _ Hr) as (_ & ? & ? & ? & Hd).
  split_and!; [done..|]. unfold row_to_event, loads. rewrite Hd. by apply from_dict_to_dict.
Qed.

Lemma stores_read rs es : Forall2 stores rs es → omapM row_to_event rs = Ok es.
Proof.
  induction 1 as [|r e rs es Hr _ IH]; simpl; [done|].
  destruct (stores_inv _ _ Hr) as (_ & _ & _ & ->); simpl. by rewrite IH.
Qed.

Lemma stores_window limit offset rs es :
  Forall2 stores rs es → Forall2 stores (sql_window limit offset rs) (sql_window limit offset es).
Proof. intros. unfold sql_window. case_match; auto using Forall2_drop, Forall2_take. Qed.

Lemma stores_filter (P : event_row → Prop) (Q : RuntimeEvent → Prop)
    `{!∀ r, Decision (P r)} `{!∀ e, Decision (Q e)} rs es :
  (∀ r e, stores r e → P r ↔ Q e) →
  Forall2 stores rs es → Forall2 stores (filter P rs) (filter Q es).
Proof.
  intros HPQ. induction 1 as [|r e rs es Hr _ IH]; [constructor|].
  rewrite !filter_cons. specialize (HPQ r e Hr).
  destruct (decide (P r)), (decide (Q e)); [by constructor|tauto|tauto|done].
Qed.

Lemma holds_ids t es : holds t es → map row_event_id (rows t) = map event_id es.
Proof.
  intros [H _]. induction H as [|r e rs es Hr _ IH]; simpl; [done|].
  destruct (stores_inv _ _ Hr) as (-> & _). by rewrite IH.
Qed.

Lemma holds_empty : holds empty_table [].
Proof. split_and!; constructor. Qed.

Lemma insert_event_holds t es e :
  holds t es → event_wf e → event_id e ∉ map event_id es →
  ∃ t', insert_event e t = Ok t' ∧ holds t' (es ++ [e]).
Proof.
  intros (H & Hlt & Hs) Hwf Hid. unfold insert_event.
  destruct (event_to_row_wf (next_sequence t) e Hwf) as [r Hr]. rewrite Hr; simpl.
  destruct (event_to_row_inv _ _ _ Hr) as (Hseq & _).
  rewrite (holds_ids t es), decide_False by (done || by split). eexists; split; [done|]. split_and!; simpl.
  - apply Forall2_app; [done|]. constructor; [|constructor]. split; [done|by rewrite Hseq].
  - apply Forall_app; split; [|constructor; [lia|done]].
    eapply Forall_impl; [done|]. simpl; lia.
  - rewrite map_app. apply StronglySorted_app_2; [|done|repeat constructor].
    intros x1 x2. rewrite !list_elem_of_In. rewrite in_map_iff. intros (r' & <- & Hin) [<-|[]].
    rewrite Hseq. rewrite Forall_forall in Hlt. apply Hlt. by apply list_elem_of_In.
Qed.

Lemma insert_events_holds es' t es :
  holds t es → Forall event_wf es' → NoDup (map event_id (es ++ es')) →
  ∃ t', insert_events es' t = Ok t' ∧ holds t' (es ++ es').
Proof.
  revert t es. induction es' as [|e es' IH]; intros t es Ht Hwf Hnd; simpl.
  { rewrite app_nil_r. eauto. }
  apply Forall_cons in Hwf as [He Hwf].
  destruct (insert_event_holds t es e Ht He) as (t' & -> & Ht'); simpl.
  { rewrite map_app in Hnd. apply NoDup_app in Hnd as (_ & Hnd & _).
    intros Hin. apply (Hnd _ Hin). left. }
  destruct (IH t' (es ++ [e]) Ht' Hwf) as (t'' & -> & Ht''); [by rewrite <-app_assoc|].
  exists t''. by rewrite <-app_assoc in Ht''.
Qed.

(** Reads of a table that holds [es]. *)
Lemma stream_holds t es limit offset :
  holds t es → stream limit offset t = Ok (sql_window limit offset es).
Proof. intros [Hst _]. by apply stores_read, stores_window. Qed.
Lemma stream_from_holds t es ts limit offset :
  holds t es →
  stream_from ts limit offset t =
    Ok (sql_window limit offset (filter (λ e, String.leb ts (timestamp e) = true) es)).
Proof.
  intros [Hst _]. unfold stream_from. apply stores_read, stores_window, stores_filter; [|done].
  intros r e Hr. by destruct (stores_inv _ _ Hr) as (_ & -> & _).
Qed.
Lemma replay_holds t es rid :
  holds t es → replay rid t = Ok (filter (λ e, runtime_id e = rid) es).
Proof.
  intros [Hst _]. unfold replay. apply stores_read, stores_filter; [|done].
  intros r e Hr. by destruct (stores_inv _ _ Hr) as (_ & _ & -> & _).
Qed.
Lemma load_holds t es eid :
  holds t es → load eid t = Ok (head (filter (λ e, event_id e = eid) es)).
Proof.
  intros [Hst _]. unfold load.
  assert (Forall2 stores (filter (λ r, row_event_id r = eid) (rows t))
            (filter (λ e, event_id e = eid) es)) as Hf.
  { apply stores_filter; [|done]. intros r e Hr. by destruct (stores_inv _ _ Hr) as (-> & _). }
  destruct Hf as [|r e rs es' Hr _]; simpl; [done|].
  by destruct (stores_inv _ _ Hr) as (_ & _ & _ & ->).
Qed.

Section correctness.
Context `{!Oracle}.

(** What is appended is streamed back, in order, byte for byte. *)
Theorem append_batch_stream n t es es' limit offset :
  store_error n = None → holds t es → Forall event_wf es' →
  NoDup (map event_id (es ++ es')) →
  let '(o, t') := append_batch n es' t in
  o = Ok tt ∧ stream limit offset t' = Ok (sql_window limit offset (es ++ es')) ∧
  count t' = Z.of_nat (length (es ++ es')).
Proof.
  intros Hup Ht Hwf Hnd. unfold append_batch, transaction. rewrite Hup.
  destruct (insert_events_holds es' t es Ht Hwf Hnd) as (t' & -> & [Ht' _]).
  split_and!; [done| |].
  - by apply stores_read, stores_window.
  - unfold count. by rewrite (Forall2_length _ _ _ Ht').
Qed.

(** One event whose id is already stored makes the whole batch fail and
    leaves the table as it was, whatever precedes it. *)
Theorem append_batch_atomic n t es pre e post :
  store_error n = None → holds t es → Forall event_wf (pre ++ [e]) →
  NoDup (map event_id (es ++ pre)) → event_id e ∈ map event_id (es ++ pre) →
  append_batch n (pre ++ e :: post) t = (Raise IntegrityError, t).
Proof.
  intros Hup Ht Hwf Hnd Hdup. apply Forall_app in Hwf as [Hpre He].
  apply Forall_cons in He as [He _]. unfold append_batch, transaction. rewrite Hup.
  assert (insert_events (pre ++ e :: post) t = Raise IntegrityError) as ->; [|done].
  revert t es Ht Hnd Hdup. induction Hpre as [|x pre Hx _ IH]; intros t es Ht Hnd Hdup; simpl.
  - unfold insert_event.
    destruct (event_to_row_wf (next_sequence t) e He) as [r ->]; simpl.
    rewrite app_nil_r in Hdup. by rewrite decide_True by (by rewrite (holds_ids _ _ Ht)).
  - destruct (insert_event_holds t es x Ht Hx) as (t' & -> & Ht'); simpl.
    { rewrite map_app in Hnd. apply NoDup_app in Hnd as (_ & Hnd & _).
      intros Hin. apply (Hnd _ Hin). left. }
    apply (IH t' (es ++ [x])); [done|by rewrite <-app_assoc..].
Qed.

(** Every read of the log gives back the appended events themselves: [load]
    the one with an id, [stream] a window, [stream_from] a window of those not
    older than a timestamp, [replay] those of a runtime, all in append order;
    after [truncate] there are none. *)
Theorem event_log_reads t es eid rid ts limit offset :
  holds t es →
  load eid t = Ok (head (filter (λ e, event_id e = eid) es)) ∧
  stream limit offset t = Ok (sql_window limit offset es) ∧
  stream_from ts limit offset t =
    Ok (sql_window limit offset (filter (λ e, String.leb ts (timestamp e) = true) es)) ∧
  replay rid t = Ok (filter (λ e, runtime_id e = rid) es) ∧
  count t = Z.of_nat (length es) ∧ holds (truncate t) [].
Proof.
  intros Hh. split_and!; [by apply load_holds|by apply stream_holds|by apply stream_from_holds
    |by apply replay_holds| |].
  - unfold count. destruct Hh as [Hh _]. by rewrite (Forall2_length _ _ _ Hh).
  - split_and!; constructor.
Qed.
End correctness.

(** * Examples *)
Section examples.
#[local] Existing Instance sample_oracle.
Definition sample_event (n : nat) (d : event_data) : RuntimeEvent :=
  {| event_id := uuid4 n; runtime_id := "default-runtime"; correlation_id := None; causation_id := None;
     timestamp := now_iso n; event_type := class_name d; event_version := 1; event_metadata := []; data := d |}.
Definition sample_batch : list RuntimeEvent :=
  [sample_event 1 (TaskQueued "a"); sample_event 2 (TaskDequeued "a"); sample_event 3 (TaskStarted "a")].
Definition sample_table : EventTable := (append_batch 0 sample_batch empty_table).2.

Lemma sample_batch_wf : Forall event_wf sample_batch.
Proof. repeat constructor. Qed.
Lemma sample_batch_ids : NoDup (map event_id ([] ++ sample_batch)).
Proof. apply (bool_decide_unpack _). vm_compute. exact I. Qed.
Lemma sample_holds : holds sample_table sample_batch.
Proof.
  destruct (insert_events_holds sample_batch empty_table [] holds_empty sample_batch_wf sample_batch_ids)
    as (t & Ht & Hh).
  assert (sample_table = t) as ->; [|exact Hh]. vm_compute in Ht. injection Ht as <-. vm_compute. reflexivity.
Qed.

Lemma append_batch_stream_witness :
  let '(o, t') := append_batch 0 sample_batch empty_table in
  o = Ok tt ∧ stream 2 1 t' = Ok [sample_event 2 (TaskDequeued "a"); sample_event 3 (TaskStarted "a")] ∧ count t' = 3.
Proof.
  exact (append_batch_stream 0 empty_table [] sample_batch 2 1 eq_refl holds_empty sample_batch_wf sample_batch_ids).
Defined.

Lemma append_batch_atomic_witness :
  append_batch 5 ([sample_event 4 (TaskCompleted "a")] ++ sample_event 1 (TaskQueued "a") :: []) sample_table =
    (Raise IntegrityError, sample_table).
Proof.
  apply (append_batch_atomic 5 sample_table sample_batch).
  - reflexivity.
  - exact sample_holds.
  - repeat constructor.
  - apply (bool_decide_unpack _). vm_compute. exact I.
  - vm_compute. left.
Defined.

Lemma event_log_reads_witness :
  load "id-2" sample_table = Ok (Some (sample_event 2 (TaskDequeued "a"))) ∧
  stream_from "2026-01-01T00:00:2" 1 1 sample_table = Ok [sample_event 3 (TaskStarted "a")].
Proof.
  destruct (event_log_reads sample_table sample_batch "id-2" "r" "2026-01-01T00:00:2" 1 1 sample_holds)
    as (Hl & _ & Hf & _). split; [exact Hl|exact Hf].
Defined.
End examples.
