(* ===== verification/Sync.v ===== *)
(** [scheduling/queue/sync.py]: the lock interface and what it is for.

    A critical section is a program whose steps other threads can interrupt:
    steps on the data the lock guards, and steps on data other code changes
    meanwhile.  Any number of threads run critical sections, one step at a time
    in any order, each waiting for the lock before its section and releasing it
    after.  The theorem is that such a run is a run of whole sections, in the
    order in which they release the lock, for every lock that keeps the contract
    [LockLaws].  This is what lets the other files take a method that holds a
    lock as one operation. *)
From S2P Require Import Prelude.

(** * The lock *)

(** [LockInterface]: [__enter__] waits while it is [None]. *)
Class LockInterface (K : Type) : Type := {
  lock_enter : K → option K;
  lock_exit : M K unit
}.
Class LockLaws (K : Type) `{!LockInterface K} : Type := {
  lock_free : K → Prop;
  lock_free_dec k : Decision (lock_free k);
  lock_enter_free k : lock_free k → ∃ k', lock_enter k = Some k' ∧ ¬ lock_free k';
  lock_enter_held k : ¬ lock_free k → lock_enter k = None;
  lock_exit_held k : ¬ lock_free k → ∃ k', lock_exit k = (Ok tt, k') ∧ lock_free k'
}.

(** [LocalThreadingLock] over [threading.Lock], which does not know its owner. *)
Module LocalThreadingLock.
Record t : Type := { is_locked : bool }.
Definition new : t := {| is_locked := false |}.
Definition enter (k : t) : option t := if is_locked k then None else Some {| is_locked := true |}.
Definition exit : M t unit := λ k,
  if is_locked k then (Ok tt, {| is_locked := false |})
  else (Raise (UserExc ["RuntimeError"; "Exception"] "release unlocked lock"), k).
#[export] Instance lock : LockInterface t := {| lock_enter := enter; lock_exit := exit |}.
#[export] Program Instance laws : LockLaws t := {| lock_free k := is_locked k = false |}.
Next Obligation. intros [[]] Hk; simpl in *; [done|]. by eexists. Qed.
Next Obligation. intros [[]] Hk; simpl in *; [done|]. by destruct Hk. Qed.
Next Obligation. intros [[]] Hk; simpl in *; [by eexists|]. by destruct Hk. Qed.
End LocalThreadingLock.

(** * Critical sections *)

(** A program on guarded data [S] and on shared data [E]; a step changes one of
    them and goes on with what it read there. *)
Inductive prog (S E A : Type) : Type :=
  | Return (o : outcome A)
  | OnSelf (f : S → S) (k : S → prog S E A)
  | OnEnv (f : E → E) (k : E → prog S E A).
Arguments Return {S E A} o.
Arguments OnSelf {S E A} f k.
Arguments OnEnv {S E A} f k.

Section prog.
Context {S E : Type}.

(** Sequencing, and a method as one step. *)
Fixpoint pbind {A B} (p : prog S E A) (k : A → prog S E B) : prog S E B :=
  match p with
  | Return (Ok a) => k a
  | Return (Raise x) => Return (Raise x)
  | OnSelf f k' => OnSelf f (λ s, pbind (k' s) k)
  | OnEnv f k' => OnEnv f (λ e, pbind (k' e) k)
  end.
Definition on_self {A} (m : M S A) : prog S E A := OnSelf (λ s, (m s).2) (λ s, Return (m s).1).
Definition on_shared {A} (m : M E A) : prog S E A := OnEnv (λ e, (m e).2) (λ e, Return (m e).1).

(** Without interruption, a program is a method. *)
Fixpoint denote {A} (p : prog S E A) : M (S * E) A := λ s,
  match p with
  | Return o => (o, s)
  | OnSelf f k => denote (k s.1) (f s.1, s.2)
  | OnEnv f k => denote (k s.2) (s.1, f s.2)
  end.

Lemma denote_bind {A B} (p : prog S E A) (k : A → prog S E B) s :
  denote (pbind p k) s = bind (denote p) (λ a, denote (k a)) s.
Proof.
  revert s. induction p as [o|f k' IH|f k' IH]; intros s; simpl.
  - by destruct o.
  - apply (IH s.1 (f s.1, s.2)).
  - apply (IH s.2 (s.1, f s.2)).
Qed.
Lemma denote_self {A} (m : M S A) s : denote (on_self m) s = self m s.
Proof. destruct s as [s e]. unfold zoom; simpl. by destruct (m s). Qed.
Lemma denote_shared {A} (m : M E A) s : denote (on_shared m) s = env m s.
Proof. destruct s as [s e]. unfold zoom; simpl. by destruct (m e). Qed.

(** [try: p], with what follows told how it ended. *)
Fixpoint ptry {A B} (p : prog S E A) (k : outcome A → prog S E B) : prog S E B :=
  match p with
  | Return o => k o
  | OnSelf f k' => OnSelf f (λ s, ptry (k' s) k)
  | OnEnv f k' => OnEnv f (λ e, ptry (k' e) k)
  end.
(** [for x in l: body x] *)
Fixpoint peach {A} (body : A → prog S E unit) (l : list A) : prog S E unit :=
  match l with
  | [] => Return (Ok tt)
  | x :: l' => pbind (body x) (λ _, peach body l')
  end.

(** A program on a part of the guarded data. *)
Fixpoint on_part {T A} (l : lens S T) (p : prog T E A) : prog S E A :=
  match p with
  | Return o => Return o
  | OnSelf f k => OnSelf (λ s, lset l (f (lget l s)) s) (λ s, on_part l (k (lget l s)))
  | OnEnv f k => OnEnv f (λ e, on_part l (k e))
  end.

Lemma denote_try {A B} (p : prog S E A) (k : outcome A → prog S E B) s :
  denote (ptry p k) s = denote (k (denote p s).1) (denote p s).2.
Proof. revert s. induction p as [o|f k' IH|f k' IH]; intros s; simpl; [done|apply IH..]. Qed.

(** A program that leaves the shared data alone. *)
Fixpoint private {A} (p : prog S E A) : Prop :=
  match p with
  | Return _ => True
  | OnSelf _ k => ∀ s, private (k s)
  | OnEnv _ _ => False
  end.
Lemma private_bind {A B} (p : prog S E A) (k : A → prog S E B) :
  private p → (∀ a, private (k a)) → private (pbind p k).
Proof. intros Hp Hk. induction p as [[a|x]|f k' IH|f k' IH]; simpl in *; auto. Qed.
Lemma private_try {A B} (p : prog S E A) (k : outcome A → prog S E B) :
  private p → (∀ o, private (k o)) → private (ptry p k).
Proof. intros Hp Hk. induction p as [o|f k' IH|f k' IH]; simpl in *; auto. Qed.
Lemma private_each {A} (body : A → prog S E unit) l :
  (∀ x, private (body x)) → private (peach body l).
Proof. intros Hb. induction l; simpl; [done|]. by apply private_bind. Qed.

Lemma denote_private {A} (p : prog S E A) s e e' :
  private p → (denote p (s, e)).1 = (denote p (s, e')).1 ∧ (denote p (s, e)).2.1 = (denote p (s, e')).2.1 ∧
  (denote p (s, e)).2.2 = e.
Proof. revert s. induction p as [o|f k IH|f k IH]; intros s Hp; simpl in *; [done|by apply IH|done]. Qed.

(** With interruptions: between two steps others change the shared data, as
    [R] allows. *)
Section rely.
Variable R : E → E → Prop.

Inductive exec {A} : prog S E A → S * E → outcome A → S * E → Prop :=
  | exec_return o s : exec (Return o) s o s
  | exec_self f k s e o s' : exec (k s) (f s, e) o s' → exec (OnSelf f k) (s, e) o s'
  | exec_env f k s e o s' : exec (k e) (s, f e) o s' → exec (OnEnv f k) (s, e) o s'
  | exec_rely p s e e' o s' : R e e' → exec p (s, e') o s' → exec p (s, e) o s'.

Lemma denote_exec {A} (p : prog S E A) s : exec p s (denote p s).1 (denote p s).2.
Proof.
  revert s. induction p as [o|f k IH|f k IH]; intros [s e]; simpl.
  - constructor.
  - constructor. apply IH.
  - constructor. apply IH.
Qed.
Lemma exec_denote {A} (p : prog S E A) s o s' :
  (∀ e e', R e e' → e' = e) → exec p s o s' → denote p s = (o, s').
Proof.
  intros HR. induction 1 as [| | |q s0 e0 e1 o s' He _ IH]; simpl; try done.
  by rewrite (HR e0 e1 He) in IH.
Qed.

(** What the first step of an interrupted program is. *)
Lemma exec_self_inv {A} f (k : S → prog S E A) s e o s' :
  exec (OnSelf f k) (s, e) o s' → ∃ e', rtc R e e' ∧ exec (k s) (f s, e') o s'.
Proof.
  remember (OnSelf f k) as p eqn:Hp. remember (s, e) as se eqn:Hse. intros Hx. revert e Hse.
  induction Hx as [o0 s0|f0 k0 s0 e0 o0 s' Hx _|f0 k0 s0 e0 o0 s' Hx _|q s0 e0 e1 o0 s' He Hx IH]; intros e2 Hse; simplify_eq.
  - by exists e2.
  - destruct (IH eq_refl e1 eq_refl) as (e' & Hr & Hx'). exists e'. split; [by eapply rtc_l|done].
Qed.
Lemma exec_env_inv {A} f (k : E → prog S E A) s e o s' :
  exec (OnEnv f k) (s, e) o s' → ∃ e', rtc R e e' ∧ exec (k e') (s, f e') o s'.
Proof.
  remember (OnEnv f k) as p eqn:Hp. remember (s, e) as se eqn:Hse. intros Hx. revert e Hse.
  induction Hx as [o0 s0|f0 k0 s0 e0 o0 s' Hx _|f0 k0 s0 e0 o0 s' Hx _|q s0 e0 e1 o0 s' He Hx IH]; intros e2 Hse; simplify_eq.
  - by exists e2.
  - destruct (IH eq_refl e1 eq_refl) as (e' & Hr & Hx'). exists e'. split; [by eapply rtc_l|done].
Qed.
Lemma exec_return_inv {A} (a : outcome A) s e o s' :
  exec (Return a) (s, e) o s' → o = a ∧ ∃ e', rtc R e e' ∧ s' = (s, e').
Proof.
  remember (Return a) as p eqn:Hp. remember (s, e) as se eqn:Hse. intros Hx. revert e Hse.
  induction Hx as [o0 s0|f0 k0 s0 e0 o0 s' Hx _|f0 k0 s0 e0 o0 s' Hx _|q s0 e0 e1 o0 s' He Hx IH]; intros e2 Hse; simplify_eq.
  - split; [done|]. by exists e2.
  - destruct (IH eq_refl e1 eq_refl) as (-> & e' & Hr & ->). split; [done|]. exists e'. split; [by eapply rtc_l|done].
Qed.

(** What leaves the shared data alone cannot be disturbed. *)
Lemma exec_private {A} (p : prog S E A) s e o s' e' :
  private p → exec p (s, e) o (s', e') → (o, s') = ((denote p (s, e)).1, (denote p (s, e)).2.1) ∧ rtc R e e'.
Proof.
  revert s e. induction p as [a|f k IH|f k IH]; intros s e Hp Hx; simpl in *; [| |done].
  - apply exec_return_inv in Hx as (-> & e1 & Hr & [= -> ->]). by split.
  - apply exec_self_inv in Hx as (e1 & Hr & Hx). destruct (IH s _ _ (Hp s) Hx) as [Ho Hr'].
    split; [|by etrans]. rewrite Ho. by destruct (denote_private (k s) (f s) e1 e (Hp s)) as (-> & -> & _).
Qed.
End rely.
End prog.
Lemma private_part {S T E A} (l : lens S T) (p : prog T E A) : private p → private (on_part l p).
Proof. induction p as [o|f k IH|f k IH]; simpl; auto. Qed.
Notation "x <~ p ;; k" := (pbind p (λ x, k))
  (at level 100, p at next level, right associativity) : py_scope.
Notation "p ;~ k" := (pbind p (λ _, k)) (at level 100, right associativity) : py_scope.

(** * Threads *)
Section threads.
Context {K : Type} `{!LockInterface K} {S E : Type}.
(** A thread has a state of its own, from which it calls operations; it sees
    the answers. *)
Context {L Op V : Type} (call : L → option Op) (answered : L → outcome V → L).
Variable code : Op → prog S E V.
Variable R : E → E → Prop.

Record thread : Type := { th_local : L; th_inside : option (Op * prog S E V) }.
Record config : Type := { cf_lock : K; cf_data : S * E; cf_threads : list thread }.

Definition with_thread (i : nat) (t : thread) (c : config) : config :=
  {| cf_lock := cf_lock c; cf_data := cf_data c; cf_threads := <[i := t]> (cf_threads c) |}.
Definition with_lock (k : K) (c : config) : config :=
  {| cf_lock := k; cf_data := cf_data c; cf_threads := cf_threads c |}.
Definition with_data (d : S * E) (c : config) : config :=
  {| cf_lock := cf_lock c; cf_data := d; cf_threads := cf_threads c |}.

(** A finished call: the thread, the operation, the answer. *)
Definition finished : Type := nat * Op * outcome V.

(** [with self._lock: body]: the lock is released whether or not the body
    raises. *)
Definition left_with (o : outcome V) (r : outcome unit) : outcome V :=
  match r with Ok _ => o | Raise x => Raise x end.
Inductive step : config → list finished → config → Prop :=
  | step_enter i l op k c :
      cf_threads c !! i = Some {| th_local := l; th_inside := None |} → call l = Some op →
      lock_enter (cf_lock c) = Some k →
      step c [] (with_lock k (with_thread i {| th_local := l; th_inside := Some (op, code op) |} c))
  | step_self i l op f k c :
      cf_threads c !! i = Some {| th_local := l; th_inside := Some (op, OnSelf f k) |} →
      step c [] (with_data (f (cf_data c).1, (cf_data c).2)
                   (with_thread i {| th_local := l; th_inside := Some (op, k (cf_data c).1) |} c))
  | step_env i l op f k c :
      cf_threads c !! i = Some {| th_local := l; th_inside := Some (op, OnEnv f k) |} →
      step c [] (with_data ((cf_data c).1, f (cf_data c).2)
                   (with_thread i {| th_local := l; th_inside := Some (op, k (cf_data c).2) |} c))
  | step_leave i l op o r k c :
      cf_threads c !! i = Some {| th_local := l; th_inside := Some (op, Return o) |} →
      lock_exit (cf_lock c) = (r, k) →
      step c [(i, op, left_with o r)]
        (with_lock k (with_thread i {| th_local := answered l (left_with o r); th_inside := None |} c))
  | step_other e c : R (cf_data c).2 e → step c [] (with_data ((cf_data c).1, e) c).

Inductive steps : config → list finished → config → Prop :=
  | steps_refl c : steps c [] c
  | steps_more c1 h1 c2 h2 c3 : steps c1 h1 c2 → step c2 h2 c3 → steps c1 (h1 ++ h2) c3.

(** The same threads when a call is one step. *)
Inductive calls : list L * (S * E) → list finished → list L * (S * E) → Prop :=
  | calls_nil x : calls x [] x
  | calls_call x h ls d i l op o d' :
      calls x h (ls, d) → ls !! i = Some l → call l = Some op → exec R (code op) d o d' →
      calls x (h ++ [(i, op, o)]) (<[i := answered l o]> ls, d')
  | calls_other x h ls s e e' :
      calls x h (ls, (s, e)) → R e e' → calls x h (ls, (s, e')).

Definition start (ls : list L) (k : K) (d : S * E) : config :=
  {| cf_lock := k; cf_data := d; cf_threads := map (λ l, {| th_local := l; th_inside := None |}) ls |}.
Definition locals (c : config) : list L := map th_local (cf_threads c).
Definition inside (c : config) (i : nat) : Prop :=
  ∃ t, cf_threads c !! i = Some t ∧ is_Some (th_inside t).
End threads.

Section schedule.
Context {K : Type} `{!LockInterface K} {S E L Op V : Type}.
Context (call : L → option Op) (answered : L → outcome V → L) (code : Op → prog S E V) (R : E → E → Prop).
Abbreviation config := (config (K:=K) (S:=S) (E:=E) (L:=L) (Op:=Op) (V:=V)).

(** The next step of thread [i]: [None] if it waits or has nothing to call. *)
Definition next_step (i : nat) (c : config) : option (list (finished (Op:=Op) (V:=V)) * config) :=
  match cf_threads c !! i with
  | None => None
  | Some {| th_local := l; th_inside := None |} =>
      match call l, lock_enter (cf_lock c) with
      | Some op, Some k => Some ([], with_lock k (with_thread i {| th_local := l; th_inside := Some (op, code op) |} c))
      | _, _ => None
      end
  | Some {| th_local := l; th_inside := Some (op, OnSelf f p) |} =>
      Some ([], with_data (f (cf_data c).1, (cf_data c).2)
                  (with_thread i {| th_local := l; th_inside := Some (op, p (cf_data c).1) |} c))
  | Some {| th_local := l; th_inside := Some (op, OnEnv f p) |} =>
      Some ([], with_data ((cf_data c).1, f (cf_data c).2)
                  (with_thread i {| th_local := l; th_inside := Some (op, p (cf_data c).2) |} c))
  | Some {| th_local := l; th_inside := Some (op, Return o) |} =>
      let '(r, k) := lock_exit (cf_lock c) in
      Some ([(i, op, left_with o r)],
            with_lock k (with_thread i {| th_local := answered l (left_with o r); th_inside := None |} c))
  end.
(** The threads run in the order of a schedule; one that waits loses its turn. *)
Fixpoint run_schedule (sch : list nat) (c : config) : list (finished (Op:=Op) (V:=V)) * config :=
  match sch with
  | [] => ([], c)
  | i :: sch' =>
      match next_step i c with
      | None => run_schedule sch' c
      | Some (h, c') => let '(h', c'') := run_schedule sch' c' in (h ++ h', c'')
      end
  end.

Lemma next_step_sound i c h c' : next_step i c = Some (h, c') → step call answered code R c h c'.
Proof.
  unfold next_step. destruct (cf_threads c !! i) as [[l [[op [o|f p|f p]]|]]|] eqn:Ht; [| | | |done].
  - destruct (lock_exit (cf_lock c)) as [r k] eqn:Hk. intros [= <- <-]. by eapply step_leave.
  - intros [= <- <-]. by apply step_self.
  - intros [= <- <-]. by apply step_env.
  - destruct (call l) as [op|] eqn:Hc; [|done]. destruct (lock_enter _) as [k|] eqn:Hk; [|done].
    intros [= <- <-]. by apply step_enter.
Qed.
End schedule.

(** Threads that call what their scripts say, and turns that go round [k] threads. *)
Definition next_call {Op} (l : list Op) : option Op := head l.
Definition go_on {Op V} (l : list Op) (_ : outcome V) : list Op := tail l.
Definition round_robin (k n : nat) : list nat := concat (replicate n (seq 0 k)).
Arguments thread : clear implicits.
Arguments config : clear implicits.

(** * Atomicity *)
Section atomicity.
Context {K : Type} `{!LockInterface K} `{!LockLaws K} {S E L Op V : Type}.
Context (call : L → option Op) (answered : L → outcome V → L) (code : Op → prog S E V) (R : E → E → Prop).
Abbreviation thread := (thread S E L Op V).
Abbreviation config := (config K S E L Op V).
Abbreviation step := (step (K:=K) call answered code R).
Abbreviation steps := (steps (K:=K) call answered code R).
Abbreviation calls := (calls call answered code R).
Implicit Types (c : config) (t : thread).

Lemma steps_trans c1 h1 c2 h2 c3 : steps c1 h1 c2 → steps c2 h2 c3 → steps c1 (h1 ++ h2) c3.
Proof.
  intros H1. induction 1 as [|c2 h2 c h c3 _ IH Hs]; [by rewrite app_nil_r|].
  rewrite (assoc_L (++)). by eapply steps_more; [apply IH|].
Qed.
Lemma steps_one c1 h c2 : step c1 h c2 → steps c1 h c2.
Proof. intros Hs. change h with ([] ++ h). by eapply steps_more; [constructor|]. Qed.

Lemma run_schedule_steps sch c :
  steps c (run_schedule call answered code sch c).1 (run_schedule call answered code sch c).2.
Proof.
  revert c. induction sch as [|i sch IH]; intros c; simpl; [constructor|].
  destruct (next_step call answered code i c) as [[h c']|] eqn:Hn; [|apply IH].
  specialize (IH c'). destruct (run_schedule call answered code sch c') as [h' c'']; simpl in *.
  eapply steps_trans; [|exact IH]. by apply steps_one, (next_step_sound call answered code R i).
Qed.

Lemma locals_with i t c :
  locals (with_thread i t c) = <[i := th_local t]> (locals c).
Proof. unfold locals; simpl. apply list_fmap_insert. Qed.
Lemma locals_lookup i t c : cf_threads c !! i = Some t → locals c !! i = Some (th_local t).
Proof. intros Ht. unfold locals. by rewrite list_lookup_fmap, Ht. Qed.
Lemma locals_kept i t t' c :
  cf_threads c !! i = Some t → th_local t' = th_local t → locals (with_thread i t' c) = locals c.
Proof. intros Ht E'. rewrite locals_with, E'. by apply list_insert_id, locals_lookup. Qed.
Lemma inside_with i t c j :
  inside (with_thread i t c) j → (j = i ∧ is_Some (th_inside t)) ∨ (j ≠ i ∧ inside c j).
Proof.
  intros (t' & Ht & Hin); simpl in Ht. destruct (decide (j = i)) as [->|Hne]; [left|right; split; [done|]].
  - apply list_lookup_insert_Some in Ht as [(_ & -> & _)|[? _]]; done.
  - rewrite list_lookup_insert_ne in Ht by done. by exists t'.
Qed.

(** The threads [c] and the whole calls [x] correspond: with the lock free
    nobody is inside and the data are the same; otherwise one thread is inside,
    and what is left of its section is what the whole section still has to do. *)
Definition matches (x : list L * (S * E)) (c : config) : Prop :=
  x.1 = locals c ∧
  ((lock_free (cf_lock c) ∧ (∀ i, ¬ inside c i) ∧ x.2 = cf_data c) ∨
   (¬ lock_free (cf_lock c) ∧ ∃ i l op p,
      cf_threads c !! i = Some {| th_local := l; th_inside := Some (op, p) |} ∧ call l = Some op ∧
      (∀ j, inside c j → j = i) ∧
      ∀ o d', exec R p (cf_data c) o d' → exec R (code op) x.2 o d')).

Lemma matches_inside x c i l op p :
  matches x c → cf_threads c !! i = Some {| th_local := l; th_inside := Some (op, p) |} →
  x.1 = locals c ∧ ¬ lock_free (cf_lock c) ∧ call l = Some op ∧ (∀ j, inside c j → j = i) ∧
  ∀ o d', exec R p (cf_data c) o d' → exec R (code op) x.2 o d'.
Proof.
  intros (Hx & [(_ & Hno & _)|(Hk & j & l' & op' & p' & Ht' & Hc & Hex & He)]) Ht.
  - destruct (Hno i). by eexists; split.
  - assert (i = j) as <-. { apply Hex. by eexists; split. } rewrite Ht in Ht'. simplify_eq. done.
Qed.

(** A step inside a section: what is left of it does at least what was left. *)
Lemma matches_moves x c i l op p p' d :
  matches x c → cf_threads c !! i = Some {| th_local := l; th_inside := Some (op, p) |} →
  (∀ o d', exec R p' d o d' → exec R p (cf_data c) o d') →
  matches x (with_data d (with_thread i {| th_local := l; th_inside := Some (op, p') |} c)).
Proof.
  intros Hm Ht Hp. destruct (matches_inside x c i l op p Hm Ht) as (Hx & Hk & Hc & Hex & He).
  split; [rewrite Hx; symmetry; by eapply (locals_kept i)|]. right. split; [done|].
  exists i, l, op, p'. split_and!; [|done| |by eauto].
  - simpl. apply list_lookup_insert_eq. by eapply lookup_lt_Some.
  - intros j [[? _]|[_ ?]]%(inside_with i); auto.
Qed.

Lemma matches_step x c h c' :
  matches x c → step c h c' → ∃ x', (∀ x0 h0, calls x0 h0 x → calls x0 (h0 ++ h) x') ∧ matches x' c'.
Proof.
  intros Hm Hs. destruct Hs as [i l op k c Ht Hc Hk|i l op f k c Ht|i l op f k c Ht|i l op o r k c Ht Hk|e c HR].
  - exists x. split; [by intros; rewrite app_nil_r|]. destruct Hm as (Hx & [(Hf & Hno & Hd)|[Hf _]]).
    2:{ by rewrite (lock_enter_held _ Hf) in Hk. }
    destruct (lock_enter_free _ Hf) as (k' & Hk' & Hheld). rewrite Hk in Hk'. injection Hk' as <-.
    split; [rewrite Hx; symmetry; by eapply (locals_kept i)|]. right. split; [done|]. exists i, l, op, (code op).
    split_and!; [|done| |by rewrite Hd].
    + simpl. apply list_lookup_insert_eq. by eapply lookup_lt_Some.
    + intros j [[? _]|[_ ?]]%(inside_with i); [done|]. by destruct (Hno j).
  - exists x. split; [by intros; rewrite app_nil_r|]. eapply matches_moves; [done..|].
    intros o d'. destruct (cf_data c) as [s e]. apply exec_self.
  - exists x. split; [by intros; rewrite app_nil_r|]. eapply matches_moves; [done..|].
    intros o d'. destruct (cf_data c) as [s e]. apply exec_env.
  - destruct (matches_inside x c i l op _ Hm Ht) as (Hx & Hheld & Hc & Hex & He).
    destruct (lock_exit_held _ Hheld) as (k' & Hk' & Hf). rewrite Hk in Hk'. injection Hk' as -> ->. simpl.
    exists (<[i := answered l o]> x.1, cf_data c). split.
    + intros x0 h0 Hcs. destruct x as [ls d]; simpl in *. eapply calls_call; [done| |done|apply He; constructor].
      rewrite Hx. by apply (locals_lookup i) in Ht.
    + split; [rewrite Hx; symmetry; apply (locals_with i {| th_local := _; th_inside := None |})|]. left.
      split_and!; [done| |done]. intros j [[_ [? ?]]|[Hne Hin]]%(inside_with i); [done|]. by destruct Hne, (Hex j).
  - destruct Hm as (Hx & [(Hf & Hno & Hd)|(Hf & i & l & op & p & Ht & Hc & Hex & He)]).
    + exists (x.1, ((cf_data c).1, e)). split; [|by split; [|left]].
      intros x0 h0 Hcs. rewrite app_nil_r. destruct x as [ls d]; simpl in *. subst d.
      destruct (cf_data c) as [s e0]. by eapply calls_other.
    + exists x. split; [by intros; rewrite app_nil_r|]. split; [done|]. right. split; [done|].
      exists i, l, op, p. split_and!; [done..|]. intros o d' Hx'. apply He. simpl in Hx'.
      destruct (cf_data c) as [s e0]. by eapply exec_rely.
Qed.

Lemma start_matches ls k d : lock_free k → matches (ls, d) (start ls k d).
Proof.
  intros Hk. split; [unfold locals; simpl; by rewrite map_map, map_id|]. left. split_and!; [done| |done].
  intros i (t & Ht & Hin); simpl in Ht. apply list_lookup_fmap_Some_1 in Ht as (l & -> & _).
  by destruct Hin.
Qed.
Lemma steps_match ls k d h c :
  lock_free k → steps (start ls k d) h c → ∃ x, calls (ls, d) h x ∧ matches x c.
Proof.
  intros Hk. remember (start ls k d) as c0 eqn:Hc0. induction 1 as [c|c1 h1 c2 h2 c3 _ IH Hs]; subst.
  - exists (ls, d). split; [constructor|by apply start_matches].
  - destruct (IH eq_refl) as (x & Hcs & Hm). destruct (matches_step x c2 h2 c3 Hm Hs) as (x' & Hx & Hm').
    exists x'. auto.
Qed.

(** A section that is entered can be finished. *)
Lemma exec_steps i l op p d o d' c :
  exec R p d o d' → cf_threads c !! i = Some {| th_local := l; th_inside := Some (op, p) |} → cf_data c = d →
  ∃ c', steps c [] c' ∧ cf_threads c' = <[i := {| th_local := l; th_inside := Some (op, Return o) |}]> (cf_threads c) ∧
    cf_data c' = d' ∧ cf_lock c' = cf_lock c.
Proof.
  intros Hx. revert c. induction Hx as [o0 s0|f0 k0 s0 e0 o0 s' Hx IH|f0 k0 s0 e0 o0 s' Hx IH|q s0 e0 e1 o0 s' He Hx IH];
    intros c Ht Hd; pose proof (lookup_lt_Some _ _ _ Ht) as Hi.
  - exists c. split_and!; [constructor| |done..]. by rewrite list_insert_id.
  - edestruct (IH (with_data (f0 (cf_data c).1, (cf_data c).2)
      (with_thread i {| th_local := l; th_inside := Some (op, k0 (cf_data c).1) |} c)))
      as (c' & Hs & Hts & Hd' & Hk).
    { simpl. rewrite Hd. by apply list_lookup_insert_eq. } { simpl. by rewrite Hd. }
    exists c'. split_and!; [|by rewrite Hts; simpl; rewrite list_insert_insert_eq|done..].
    change (@nil (finished (Op:=Op) (V:=V))) with ([] ++ @nil (finished (Op:=Op) (V:=V))).
    eapply steps_trans; [|done]. by apply steps_one, step_self.
  - edestruct (IH (with_data ((cf_data c).1, f0 (cf_data c).2)
      (with_thread i {| th_local := l; th_inside := Some (op, k0 (cf_data c).2) |} c)))
      as (c' & Hs & Hts & Hd' & Hk).
    { simpl. rewrite Hd. by apply list_lookup_insert_eq. } { simpl. by rewrite Hd. }
    exists c'. split_and!; [|by rewrite Hts; simpl; rewrite list_insert_insert_eq|done..].
    change (@nil (finished (Op:=Op) (V:=V))) with ([] ++ @nil (finished (Op:=Op) (V:=V))).
    eapply steps_trans; [|done]. by apply steps_one, step_env.
  - edestruct (IH (with_data ((cf_data c).1, e1) c)) as (c' & Hs & Hts & Hd' & Hk); [done|by simpl; rewrite Hd|].
    exists c'. split_and!; [|done..].
    change (@nil (finished (Op:=Op) (V:=V))) with ([] ++ @nil (finished (Op:=Op) (V:=V))).
    eapply steps_trans; [|done]. apply steps_one, step_other. by rewrite Hd.
Qed.

Lemma leaves i l op p c o d' :
  ¬ lock_free (cf_lock c) → cf_threads c !! i = Some {| th_local := l; th_inside := Some (op, p) |} →
  exec R p (cf_data c) o d' →
  ∃ c', steps c [(i, op, o)] c' ∧ lock_free (cf_lock c') ∧ cf_data c' = d' ∧
    cf_threads c' = <[i := {| th_local := answered l o; th_inside := None |}]> (cf_threads c).
Proof.
  intros Hk Ht Hx. destruct (exec_steps i l op p _ o d' c Hx Ht eq_refl) as (c1 & Hs & Hts & Hd & Hk1).
  rewrite <-Hk1 in Hk. destruct (lock_exit_held _ Hk) as (k' & Hk' & Hf).
  exists (with_lock k' (with_thread i {| th_local := answered l o; th_inside := None |} c1)).
  split_and!; [|done|done|simpl; by rewrite Hts, list_insert_insert_eq].
  change [(i, op, o)] with ([] ++ [(i, op, o)]). eapply steps_more; [exact Hs|].
  apply (step_leave (K:=K) call answered code R i l op o (Ok tt)); [|done].
  rewrite Hts. apply list_lookup_insert_eq. by eapply lookup_lt_Some.
Qed.
Lemma runs_call i l op c o d' :
  lock_free (cf_lock c) → cf_threads c !! i = Some {| th_local := l; th_inside := None |} → call l = Some op →
  exec R (code op) (cf_data c) o d' →
  ∃ c', steps c [(i, op, o)] c' ∧ lock_free (cf_lock c') ∧ cf_data c' = d' ∧
    cf_threads c' = <[i := {| th_local := answered l o; th_inside := None |}]> (cf_threads c).
Proof.
  intros Hf Ht Hc Hx. destruct (lock_enter_free _ Hf) as (k & Hk & Hheld).
  destruct (leaves i l op (code op) (with_lock k (with_thread i {| th_local := l; th_inside := Some (op, code op) |} c)) o d')
    as (c' & Hs & Hf' & Hd & Hts); [done| |done|].
  { simpl. apply list_lookup_insert_eq. by eapply lookup_lt_Some. }
  exists c'. split_and!; [|done..|by rewrite Hts; simpl; rewrite list_insert_insert_eq].
  change [(i, op, o)] with ([] ++ [(i, op, o)]). eapply steps_trans; [|exact Hs]. apply steps_one. by apply step_enter.
Qed.

(** Under a lock that keeps the laws, interleaved critical sections are whole
    calls. *)
Lemma critical_sections_atomic ls k d h ls' d' :
  lock_free k →
  ((∃ c, steps (start ls k d) h c ∧ lock_free (cf_lock c) ∧ locals c = ls' ∧ cf_data c = d') ↔
   calls (ls, d) h (ls', d')).
Proof.
  intros Hk. split.
  - intros (c & Hs & Hf & <- & <-). destruct (steps_match ls k d h c Hk Hs) as ([ls1 d1] & Hcs & Hl & Hm); simpl in *.
    destruct Hm as [(_ & _ & ->)|[Hn _]]; [by rewrite <-Hl|done].
  - intros Hcs. remember (ls', d') as x eqn:Hx. revert ls' d' Hx. remember (ls, d) as x0 eqn:Hx0.
    induction Hcs as [x|x h ls1 d1 i l op o d2 Hcs IH Hl Hc He|x h ls1 s e e' Hcs IH HR]; intros ls' d' Hx; simplify_eq.
    + exists (start ls' k d'). split_and!; [constructor|done| |done].
      unfold locals; simpl. by rewrite map_map, map_id.
    + destruct (IH eq_refl _ _ eq_refl) as (c & Hs & Hf & <- & <-).
      destruct (steps_match ls k d h c Hk Hs) as (x & _ & _ & [(_ & Hno & _)|[Hn _]]); [|done].
      apply list_lookup_fmap_Some_1 in Hl as ([l' ins] & -> & Ht). simpl in *.
      assert (ins = None) as ->. { destruct ins as [y|]; [|done]. destruct (Hno i). eexists; split; [exact Ht|by eexists]. }
      destruct (runs_call i l' op c o d' Hf Ht Hc He) as (c' & Hs' & Hf' & Hd & Hts).
      exists c'. split_and!; [by eapply steps_trans|done| |done].
      unfold locals. rewrite Hts. apply (list_fmap_insert th_local).
    + destruct (IH eq_refl _ _ eq_refl) as (c & Hs & Hf & <- & Hd).
      exists (with_data (s, e') c). split_and!; [|done..]. rewrite <-(app_nil_r h). eapply steps_more; [done|].
      replace s with (cf_data c).1 by by rewrite Hd. apply step_other. by rewrite Hd.
Qed.

(** At most one thread is inside, the lock is free just when none is, and no
    thread waits for ever of necessity: whatever has happened, every thread
    that calls can still be answered. *)
Theorem lock_excludes_and_serves ls k d h c :
  lock_free k → steps (start ls k d) h c →
  (∀ i j, inside c i → inside c j → i = j) ∧ (lock_free (cf_lock c) ↔ ∀ i, ¬ inside c i) ∧
  ∀ i t op, cf_threads c !! i = Some t → call (th_local t) = Some op →
    ∃ h' o c', steps c (h' ++ [(i, op, o)]) c' ∧ (length h' ≤ 1)%nat.
Proof.
  intros Hk Hs. destruct (steps_match ls k d h c Hk Hs) as (x & _ & Hm).
  assert (∀ c i t op, lock_free (cf_lock c) → (∀ i, ¬ inside c i) → cf_threads c !! i = Some t →
    call (th_local t) = Some op → ∃ o c', steps c [(i, op, o)] c') as Hserve.
  { intros c1 i [l ins] op Hf Hno Ht Hc; simpl in *.
    assert (ins = None) as ->. { destruct ins as [y|]; [|done]. destruct (Hno i). eexists; split; [exact Ht|by eexists]. }
    destruct (runs_call i l op c1 _ _ Hf Ht Hc (denote_exec R (code op) (cf_data c1))) as (c' & Hs' & _). eauto. }
  destruct Hm as (_ & [(Hf & Hno & _)|(Hf & j & l & op & p & Ht & Hc & Hex & _)]).
  - split_and!; [by intros i j []%Hno|by split|]. intros i t op Ht Hc.
    destruct (Hserve c i t op Hf Hno Ht Hc) as (o & c' & Hs'). exists [], o, c'. split; [done|simpl; lia].
  - split_and!; [by intros i i' ->%Hex ->%Hex| |].
    { split; [done|]. intros Hno. destruct (Hno j). by eexists; split. }
    destruct (leaves j l op p c _ _ Hf Ht (denote_exec R p (cf_data c))) as (c1 & Hs1 & Hf1 & _ & Hts).
    intros i t op' Hti Hci. destruct (decide (i = j)) as [->|Hne].
    + rewrite Ht in Hti. simplify_eq/=. eexists [], _, c1. split; [exact Hs1|simpl; lia].
    + assert (cf_threads c1 !! i = Some t) as Hti1 by by rewrite Hts, list_lookup_insert_ne.
      destruct (Hserve c1 i t op' Hf1) as (o & c' & Hs'); [|done..|].
      { intros j' (t' & Ht' & Hin). rewrite Hts in Ht'. destruct (decide (j' = j)) as [->|Hj].
        - rewrite list_lookup_insert_eq in Ht' by by eapply lookup_lt_Some. simplify_eq. by destruct Hin.
        - rewrite list_lookup_insert_ne in Ht' by done. destruct Hj. apply Hex. by eexists; split. }
      eexists [_], o, c'. split; [by eapply steps_trans|simpl; lia].
Qed.
End atomicity.

(** * The runtime's lock *)
Section local_lock.
#[local] Existing Instances LocalThreadingLock.lock LocalThreadingLock.laws.
Context {S E L Op V : Type}.
Context (call : L → option Op) (answered : L → outcome V → L) (code : Op → prog S E V) (R : E → E → Prop).
Abbreviation local_steps := (steps (K:=LocalThreadingLock.t) call answered code R).

Lemma new_lock_free : lock_free LocalThreadingLock.new.
Proof. done. Qed.

(** C4: [LocalThreadingLock] makes critical sections atomic.  Threads that take a
    new [LocalThreadingLock] before each of their sections and release it after,
    interleaved in any way with each other and with code that does not use the
    lock: at most one thread is inside, the lock is not locked just when none
    is, and every thread that calls can still be answered, after at most one
    other.  The states in which the lock is not locked and the answers given on
    the way are just those of whole calls, one after the other in the order in
    which they end, each interrupted only by the code that does not use the
    lock. *)
Theorem lock_atomicity ls d :
  (∀ h c, local_steps (start ls LocalThreadingLock.new d) h c →
     (∀ i j, inside c i → inside c j → i = j) ∧
     (LocalThreadingLock.is_locked (cf_lock c) = false ↔ ∀ i, ¬ inside c i) ∧
     ∀ i t op, cf_threads c !! i = Some t → call (th_local t) = Some op →
       ∃ h' o c', local_steps c (h' ++ [(i, op, o)]) c' ∧ (length h' ≤ 1)%nat) ∧
  ∀ h ls' d',
    (∃ c, local_steps (start ls LocalThreadingLock.new d) h c ∧
       LocalThreadingLock.is_locked (cf_lock c) = false ∧ locals c = ls' ∧ cf_data c = d') ↔
    calls call answered code R (ls, d) h (ls', d').
Proof.
  split.
  - intros h c Hs. exact (lock_excludes_and_serves call answered code R ls _ d h c new_lock_free Hs).
  - intros h ls' d'. exact (critical_sections_atomic call answered code R ls _ d h ls' d' new_lock_free).
Qed.
End local_lock.

(** * Example: a counter that is read and written in two statements *)
Section examples.
#[local] Existing Instances LocalThreadingLock.lock LocalThreadingLock.laws.
Definition increment : prog nat unit nat :=
  n <~ on_self get ;;
  on_self (modify (λ _, S n)) ;~
  Return (Ok n).
Definition counting : config LocalThreadingLock.t nat unit nat unit nat :=
  start [1%nat; 1%nat] LocalThreadingLock.new (0%nat, tt).
(** A thread calls as often as its number says. *)
Definition countdown (n : nat) : option unit := match n with O => None | _ => Some tt end.
Abbreviation counted := (run_schedule countdown (λ n _, pred n) (λ _, increment) [0; 1; 0; 1; 0; 1; 0; 1; 1; 0; 1; 1; 1]%nat counting).

Lemma lock_atomicity_witness :
  counted.1 = [(0%nat, tt, Ok 0%nat); (1%nat, tt, Ok 1%nat)] ∧
  calls countdown (λ n _, pred n) (λ _, increment) (λ _ _, False)
    ([1%nat; 1%nat], (0%nat, tt)) counted.1 ([0%nat; 0%nat], (2%nat, tt)).
Proof.
  split; [vm_compute; reflexivity|].
  apply (proj2 (lock_atomicity countdown (λ n _, pred n) (λ _, increment) (λ _ _, False) [1%nat; 1%nat] (0%nat, tt))).
  exists counted.2. split; [apply run_schedule_steps|]. vm_compute. done.
Defined.
Lemma lock_excludes_and_serves_witness :
  ∃ h o c', steps countdown (λ n _, pred n) (λ _, increment) (λ _ _, False) counting (h ++ [(1%nat, tt, o)]) c'.
Proof.
  destruct (lock_excludes_and_serves countdown (λ n _, pred n) (λ _, increment) (λ _ _, False)
    [1%nat; 1%nat] LocalThreadingLock.new (0%nat, tt) [] counting new_lock_free (steps_refl _ _ _ _ _)) as (_ & _ & Hserve).
  destruct (Hserve 1%nat {| th_local := 1%nat; th_inside := None |} tt eq_refl eq_refl) as (h & o & c' & Hs & _).
  by exists h, o, c'.
Defined.
End examples.
