(* ===== verification/Transactions.v ===== *)
(** [persistence/adapters/sqlite/store.py], [SQLiteTransaction], and the SQLite
    connection under it: what is committed next to the open transaction, the
    [with] block in the steps of its [__enter__] and [__exit__], and what it
    does as a whole.  A block whose [COMMIT] the database refuses leaves its
    transaction open: the methods of the store are therefore operations on the
    connection, not on the tables.  [ROLLBACK] is taken to succeed. *)
From S2P Require Import Prelude Values Events EventStore Sync.
Open Scope Z_scope.

Module Tx.
(** [StorageTransaction]; [__exit__] is told whether the body failed *)
Class StorageTransaction (T : Type) : Type := {
  tx_enter : M T unit;
  tx_exit : bool → M T unit;
  tx_commit : M T unit;
  tx_rollback : M T unit
}.
(** [with transaction: body]: what the body raises goes on after [__exit__],
    which returns nothing, unless [__exit__] raises itself *)
Definition with_block {T A} `{!StorageTransaction T} (body : M T A) : M T A :=
  tx_enter ;;;
  (λ s, match body s with
        | (Ok a, s') => (tx_exit false ;;; ret a) s'
        | (Raise x, s') => (tx_exit true ;;; raise x) s'
        end).

Section tx.
Context {S : Type}.

(** The connection: what is committed and the open transaction's working copy. *)
Record Conn : Type := { committed : S; working : option S }.
(** [SQLiteTransaction]: [_in_transaction], its connection and its lock, a
    [threading.Lock] *)
Abbreviation InTx := (bool * Conn)%type.
Abbreviation State := (InTx * LocalThreadingLock.t)%type.

(** [acquire], once the lock is free, and [release] *)
Definition acquire : M LocalThreadingLock.t unit := modify (λ _, {| LocalThreadingLock.is_locked := true |}).
Definition release : M LocalThreadingLock.t unit := LocalThreadingLock.exit.
(** the connection's [BEGIN], [commit] and [rollback]; SQLite has no nested
    transactions *)
Definition OperationalError (msg : string) : exn :=
  UserExc ["OperationalError"; "DatabaseError"; "Error"; "Exception"] msg.
Definition nested : exn := OperationalError "cannot start a transaction within a transaction".
Definition begin_work (c : Conn) : Conn := {| committed := committed c; working := Some (committed c) |}.
Definition commit_work (c : Conn) : Conn := {| committed := default (committed c) (working c); working := None |}.
Definition rollback_work (c : Conn) : Conn := {| committed := committed c; working := None |}.
(** What a statement reads and writes: the working copy.  The driver begins a
    transaction by itself before it writes without one. *)
Definition view : lens Conn S :=
  Lens (λ c, default (committed c) (working c)) (λ t c, {| committed := committed c; working := Some t |}).

(** The statements of [__enter__] under the lock; [err] is what [BEGIN] raises *)
Definition begin_tx (err : option exn) : M InTx unit :=
  match err with
  | Some x => raise x
  | None =>
      c <- env get ;;
      match working c with
      | Some _ => raise nested
      | None => env (modify begin_work) ;;; self (modify (λ _, true))
      end
  end.
(** [__enter__] *)
Definition enter (err : option exn) : M State unit :=
  env acquire ;;;
  catch (self (begin_tx err)) (λ x, (if isinstance x "Exception" then env release else ret tt) ;;; raise x).
(** [commit], [rollback]; [err] is what the connection's commit raises *)
Definition commit (err : option exn) : M InTx unit :=
  b <- self get ;;
  if (b : bool) then
    (match err with Some x => raise x | None => env (modify commit_work) end) ;;;
    self (modify (λ _, false))
  else ret tt.
Definition rollback : M InTx unit :=
  b <- self get ;;
  if (b : bool) then env (modify rollback_work) ;;; self (modify (λ _, false)) else ret tt.
(** [__exit__] *)
Definition exit (err : option exn) (failed : bool) : M State unit :=
  finally (self (if failed then rollback else commit err)) (env release).
Definition SQLiteTransaction (begin_err commit_err : option exn) : StorageTransaction State :=
  {| tx_enter := enter begin_err; tx_exit := exit commit_err; tx_commit := self (commit commit_err);
     tx_rollback := self rollback |}.

(** Statements: they read and change what they see. *)
Definition execute {A} (m : M S A) : M Conn A := zoom view m.
(** [with self.transaction(): body], on a new [SQLiteTransaction] *)
Definition with_transaction {A} (begin_err commit_err : option exn) (body : M S A) : M State A :=
  self (self (modify (λ _, false))) ;;;
  with_block (StorageTransaction0:=SQLiteTransaction begin_err commit_err) (self (env (execute body))).
(** [with self._conn: body], the event store's: the driver begins a transaction
    before the first statement unless one is open; it commits what is open, or
    rolls it back, also when that commit fails *)
Definition with_connection {A} (body : M S A) : M Conn A := λ c,
  match execute body c with
  | (Ok a, c') => (Ok a, commit_work c')
  | (Raise x, c') => (Raise x, rollback_work c')
  end.

Definition closed (t : S) : Conn := {| committed := t; working := None |}.
Definition opened (t w : S) : Conn := {| committed := t; working := Some w |}.
Definition idle (t : S) : State := ((false, closed t), LocalThreadingLock.new).

(** * What a block does *)

(** On the connection: [BEGIN] fails and changes nothing; the body fails and
    its writes are undone; [COMMIT] fails and they stay in the open
    transaction; or they are committed. *)
Definition block_on {A} (begin_err commit_err : option exn) (body : M S A) : M Conn A := λ c,
  match begin_err, working c with
  | Some x, _ => (Raise x, c)
  | None, Some _ => (Raise nested, c)
  | None, None =>
      match body (committed c), commit_err with
      | (Raise x, _), _ => (Raise x, c)
      | (Ok a, t), None => (Ok a, closed t)
      | (Ok _, t), Some x => (Raise x, opened (committed c) t)
      end
  end.

(** The [with] block, from [__enter__] to [__exit__], does that, and the lock
    is free afterwards. *)
Theorem with_transaction_block {A} begin_err commit_err (body : M S A) b c :
  (∀ x, begin_err = Some x → isinstance x "Exception" = true) →
  ∃ b', with_transaction begin_err commit_err body ((b, c), LocalThreadingLock.new) =
    let '(o, c') := block_on begin_err commit_err body c in (o, ((b', c'), LocalThreadingLock.new)).
Proof.
  intros Hx. unfold with_transaction, with_block; cbn [tx_enter tx_exit SQLiteTransaction].
  unfold enter, exit, commit, rollback, begin_tx, execute, finally, block_on. destruct c as [t [w|]]; run_step.
  - destruct begin_err as [x|]; simpl; [rewrite Hx by done|]; by eexists.
  - destruct begin_err as [x|]; simpl; [rewrite Hx by done; by eexists|].
    destruct (body t) as [[a|x] t']; simpl; [destruct commit_err; simpl|]; by eexists.
Qed.
(** An interrupt during [BEGIN] leaves the lock taken: [except Exception]
    does not see it. *)
Theorem interrupted_begin_keeps_lock {A} (body : M S A) t x :
  isinstance x "Exception" = false →
  with_transaction (Some x) None body (idle t) =
    (Raise x, ((false, closed t), {| LocalThreadingLock.is_locked := true |})).
Proof. intros Hx. unfold with_transaction, with_block; cbn [tx_enter tx_exit SQLiteTransaction]; unfold enter, begin_tx. run_step. by rewrite Hx. Qed.

(** All of a body's writes or none. *)
Definition all_or_nothing {A} (body : M S A) : M S A := λ s,
  match body s with (Ok a, s') => (Ok a, s') | (Raise x, _) => (Raise x, s) end.
Lemma block_on_ext {A} b e (m m' : M S A) c :
  (∀ t, all_or_nothing m t = all_or_nothing m' t) → block_on b e m c = block_on b e m' c.
Proof.
  intros Hm. unfold block_on. destruct b; [done|]. destruct (working c); [done|].
  specialize (Hm (committed c)). unfold all_or_nothing in Hm.
  destruct (m (committed c)) as [[a|x] t], (m' (committed c)) as [[a'|x'] t']; by simplify_eq.
Qed.
Lemma with_connection_ext {A} (m m' : M S A) c :
  (∀ t, all_or_nothing m t = all_or_nothing m' t) → with_connection m c = with_connection m' c.
Proof.
  intros Hm. unfold with_connection, execute, zoom. specialize (Hm (lget view c)). unfold all_or_nothing in Hm.
  destruct (m _) as [[a|x] t], (m' _) as [[a'|x'] t']; by simplify_eq.
Qed.
Lemma all_transaction (f : S → outcome S) t : all_or_nothing (transaction f) t = transaction f t.
Proof. unfold all_or_nothing, transaction. by destruct (f t). Qed.

(** Without an open transaction and with a [COMMIT] that succeeds it is one
    atomic operation on the committed data. *)
Lemma block_on_closed {A} begin_err (body : M S A) t :
  block_on begin_err None body (closed t) =
    let '(o, t') := match begin_err with Some x => (Raise x, t) | None => all_or_nothing body t end in (o, closed t').
Proof. unfold block_on, all_or_nothing. simpl. destruct begin_err; [done|]. by destruct (body t) as [[]]. Qed.
(** So is the event store's, whatever fails. *)
Lemma with_connection_closed {A} (body : M S A) t :
  with_connection body (closed t) = let '(o, t') := all_or_nothing body t in (o, closed t').
Proof. unfold with_connection, execute, all_or_nothing, zoom. simpl. by destruct (body t) as [[]]. Qed.

(** While a transaction is open every block fails and changes nothing. *)
Lemma block_on_opened {A} begin_err commit_err (body : M S A) t w :
  ∃ x, block_on begin_err commit_err body (opened t w) = (Raise x, opened t w).
Proof. unfold block_on. destruct begin_err; by eexists. Qed.

(** After a [COMMIT] the database refuses, the next [with] block fails before
    its body, with the lock free and the writes still in the open transaction. *)
Theorem failed_commit_wedges {A B} (body : M S A) (next : M S B) t w a x err err' :
  body t = (Ok a, w) → (∀ y, err = Some y → isinstance y "Exception" = true) →
  let s := (with_transaction None (Some x) body (idle t)).2 in
  (with_transaction None (Some x) body (idle t)).1 = Raise x ∧
  s.1.2 = opened t w ∧ s.2 = LocalThreadingLock.new ∧
  ∃ y s', with_transaction err err' next s = (Raise y, s') ∧ s'.1.2 = s.1.2 ∧ s'.2 = LocalThreadingLock.new.
Proof.
  intros Hf Herr. unfold idle.
  destruct (with_transaction_block None (Some x) body false (closed t)) as [b ->]; [done|].
  unfold block_on; simpl. rewrite Hf. simpl. split_and!; [done..|].
  destruct (with_transaction_block err err' next b (opened t w) Herr) as [b' ->].
  destruct (block_on_opened err err' next t w) as [y ->]. by eexists _, _.
Qed.
(** And the next event that is appended commits it: the writes of a block that
    raised are stored after all. *)
Theorem failed_commit_leaks {A B} (body : M S A) (next : M S B) t w a x b w' :
  body t = (Ok a, w) → next w = (Ok b, w') →
  let s := (with_transaction None (Some x) body (idle t)).2 in
  (with_transaction None (Some x) body (idle t)).1 = Raise x ∧
  with_connection next s.1.2 = (Ok b, closed w').
Proof.
  intros Hf Hg. unfold idle.
  destruct (with_transaction_block None (Some x) body false (closed t)) as [b' ->]; [done|].
  unfold block_on; simpl. rewrite Hf. simpl. split; [done|].
  unfold with_connection, execute, zoom. simpl. by rewrite Hg.
Qed.
End tx.

(** * A block of the run *)
Section run.
Context `{!Oracle} {S : Type}.

(** [with self.transaction(): body] at the [n]-th reading, by a thread that
    gets the lock *)
Definition block {A} (n : nat) (body : M S A) : M Conn A := λ c,
  let '(o, ((_, c'), _)) :=
    with_transaction (store_error n) (commit_error n) body ((false, c), LocalThreadingLock.new) in (o, c').
Lemma block_run {A} n (body : M S A) c : block n body c = block_on (store_error n) (commit_error n) body c.
Proof.
  unfold block, with_transaction, with_block; cbn [tx_enter tx_exit SQLiteTransaction].
  unfold enter, exit, commit, rollback, begin_tx, execute, finally, block_on. destruct c as [t [w|]]; run_step.
  - destruct (store_error n) as [x|]; simpl; [by destruct (isinstance x _)|done].
  - destruct (store_error n) as [x|]; simpl; [by destruct (isinstance x _)|].
    destruct (body t) as [[a|x] t']; simpl; [|done]. by destruct (commit_error n).
Qed.
Lemma block_ext {A} n (m m' : M S A) c :
  (∀ t, all_or_nothing m t = all_or_nothing m' t) → block n m c = block n m' c.
Proof. intros Hm. rewrite !block_run. by apply block_on_ext. Qed.
Lemma block_opened {A} n (body : M S A) t w : ∃ x, block n body (opened t w) = (Raise x, opened t w).
Proof. rewrite block_run. apply block_on_opened. Qed.

(** What can become of a block: its value is right and its writes are
    committed, or it raises and the connection is as before, or its [COMMIT]
    raises and the transaction stays open. *)
Lemma block_cases {A} n (body : M S A) c o c' :
  block n body c = (o, c') →
  (∃ a t, o = Ok a ∧ working c = None ∧ body (committed c) = (Ok a, t) ∧ store_error n = None ∧
     commit_error n = None ∧ c' = closed t) ∨
  (∃ x, o = Raise x ∧ c' = c) ∨
  (∃ a t x, o = Raise x ∧ working c = None ∧ body (committed c) = (Ok a, t) ∧ commit_error n = Some x ∧
     c' = opened (committed c) t).
Proof.
  rewrite block_run. unfold block_on.
  destruct (store_error n) as [x|]; [intros [= <- <-]; right; left; by eexists|].
  destruct (working c) as [w|] eqn:Hw; [intros [= <- <-]; right; left; by eexists|].
  destruct (body (committed c)) as [[a|x] t]; [|intros [= <- <-]; right; left; by eexists].
  destruct (commit_error n) as [x|]; intros [= <- <-]; [right; right|left]; by eexists _, _; try eexists.
Qed.
End run.
End Tx.

(** * Examples *)
Section examples.
#[local] Existing Instance sample_oracle.
Definition succ_tx : M nat unit := transaction (λ n, Ok (S n)).
Definition database_locked : exn := Tx.OperationalError "database is locked".

Lemma with_transaction_block_witness :
  (Tx.with_transaction None None (transaction (λ n, if decide (n = 3%nat) then Raise IndexError else Ok (S n)))
     (Tx.idle 3%nat)).1 = Raise IndexError.
Proof.
  destruct (Tx.with_transaction_block None None (transaction (λ n, if decide (n = 3%nat) then Raise IndexError else Ok (S n)))
    false (Tx.closed 3%nat)) as [b H]; [done|]. unfold Tx.idle. rewrite H. reflexivity.
Defined.

Lemma failed_commit_wedges_witness :
  let s := (Tx.with_transaction None (Some database_locked) succ_tx (Tx.idle 3%nat)).2 in
  ∃ y s', Tx.with_transaction None None succ_tx s = (Raise y, s') ∧ Tx.working s'.1.2 = Some 4%nat.
Proof.
  intros s.
  destruct (Tx.failed_commit_wedges succ_tx succ_tx 3%nat 4%nat tt database_locked None None eq_refl)
    as (_ & _ & _ & y & s' & Hrun & Hs' & _); [done|].
  exists y, s'. split; [exact Hrun|]. rewrite Hs'. reflexivity.
Defined.

Lemma failed_commit_leaks_witness :
  let s := (Tx.with_transaction None (Some database_locked) succ_tx (Tx.idle 3%nat)).2 in
  Tx.with_connection succ_tx s.1.2 = (Ok tt, Tx.closed 5%nat).
Proof. by apply (Tx.failed_commit_leaks succ_tx succ_tx 3%nat 4%nat tt database_locked tt 5%nat). Defined.

Lemma interrupted_begin_keeps_lock_witness :
  LocalThreadingLock.is_locked
    (Tx.with_transaction (Some (UserExc ["KeyboardInterrupt"; "BaseException"] "")) None succ_tx (Tx.idle 3%nat)).2.2 = true.
Proof. rewrite (Tx.interrupted_begin_keeps_lock _ 3%nat) by reflexivity. reflexivity. Defined.
End examples.
