(* ===== verification/RuntimeState.v ===== *)
(** [persistence/domain/models.py], [persistence/adapters/sqlite/store.py] and
    [repositories.py]: snapshots of the runtime's state, their dictionary form,
    the tables that hold them, and the methods of the store on its connection. *)
From S2P Require Import Prelude PyNum Values Decode Events EventStore Sync Transactions.
Open Scope Z_scope.

(** * The snapshots *)
Record TaskExecutionState : Type := {
  ts_task_id : string;
  ts_title : string;
  ts_task_type : string;
  ts_status : string;
  ts_created_at : string;
  ts_started_at : option string;
  ts_completed_at : option string;
  ts_retry_count : Z;
  ts_metadata : odict pyval;
  ts_error_message : option string;
  ts_version : Z
}.
Record WorkerStateSnapshot : Type := {
  ws_worker_id : string;
  ws_state : string;
  ws_current_task_id : option string;
  ws_heartbeat_time : string;
  ws_tasks_processed : Z;
  ws_failures : Z;
  ws_start_time : string;
  ws_version : Z
}.
Record QueueStateSnapshot : Type := {
  qs_queued_task_ids : list string;
  qs_size : Z;
  qs_capacity : option Z;
  qs_policy_type : string;
  qs_version : Z
}.
Record SchedulerStateSnapshot : Type := {
  ss_started : bool;
  ss_uptime_seconds : num;
  ss_delayed_task_ids : list string;
  ss_active_timeouts : odict num;
  ss_version : Z
}.
Record RuntimeState : Type := {
  rs_timestamp : string;
  rs_tasks : odict TaskExecutionState;
  rs_workers : odict WorkerStateSnapshot;
  rs_queue : QueueStateSnapshot;
  rs_scheduler : SchedulerStateSnapshot;
  rs_schema_version : Z
}.

(** ** [to_dict] *)
Definition opt_int (o : option Z) : pyval := match o with Some z => VInt z | None => VNone end.

Definition task_state_to_dict (t : TaskExecutionState) : odict pyval :=
  [("task_id", VStr (ts_task_id t)); ("title", VStr (ts_title t)); ("task_type", VStr (ts_task_type t));
   ("status", VStr (ts_status t)); ("created_at", VStr (ts_created_at t));
   ("started_at", opt_str (ts_started_at t)); ("completed_at", opt_str (ts_completed_at t));
   ("retry_count", VInt (ts_retry_count t)); ("metadata", asdict (VDict (ts_metadata t)));
   ("error_message", opt_str (ts_error_message t)); ("version", VInt (ts_version t))].
Definition worker_state_to_dict (w : WorkerStateSnapshot) : odict pyval :=
  [("worker_id", VStr (ws_worker_id w)); ("state", VStr (ws_state w));
   ("current_task_id", opt_str (ws_current_task_id w)); ("heartbeat_time", VStr (ws_heartbeat_time w));
   ("tasks_processed", VInt (ws_tasks_processed w)); ("failures", VInt (ws_failures w));
   ("start_time", VStr (ws_start_time w)); ("version", VInt (ws_version w))].
Definition queue_state_to_dict (q : QueueStateSnapshot) : odict pyval :=
  [("queued_task_ids", strs (qs_queued_task_ids q)); ("size", VInt (qs_size q));
   ("capacity", opt_int (qs_capacity q)); ("policy_type", VStr (qs_policy_type q));
   ("version", VInt (qs_version q))].
Definition timeouts_to_dict (d : odict num) : pyval := VDict (map (λ kv, (kv.1, VNum kv.2)) d).
Definition scheduler_state_to_dict (s : SchedulerStateSnapshot) : odict pyval :=
  [("started", VBool (ss_started s)); ("uptime_seconds", VNum (ss_uptime_seconds s));
   ("delayed_task_ids", strs (ss_delayed_task_ids s));
   ("active_timeouts", timeouts_to_dict (ss_active_timeouts s)); ("version", VInt (ss_version s))].
Definition state_to_dict (s : RuntimeState) : odict pyval :=
  [("timestamp", VStr (rs_timestamp s));
   ("tasks", VDict (map (λ kv, (kv.1, VDict (task_state_to_dict kv.2))) (rs_tasks s)));
   ("workers", VDict (map (λ kv, (kv.1, VDict (worker_state_to_dict kv.2))) (rs_workers s)));
   ("queue", VDict (queue_state_to_dict (rs_queue s)));
   ("scheduler", VDict (scheduler_state_to_dict (rs_scheduler s)));
   ("schema_version", VInt (rs_schema_version s))].

(** ** [from_dict] *)
Definition as_opt_int (v : pyval) : outcome (option Z) :=
  match v with VInt z => Ok (Some z) | VNone => Ok None | _ => Raise bad_field end.
(** [v or {}], [v or []] *)
Definition or_empty (v e : pyval) : pyval := if truthy v then v else e.

Definition task_state_of_dict (d : odict pyval) : outcome TaskExecutionState :=
  let? i := req_str d "task_id" in let? ti := req_str d "title" in
  let? ty := req_str d "task_type" in let? st := req_str d "status" in
  let? cr := req_str d "created_at" in
  let? sa := as_opt_str (get_or d "started_at" VNone) in
  let? co := as_opt_str (get_or d "completed_at" VNone) in
  let? rc := as_int (get_or d "retry_count" (VInt 0)) in
  let? m := as_dict (or_empty (get_or d "metadata" VNone) (VDict [])) in
  let? em := as_opt_str (get_or d "error_message" VNone) in
  let? v := as_int (get_or d "version" (VInt 1)) in
  Ok {| ts_task_id := i; ts_title := ti; ts_task_type := ty; ts_status := st; ts_created_at := cr;
        ts_started_at := sa; ts_completed_at := co; ts_retry_count := rc; ts_metadata := m;
        ts_error_message := em; ts_version := v |}.
Definition worker_state_of_dict (d : odict pyval) : outcome WorkerStateSnapshot :=
  let? i := req_str d "worker_id" in let? st := req_str d "state" in
  let? cu := as_opt_str (get_or d "current_task_id" VNone) in
  let? hb := req_str d "heartbeat_time" in
  let? tp := as_int (get_or d "tasks_processed" (VInt 0)) in
  let? fl := as_int (get_or d "failures" (VInt 0)) in
  let? sa := req_str d "start_time" in
  let? v := as_int (get_or d "version" (VInt 1)) in
  Ok {| ws_worker_id := i; ws_state := st; ws_current_task_id := cu; ws_heartbeat_time := hb;
        ws_tasks_processed := tp; ws_failures := fl; ws_start_time := sa; ws_version := v |}.
Definition queue_state_of_dict (d : odict pyval) : outcome QueueStateSnapshot :=
  let? idv := req d "queued_task_ids" in let? ids := as_strs idv in
  let? szv := req d "size" in let? sz := as_int szv in
  let? cap := as_opt_int (get_or d "capacity" VNone) in
  let? po := req_str d "policy_type" in
  let? v := as_int (get_or d "version" (VInt 1)) in
  Ok {| qs_queued_task_ids := ids; qs_size := sz; qs_capacity := cap; qs_policy_type := po; qs_version := v |}.
Definition scheduler_state_of_dict (d : odict pyval) : outcome SchedulerStateSnapshot :=
  let? stv := req d "started" in let? st := as_bool stv in
  let? upv := req d "uptime_seconds" in let? up := as_number upv in
  let? ids := as_strs (or_empty (get_or d "delayed_task_ids" VNone) (VList [])) in
  let? tod := as_dict (or_empty (get_or d "active_timeouts" VNone) (VDict [])) in
  let? tos := map_items as_number tod in
  let? v := as_int (get_or d "version" (VInt 1)) in
  Ok {| ss_started := st; ss_uptime_seconds := up; ss_delayed_task_ids := ids; ss_active_timeouts := tos;
        ss_version := v |}.
Definition state_of_dict (d : odict pyval) : outcome RuntimeState :=
  let? ts := req_str d "timestamp" in
  let? tkv := req d "tasks" in let? tkd := as_dict tkv in
  let? tasks := map_items (λ v, let? x := as_dict v in task_state_of_dict x) tkd in
  let? wkv := req d "workers" in let? wkd := as_dict wkv in
  let? workers := map_items (λ v, let? x := as_dict v in worker_state_of_dict x) wkd in
  let? qv := req d "queue" in let? qd := as_dict qv in let? q := queue_state_of_dict qd in
  let? sv := req d "scheduler" in let? sd := as_dict sv in let? s := scheduler_state_of_dict sd in
  let? v := as_int (get_or d "schema_version" (VInt 1)) in
  Ok {| rs_timestamp := ts; rs_tasks := tasks; rs_workers := workers; rs_queue := q; rs_scheduler := s;
        rs_schema_version := v |}.

(** * The tables of [SQLiteStateStore]

    A row is the dictionary of its columns; a table is its rows by primary key,
    in the order a scan visits them ([INSERT OR REPLACE] moves a row to the
    end). *)
Abbreviation row := (odict pyval).
Record snapshot_row : Type := { sn_timestamp : string; sn_state_data : json; sn_schema_version : Z }.
Record StateTables : Type := {
  tasks_table : odict row;
  workers_table : odict row;
  queue_state_row : option row;
  scheduler_state_row : option row;
  snapshots_table : odict snapshot_row
}.
Definition empty_tables : StateTables :=
  {| tasks_table := []; workers_table := []; queue_state_row := None; scheduler_state_row := None;
     snapshots_table := [] |}.
Definition replace_row {A} (k : string) (r : A) (t : odict A) : odict A := ddel t k ++ [(k, r)].

(** Binding an optional int, and a number to a [REAL NOT NULL] column: integers
    become floats, and NaN is stored as [NULL]. *)
Definition sql_opt_int (o : option Z) : outcome (option Z) :=
  match o with Some z => let? z' := sql_int z in Ok (Some z') | None => Ok None end.
Definition NotNullError (col : string) : exn :=
  UserExc ["IntegrityError"; "DatabaseError"; "Error"; "Exception"] ("NOT NULL constraint failed: " +:+ col).
Definition sql_real (col : string) (n : num) : outcome num :=
  match n with
  | PInt z => let? z' := sql_int z in let? f := float_of_int z' in Ok (PFloat f)
  | PFloat f => if is_nan f then Raise (NotNullError col) else Ok (PFloat f)
  end.

(** ** [SQLiteTaskStateRepository], [SQLiteWorkerStateRepository] *)
Definition task_to_row (t : TaskExecutionState) : outcome row :=
  let? mj := dumps (VDict (ts_metadata t)) in
  let? rc := sql_int (ts_retry_count t) in
  let? v := sql_int (ts_version t) in
  Ok [("task_id", VStr (ts_task_id t)); ("title", VStr (ts_title t)); ("task_type", VStr (ts_task_type t));
      ("status", VStr (ts_status t)); ("created_at", VStr (ts_created_at t));
      ("started_at", opt_str (ts_started_at t)); ("completed_at", opt_str (ts_completed_at t));
      ("retry_count", VInt rc); ("metadata", mj); ("error_message", opt_str (ts_error_message t));
      ("version", VInt v)].
Definition worker_to_row (w : WorkerStateSnapshot) : outcome row :=
  let? tp := sql_int (ws_tasks_processed w) in
  let? fl := sql_int (ws_failures w) in
  let? v := sql_int (ws_version w) in
  Ok [("worker_id", VStr (ws_worker_id w)); ("state", VStr (ws_state w));
      ("current_task_id", opt_str (ws_current_task_id w)); ("heartbeat_time", VStr (ws_heartbeat_time w));
      ("tasks_processed", VInt tp); ("failures", VInt fl); ("start_time", VStr (ws_start_time w));
      ("version", VInt v)].
(** [save] *)
Definition save_task (t : TaskExecutionState) (tbl : odict row) : outcome (odict row) :=
  let? r := task_to_row t in Ok (replace_row (ts_task_id t) r tbl).
Definition save_worker (w : WorkerStateSnapshot) (tbl : odict row) : outcome (odict row) :=
  let? r := worker_to_row w in Ok (replace_row (ws_worker_id w) r tbl).
(** [data["metadata"] = json.loads(...) if data.get("metadata") else {}]: a
    JSON text is never empty *)
Definition task_of_row (r : row) : outcome TaskExecutionState :=
  let m := match get_or r "metadata" VNone with VNone => VDict [] | j => loads j end in
  task_state_of_dict (dset r "metadata" m).
(** [get], [list_all], [delete] *)
Definition get_task_state (i : string) (tbl : odict row) : outcome (option TaskExecutionState) :=
  match dget tbl i with None => Ok None | Some r => let? t := task_of_row r in Ok (Some t) end.
Definition get_worker_state (i : string) (tbl : odict row) : outcome (option WorkerStateSnapshot) :=
  match dget tbl i with None => Ok None | Some r => let? w := worker_state_of_dict r in Ok (Some w) end.
Definition list_task_states (tbl : odict row) : outcome (list TaskExecutionState) :=
  omapM task_of_row (dvals tbl).
Definition list_worker_states (tbl : odict row) : outcome (list WorkerStateSnapshot) :=
  omapM worker_state_of_dict (dvals tbl).
Definition delete_task_state (i : string) (tbl : odict row) : odict row := ddel tbl i.

(** One [save] after the other. *)
Fixpoint save_all {A} (save : A → odict row → outcome (odict row)) (l : list A) (tbl : odict row) :
    outcome (odict row) :=
  match l with
  | [] => Ok tbl
  | x :: l' => let? tbl' := save x tbl in save_all save l' tbl'
  end.
(** [{f(x): x for x in l}] *)
Definition dict_by {A} (f : A → string) (l : list A) : odict A := foldl (λ d x, dset d (f x) x) [] l.

Definition queue_to_row (q : QueueStateSnapshot) : outcome row :=
  let? ids := dumps (strs (qs_queued_task_ids q)) in
  let? sz := sql_int (qs_size q) in
  let? cap := sql_opt_int (qs_capacity q) in
  let? v := sql_int (qs_version q) in
  Ok [("id", VInt 1); ("queued_task_ids", ids); ("size", VInt sz); ("capacity", opt_int cap);
      ("policy_type", VStr (qs_policy_type q)); ("version", VInt v)].
Definition scheduler_to_row (ts : string) (s : SchedulerStateSnapshot) : outcome row :=
  let? ids := dumps (strs (ss_delayed_task_ids s)) in
  let? tos := dumps (timeouts_to_dict (ss_active_timeouts s)) in
  let? up := sql_real "scheduler_state.uptime_seconds" (ss_uptime_seconds s) in
  let? v := sql_int (ss_version s) in
  Ok [("id", VInt 1); ("started", VInt (if ss_started s then 1 else 0)); ("uptime_seconds", VNum up);
      ("delayed_task_ids", ids); ("active_timeouts", tos); ("timestamp", VStr ts); ("version", VInt v)].

Definition queue_of_row (r : row) : outcome QueueStateSnapshot :=
  let? ids := req r "queued_task_ids" in
  queue_state_of_dict (dset r "queued_task_ids" (loads ids)).
Definition scheduler_of_row (r : row) : outcome SchedulerStateSnapshot :=
  let? st := req r "started" in let? ids := req r "delayed_task_ids" in
  let? tos := req r "active_timeouts" in
  scheduler_state_of_dict
    (dset (dset (dset r "started" (VBool (truthy st))) "delayed_task_ids" (loads ids))
      "active_timeouts" (loads tos)).

(** The store's connection. *)
Abbreviation StateConn := (Tx.Conn (S:=StateTables)).

Section store.
Context `{!Oracle}.

(** [with self.transaction(): writes] at the [n]-th reading *)
Definition store_transaction (n : nat) (f : StateTables → outcome StateTables) : M StateConn unit :=
  Tx.block n (transaction f).

(** [save_runtime_state], and its body *)
Definition save_tables (s : RuntimeState) (t : StateTables) : outcome StateTables :=
  let? ts := save_all save_task (dvals (rs_tasks s)) [] in
  let? ws := save_all save_worker (dvals (rs_workers s)) [] in
  let? q := queue_to_row (rs_queue s) in
  let? sc := scheduler_to_row (rs_timestamp s) (rs_scheduler s) in
  Ok {| tasks_table := ts; workers_table := ws; queue_state_row := Some q;
        scheduler_state_row := Some sc; snapshots_table := snapshots_table t |}.
Definition save_runtime_state (n : nat) (s : RuntimeState) : M StateConn unit :=
  store_transaction n (save_tables s).

(** The same around a read. *)
Definition read_transaction {A} (n : nat) (f : StateTables → outcome A) : M StateConn A :=
  Tx.block n (λ t, (f t, t)).

(** [load_runtime_state] at the [n]-th clock reading, and its body *)
Definition load_tables (n : nat) (t : StateTables) : outcome (option RuntimeState) :=
  match queue_state_row t, scheduler_state_row t with
  | Some qr, Some sr =>
      let? q := queue_of_row qr in
      let? s := scheduler_of_row sr in
      let? ts := (match get_or sr "timestamp" VNone with
                  | VStr x => Ok (if str_truthy x then x else now_iso n)
                  | VNone => Ok (now_iso n) | _ => Raise bad_field end) in
      let? tasks := list_task_states (tasks_table t) in
      let? workers := list_worker_states (workers_table t) in
      Ok (Some {| rs_timestamp := ts; rs_tasks := dict_by ts_task_id tasks;
                  rs_workers := dict_by ws_worker_id workers; rs_queue := q; rs_scheduler := s;
                  rs_schema_version := 1 |})
  | Some qr, None => let? _ := queue_of_row qr in Ok None
  | None, _ => Ok None
  end.
Definition load_runtime_state (n : nat) : M StateConn (option RuntimeState) := read_transaction n (load_tables n).

(** [save_snapshot], [load_snapshot], [delete_snapshot], and their bodies *)
Definition snapshot_tables (sid : string) (s : RuntimeState) (j : json) (t : StateTables) : outcome StateTables :=
  let? v := sql_int (rs_schema_version s) in
  Ok {| tasks_table := tasks_table t; workers_table := workers_table t;
        queue_state_row := queue_state_row t; scheduler_state_row := scheduler_state_row t;
        snapshots_table := replace_row sid
          {| sn_timestamp := rs_timestamp s; sn_state_data := j; sn_schema_version := v |}
          (snapshots_table t) |}.
Definition save_snapshot (n : nat) (sid : string) (s : RuntimeState) : M StateConn unit :=
  j <- of_outcome (dumps (VDict (state_to_dict s))) ;;
  store_transaction n (snapshot_tables sid s j).
Definition find_snapshot (sid : string) (t : StateTables) : outcome (option RuntimeState) :=
  match dget (snapshots_table t) sid with
  | None => Ok None
  | Some r => match loads (sn_state_data r) with
              | VDict d => let? s := state_of_dict d in Ok (Some s)
              | _ => Raise bad_field
              end
  end.
Definition load_snapshot (n : nat) (sid : string) : M StateConn (option RuntimeState) :=
  read_transaction n (find_snapshot sid).
Definition drop_snapshot (sid : string) (t : StateTables) : outcome StateTables :=
  Ok {| tasks_table := tasks_table t; workers_table := workers_table t;
        queue_state_row := queue_state_row t; scheduler_state_row := scheduler_state_row t;
        snapshots_table := ddel (snapshots_table t) sid |}.
Definition delete_snapshot (n : nat) (sid : string) : M StateConn unit := store_transaction n (drop_snapshot sid).
End store.

(** * Round trips *)
#[local] Arguments in_int64 : simpl never.
#[local] Arguments dumps : simpl never.

Lemma sql_int_Ok z z' : sql_int z = Ok z' → z' = z.
Proof. unfold sql_int. case_match; congruence. Qed.
Lemma dumps_Ok v j : dumps v = Ok j → j = v ∧ json_ok v = true.
Proof. unfold dumps. case_match; [|done]. by intros [= <-]. Qed.
Lemma as_opt_int_opt o : as_opt_int (opt_int o) = Ok o.
Proof. by destruct o. Qed.
Lemma or_empty_dict d : or_empty (VDict d) (VDict []) = VDict d.
Proof. by destruct d. Qed.
Lemma or_empty_strs l : or_empty (strs l) (VList []) = strs l.
Proof. by destruct l. Qed.

(** Split a run of successful reads. *)
Ltac ok_cases H :=
  repeat match type of H with
  | obind ?m _ = Ok _ => let E := fresh "E" in destruct m eqn:E; cbn [obind] in H; [|discriminate H]
  end.

Lemma sql_opt_int_Ok o o' : sql_opt_int o = Ok o' → o' = o.
Proof.
  destruct o as [z|]; simpl; [|congruence]. intros Hr. ok_cases Hr. apply sql_int_Ok in E as ->. congruence.
Qed.
Definition as_real (n : num) : num := match n with PInt z => PFloat (round_to_float z 0) | f => f end.
Lemma sql_real_Ok col n n' : sql_real col n = Ok n' → n' = as_real n.
Proof.
  destruct n as [z|f]; simpl; [|case_match; congruence].
  intros Hr. ok_cases Hr. apply sql_int_Ok in E as ->. revert E0. unfold float_of_int. case_match; congruence.
Qed.

Lemma task_row_roundtrip t r : task_to_row t = Ok r → task_of_row r = Ok t.
Proof.
  unfold task_to_row. intros Hr. ok_cases Hr. injection Hr as <-.
  apply dumps_Ok in E as [-> _]. apply sql_int_Ok in E0 as ->, E1 as ->.
  unfold task_of_row. read_dict. unfold loads, task_state_of_dict. read_dict.
  rewrite !as_opt_str_opt. cbn [obind]. rewrite or_empty_dict. cbn [as_dict obind]. by destruct t.
Qed.
Lemma worker_row_roundtrip w r : worker_to_row w = Ok r → worker_state_of_dict r = Ok w.
Proof.
  unfold worker_to_row. intros Hr. ok_cases Hr. injection Hr as <-.
  apply sql_int_Ok in E as ->, E0 as ->, E1 as ->.
  unfold worker_state_of_dict. read_dict. rewrite as_opt_str_opt. cbn [obind]. by destruct w.
Qed.
Lemma queue_row_roundtrip q r : queue_to_row q = Ok r → queue_of_row r = Ok q.
Proof.
  unfold queue_to_row. intros Hr. ok_cases Hr. injection Hr as <-.
  apply dumps_Ok in E as [-> _]. apply sql_int_Ok in E0 as ->, E2 as ->. apply sql_opt_int_Ok in E1 as ->.
  unfold queue_of_row. read_dict. unfold loads, queue_state_of_dict. read_dict.
  rewrite as_strs_strs, as_opt_int_opt. cbn [obind]. by destruct q.
Qed.

(** What the column type makes of the uptime. *)
Definition real_uptime (s : SchedulerStateSnapshot) : SchedulerStateSnapshot :=
  {| ss_started := ss_started s;
     ss_uptime_seconds := as_real (ss_uptime_seconds s);
     ss_delayed_task_ids := ss_delayed_task_ids s; ss_active_timeouts := ss_active_timeouts s;
     ss_version := ss_version s |}.

Lemma scheduler_row_roundtrip ts s r : scheduler_to_row ts s = Ok r →
  scheduler_of_row r = Ok (real_uptime s) ∧ get_or r "timestamp" VNone = VStr ts.
Proof.
  unfold scheduler_to_row. intros Hr. ok_cases Hr. injection Hr as <-.
  apply dumps_Ok in E as [-> _], E0 as [-> _]. apply sql_real_Ok in E1 as ->. apply sql_int_Ok in E2 as ->. split; [|done].
  unfold scheduler_of_row. read_dict. unfold loads, scheduler_state_of_dict. read_dict.
  rewrite or_empty_strs, as_strs_strs. cbn [obind]. unfold timeouts_to_dict.
  rewrite or_empty_dict. cbn [as_dict obind].
  rewrite (map_items_Ok as_number VNum) by by apply Forall_true. cbn [obind].
  by destruct s as [[] up ids tos v].
Qed.

(** States as the code builds them: dictionaries keyed by the id of their values. *)
Record state_keyed (s : RuntimeState) : Prop := {
  sk_tasks : dwf (rs_tasks s);
  sk_tasks_id : Forall (λ kv, ts_task_id kv.2 = kv.1) (rs_tasks s);
  sk_workers : dwf (rs_workers s);
  sk_workers_id : Forall (λ kv, ws_worker_id kv.2 = kv.1) (rs_workers s)
}.

Lemma replace_row_fresh {A} k (r : A) t : k ∉ dkeys t → replace_row k r t = t ++ [(k, r)].
Proof.
  intros Hk. unfold replace_row. f_equal. unfold dkeys in Hk. induction t as [|[k' r'] t IH]; csimpl; [done|].
  csimpl in Hk. apply not_elem_of_cons in Hk as [Hne Hk]. rewrite decide_False by done. f_equal. auto.
Qed.

Lemma replace_row_dset {A} k (r : A) t : dwf t → replace_row k r t = dset (ddel t k) k r.
Proof.
  intros Hwf. rewrite dset_fresh; [done|]. apply dget_None. by apply dget_ddel_eq.
Qed.

(** A column of distinct keys saved row by row, and scanned back. *)
Lemma save_all_scan {A} (key : A → string) (to_row : A → outcome row) (of_row : row → outcome A)
    (l : list A) (tbl tbl' : odict row) xs :
  (∀ x r, to_row x = Ok r → of_row r = Ok x) →
  save_all (λ x t, let? r := to_row x in Ok (replace_row (key x) r t)) l tbl = Ok tbl' →
  NoDup (dkeys tbl ++ map key l) → omapM of_row (dvals tbl) = Ok xs →
  omapM of_row (dvals tbl') = Ok (xs ++ l).
Proof.
  intros Hrt. revert tbl xs. induction l as [|x l IH]; intros tbl xs; simpl.
  { intros [= ->] _. by rewrite app_nil_r. }
  destruct (to_row x) as [r|] eqn:Hr; cbn [obind]; [|done]. intros Hs Hnd Hxs.
  assert (Hx : key x ∉ dkeys tbl).
  { intros Hin. apply NoDup_app in Hnd as (_ & Hd & _). apply (Hd _ Hin). by left. }
  rewrite replace_row_fresh in Hs by done.
  rewrite (IH _ (xs ++ [x]) Hs); [by rewrite <-app_assoc| |].
  - unfold dkeys in *. by rewrite fmap_app, <-app_assoc.
  - unfold dvals. rewrite fmap_app, omapM_app. unfold dvals in Hxs. rewrite Hxs. cbn.
    by rewrite (Hrt x r Hr).
Qed.

Lemma keyed_keys {A} (f : A → string) (d : odict A) :
  dwf d → Forall (λ kv, f kv.2 = kv.1) d → NoDup (dkeys ([] : odict row) ++ map f (dvals d)).
Proof.
  intros Hd Hf. cbn. replace (map f (dvals d)) with (dkeys d); [done|]. clear Hd.
  induction Hf as [|[k x] d Hx _ IH]; csimpl; [done|]. f_equal; [done|exact IH].
Qed.

Lemma dict_by_keyed {A} (key : A → string) (d : odict A) :
  dwf d → Forall (λ kv, key kv.2 = kv.1) d → dict_by key (dvals d) = d.
Proof.
  intros Hwf Hk. unfold dict_by.
  assert (∀ d0, NoDup (dkeys d0 ++ dkeys d) → foldl (λ d x, dset d (key x) x) d0 (dvals d) = d0 ++ d) as Hgo.
  { clear Hwf. induction Hk as [|[k x] d Hx _ IH]; intros d0 Hnd; simpl; [by rewrite app_nil_r|].
    simpl in Hx. subst k. rewrite dset_fresh.
    - rewrite IH; [by rewrite <-app_assoc|]. unfold dkeys in *. by rewrite fmap_app, <-app_assoc.
    - intros Hin. apply NoDup_app in Hnd as (_ & Hd & _). apply (Hd _ Hin). by left. }
  by rewrite Hgo.
Qed.

Section roundtrips.
Context `{!Oracle}.

(** What a load reads of a saved state. *)
Definition stored_form (s : RuntimeState) : RuntimeState :=
  {| rs_timestamp := rs_timestamp s; rs_tasks := rs_tasks s; rs_workers := rs_workers s;
     rs_queue := rs_queue s; rs_scheduler := real_uptime (rs_scheduler s); rs_schema_version := 1 |}.

Lemma save_load_tables m s t t' :
  state_keyed s → str_truthy (rs_timestamp s) = true → save_tables s t = Ok t' →
  load_tables m t' = Ok (Some (stored_form s)) ∧ snapshots_table t' = snapshots_table t.
Proof.
  intros [Ht Hti Hw Hwi] Hts. unfold save_tables.
  destruct (save_all save_task _ []) as [tt'|] eqn:Et; cbn [obind]; [|done].
  destruct (save_all save_worker _ []) as [wt'|] eqn:Ew; cbn [obind]; [|done].
  destruct (queue_to_row _) as [qr|] eqn:Eq; cbn [obind]; [|done].
  destruct (scheduler_to_row _ _) as [sr|] eqn:Es; cbn [obind]; [|done].
  intros [= <-]. split; [|done]. unfold load_tables. cbn [queue_state_row scheduler_state_row tasks_table workers_table].
  rewrite (queue_row_roundtrip _ _ Eq). cbn [obind].
  destruct (scheduler_row_roundtrip _ _ _ Es) as [-> ->]. cbn [obind]. rewrite Hts. cbn [obind].
  unfold list_task_states, list_worker_states.
  rewrite (save_all_scan ts_task_id task_to_row task_of_row _ [] tt' [] task_row_roundtrip Et (keyed_keys _ _ Ht Hti) eq_refl).
  cbn [obind app].
  rewrite (save_all_scan ws_worker_id worker_to_row worker_state_of_dict _ [] wt' [] worker_row_roundtrip Ew
    (keyed_keys _ _ Hw Hwi) eq_refl).
  cbn [obind app]. by rewrite !dict_by_keyed.
Qed.

(** A write and a read, whatever the database does. *)
Lemma store_transaction_cases n f (c : StateConn) o c' :
  store_transaction n f c = (o, c') →
  (∃ t, o = Ok tt ∧ Tx.working c = None ∧ f (Tx.committed c) = Ok t ∧ store_error n = None ∧ c' = Tx.closed t) ∨
  (∃ x, o = Raise x ∧ c' = c) ∨
  (∃ t x, o = Raise x ∧ Tx.working c = None ∧ f (Tx.committed c) = Ok t ∧ commit_error n = Some x ∧
     c' = Tx.opened (Tx.committed c) t).
Proof.
  unfold store_transaction. intros [(a & t & -> & Hw & Hf & Hn & _ & ->)|[Hr|(a & t & x & -> & Hw & Hf & Hn & ->)]]%Tx.block_cases;
    [|by right; left|].
  - left. exists t. unfold transaction in Hf. destruct (f _); by simplify_eq.
  - right; right. exists t, x. unfold transaction in Hf. destruct (f _); by simplify_eq.
Qed.
Lemma read_transaction_up {A} n (f : StateTables → outcome A) t :
  store_error n = None → commit_error n = None → read_transaction n f (Tx.closed t) = (f t, Tx.closed t).
Proof. intros Hn Hc. unfold read_transaction. rewrite Tx.block_run. unfold Tx.block_on. rewrite Hn, Hc. simpl. by destruct (f t). Qed.
(** Without a fault at its reading, a write is atomic. *)
Lemma store_transaction_up n f (t : StateTables) :
  store_error n = None → commit_error n = None →
  store_transaction n f (Tx.closed t) = let '(o, t') := transaction f t in (o, Tx.closed t').
Proof. intros Hn Hc. unfold store_transaction. rewrite Tx.block_run, Hn, Hc, Tx.block_on_closed. by rewrite Tx.all_transaction. Qed.

Lemma load_saved n m s (c c' : StateConn) :
  state_keyed s → str_truthy (rs_timestamp s) = true → store_error m = None → commit_error m = None →
  save_runtime_state n s c = (Ok tt, c') → load_runtime_state m c' = (Ok (Some (stored_form s)), c').
Proof.
  intros Hk Hts Hm Hcm [(t & _ & _ & Hs & _ & ->)|[(x & [=] & _)|(t & x & [=] & _)]]%store_transaction_cases.
  unfold load_runtime_state. rewrite read_transaction_up by done. by destruct (save_load_tables m s _ t Hk Hts Hs) as [-> _].
Qed.

(** C17: Saving a state of the runtime that has a timestamp and whose tasks and workers
    are under their own ids, and loading it again, on a connection in any
    condition.  After a save that returns, a load that the database does not
    fail returns the saved state, except that its schema version is reset to 1
    and its uptime is a float; the saved snapshots are as they were.  A save
    that raises leaves the connection as it was, unless it is the [COMMIT] that
    fails: then the committed tables are as they were, but the new state, all
    of it, waits in the transaction that is left open, and every later save and
    load raises and leaves it there. *)
Theorem state_save_load n m s (c : StateConn) :
  state_keyed s → str_truthy (rs_timestamp s) = true → store_error m = None → commit_error m = None →
  match save_runtime_state n s c with
  | (Ok _, c') =>
      load_runtime_state m c' = (Ok (Some (stored_form s)), c') ∧
      ∃ t, c' = Tx.closed t ∧ snapshots_table t = snapshots_table (Tx.committed c)
  | (Raise x, c') =>
      c' = c ∨
      (commit_error n = Some x ∧ Tx.committed c' = Tx.committed c ∧
       (∃ w, Tx.working c' = Some w ∧ load_runtime_state m (Tx.closed w) = (Ok (Some (stored_form s)), Tx.closed w)) ∧
       ∀ k s', (∃ y, save_runtime_state k s' c' = (Raise y, c')) ∧ ∃ y, load_runtime_state k c' = (Raise y, c'))
  end.
Proof.
  intros Hk Hts Hm Hcm. destruct (save_runtime_state n s c) as [o c'] eqn:Hs.
  destruct (store_transaction_cases _ _ _ _ _ Hs) as [(t & -> & _ & Ht & _ & ->)|[(x & -> & ->)|(t & x & -> & _ & Ht & Hn & ->)]].
  - split; [by apply (load_saved n m s c)|]. exists t. split; [done|]. by destruct (save_load_tables m s _ t Hk Hts Ht).
  - by left.
  - right. split_and!; [done..| |].
    + exists t. split; [done|]. unfold load_runtime_state. rewrite read_transaction_up by done.
      by destruct (save_load_tables m s _ t Hk Hts Ht) as [-> _].
    + intros k s'. split; apply Tx.block_opened.
Qed.

Lemma state_dict_roundtrip s :
  Forall (λ kv, json_ok (VDict (ts_metadata kv.2)) = true) (rs_tasks s) →
  state_of_dict (state_to_dict s) = Ok s.
Proof.
  intros Hm. unfold state_of_dict, state_to_dict. read_dict.
  rewrite (map_items_Ok _ (λ t, VDict (task_state_to_dict t))).
  2:{ eapply Forall_impl; [exact Hm|]. intros [k t] Ht. cbn [snd as_dict obind] in *.
      unfold task_state_of_dict, task_state_to_dict. read_dict.
      rewrite asdict_json_ok, !as_opt_str_opt, or_empty_dict by done. cbn [as_dict obind]. by destruct t. }
  cbn [obind].
  rewrite (map_items_Ok _ (λ w, VDict (worker_state_to_dict w))).
  2:{ apply Forall_true. intros [k w]. cbn [snd as_dict obind].
      unfold worker_state_of_dict, worker_state_to_dict. read_dict.
      rewrite as_opt_str_opt. cbn [obind]. by destruct w. }
  cbn [obind]. unfold queue_state_of_dict, queue_state_to_dict. read_dict.
  rewrite as_strs_strs, as_opt_int_opt. cbn [obind].
  unfold scheduler_state_of_dict, scheduler_state_to_dict. read_dict.
  rewrite or_empty_strs, as_strs_strs. cbn [obind]. unfold timeouts_to_dict.
  rewrite or_empty_dict. cbn [as_dict as_number obind].
  rewrite (map_items_Ok as_number VNum) by by apply Forall_true. cbn [obind].
  by destruct s as [? ? ? [] [] ?].
Qed.

Lemma save_snapshot_tables sid s v t :
  Forall (λ kv, json_ok (VDict (ts_metadata kv.2)) = true) (rs_tasks s) → dwf t →
  let t' := replace_row sid {| sn_timestamp := rs_timestamp s; sn_state_data := VDict (state_to_dict s); sn_schema_version := v |} t in
  let read i (t : odict snapshot_row) :=
    match dget t i with
    | None => Ok None
    | Some r => match loads (sn_state_data r) with
                | VDict d => let? s := state_of_dict d in Ok (Some s)
                | _ => Raise bad_field
                end
    end in
  read sid t' = Ok (Some s) ∧ read sid (ddel t' sid) = Ok None ∧
  ∀ k, k ≠ sid → read k t' = read k t ∧ read k (ddel t' sid) = read k t.
Proof.
  intros Hm Hwf t' read. assert (dwf t') as Hwf'. { unfold t'. rewrite replace_row_dset by done. by apply dset_wf, ddel_wf. }
  assert (∀ k, dget t' k =
            if decide (k = sid) then Some {| sn_timestamp := rs_timestamp s; sn_state_data := VDict (state_to_dict s);
                                             sn_schema_version := v |}
            else dget t k) as Hget.
  { intros k. unfold t'. rewrite replace_row_dset by done. case_decide as Hk; [subst; by rewrite dget_dset_eq|].
    by rewrite dget_dset_ne, dget_ddel_ne by done. }
  unfold read. split_and!.
  - rewrite Hget, decide_True by done. cbn [sn_state_data]. unfold loads. by rewrite state_dict_roundtrip.
  - by rewrite dget_ddel_eq.
  - intros k Hk. rewrite (dget_ddel_ne _ _ k), Hget, decide_False by done. done.
Qed.
(** A snapshot saved under a name is what a load of that name gives back,
    schema version included, and loads of other names are as before; deleting
    it removes it and nothing else.  The loads are those the database does not
    fail. *)
Theorem snapshot_roundtrip n sid s t c' m c'' j :
  store_error j = None → commit_error j = None →
  Forall (λ kv, json_ok (VDict (ts_metadata kv.2)) = true) (rs_tasks s) → dwf (snapshots_table t) →
  save_snapshot n sid s (Tx.closed t) = (Ok tt, c') → delete_snapshot m sid c' = (Ok tt, c'') →
  (load_snapshot j sid c').1 = Ok (Some s) ∧ (load_snapshot j sid c'').1 = Ok None ∧
  ∀ k, k ≠ sid → (load_snapshot j k c').1 = (load_snapshot j k (Tx.closed t)).1 ∧
    (load_snapshot j k c'').1 = (load_snapshot j k (Tx.closed t)).1.
Proof.
  intros Hup Hcup Hm Hwf. unfold save_snapshot, bind, of_outcome.
  destruct (dumps _) as [js|] eqn:Hj; [|done]. apply dumps_Ok in Hj as [-> _].
  intros [(t1 & _ & _ & H1 & _ & ->)|[(x & [=] & _)|(? & x & [=] & _)]]%store_transaction_cases.
  intros [(t2 & _ & _ & H2 & _ & ->)|[(x & [=] & _)|(? & x & [=] & _)]]%store_transaction_cases.
  unfold snapshot_tables, drop_snapshot in H1, H2. destruct (sql_int _) as [v|]; cbn [obind] in H1; [|done]. simplify_eq/=.
  unfold load_snapshot. destruct (save_snapshot_tables sid s v (snapshots_table t) Hm Hwf) as (Ha & Hb & Hc).
  split_and!; [by rewrite read_transaction_up..|]. intros k Hk. destruct (Hc k Hk). rewrite !read_transaction_up by done.
  by unfold find_snapshot.
Qed.
End roundtrips.

(** * Examples *)
Section examples.
#[local] Existing Instance sample_oracle.
Definition sample_state : RuntimeState :=
  {| rs_timestamp := "2026-01-01"; rs_workers := [];
     rs_tasks := [("a", {| ts_task_id := "a"; ts_title := "build"; ts_task_type := "PYTHON"; ts_status := "Running";
                           ts_created_at := "2026-01-01"; ts_started_at := Some "2026-01-01"; ts_completed_at := None;
                           ts_retry_count := 1; ts_metadata := [("cmd", VStr "x")]; ts_error_message := None;
                           ts_version := 1 |})];
     rs_queue := {| qs_queued_task_ids := ["a"]; qs_size := 1; qs_capacity := Some 5; qs_policy_type := "FIFO";
                    qs_version := 1 |};
     rs_scheduler := {| ss_started := true; ss_uptime_seconds := PInt 3; ss_delayed_task_ids := [];
                        ss_active_timeouts := [("a", PInt 5)]; ss_version := 1 |};
     rs_schema_version := 7 |}.
Definition new_conn : StateConn := Tx.closed empty_tables.
Definition sample_saved : StateConn := (save_runtime_state 0 sample_state new_conn).2.

Lemma sample_keyed : state_keyed sample_state.
Proof. constructor; try (apply (bool_decide_unpack _); vm_compute; exact I); repeat constructor. Qed.
Lemma snapshot_roundtrip_witness :
  let c' := (save_snapshot 0 "s" sample_state new_conn).2 in
  (load_snapshot 2 "s" c').1 = Ok (Some sample_state) ∧ (load_snapshot 2 "s" (delete_snapshot 1 "s" c').2).1 = Ok None.
Proof.
  intros c'.
  destruct (snapshot_roundtrip 0 "s" sample_state empty_tables c' 1 (delete_snapshot 1 "s" c').2 2) as (H1 & H2 & _).
  - reflexivity.
  - reflexivity.
  - repeat constructor.
  - constructor.
  - vm_compute. reflexivity.
  - vm_compute. reflexivity.
  - split; [exact H1|exact H2].
Defined.
End examples.

(** A database that refuses the [COMMIT] of reading 5. *)
Definition full_oracle : Oracle := {|
  uuid4 := @uuid4 sample_oracle; now_iso := @now_iso sample_oracle; time_now := @time_now sample_oracle;
  now_us := @now_us sample_oracle; iso_timestamp := @iso_timestamp sample_oracle; fpow := @fpow sample_oracle;
  store_error n := None;
  commit_error n := if decide (n = 5%nat) then Some (Tx.OperationalError "database or disk is full") else None
|}.
Section full.
#[local] Existing Instance full_oracle.
Lemma state_save_load_witness :
  (load_runtime_state 1 (save_runtime_state 0 sample_state new_conn).2).1 = Ok (Some (stored_form sample_state)) ∧
  rs_schema_version (stored_form sample_state) = 1 ∧
  let c' := (save_runtime_state 5 sample_state new_conn).2 in
  Tx.committed c' = empty_tables ∧ ∃ y, load_runtime_state 6 c' = (Raise y, c').
Proof.
  pose proof (state_save_load 0 1 sample_state new_conn sample_keyed eq_refl eq_refl eq_refl) as H.
  pose proof (state_save_load 5 1 sample_state new_conn sample_keyed eq_refl eq_refl eq_refl) as H'.
  split; [|split; [reflexivity|]].
  - assert ((save_runtime_state 0 sample_state new_conn).1 = Ok tt) as E by (vm_compute; reflexivity).
    destruct (save_runtime_state 0 sample_state new_conn) as [o c]. cbn [fst snd] in *. subst o. destruct H as [H _].
    rewrite H. reflexivity.
  - assert ((save_runtime_state 5 sample_state new_conn).1 = Raise (Tx.OperationalError "database or disk is full")) as E
      by (vm_compute; reflexivity).
    assert (Tx.working (save_runtime_state 5 sample_state new_conn).2 ≠ None) as Hw by (vm_compute; discriminate).
    destruct (save_runtime_state 5 sample_state new_conn) as [o c]. cbn [fst snd] in *. subst o.
    destruct H' as [->|(_ & Hc & _ & Hl)]; [destruct Hw; reflexivity|]. split; [exact Hc|].
    exact (proj2 (Hl 6%nat sample_state)).
Defined.
End full.
