(* ===== verification/StorePorts.v ===== *)
(** The ports of [persistence/domain/ports.py], as classes of operations with
    the laws their clients rely on, and the SQLite adapters as instances: the
    repositories of [persistence/adapters/sqlite/repositories.py] as finite
    maps, the event store as an append-only list and the state store as a
    current state next to a finite map of named snapshots, until a refused
    COMMIT makes it stuck. *)
From S2P Require Import Prelude PyNum Values Decode Events EventStore RuntimeState Sync Transactions.
From stdpp Require Import gmap sorting.
Open Scope Z_scope.

(** * Repositories *)
Class TaskStateRepository (S : Type) : Type := {
  tr_save : TaskExecutionState → M S unit;
  tr_get : string → S → outcome (option TaskExecutionState);
  tr_list_all : S → outcome (list TaskExecutionState);
  tr_delete : string → M S unit
}.
Class WorkerStateRepository (S : Type) : Type := {
  wr_save : WorkerStateSnapshot → M S unit;
  wr_get : string → S → outcome (option WorkerStateSnapshot);
  wr_list_all : S → outcome (list WorkerStateSnapshot)
}.

(** A repository is a finite map by [key]: [save] adds or replaces, or raises
    and changes nothing. *)
Record RepositoryLaws {S A} (key : A → string) (save : A → M S unit)
    (get : string → S → outcome (option A)) (list_all : S → outcome (list A))
    (holds : S → gmap string A → Prop) : Prop := {
  rl_save x s m : holds s m →
    (∃ s', save x s = (Ok tt, s') ∧ holds s' (<[key x := x]> m)) ∨ (∃ e, save x s = (Raise e, s));
  rl_get i s m : holds s m → get i s = Ok (m !! i);
  rl_list s m : holds s m → ∃ l, list_all s = Ok l ∧ l ≡ₚ (map_to_list m).*2
}.

Section tables.
Context {A R : Type} (of_row : R → outcome A).
Implicit Types (t : odict R) (m : gmap string A).

(** Every row of the table reads as the map's entry of its key. *)
Definition table_holds t m : Prop :=
  dwf t ∧ ∀ i, match dget t i with
               | Some r => ∃ x, of_row r = Ok x ∧ m !! i = Some x
               | None => m !! i = None
               end.

Lemma table_get t m i :
  table_holds t m →
  match dget t i with None => Ok None | Some r => let? x := of_row r in Ok (Some x) end = Ok (m !! i).
Proof.
  intros [_ Ht]. specialize (Ht i). destruct (dget t i) as [r|]; [|by rewrite Ht].
  destruct Ht as (x & -> & ->). done.
Qed.

Lemma table_list t m :
  table_holds t m → ∃ l, omapM of_row (dvals t) = Ok l ∧ l ≡ₚ (map_to_list m).*2.
Proof.
  revert m. induction t as [|[k r] t IH]; intros m [Hwf Ht].
  - exists []. split; [done|]. assert (m = ∅) as -> by (apply map_eq; intros i; rewrite lookup_empty; apply (Ht i)).
    by rewrite map_to_list_empty.
  - pose proof (Ht k) as Hk. simpl in Hk. rewrite decide_True in Hk by done. destruct Hk as (x & Hx & Hm).
    unfold dwf, dkeys in Hwf. csimpl in Hwf. apply NoDup_cons in Hwf as [Hni Hwf].
    destruct (IH (delete k m)) as (l & Hl & Hp).
    { split; [done|]. intros i. specialize (Ht i). rewrite lookup_delete. simpl in Ht.
      destruct (decide (k = i)) as [<-|Hne]; [|rewrite decide_False in Ht by done; exact Ht].
      by rewrite (proj2 (dget_None t k) Hni). }
    exists (x :: l). unfold dvals in *. csimpl. rewrite Hx; simpl. rewrite Hl; simpl. split; [done|].
    rewrite <-(map_to_list_delete m k x Hm). csimpl. by rewrite Hp.
Qed.

Lemma table_put k x r t m :
  table_holds t m → of_row r = Ok x → table_holds (replace_row k r t) (<[k := x]> m).
Proof.
  intros [Hwf Ht] Hr. rewrite replace_row_dset by done. split; [by apply dset_wf, ddel_wf|]. intros i.
  destruct (decide (k = i)) as [<-|Hne].
  - rewrite dget_dset_eq, lookup_insert_eq. by exists x.
  - rewrite dget_dset_ne, dget_ddel_ne, lookup_insert_ne by done. apply Ht.
Qed.
Lemma table_delete i t m : table_holds t m → table_holds (ddel t i) (delete i m).
Proof.
  intros [Hwf Ht]. split; [by apply ddel_wf|]. intros j. destruct (decide (i = j)) as [<-|Hne].
  - by rewrite dget_ddel_eq, lookup_delete_eq.
  - rewrite dget_ddel_ne, lookup_delete_ne by done. apply Ht.
Qed.

Lemma table_keys t m : table_holds t m → dkeys t ≡ₚ (map_to_list m).*1.
Proof.
  intros [Hwf Ht]. apply NoDup_Permutation; [exact Hwf|apply NoDup_fst_map_to_list|].
  intros i. rewrite <-dget_is_Some, list_elem_of_fmap. specialize (Ht i). split.
  - intros [r Hr]. rewrite Hr in Ht. destruct Ht as (x & _ & Hm). exists (i, x). by rewrite elem_of_map_to_list.
  - intros ([j x] & -> & Hm%elem_of_map_to_list). simpl. simpl in Ht. destruct (dget t j); [by eexists|]. simpl in Hm. congruence.
Qed.

(** A table written with [to_row] under [key] obeys the laws. *)
Lemma table_laws (key : A → string) (to_row : A → outcome R) :
  (∀ x r, to_row x = Ok r → of_row r = Ok x) →
  RepositoryLaws key (λ x, transaction (λ t, let? r := to_row x in Ok (replace_row (key x) r t)))
    (λ i t, match dget t i with None => Ok None | Some r => let? x := of_row r in Ok (Some x) end)
    (λ t, omapM of_row (dvals t)) table_holds.
Proof.
  intros Hrow. split.
  - intros x t m Ht. unfold transaction. destruct (to_row x) as [r|e] eqn:Hr; simpl; [left|right; by exists e].
    eexists. split; [done|]. apply table_put; auto.
  - intros i t m. apply table_get.
  - apply table_list.
Qed.
End tables.

(** [SQLiteTaskStateRepository], [SQLiteWorkerStateRepository] on their tables *)
#[export] Instance sqlite_task_repository : TaskStateRepository (odict row) := {|
  tr_save t := transaction (save_task t);
  tr_get := get_task_state;
  tr_list_all := list_task_states;
  tr_delete i := modify (delete_task_state i)
|}.
#[export] Instance sqlite_worker_repository : WorkerStateRepository (odict row) := {|
  wr_save w := transaction (save_worker w);
  wr_get := get_worker_state;
  wr_list_all := list_worker_states
|}.

(** Both SQLite repositories keep the finite map of what was saved and not
    deleted: [get] answers it, [list_all] enumerates it. *)
Theorem sqlite_repositories_are_maps :
  RepositoryLaws ts_task_id tr_save tr_get tr_list_all (table_holds task_of_row) ∧
  (∀ i t m, table_holds task_of_row t m →
     ∃ t', tr_delete i t = (Ok tt, t') ∧ table_holds task_of_row t' (delete i m)) ∧
  RepositoryLaws ws_worker_id wr_save wr_get wr_list_all (table_holds worker_state_of_dict).
Proof.
  split_and!.
  - apply (table_laws task_of_row ts_task_id task_to_row task_row_roundtrip).
  - intros i t m Ht. eexists. split; [done|]. by apply table_delete.
  - apply (table_laws worker_state_of_dict ws_worker_id worker_to_row worker_row_roundtrip).
Qed.

(** * The event store *)
Abbreviation ids := (map event_id).

Class EventStorePort (S : Type) : Type := {
  es_append : nat → RuntimeEvent → M S unit;
  es_append_batch : nat → list RuntimeEvent → M S unit;
  es_load : string → S → outcome (option RuntimeEvent);
  es_stream : Z → Z → S → outcome (list RuntimeEvent);
  es_stream_from : string → Z → Z → S → outcome (list RuntimeEvent);
  es_replay : string → S → outcome (list RuntimeEvent);
  es_count : S → Z;
  es_truncate : S → S
}.

(** An append-only list of events with distinct ids.  A write that fails
    changes nothing; it fails only when an id is taken or the storage is down
    at that write. *)
Class EventStoreLaws (S : Type) `{EventStorePort S} : Type := {
  es_holds : S → list RuntimeEvent → Prop;
  es_down : nat → Prop;
  es_batch_law n es s l : es_holds s l → Forall event_wf es → NoDup (ids l) →
    (∃ s', es_append_batch n es s = (Ok tt, s') ∧ es_holds s' (l ++ es) ∧ NoDup (ids (l ++ es))) ∨
    ((∃ x, es_append_batch n es s = (Raise x, s)) ∧ (es_down n ∨ ¬ NoDup (ids (l ++ es))));
  es_append_law n e s : es_append n e s = es_append_batch n [e] s;
  es_load_law i s l : es_holds s l → es_load i s = Ok (head (filter (λ e, event_id e = i) l));
  es_stream_law limit offset s l : es_holds s l → es_stream limit offset s = Ok (sql_window limit offset l);
  es_stream_from_law ts limit offset s l : es_holds s l →
    es_stream_from ts limit offset s = Ok (sql_window limit offset (filter (λ e, String.leb ts (timestamp e) = true) l));
  es_replay_law r s l : es_holds s l → es_replay r s = Ok (filter (λ e, runtime_id e = r) l);
  es_count_law s l : es_holds s l → es_count s = Z.of_nat (length l);
  es_truncate_law s : ∀ l, es_holds s l → es_holds (es_truncate s) []
}.

(** ** Clients of any event store *)
Section event_clients.
Context {S : Type} `{EventStoreLaws S}.
Implicit Types (l : list RuntimeEvent).

Inductive write : Type :=
  | Append (e : RuntimeEvent)
  | Batch (es : list RuntimeEvent)
  | Truncate.
Definition events_of (w : write) : list RuntimeEvent :=
  match w with Append e => [e] | Batch es => es | Truncate => [] end.

(** A write at the [n]-th reading; its client may go on after a failure. *)
Definition do_write (n : nat) (w : write) : M S unit :=
  match w with
  | Append e => es_append n e
  | Batch es => es_append_batch n es
  | Truncate => modify es_truncate
  end.
Fixpoint do_writes (n : nat) (ws : list write) (s : S) : list (outcome unit) * S :=
  match ws with
  | [] => ([], s)
  | w :: ws' =>
      let '(o, s1) := do_write n w s in let '(os, s2) := do_writes (Datatypes.S n) ws' s1 in (o :: os, s2)
  end.
(** The list they make: the events of the writes that succeeded since the last
    [truncate]. *)
Definition logged (l : list RuntimeEvent) (x : write * outcome unit) : list RuntimeEvent :=
  match x with
  | (Truncate, _) => []
  | (w, Ok _) => l ++ events_of w
  | (_, Raise _) => l
  end.

Lemma do_write_spec n w s l :
  es_holds s l → NoDup (ids l) → Forall event_wf (events_of w) →
  ∃ o s', do_write n w s = (o, s') ∧ es_holds s' (logged l (w, o)) ∧ NoDup (ids (logged l (w, o))) ∧
    (¬ es_down n → NoDup (ids (l ++ events_of w)) → o = Ok tt).
Proof.
  intros Hs Hnd Hwf.
  assert (∀ es, Forall event_wf es →
    ∃ o s', es_append_batch n es s = (o, s') ∧
      let l' := match o with Ok _ => l ++ es | Raise _ => l end in
      es_holds s' l' ∧ NoDup (ids l') ∧ (¬ es_down n → NoDup (ids (l ++ es)) → o = Ok tt)) as Hb.
  { intros es Hes.
    destruct (es_batch_law n es s l Hs Hes Hnd) as [(s' & Hrun & Hs' & Hnd')|[[x Hrun] Hfail]].
    - exists (Ok tt), s'. split; [done|]. by split_and!.
    - exists (Raise x), s. split; [done|]. split; [done|]. split; [done|]. intros Hup Hok; by destruct Hfail. }
  destruct w as [e|es|]; simpl in *.
  - rewrite es_append_law. destruct (Hb [e] Hwf) as (o & s' & Hrun & Hh). exists o, s'.
    split; [done|]. by destruct o.
  - destruct (Hb es Hwf) as (o & s' & Hrun & Hh). exists o, s'. split; [done|]. by destruct o.
  - eexists _, _. split; [done|]. split_and!; [by eapply es_truncate_law|constructor|done].
Qed.

(** Whatever writes reach an event store, in whatever order and whichever of
    them fail, it holds the events of those that succeeded, in order, each id
    once. *)
Lemma event_port_holds n ws s l :
  es_holds s l → NoDup (ids l) → Forall event_wf (ws ≫= events_of) →
  let '(os, s') := do_writes n ws s in
  let l' := foldl logged l (zip ws os) in es_holds s' l' ∧ NoDup (ids l').
Proof.
  revert n s l. induction ws as [|w ws IH]; intros n s l Hs Hnd Hwf; simpl; [done|].
  csimpl in Hwf. apply Forall_app in Hwf as [Hw Hwf].
  destruct (do_write_spec n w s l Hs Hnd Hw) as (o & s1 & -> & Hs1 & Hnd1 & _).
  specialize (IH (Datatypes.S n) s1 _ Hs1 Hnd1 Hwf). destruct (do_writes _ ws s1) as [os s2]. exact IH.
Qed.
End event_clients.

(** ** [SQLiteEventStore] *)
Section sqlite_events.
Context `{!Oracle}.

#[export] Instance sqlite_event_store : EventStorePort EventTable := {|
  es_append := append; es_append_batch := append_batch; es_load := load; es_stream := stream;
  es_stream_from := stream_from; es_replay := replay; es_count := count; es_truncate := truncate
|}.

Lemma insert_events_taken es t l :
  holds t l → Forall event_wf es → NoDup (ids l) → ¬ NoDup (ids (l ++ es)) →
  insert_events es t = Raise IntegrityError.
Proof.
  revert t l. induction es as [|e es IH]; intros t l Ht Hwf Hnd Hdup; simpl.
  { rewrite app_nil_r in Hdup. done. }
  apply Forall_cons in Hwf as [He Hwf]. destruct (decide (event_id e ∈ ids l)) as [Hin|Hni].
  - unfold insert_event. destruct (event_to_row_wf (next_sequence t) e He) as [r ->]; simpl.
    by rewrite decide_True by (by rewrite (holds_ids t l Ht)).
  - destruct (insert_event_holds t l e Ht He Hni) as (t' & -> & Ht'). simpl.
    apply (IH t' (l ++ [e])); [done..| |by rewrite <-app_assoc].
    rewrite map_app. apply NoDup_app. split_and!; [done| |apply NoDup_singleton].
    intros i Hi ->%list_elem_of_singleton. done.
Qed.

#[export] Program Instance sqlite_event_store_laws : EventStoreLaws EventTable := {|
  es_holds := holds;
  es_down n := is_Some (store_error n)
|}.
Next Obligation.
  intros n es t l Ht Hwf Hnd. unfold es_append_batch; simpl. unfold append_batch, transaction.
  destruct (match store_error n, es with Some x, _ :: _ => Some x | _, _ => None end) as [x|] eqn:Hdown.
  { destruct (store_error n) as [y|], es; [done| |done..]. right. split; [by eexists|left; by eexists]. }
  assert (match store_error n, es with Some x, _ :: _ => Raise x | _, _ => insert_events es t end = insert_events es t) as ->.
  { by destruct (store_error n), es. }
  destruct (decide (NoDup (ids (l ++ es)))) as [Hok|Hno].
  - left. destruct (insert_events_holds es t l Ht Hwf Hok) as (t' & -> & Ht'). by exists t'.
  - right. rewrite (insert_events_taken es t l Ht Hwf Hnd Hno). split; [by eexists|by right].
Qed.
Next Obligation.
  intros n e t. simpl. unfold append, append_batch, transaction. simpl.
  by destruct (store_error n), (insert_event e t).
Qed.
Next Obligation. intros. by apply load_holds. Qed.
Next Obligation. intros. by apply stream_holds. Qed.
Next Obligation. intros. by apply stream_from_holds. Qed.
Next Obligation. intros. by apply replay_holds. Qed.
Next Obligation. intros t l [Hl _]. simpl. unfold count. by rewrite (Forall2_length _ _ _ Hl). Qed.
Next Obligation. intros. split_and!; constructor. Qed.

(** *** The log it is *)
(** A write at the [n]-th reading. *)
Definition sqlite_write (n : nat) (w : write) : M EventTable unit :=
  match w with
  | Append e => append n e
  | Batch es => append_batch n es
  | Truncate => modify truncate
  end.
Fixpoint sqlite_writes (n : nat) (ws : list write) (t : EventTable) : list (outcome unit) * EventTable :=
  match ws with
  | [] => ([], t)
  | w :: ws' =>
      let '(o, t1) := sqlite_write n w t in let '(os, t2) := sqlite_writes (Datatypes.S n) ws' t1 in (o :: os, t2)
  end.
(** The same write on a list of events: all of the events are added at the
    end, or the write raises and none is. *)
Definition log_write (n : nat) (w : write) (l : list RuntimeEvent) : outcome unit * list RuntimeEvent :=
  match w, events_of w with
  | Truncate, _ => (Ok tt, [])
  | _, [] => (Ok tt, l)
  | _, es =>
      match store_error n with
      | Some x => (Raise x, l)
      | None => if decide (NoDup (ids (l ++ es))) then (Ok tt, l ++ es) else (Raise IntegrityError, l)
      end
  end.
Fixpoint log_writes (n : nat) (ws : list write) (l : list RuntimeEvent) : list (outcome unit) * list RuntimeEvent :=
  match ws with
  | [] => ([], l)
  | w :: ws' =>
      let '(o, l1) := log_write n w l in let '(os, l2) := log_writes (Datatypes.S n) ws' l1 in (o :: os, l2)
  end.

Lemma batch_refines n es t l :
  holds t l → NoDup (ids l) → Forall event_wf es →
  let '(o, t') := append_batch n es t in
  log_write n (Batch es) l = (o, (log_write n (Batch es) l).2) ∧
  holds t' (log_write n (Batch es) l).2 ∧ NoDup (ids (log_write n (Batch es) l).2).
Proof.
  intros Ht Hnd Hwf. unfold append_batch, transaction, log_write, events_of.
  destruct es as [|e es]; [by destruct (store_error n)|]. destruct (store_error n) as [x|]; [done|].
  case_decide as Hok.
  - by destruct (insert_events_holds (e :: es) t l Ht Hwf Hok) as (t' & -> & Ht').
  - by rewrite (insert_events_taken (e :: es) t l Ht Hwf Hnd Hok).
Qed.
Lemma append_batch_one n e t : append n e t = append_batch n [e] t.
Proof. unfold append, append_batch, transaction. simpl. by destruct (store_error n), (insert_event e t). Qed.
Lemma sqlite_write_refines n w t l :
  holds t l → NoDup (ids l) → Forall event_wf (events_of w) →
  let '(o, t') := sqlite_write n w t in
  ∃ l', log_write n w l = (o, l') ∧ holds t' l' ∧ NoDup (ids l').
Proof.
  intros Ht Hnd Hwf. destruct w as [e|es|]; simpl sqlite_write; simpl in Hwf.
  - rewrite append_batch_one. pose proof (batch_refines n [e] t l Ht Hnd Hwf) as Hr.
    destruct (append_batch n [e] t) as [o t']. by eexists.
  - pose proof (batch_refines n es t l Ht Hnd Hwf) as Hr. destruct (append_batch n es t) as [o t']. by eexists.
  - unfold modify. exists []. split_and!; [done|split_and!; constructor|constructor].
Qed.
Lemma sqlite_writes_refine n ws t l :
  holds t l → NoDup (ids l) → Forall event_wf (ws ≫= events_of) →
  let '(os, t') := sqlite_writes n ws t in
  ∃ l', log_writes n ws l = (os, l') ∧ holds t' l' ∧ NoDup (ids l').
Proof.
  revert n t l. induction ws as [|w ws IH]; intros n t l Ht Hnd Hwf; [by eexists|].
  csimpl in Hwf. apply Forall_app in Hwf as [Hw Hwf]. cbn [sqlite_writes log_writes].
  pose proof (sqlite_write_refines n w t l Ht Hnd Hw) as Hr. destruct (sqlite_write n w t) as [o t1].
  destruct Hr as (l1 & -> & Ht1 & Hnd1). specialize (IH (Datatypes.S n) t1 l1 Ht1 Hnd1 Hwf).
  destruct (sqlite_writes _ ws t1) as [os t2]. destruct IH as (l2 & -> & Ht2 & Hnd2). by eexists.
Qed.

(** C24: The SQLite event store is an append-only log.  Starting from a table that
    holds a list of events with distinct ids, any sequence of [append], [append_batch] and
    [truncate] of events of the registered classes (with metadata that JSON can
    represent and a version of 64 bits) has the outcomes that the same
    writes have on the list: a batch is added at its end, in order and as a
    whole, or raises - what the database raises, or [IntegrityError] when an id
    is taken - and adds nothing; an empty batch always succeeds.  Afterwards
    [load], [stream], [stream_from], [replay] and [count] are the reads of that
    list, in which no id occurs twice. *)
Theorem event_store_refines_log n ws t l :
  holds t l → NoDup (ids l) → Forall event_wf (ws ≫= events_of) →
  let '(os, t') := sqlite_writes n ws t in
  ∃ l', log_writes n ws l = (os, l') ∧ NoDup (ids l') ∧ count t' = Z.of_nat (length l') ∧
  (∀ limit offset, stream limit offset t' = Ok (sql_window limit offset l')) ∧
  (∀ ts limit offset, stream_from ts limit offset t' =
     Ok (sql_window limit offset (filter (λ e, String.leb ts (timestamp e) = true) l'))) ∧
  (∀ r, replay r t' = Ok (filter (λ e, runtime_id e = r) l')) ∧
  ∀ i, load i t' = Ok (head (filter (λ e, event_id e = i) l')).
Proof.
  intros Ht Hnd Hwf. pose proof (sqlite_writes_refine n ws t l Ht Hnd Hwf) as Hr.
  destruct (sqlite_writes n ws t) as [os t']. destruct Hr as (l' & Hl & Ht' & Hnd'). exists l'.
  split_and!; [done|done| |intros; by apply stream_holds|intros; by apply stream_from_holds|intros; by apply replay_holds
    |intros; by apply load_holds].
  unfold count. destruct Ht' as [Hl' _]. by rewrite (Forall2_length _ _ _ Hl').
Qed.
End sqlite_events.

(** * The state store *)
Class BaseStateStore (S : Type) : Type := {
  st_data : Type;
  st_transaction : nat → (st_data → outcome st_data) → M S unit;
  st_save_runtime_state : nat → RuntimeState → M S unit;
  st_load_runtime_state : nat → M S (option RuntimeState);
  st_save_snapshot : nat → string → RuntimeState → M S unit;
  st_load_snapshot : nat → string → M S (option RuntimeState);
  st_list_snapshots : nat → M S (list string);
  st_delete_snapshot : nat → string → M S unit;
  st_health_check : nat → M S bool
}.

(** A state JSON gives back as it is: no policy object in a task's metadata. *)
Definition plain_state (x : RuntimeState) : Prop :=
  Forall (λ kv, json_ok (VDict (ts_metadata kv.2)) = true) (rs_tasks x).
(** Newest first. *)
Definition newest_first (m : gmap string RuntimeState) (l : list string) : Prop :=
  StronglySorted (λ i j, ∀ x y, m !! i = Some x → m !! j = Some y →
    String.leb (rs_timestamp y) (rs_timestamp x) = true) l.
(** A call raised: the store is as it was, or stuck. *)
Definition raised {S A} (stuck : S → Prop) (s : S) (r : outcome A * S) : Prop :=
  ∃ e s', r = (Raise e, s') ∧ (s' = s ∨ stuck s').

(** The named snapshots are a finite map, newest first when listed, and no
    access to them touches the current state.  A call that raises changes
    nothing, unless it leaves the store stuck; then all raise from then on. *)
Class StateStoreLaws (S : Type) `{BaseStateStore S} : Type := {
  st_holds : S → gmap string RuntimeState → Prop;
  st_stuck : S → Prop;
  st_down : nat → Prop;
  st_save_snapshot_law n i x s m : st_holds s m → plain_state x →
    (∃ s', st_save_snapshot n i x s = (Ok tt, s') ∧ st_holds s' (<[i := x]> m) ∧
       ∀ k, (st_load_runtime_state k s').1 = (st_load_runtime_state k s).1) ∨
    raised st_stuck s (st_save_snapshot n i x s);
  st_load_snapshot_law n i s m : st_holds s m →
    st_load_snapshot n i s = (Ok (m !! i), s) ∨ (raised st_stuck s (st_load_snapshot n i s) ∧ st_down n);
  st_delete_snapshot_law n i s m : st_holds s m →
    (∃ s', st_delete_snapshot n i s = (Ok tt, s') ∧ st_holds s' (delete i m) ∧
       ∀ k, (st_load_runtime_state k s').1 = (st_load_runtime_state k s).1) ∨
    (raised st_stuck s (st_delete_snapshot n i s) ∧ st_down n);
  st_list_snapshots_law n s m : st_holds s m →
    (∃ l, st_list_snapshots n s = (Ok l, s) ∧ l ≡ₚ (map_to_list m).*1 ∧ newest_first m l) ∨
    (raised st_stuck s (st_list_snapshots n s) ∧ st_down n);
  st_health_law n s m : st_holds s m → (st_health_check n s).1 = Ok true ↔ ¬ st_down n;
  st_stuck_law n i x s : st_stuck s →
    (∃ e, st_save_runtime_state n x s = (Raise e, s)) ∧ (∃ e, st_load_runtime_state n s = (Raise e, s)) ∧
    (∃ e, st_save_snapshot n i x s = (Raise e, s)) ∧ (∃ e, st_load_snapshot n i s = (Raise e, s)) ∧
    (∃ e, st_list_snapshots n s = (Raise e, s)) ∧ ∃ e, st_delete_snapshot n i s = (Raise e, s)
}.

(** ** [SQLiteStateStore] *)

(** [ORDER BY ... DESC] on (key, text) pairs: rows of equal texts come in an
    order the database chooses. *)
Class SqlOrder : Type := {
  order_desc : list (string * string) → list (string * string);
  order_desc_perm l : order_desc l ≡ₚ l;
  order_desc_sorted l : StronglySorted (λ x y, String.leb y.2 x.2 = true) (order_desc l)
}.

Section sqlite_states.
Context `{!Oracle} `{!SqlOrder}.

(** [list_snapshots], [health_check] *)
Definition list_snapshots (n : nat) : M StateConn (list string) := read_transaction n (λ t,
  Ok (order_desc (prod_map id sn_timestamp <$> snapshots_table t)).*1).
Definition health_check (n : nat) : M StateConn bool :=
  catch (one <- read_transaction n (λ _, Ok 1) ;; ret (one =? 1))
    (λ x, if isinstance x "Exception" then ret false else raise x).

#[export] Instance sqlite_state_store : BaseStateStore StateConn := {|
  st_transaction := store_transaction;
  st_save_runtime_state := save_runtime_state; st_load_runtime_state := load_runtime_state;
  st_save_snapshot := save_snapshot; st_load_snapshot := load_snapshot;
  st_list_snapshots := list_snapshots; st_delete_snapshot := delete_snapshot;
  st_health_check := health_check
|}.

(** The rows read as the map's snapshots, and carry their timestamps. *)
Definition read_snapshot (r : snapshot_row) : outcome RuntimeState :=
  match loads (sn_state_data r) with VDict d => state_of_dict d | _ => Raise bad_field end.
Definition stamped_row (r : snapshot_row) : Prop :=
  ∀ x, read_snapshot r = Ok x → sn_timestamp r = rs_timestamp x.
Definition snapshots_hold (t : StateTables) (m : gmap string RuntimeState) : Prop :=
  table_holds read_snapshot (snapshots_table t) m ∧
  ∀ i r, dget (snapshots_table t) i = Some r → stamped_row r.

(** The connection has no open transaction, and its tables hold the snapshots. *)
Definition conn_holds (c : StateConn) (m : gmap string RuntimeState) : Prop :=
  ∃ t, c = Tx.closed t ∧ snapshots_hold t m.
Definition conn_stuck (c : StateConn) : Prop := is_Some (Tx.working c).
(** The access at reading [n] fails. *)
Definition conn_down (n : nat) : Prop := is_Some (store_error n) ∨ is_Some (commit_error n).

Lemma read_law {A} n (f : StateTables → outcome A) (t : StateTables) a :
  f t = Ok a → read_transaction n f (Tx.closed t) = (Ok a, Tx.closed t) ∨
  (raised conn_stuck (Tx.closed t) (read_transaction n f (Tx.closed t)) ∧ conn_down n).
Proof.
  intros Hf. unfold read_transaction, raised, conn_stuck, conn_down. rewrite Tx.block_run. unfold Tx.block_on. simpl.
  rewrite Hf. destruct (store_error n) as [x|]; simpl.
  - right. split; [|left; by eexists]. eexists _, _. split; [done|by left].
  - destruct (commit_error n) as [x|]; [|by left]. right. split; [|right; by eexists].
    eexists _, _. split; [done|]. right. by eexists.
Qed.
Lemma write_law n f (t t' : StateTables) :
  f t = Ok t' → store_transaction n f (Tx.closed t) = (Ok tt, Tx.closed t') ∨
  (raised conn_stuck (Tx.closed t) (store_transaction n f (Tx.closed t)) ∧ conn_down n).
Proof.
  intros Hf. unfold store_transaction, raised, conn_stuck, conn_down. rewrite Tx.block_run. unfold Tx.block_on, transaction. simpl.
  rewrite Hf. destruct (store_error n) as [x|]; simpl.
  - right. split; [|left; by eexists]. eexists _, _. split; [done|by left].
  - destruct (commit_error n) as [x|]; [|by left]. right. split; [|right; by eexists].
    eexists _, _. split; [done|]. right. by eexists.
Qed.
Lemma write_fails n f (t : StateTables) e :
  f t = Raise e → raised conn_stuck (Tx.closed t) (store_transaction n f (Tx.closed t)).
Proof.
  intros Hf. unfold store_transaction, raised. rewrite Tx.block_run. unfold Tx.block_on, transaction. simpl. rewrite Hf.
  destruct (store_error n) as [x|]; eexists _, _; (split; [done|by left]).
Qed.
(** The current state does not depend on the snapshots. *)
Lemma load_tables_same k (t t' : StateTables) :
  (∀ n, load_tables n t' = load_tables n t) →
  (load_runtime_state k (Tx.closed t')).1 = (load_runtime_state k (Tx.closed t)).1.
Proof.
  intros Hl. unfold load_runtime_state, read_transaction. rewrite !Tx.block_run. unfold Tx.block_on. simpl. rewrite Hl.
  destruct (store_error k); [done|]. destruct (load_tables k t); [by destruct (commit_error k)|done].
Qed.

Lemma StronglySorted_fmap {A B} (R : A → A → Prop) (R' : B → B → Prop) (f : A → B) l :
  (∀ x y, x ∈ l → y ∈ l → R x y → R' (f x) (f y)) → StronglySorted R l → StronglySorted R' (f <$> l).
Proof.
  intros Hf Hs. induction Hs as [|x l Hs IH Hx]; csimpl; constructor.
  - apply IH. intros y z Hy Hz. apply Hf; by right.
  - apply Forall_fmap. rewrite Forall_forall in Hx |- *. intros y Hy. apply Hf; [by left|by right|by apply Hx].
Qed.

Lemma list_snapshots_spec t m :
  snapshots_hold t m →
  let l := (order_desc (prod_map id sn_timestamp <$> snapshots_table t)).*1 in l ≡ₚ (map_to_list m).*1 ∧ newest_first m l.
Proof.
  intros [Ht Hst]. split.
  - rewrite order_desc_perm, <-(table_keys _ _ _ Ht), <-list_fmap_compose. done.
  - apply (StronglySorted_fmap (λ x y, String.leb y.2 x.2 = true)); [|apply order_desc_sorted].
    intros [i ti] [j tj]. rewrite !order_desc_perm, !list_elem_of_fmap. simpl.
    intros ([i' r] & [= -> ->] & Hr) ([j' r'] & [= -> ->] & Hr') Hle x y Hx Hy.
    destruct Ht as [Hwf Ht]. apply (dget_elem _ _ _ Hwf) in Hr, Hr'.
    pose proof (Ht i') as Hi. rewrite Hr, Hx in Hi. destruct Hi as (x' & Hx' & [= <-]).
    pose proof (Ht j') as Hj. rewrite Hr', Hy in Hj. destruct Hj as (y' & Hy' & [= <-]).
    by rewrite <-(Hst i' r Hr x Hx'), <-(Hst j' r' Hr' y Hy').
Qed.

(** A row of a plain state under its name. *)
Lemma put_snapshot_holds i x v t m :
  snapshots_hold t m → plain_state x →
  snapshots_hold
    {| tasks_table := tasks_table t; workers_table := workers_table t; queue_state_row := queue_state_row t;
       scheduler_state_row := scheduler_state_row t;
       snapshots_table := replace_row i
         {| sn_timestamp := rs_timestamp x; sn_state_data := VDict (state_to_dict x); sn_schema_version := v |}
         (snapshots_table t) |} (<[i := x]> m).
Proof.
  intros [Ht Hst] Hx. unfold snapshots_hold; cbn [snapshots_table]. set (r := {| sn_timestamp := rs_timestamp x |}).
  assert (read_snapshot r = Ok x) as Hr by (unfold read_snapshot, loads; simpl; by apply state_dict_roundtrip).
  split; [by apply table_put|]. destruct Ht as [Hwf _]. rewrite replace_row_dset by done.
  intros k r'. destruct (decide (i = k)) as [<-|Hne].
  - rewrite dget_dset_eq. intros [= <-] y. rewrite Hr. by intros [= <-].
  - rewrite dget_dset_ne, dget_ddel_ne by done. apply Hst.
Qed.
Lemma save_snapshot_spec n i x c m :
  conn_holds c m → plain_state x →
  (∃ c', save_snapshot n i x c = (Ok tt, c') ∧ conn_holds c' (<[i := x]> m) ∧
     ∀ k, (load_runtime_state k c').1 = (load_runtime_state k c).1) ∨ raised conn_stuck c (save_snapshot n i x c).
Proof.
  intros (t & -> & Ht) Hx. unfold save_snapshot, snapshot_tables, bind, of_outcome.
  destruct (dumps _) as [j|e] eqn:Hj; [|right; eexists _, _; split; [done|by left]]. apply dumps_Ok in Hj as [-> _].
  destruct (sql_int (rs_schema_version x)) as [v|e] eqn:Hv.
  - match goal with |- context [store_transaction n ?f] => edestruct (write_law n f t) as [Hr|[Hr _]] end;
      [reflexivity|left|by right].
    eexists. split; [exact Hr|]. split; [|intros k; by apply load_tables_same]. eexists. split; [done|]. by apply put_snapshot_holds.
  - right. by eapply write_fails.
Qed.

Lemma delete_snapshot_spec n i c m :
  conn_holds c m →
  (∃ c', delete_snapshot n i c = (Ok tt, c') ∧ conn_holds c' (delete i m) ∧
     ∀ k, (load_runtime_state k c').1 = (load_runtime_state k c).1) ∨
  (raised conn_stuck c (delete_snapshot n i c) ∧ conn_down n).
Proof.
  intros (t & -> & [Ht Hst]). unfold delete_snapshot, drop_snapshot.
  match goal with |- context [store_transaction n ?f] => destruct (write_law n f t _ eq_refl) as [Hr|Hr] end; [left|by right].
  eexists. split; [exact Hr|]. split; [|intros k; by apply load_tables_same]. eexists. split; [done|].
  split; [by apply table_delete|]. simpl. intros k r. destruct (decide (i = k)) as [<-|Hne].
  - destruct Ht as [Hwf _]. by rewrite dget_ddel_eq.
  - rewrite dget_ddel_ne by done. apply Hst.
Qed.

#[export] Program Instance sqlite_state_store_laws : StateStoreLaws StateConn := {|
  st_holds := conn_holds;
  st_stuck := conn_stuck;
  st_down := conn_down;
  st_save_snapshot_law := save_snapshot_spec;
  st_delete_snapshot_law := delete_snapshot_spec
|}.
Next Obligation.
  intros n i c m (t & -> & [Ht _]). simpl. apply read_law. rewrite <-(table_get read_snapshot _ _ i Ht).
  unfold find_snapshot, read_snapshot. destruct (dget _ i) as [r|]; [|done]. by destruct (loads _).
Qed.
Next Obligation.
  intros n c m (t & -> & Ht). simpl. unfold list_snapshots.
  match goal with |- context [read_transaction n ?f] => destruct (read_law n f t _ eq_refl) as [Hr|Hr] end; [left|by right].
  eexists. split; [exact Hr|]. by apply list_snapshots_spec.
Qed.
Next Obligation.
  intros n c m (t & -> & _). simpl. unfold health_check, read_transaction, conn_down, catch, bind, ret, raise.
  rewrite Tx.block_run. unfold Tx.block_on. simpl.
  destruct (store_error n) as [x|]; simpl; [case_match; simpl|destruct (commit_error n) as [x|]; simpl; [case_match; simpl|]].
  1-4: by split; [|intros []; eauto].
  split; [|done]. by intros _ [[]|[]].
Qed.
Next Obligation.
  intros n i x [t [w|]] Hs; [|by destruct Hs]. simpl. split_and!; try apply Tx.block_opened.
  unfold save_snapshot, bind, of_outcome. destruct (dumps _); [apply Tx.block_opened|by eexists].
Qed.
End sqlite_states.

(** * Examples *)

(** A stable order of the rows. *)
Definition later_text (x y : string * string) : Prop := String.leb y.2 x.2 = true.
#[export] Instance later_text_trans : Transitive later_text.
Proof. intros x y z. unfold later_text. rewrite !leb_le. intros ??. by etrans. Qed.
#[export] Instance later_text_total : Total later_text.
Proof. intros x y. unfold later_text. destruct (String.leb_total y.2 x.2); auto. Qed.
Definition stable_order : SqlOrder := {|
  order_desc := merge_sort later_text;
  order_desc_perm := merge_sort_Permutation later_text;
  order_desc_sorted := StronglySorted_merge_sort later_text
|}.

Lemma new_conn_holds : conn_holds new_conn ∅.
Proof. exists empty_tables. split; [done|]. split; [split; [apply NoDup_nil; done|done]|done]. Qed.

Section examples.
#[local] Existing Instance sample_oracle.

Definition sample_writes : list write :=
  [Append (sample_event 1 (TaskQueued "a")); Batch sample_batch; Append (sample_event 2 (TaskDequeued "a"))].
Lemma event_store_refines_log_witness :
  let '(os, t') := sqlite_writes 0 sample_writes empty_table in
  os = [Ok tt; Raise IntegrityError; Ok tt] ∧
  stream 5 0 t' = Ok [sample_event 1 (TaskQueued "a"); sample_event 2 (TaskDequeued "a")].
Proof.
  pose proof (event_store_refines_log 0 sample_writes empty_table [] holds_empty (NoDup_nil_2 (A:=string))) as H.
  assert (Forall event_wf (sample_writes ≫= events_of)) as Hwf by repeat constructor.
  specialize (H Hwf). destruct (sqlite_writes 0 sample_writes empty_table) as [os t'].
  destruct H as (l' & Hl & _ & _ & H & _). specialize (H 5 0). vm_compute in Hl. injection Hl as <- <-.
  split; [reflexivity|]. etrans; [exact H|vm_compute; reflexivity].
Defined.
End examples.
