(* ===== verification/StoreThreads.v ===== *)
(** [persistence/adapters/sqlite/store.py], [event_store.py] under real threads:
    the methods of [SQLiteStateStore] and [SQLiteEventStore] statement by
    statement, on the connection and the lock they share.  Every run of any
    number of client threads is a run of whole methods ([RuntimeState],
    [EventStore]) on the connection, one after the other, also when the
    database refuses a [COMMIT] and a transaction stays open; code that reads
    without the lock sees less. *)
From S2P Require Import Prelude PyNum Values Decode Events EventStore RuntimeState Sync Transactions StorePorts.
From stdpp Require Import sorting.
Open Scope Z_scope.

(** The database behind the connection. *)
Record Store : Type := { states : StateTables; events : EventTable }.
Definition states_lens : lens Store StateTables := Lens states (λ t s, {| states := t; events := events s |}).
Definition events_lens : lens Store EventTable := Lens events (λ t s, {| states := states s; events := t |}).
#[export] Instance states_lens_laws : LensLaws states_lens.
Proof. split; [done|by intros []|done]. Qed.
#[export] Instance events_lens_laws : LensLaws events_lens.
Proof. split; [done|by intros []|done]. Qed.
(** Its tables of states. *)
Definition tasks_of : lens StateTables (odict row) :=
  Lens tasks_table (λ x t, {| tasks_table := x; workers_table := workers_table t; queue_state_row := queue_state_row t;
    scheduler_state_row := scheduler_state_row t; snapshots_table := snapshots_table t |}).
Definition workers_of : lens StateTables (odict row) :=
  Lens workers_table (λ x t, {| tasks_table := tasks_table t; workers_table := x; queue_state_row := queue_state_row t;
    scheduler_state_row := scheduler_state_row t; snapshots_table := snapshots_table t |}).
Definition queue_row_of : lens StateTables (option row) :=
  Lens queue_state_row (λ x t, {| tasks_table := tasks_table t; workers_table := workers_table t; queue_state_row := x;
    scheduler_state_row := scheduler_state_row t; snapshots_table := snapshots_table t |}).
Definition scheduler_row_of : lens StateTables (option row) :=
  Lens scheduler_state_row (λ x t, {| tasks_table := tasks_table t; workers_table := workers_table t;
    queue_state_row := queue_state_row t; scheduler_state_row := x; snapshots_table := snapshots_table t |}).
Definition snapshots_of : lens StateTables (odict snapshot_row) :=
  Lens snapshots_table (λ x t, {| tasks_table := tasks_table t; workers_table := workers_table t;
    queue_state_row := queue_state_row t; scheduler_state_row := scheduler_state_row t; snapshots_table := x |}).
#[export] Instance tasks_of_laws : LensLaws tasks_of.
Proof. split; [done|by intros []|done]. Qed.
#[export] Instance workers_of_laws : LensLaws workers_of.
Proof. split; [done|by intros []|done]. Qed.
(** The lens of the event table's own table. *)
Definition whole {T} : lens T T := Lens id (λ t _, t).
#[export] Instance whole_laws {T} : LensLaws (@whole T).
Proof. by split. Qed.

(** The connection under the lock, next to the transaction object. *)
Abbreviation StoreConn := (Tx.Conn (S:=Store)).
Abbreviation InTx := (bool * StoreConn)%type.
(** The connection as the state store's methods use it. *)
Definition states_conn : lens StoreConn StateConn :=
  Lens (λ c, {| Tx.committed := states (Tx.committed c); Tx.working := states <$> Tx.working c |})
    (λ t c, {| Tx.committed := lset states_lens (Tx.committed t) (Tx.committed c);
               Tx.working := (λ w, lset states_lens w (lget Tx.view c)) <$> Tx.working t |}).

(** * The methods, statement by statement *)
Section code.
Context `{!Oracle} `{!SqlOrder}.
(** The statements of a body, on its tables; a method, on the connection. *)
Abbreviation SP T A := (prog T nat A).
Abbreviation CP A := (prog InTx nat A).

(** The number of the next reading of the clock or failure of the database. *)
Definition reading : M nat nat := λ n, (Ok n, S n).
Definition statement {T X} (l : lens T X) (f : X → outcome X) : SP T unit := on_self (zoom l (transaction f)).
Definition query {T A} (f : T → outcome A) : SP T A := on_self (λ s, (f s, s)).
Definition conn_view : lens InTx Store :=
  Lens (λ c, lget Tx.view c.2) (λ s c, (c.1, lset Tx.view s c.2)).

(** [with self.transaction(): body], under the lock.  What [BEGIN] raises is an
    [Exception], so that [__enter__] gives the lock back. *)
Definition tx_steps {A} (n : nat) (body : SP Store A) : CP A :=
  on_self (self (modify (λ _, false))) ;~
  on_self (Tx.begin_tx (store_error n)) ;~
  ptry (on_part conn_view body) (λ o,
    on_self (match o with Ok _ => Tx.commit (commit_error n) | Raise _ => Tx.rollback end) ;~
    Return o).
Definition with_tx {A} (body : nat → SP Store A) : CP A := n <~ on_shared reading ;; tx_steps n (body n).
(** [with self._conn: body]; the first statement fails when the driver cannot
    begin *)
Definition conn_steps (body : SP Store unit) : CP unit :=
  ptry (on_part conn_view body) (λ o,
    on_self (env (modify (match o with Ok _ => Tx.commit_work | Raise _ => Tx.rollback_work end))) ;~
    Return o).
Definition with_conn (body : nat → SP Store unit) : CP unit := n <~ on_shared reading ;; conn_steps (body n).
(** [with self._lock: SELECT] *)
Definition locked_query {A} (f : Store → outcome A) : CP A := on_self (λ c, (f (lget conn_view c), c)).
Definition failing {T} (n : nat) : SP T unit := Return (match store_error n with Some x => Raise x | None => Ok tt end).

Definition save_steps (s : RuntimeState) : SP StateTables unit :=
  statement tasks_of (λ _, Ok []) ;~
  statement workers_of (λ _, Ok []) ;~
  peach (λ t, statement tasks_of (save_task t)) (dvals (rs_tasks s)) ;~
  peach (λ w, statement workers_of (save_worker w)) (dvals (rs_workers s)) ;~
  q <~ Return (queue_to_row (rs_queue s)) ;;
  statement queue_row_of (λ _, Ok (Some q)) ;~
  sc <~ Return (scheduler_to_row (rs_timestamp s) (rs_scheduler s)) ;;
  statement scheduler_row_of (λ _, Ok (Some sc)).

Definition load_steps (n : nat) : SP StateTables (option RuntimeState) :=
  q_row <~ query (λ t, Ok (queue_state_row t)) ;;
  match q_row with
  | None => Return (Ok None)
  | Some qr =>
      q <~ Return (queue_of_row qr) ;;
      s_row <~ query (λ t, Ok (scheduler_state_row t)) ;;
      match s_row with
      | None => Return (Ok None)
      | Some sr =>
          s <~ Return (scheduler_of_row sr) ;;
          ts <~ Return (match get_or sr "timestamp" VNone with
                        | VStr x => Ok (if str_truthy x then x else now_iso n)
                        | VNone => Ok (now_iso n) | _ => Raise bad_field end) ;;
          tasks <~ query (λ t, list_task_states (tasks_table t)) ;;
          workers <~ query (λ t, list_worker_states (workers_table t)) ;;
          Return (Ok (Some {| rs_timestamp := ts; rs_tasks := dict_by ts_task_id tasks;
                              rs_workers := dict_by ws_worker_id workers; rs_queue := q; rs_scheduler := s;
                              rs_schema_version := 1 |}))
      end
  end.

Definition save_snapshot_steps (i : string) (s : RuntimeState) (state_json : json) : SP StateTables unit :=
  v <~ Return (sql_int (rs_schema_version s)) ;;
  statement snapshots_of (λ t, Ok (replace_row i
    {| sn_timestamp := rs_timestamp s; sn_state_data := state_json; sn_schema_version := v |} t)).
Definition load_snapshot_steps (i : string) : SP StateTables (option RuntimeState) :=
  r <~ query (λ t, Ok (dget (snapshots_table t) i)) ;;
  match r with
  | None => Return (Ok None)
  | Some r => match loads (sn_state_data r) with
              | VDict d => s <~ Return (state_of_dict d) ;; Return (Ok (Some s))
              | _ => Return (Raise bad_field)
              end
  end.
Definition list_snapshots_steps : SP StateTables (list string) :=
  query (λ t, Ok (order_desc (prod_map id sn_timestamp <$> snapshots_table t)).*1).
Definition delete_snapshot_steps (i : string) : SP StateTables unit := statement snapshots_of (λ t, Ok (ddel t i)).
Definition batch_steps (es : list RuntimeEvent) (n : nat) : SP EventTable unit :=
  match es with
  | [] => Return (Ok tt)
  | _ => failing n ;~ peach (λ e, statement whole (insert_event e)) es
  end.

Inductive store_op : Type :=
  | SaveState (s : RuntimeState)
  | LoadState
  | SaveSnapshot (i : string) (s : RuntimeState)
  | LoadSnapshot (i : string)
  | ListSnapshots
  | DeleteSnapshot (i : string)
  | HealthCheck
  | AppendEvent (e : RuntimeEvent)
  | AppendBatch (es : list RuntimeEvent)
  | LoadEvent (i : string)
  | Stream (limit offset : Z)
  | StreamFrom (ts : string) (limit offset : Z)
  | Replay (r : string)
  | Count
  | TruncateEvents.
Inductive store_reply : Type :=
  | Written
  | StateIs (s : option RuntimeState)
  | NamesAre (l : list string)
  | Healthy (b : bool)
  | EventIs (e : option RuntimeEvent)
  | EventsAre (l : list RuntimeEvent)
  | CountIs (z : Z).

Definition caught (o : outcome Z) : outcome store_reply :=
  match o with
  | Ok one => Ok (Healthy (one =? 1))
  | Raise x => if isinstance x "Exception" then Ok (Healthy false) else Raise x
  end.
Definition answer {A} (reply : A → store_reply) (p : CP A) : CP store_reply :=
  ptry p (λ o, Return (omap_ok reply o)).
(** The calls of the two stores.  [json.dumps] of a snapshot comes before the
    lock, and [from_dict] of an event after it: they touch nothing shared. *)
Definition op_steps (op : store_op) : CP store_reply :=
  match op with
  | SaveState s => answer (λ _, Written) (with_tx (λ _, on_part states_lens (save_steps s)))
  | LoadState => answer StateIs (with_tx (λ n, on_part states_lens (load_steps n)))
  | SaveSnapshot i s =>
      j <~ Return (dumps (VDict (state_to_dict s))) ;;
      answer (λ _, Written) (with_tx (λ _, on_part states_lens (save_snapshot_steps i s j)))
  | LoadSnapshot i => answer StateIs (with_tx (λ _, on_part states_lens (load_snapshot_steps i)))
  | ListSnapshots => answer NamesAre (with_tx (λ _, on_part states_lens list_snapshots_steps))
  | DeleteSnapshot i => answer (λ _, Written) (with_tx (λ _, on_part states_lens (delete_snapshot_steps i)))
  | HealthCheck => ptry (with_tx (λ _, query (λ _, Ok 1))) (λ o, Return (caught o))
  | AppendEvent e => answer (λ _, Written) (with_conn (λ n, on_part events_lens (batch_steps [e] n)))
  | AppendBatch es => answer (λ _, Written) (with_conn (λ n, on_part events_lens (batch_steps es n)))
  | LoadEvent i => answer EventIs (locked_query (λ s, load i (events s)))
  | Stream limit offset => answer EventsAre (locked_query (λ s, stream limit offset (events s)))
  | StreamFrom ts limit offset =>
      answer EventsAre (locked_query (λ s, stream_from ts limit offset (events s)))
  | Replay r => answer EventsAre (locked_query (λ s, replay r (events s)))
  | Count => answer CountIs (locked_query (λ s, Ok (count (events s))))
  | TruncateEvents => answer (λ _, Written) (with_conn (λ _, statement events_lens (λ t, Ok (truncate t))))
  end.

(** The same calls as whole methods, at the [n]-th reading. *)
Definition on_states {A} (reply : A → store_reply) (m : M StateConn A) : M StoreConn store_reply :=
  a <- zoom states_conn m ;; ret (reply a).
Definition on_events (m : M EventTable unit) : M StoreConn store_reply :=
  Tx.with_connection (zoom events_lens m) ;;; ret Written.
Definition ask {A} (reply : A → store_reply) (f : EventTable → outcome A) : M StoreConn store_reply :=
  λ c, (omap_ok reply (f (events (lget Tx.view c))), c).
Definition run_op (n : nat) (op : store_op) : M StoreConn store_reply :=
  match op with
  | SaveState s => on_states (λ _, Written) (save_runtime_state n s)
  | LoadState => on_states StateIs (load_runtime_state n)
  | SaveSnapshot i s => on_states (λ _, Written) (save_snapshot n i s)
  | LoadSnapshot i => on_states StateIs (load_snapshot n i)
  | ListSnapshots => on_states NamesAre (list_snapshots n)
  | DeleteSnapshot i => on_states (λ _, Written) (delete_snapshot n i)
  | HealthCheck => on_states Healthy (health_check n)
  | AppendEvent e => on_events (append n e)
  | AppendBatch es => on_events (append_batch n es)
  | LoadEvent i => ask EventIs (load i)
  | Stream limit offset => ask EventsAre (stream limit offset)
  | StreamFrom ts limit offset => ask EventsAre (stream_from ts limit offset)
  | Replay r => ask EventsAre (replay r)
  | Count => ask CountIs (λ t, Ok (count t))
  | TruncateEvents => on_events (modify truncate)
  end.
End code.

(** * One call *)
Section runs.
Context `{!Oracle} `{!SqlOrder}.
Implicit Types (n m : nat).
Abbreviation SP T A := (prog T nat A).

(** A private program is a method of the tables. *)
Definition alone {T A} (p : SP T A) : M T A := λ s, let '(o, (s', _)) := denote p (s, 0%nat) in (o, s').
Lemma alone_denote {T A} (p : SP T A) s n : private p → denote p (s, n) = ((alone p s).1, ((alone p s).2, n)).
Proof.
  intros Hp. unfold alone. destruct (denote_private p s n 0%nat Hp) as (Ho & Hs & Hn).
  destruct (denote p (s, n)) as [o [s' n']], (denote p (s, 0%nat)) as [o0 [s0 n0]]; simpl in *. congruence.
Qed.
Lemma alone_return {T A} (o : outcome A) (s : T) : alone (Return o) s = (o, s).
Proof. done. Qed.
Lemma alone_self {T A} (f : M T A) s : alone (on_self f) s = f s.
Proof. unfold alone; simpl. by destruct (f s). Qed.
Lemma alone_bind {T A B} (p : SP T A) (k : A → SP T B) s :
  private p → alone (pbind p k) s = bind (alone p) (λ a, alone (k a)) s.
Proof.
  intros Hp. unfold alone at 1. rewrite denote_bind. unfold bind. rewrite alone_denote by done.
  destruct (alone p s) as [[a|x] s']; simpl; [|done]. unfold alone. by destruct (denote (k a) _) as [? []].
Qed.

(** A body sees and changes the working copy only. *)
Lemma denote_view {A} (p : SP Store A) b c n : ∃ w,
  denote (on_part conn_view p) ((b, c), n) =
    ((denote p (lget Tx.view c, n)).1,
     ((b, {| Tx.committed := Tx.committed c; Tx.working := w |}), (denote p (lget Tx.view c, n)).2.2)) ∧
  default (Tx.committed c) w = (denote p (lget Tx.view c, n)).2.1 ∧ (is_Some (Tx.working c) → is_Some w).
Proof.
  revert c n. induction p as [o|f k IH|f k IH]; intros c n; simpl.
  - exists (Tx.working c). by destruct c.
  - destruct (IH (lget Tx.view c) (lset Tx.view (f (lget Tx.view c)) c) n) as (w & Hw & Hv & Hs). exists w.
    split_and!; [done|done|]. intros _. by apply Hs.
  - apply IH.
Qed.

(** What follows the reading of the clock is one uninterrupted step. *)
Lemma exec_timed {T A} (p : nat → prog T nat A) c n o c' n' :
  (∀ m, private (p m)) → exec le (pbind (on_shared reading) p) (c, n) o (c', n') →
  ∃ m, (n ≤ m ∧ m < n')%nat ∧ ∀ k, o = (denote (p m) (c, k)).1 ∧ c' = (denote (p m) (c, k)).2.1.
Proof.
  intros Hp Hx. simpl in Hx.
  assert (∀ a b, rtc le a b → (a ≤ b)%nat) as Hle by (induction 1; lia).
  apply exec_env_inv in Hx as (m & Hr%Hle & Hx). exists m. simpl in Hx.
  apply exec_private in Hx as [Ho Hr'%Hle]; [|done]. split; [lia|]. intros k. injection Ho as -> ->.
  destruct (denote_private (p m) c (S m) k (Hp m)) as (-> & -> & _). done.
Qed.

Lemma private_tx {A} n (p : SP Store A) : private p → private (tx_steps n p).
Proof.
  intros Hp. do 2 (apply private_bind; [done|intros []]). apply private_try; [by apply private_part|]. intros o.
  by apply private_bind.
Qed.
Lemma private_conn (p : SP Store unit) : private p → private (conn_steps p).
Proof. intros Hp. apply private_try; [by apply private_part|]. intros o. by apply private_bind. Qed.

(** The statements are the [with] block, whatever an earlier failure has left
    open. *)
Lemma tx_denote {A} n k (p : SP Store A) b c :
  private p → ∃ b', denote (tx_steps n p) ((b, c), k) = let '(o, c') := Tx.block n (alone p) c in (o, ((b', c'), k)).
Proof.
  intros Hp. rewrite Tx.block_run. unfold tx_steps, Tx.block_on, Tx.begin_tx.
  destruct (store_error n) as [x|]; simpl; [by eexists|]. destruct c as [t [w|]]; simpl; [by eexists|].
  rewrite denote_try. destruct (denote_view p true (Tx.begin_work (Tx.closed t)) k) as (w & Hd & Hw & Hs).
  unfold Tx.closed, Tx.begin_work in Hd |- *. cbn [Tx.committed] in Hd |- *. rewrite Hd. clear Hd.
  simpl in *. rewrite (alone_denote p) in Hw |- * by done. simpl in *.
  destruct (alone p t) as [[a|x] t']; simpl in *; [|by eexists].
  destruct (commit_error n) as [x|]; simpl.
  - exists true. destruct Hs as [w' ->]; [by eexists|]. simpl in Hw. by subst.
  - exists false. unfold Tx.commit_work; simpl. by rewrite Hw.
Qed.
Lemma conn_denote k (p : SP Store unit) b c :
  private p → denote (conn_steps p) ((b, c), k) = let '(o, c') := Tx.with_connection (alone p) c in (o, ((b, c'), k)).
Proof.
  intros Hp. unfold conn_steps. rewrite denote_try. destruct (denote_view p b c k) as (w & Hd & Hw & _). rewrite Hd. clear Hd.
  simpl in *. rewrite (alone_denote p) in Hw |- * by done. simpl in *. unfold Tx.with_connection, Tx.execute, zoom. simpl.
  destruct (alone p _) as [[a|x] s']; simpl in *; [|done]. unfold Tx.commit_work; simpl. by rewrite Hw.
Qed.

(** ** A body of statements and the function it stands for *)
Lemma alone_part {S T A} (l : lens S T) `{!LensLaws l} (p : SP T A) s :
  private p → alone (on_part l p) s = zoom l (alone p) s.
Proof.
  revert s. induction p as [o|f k IH|f k IH]; intros s Hp; simpl in *; [| |done].
  - unfold zoom, alone; simpl. by rewrite lset_lget.
  - change (alone (on_part l (k (lget l s))) (lset l (f (lget l s)) s) = zoom l (alone (OnSelf f k)) s).
    rewrite IH by done. unfold zoom. rewrite lget_lset.
    change (alone (OnSelf f k) (lget l s)) with (alone (k (lget l s)) (f (lget l s))).
    destruct (alone _ _) as [o t]. by rewrite lset_lset.
Qed.
(** The statements raise when the function does, and otherwise leave what it
    gives. *)
Definition agrees {T} (p : SP T unit) (f : T → outcome T) : Prop :=
  ∀ t, (alone p t).1 = omap_ok (λ _, tt) (f t) ∧ ∀ t', f t = Ok t' → (alone p t).2 = t'.
Lemma agrees_all {T} (p : SP T unit) f t :
  agrees p f → Tx.all_or_nothing (alone p) t = transaction f t.
Proof.
  intros Ha. unfold Tx.all_or_nothing, transaction.
  destruct (Ha t) as [Ho Hs]. destruct (alone p t) as [o t1]; simpl in *. subst o.
  destruct (f t) as [t'|x]; simpl; [|done]. by rewrite (Hs t').
Qed.
Lemma agrees_bind {T} (p q : SP T unit) f g :
  private p → agrees p f → agrees q g → agrees (p ;~ q) (λ t, let? t' := f t in g t').
Proof.
  intros Hp Hf Hg t. rewrite alone_bind by done. unfold bind. destruct (Hf t) as [Ho Hs].
  destruct (alone p t) as [o t1]; simpl in *. subst o. destruct (f t) as [t'|x]; simpl; [|done].
  rewrite (Hs t' eq_refl). apply Hg.
Qed.
Lemma agrees_value {T A} (o : outcome A) (q : A → SP T unit) g :
  (∀ a, agrees (q a) (g a)) → agrees (a <~ Return o ;; q a) (λ t, let? a := o in g a t).
Proof. intros Hq t. destruct o as [a|x]; [apply Hq|done]. Qed.
Lemma agrees_statement {T X} (l : lens T X) f :
  agrees (statement l f) (λ t, let? x := f (lget l t) in Ok (lset l x t)).
Proof.
  intros t. unfold statement. rewrite alone_self. unfold zoom, transaction.
  destruct (f (lget l t)) as [x|e]; simpl; [|done]. split; [done|]. by intros t' [= <-].
Qed.
Lemma agrees_ext {T} (p : SP T unit) f g : (∀ t, f t = g t) → agrees p f → agrees p g.
Proof. intros Hfg Hp t. rewrite <-Hfg. apply Hp. Qed.

(** A loop of statements. *)
Fixpoint each_of {A X} (f : A → X → outcome X) (l : list A) (x : X) : outcome X :=
  match l with [] => Ok x | a :: l' => let? x' := f a x in each_of f l' x' end.
Lemma agrees_each {A T X} (l : lens T X) `{!LensLaws l} (f : A → X → outcome X) xs :
  agrees (peach (λ a, statement l (f a)) xs) (λ t, let? x := each_of f xs (lget l t) in Ok (lset l x t)).
Proof.
  induction xs as [|a xs IH].
  - intros t. split; [done|]. intros t' [= <-]. simpl. by rewrite lset_lget.
  - cbn [peach]. eapply agrees_ext; [|apply agrees_bind; [done|apply agrees_statement|exact IH]].
    intros t. simpl. destruct (f a (lget l t)) as [x|e]; cbn [obind]; [|done]. rewrite lget_lset.
    destruct (each_of f xs x); cbn [obind]; [|done]. by rewrite lset_lset.
Qed.
Lemma each_save {A} (save : A → odict row → outcome (odict row)) l t : each_of save l t = save_all save l t.
Proof. revert t. induction l as [|a l IH]; intros t; simpl; [done|]. destruct (save a t); simpl; auto. Qed.
Lemma each_insert es t : each_of insert_event es t = insert_events es t.
Proof. revert t. induction es as [|e es IH]; intros t; simpl; [done|]. destruct (insert_event e t); simpl; auto. Qed.
End runs.

(** Every statement of a body is on its tables. *)
Ltac steps_private :=
  repeat first
    [ done
    | apply private_bind; [|intros ?]
    | apply private_each; intros ?
    | apply private_part
    | match goal with
      | |- private (match ?x with _ => _ end) => destruct x
      | |- private (if ?b then _ else _) => destruct b
      end ].

Section bodies.
Context `{!Oracle} `{!SqlOrder}.
Implicit Types (s : RuntimeState) (t : StateTables) (n : nat).

Lemma save_private s : private (save_steps s).
Proof. unfold save_steps. steps_private. Qed.
Lemma load_private n : private (load_steps n).
Proof. unfold load_steps. steps_private. Qed.
Lemma save_snapshot_private i s j : private (save_snapshot_steps i s j).
Proof. unfold save_snapshot_steps. steps_private. Qed.
Lemma load_snapshot_private i : private (load_snapshot_steps i).
Proof. unfold load_snapshot_steps. steps_private. Qed.
Lemma batch_private es n : private (batch_steps es n).
Proof. unfold batch_steps. steps_private. Qed.

Lemma save_run s t : Tx.all_or_nothing (alone (save_steps s)) t = transaction (save_tables s) t.
Proof.
  apply agrees_all. unfold save_steps. eapply agrees_ext; cycle 1.
  - apply agrees_bind; [done|apply agrees_statement|]. apply agrees_bind; [done|apply agrees_statement|].
    apply agrees_bind; [steps_private|apply (agrees_each tasks_of save_task)|].
    apply agrees_bind; [steps_private|apply (agrees_each workers_of save_worker)|].
    apply agrees_value. intros q. apply agrees_bind; [done|apply agrees_statement|].
    apply agrees_value. intros sc. apply agrees_statement.
  - intros t'. unfold save_tables. simpl. rewrite each_save. destruct (save_all save_task _ _) as [ts|x]; simpl; [|done].
    rewrite each_save. destruct (save_all save_worker _ _) as [ws|x]; simpl; [|done].
    destruct (queue_to_row _) as [q|x]; simpl; [|done]. by destruct (scheduler_to_row _ _).
Qed.
Lemma load_state_run n t : alone (load_steps n) t = (load_tables n t, t).
Proof.
  unfold load_tables, load_steps, alone. simpl. destruct (queue_state_row t) as [qr|]; simpl; [|done].
  destruct (queue_of_row qr) as [q|x]; simpl; [|by destruct (scheduler_state_row t)].
  destruct (scheduler_state_row t) as [sr|]; simpl; [|done].
  destruct (scheduler_of_row sr) as [s|x]; simpl; [|done].
  destruct (match get_or sr "timestamp" VNone with VStr _ => _ | _ => _ end) as [ts|x]; simpl; [|done].
  destruct (list_task_states _) as [tasks|x]; simpl; [|done]. by destruct (list_worker_states _).
Qed.
Lemma save_snapshot_run i s j t :
  Tx.all_or_nothing (alone (save_snapshot_steps i s j)) t = transaction (snapshot_tables i s j) t.
Proof.
  apply agrees_all. unfold save_snapshot_steps.
  eapply agrees_ext; [|apply agrees_value; intros v; apply agrees_statement]. done.
Qed.
Lemma load_snapshot_run i t : alone (load_snapshot_steps i) t = (find_snapshot i t, t).
Proof.
  unfold find_snapshot, load_snapshot_steps, alone. simpl. destruct (dget _ i) as [r|]; simpl; [|done].
  destruct (loads _); simpl; try done. by destruct (state_of_dict _).
Qed.
Lemma delete_snapshot_run i t :
  Tx.all_or_nothing (alone (delete_snapshot_steps i)) t = transaction (drop_snapshot i) t.
Proof. apply agrees_all. eapply agrees_ext; [|apply agrees_statement]. done. Qed.
Lemma batch_run n es (t : EventTable) : Tx.all_or_nothing (alone (batch_steps es n)) t = append_batch n es t.
Proof.
  destruct es as [|e es]; [unfold append_batch, transaction; by destruct (store_error n)|].
  unfold append_batch, batch_steps, failing, transaction. destruct (store_error n) as [x|]; [done|].
  pose proof (agrees_all (peach (λ e, statement whole (insert_event e)) (e :: es)) (insert_events (e :: es)) t) as Ha.
  apply Ha. eapply agrees_ext; [|apply (agrees_each whole insert_event)].
  intros t'. cbv beta. rewrite each_insert. unfold whole; cbn [lget lset]. by destruct (insert_events _ _).
Qed.
End bodies.

Section calls.
Context `{!Oracle} `{!SqlOrder}.

(** A call between [n] and [n'], however interrupted, is a whole method. *)
Definition whole_call (op : store_op) (c : StoreConn) (n : nat) (o : outcome store_reply) (c' : InTx) (n' : nat) : Prop :=
  ∃ m, (n ≤ m ∧ m ≤ n')%nat ∧ run_op m op c = (o, c'.2).

Lemma tx_call {A} op (body : nat → prog Store nat A) k b (c : StoreConn) n o c' n' :
  (∀ m, private (body m)) →
  (∀ m, run_op m op c = (k (Tx.block m (alone (body m)) c).1, (Tx.block m (alone (body m)) c).2)) →
  exec le (ptry (with_tx body) (λ o, Return (k o))) ((b, c), n) o (c', n') →
  whole_call op c n o c' n'.
Proof.
  intros Hp Hrun Hx.
  apply (exec_timed (λ m, ptry (tx_steps m (body m)) (λ o, Return (k o))))
    in Hx as (m & Hm & Hx); [|intros m; apply private_try; [by apply private_tx|done]].
  destruct (Hx 0%nat) as [-> ->]. rewrite denote_try. destruct (tx_denote m 0 (body m) b c (Hp m)) as [b' Hd].
  rewrite Hd. exists m. rewrite (Hrun m). destruct (Tx.block m _ c) as [o1 c1]. by split; [lia|].
Qed.
Lemma conn_call op (body : nat → prog Store nat unit) k b (c : StoreConn) n o c' n' :
  (∀ m, private (body m)) →
  (∀ m, run_op m op c = (k (Tx.with_connection (alone (body m)) c).1, (Tx.with_connection (alone (body m)) c).2)) →
  exec le (ptry (with_conn body) (λ o, Return (k o))) ((b, c), n) o (c', n') →
  whole_call op c n o c' n'.
Proof.
  intros Hp Hrun Hx.
  apply (exec_timed (λ m, ptry (conn_steps (body m)) (λ o, Return (k o))))
    in Hx as (m & Hm & Hx); [|intros m; apply private_try; [by apply private_conn|done]].
  destruct (Hx 0%nat) as [-> ->]. rewrite denote_try, conn_denote by done. exists m. rewrite (Hrun m).
  destruct (Tx.with_connection _ c) as [o1 c1]. by split; [lia|].
Qed.
Lemma query_call {A} op (f : EventTable → outcome A) (reply : A → store_reply) b (c : StoreConn) n o c' n' :
  (∀ m, run_op m op c = ask reply f c) →
  exec le (ptry (locked_query (λ s, f (events s))) (λ o, Return (omap_ok reply o))) ((b, c), n) o (c', n') →
  whole_call op c n o c' n'.
Proof.
  intros Hrun Hx. apply exec_private in Hx as [Ho Hr]; [|by apply private_try].
  assert (∀ a b, rtc le a b → (a ≤ b)%nat) as Hle by (induction 1; lia). apply Hle in Hr.
  simpl in Ho. injection Ho as -> ->. exists n. rewrite Hrun. by split; [lia|].
Qed.

(** A block on the tables of states. *)
Lemma block_states {A} m (f : M StateTables A) c :
  Tx.block m (zoom states_lens f) c = zoom states_conn (Tx.block m f) c.
Proof.
  unfold zoom at 2. rewrite !Tx.block_run. destruct c as [t [w|]]; unfold Tx.block_on, zoom, states_conn; simpl.
  - destruct t, w. by destruct (store_error m).
  - destruct (store_error m) as [x|]; [by destruct t|]. destruct (f (states t)) as [[a|x] t'] eqn:Hf; simpl; [|by destruct t].
    by destruct (commit_error m), t.
Qed.
Lemma on_states_run {A} (reply : A → store_reply) (m : M StateConn A) c :
  on_states reply m c = (omap_ok reply (zoom states_conn m c).1, (zoom states_conn m c).2).
Proof. unfold on_states, bind. by destruct (zoom states_conn m c) as [[]]. Qed.
Lemma on_events_run m c :
  on_events m c = (omap_ok (λ _, Written) (Tx.with_connection (zoom events_lens m) c).1,
                   (Tx.with_connection (zoom events_lens m) c).2).
Proof. unfold on_events, bind. by destruct (Tx.with_connection _ c) as [[]]. Qed.
Lemma all_on_part {S T A} (l : lens S T) `{!LensLaws l} (p : prog T nat A) (f : M T A) s :
  private p → (∀ t, Tx.all_or_nothing (alone p) t = Tx.all_or_nothing f t) →
  Tx.all_or_nothing (alone (on_part l p)) s = Tx.all_or_nothing (zoom l f) s.
Proof.
  intros Hp Hf. specialize (Hf (lget l s)). unfold Tx.all_or_nothing in *. rewrite alone_part by done. unfold zoom.
  destruct (alone p (lget l s)) as [[a|x] t], (f (lget l s)) as [[a'|x'] t']; by simplify_eq.
Qed.

(** A method that is one block on the tables of states. *)
Lemma states_call {A} op (reply : A → store_reply) (m : nat → M StateConn A) (p : nat → prog StateTables nat A)
    (f : nat → M StateTables A) b c n o c' n' :
  (∀ k, private (p k)) → (∀ k t, Tx.all_or_nothing (alone (p k)) t = Tx.all_or_nothing (f k) t) →
  (∀ k c, m k c = Tx.block k (f k) c) → (∀ k, run_op k op c = on_states reply (m k) c) →
  exec le (answer reply (with_tx (λ k, on_part states_lens (p k)))) ((b, c), n) o (c', n') →
  whole_call op c n o c' n'.
Proof.
  intros Hp Hf Hm Hrun. apply tx_call; [intros; by apply private_part|]. intros k.
  rewrite (Tx.block_ext k (alone (on_part states_lens (p k))) (zoom states_lens (f k)))
    by (intros t; by apply (all_on_part states_lens)).
  rewrite block_states, Hrun, on_states_run. unfold zoom. by rewrite Hm.
Qed.
Lemma events_call op (m : nat → M EventTable unit) (p : nat → prog EventTable nat unit) b c n o c' n' :
  (∀ k, private (p k)) → (∀ k t, Tx.all_or_nothing (alone (p k)) t = Tx.all_or_nothing (m k) t) →
  (∀ k, run_op k op c = on_events (m k) c) →
  exec le (answer (λ _, Written) (with_conn (λ k, on_part events_lens (p k)))) ((b, c), n) o (c', n') →
  whole_call op c n o c' n'.
Proof.
  intros Hp Hm Hrun. apply conn_call; [intros; by apply private_part|]. intros k.
  rewrite (Tx.with_connection_ext (alone (on_part events_lens (p k))) (zoom events_lens (m k)))
    by (intros t; by apply (all_on_part events_lens)).
  by rewrite Hrun, on_events_run.
Qed.
Lemma batch_all k es t : Tx.all_or_nothing (alone (batch_steps es k)) t = Tx.all_or_nothing (append_batch k es) t.
Proof. rewrite batch_run. unfold append_batch. by rewrite Tx.all_transaction. Qed.
Lemma write_all {T} (p : prog T nat unit) f t :
  Tx.all_or_nothing (alone p) t = transaction f t →
  Tx.all_or_nothing (alone p) t = Tx.all_or_nothing (transaction f) t.
Proof. intros ->. by rewrite Tx.all_transaction. Qed.
Lemma read_all {T A} (p : prog T nat A) (m : M T A) t :
  alone p t = m t → Tx.all_or_nothing (alone p) t = Tx.all_or_nothing m t.
Proof. unfold Tx.all_or_nothing. by intros ->. Qed.

Lemma save_snapshot_call i st b c n o c' n' :
  exec le (op_steps (SaveSnapshot i st)) ((b, c), n) o (c', n') → whole_call (SaveSnapshot i st) c n o c' n'.
Proof.
  unfold op_steps. destruct (dumps _) as [j|x] eqn:Hj; simpl.
  - apply (states_call _ _ (λ m, save_snapshot m i st) (λ _, save_snapshot_steps i st j)
      (λ _, transaction (snapshot_tables i st j))); [|intros k t; apply write_all, save_snapshot_run| |done].
    + intros; apply save_snapshot_private.
    + intros k c1. unfold save_snapshot, bind, of_outcome. by rewrite Hj.
  - intros Hx. apply exec_private in Hx as [[= -> ->] Hr]; [|done].
    assert (∀ a b, rtc le a b → (a ≤ b)%nat) as Hle by (induction 1; lia). apply Hle in Hr.
    exists n. split; [lia|]. simpl. rewrite on_states_run. unfold zoom, save_snapshot, bind, of_outcome.
    rewrite Hj. simpl. f_equal. by destruct c as [[] [[]|]].
Qed.
Lemma health_call b c n o c' n' :
  exec le (op_steps HealthCheck) ((b, c), n) o (c', n') → whole_call HealthCheck c n o c' n'.
Proof.
  apply tx_call; [done|]. intros m. cbn [run_op]. rewrite on_states_run.
  rewrite (Tx.block_ext m (alone (query (λ _ : Store, Ok 1))) (zoom states_lens (λ t : StateTables, (@Ok Z 1, t))) c)
    by (intros []; done).
  rewrite block_states. unfold zoom at 1 2 3 4, health_check, read_transaction, catch, bind, ret, raise.
  destruct (Tx.block m _ _) as [[one|x] c1]; simpl; [done|]. by destruct (isinstance x _).
Qed.

Lemma call_whole op b c n o c' n' :
  exec le (op_steps op) ((b, c), n) o (c', n') → whole_call op c n o c' n'.
Proof.
  destruct op as [st| |i st|i| |i| |e|es|i|l k|ts l k|r| |].
  - apply (states_call _ _ (λ m, save_runtime_state m st) (λ _, save_steps st) (λ _, transaction (save_tables st)));
      [intros; apply save_private|intros; apply write_all, save_run|done|done].
  - apply (states_call _ _ load_runtime_state load_steps (λ m t, (load_tables m t, t)));
      [apply load_private|intros; apply read_all, load_state_run|done|done].
  - apply save_snapshot_call.
  - apply (states_call _ _ (λ m, load_snapshot m i) (λ _, load_snapshot_steps i) (λ _ t, (find_snapshot i t, t)));
      [intros; apply load_snapshot_private|intros; apply read_all, load_snapshot_run|done|done].
  - by apply (states_call _ _ list_snapshots (λ _, list_snapshots_steps)
      (λ _ t, (Ok (order_desc (prod_map id sn_timestamp <$> snapshots_table t)).*1, t))).
  - apply (states_call _ _ (λ m, delete_snapshot m i) (λ _, delete_snapshot_steps i) (λ _, transaction (drop_snapshot i)));
      [done|intros; apply write_all, delete_snapshot_run|done|done].
  - apply health_call.
  - apply (events_call _ (λ k, append k e) (batch_steps [e])); [intros; apply batch_private| |done].
    intros k t. rewrite (batch_all k [e]). unfold Tx.all_or_nothing. by rewrite append_batch_one.
  - apply (events_call _ (λ k, append_batch k es) (batch_steps es)); [intros; apply batch_private|intros; apply batch_all|done].
  - by apply query_call.
  - by apply query_call.
  - by apply query_call.
  - by apply query_call.
  - by apply (query_call _ (λ t, Ok (count t))).
  - by apply (events_call _ (λ _, modify truncate) (λ _, statement whole (λ t, Ok (truncate t)))).
Qed.
End calls.

(** * All calls of all threads *)
Section threads.
Context `{!Oracle} `{!SqlOrder} {K : Type} `{!LockInterface K} `{!LockLaws K}.
Context {L : Type} (call : L → option store_op) (answered : L → outcome store_reply → L).
Abbreviation calls := (calls (S:=InTx) call answered op_steps le).
Abbreviation steps := (steps (K:=K) (S:=InTx) call answered op_steps le).
Abbreviation fin := (finished (Op:=store_op) (V:=store_reply)).

(** Whole methods, one after the other, each at its reading. *)
Fixpoint run_ops (l : list (nat * store_op)) (c : StoreConn) : list (outcome store_reply) * StoreConn :=
  match l with
  | [] => ([], c)
  | (m, op) :: l' => let '(o, c1) := run_op m op c in let '(os, c2) := run_ops l' c1 in (o :: os, c2)
  end.
Lemma run_ops_snoc l m op c :
  run_ops (l ++ [(m, op)]) c =
    let '(os, c1) := run_ops l c in let '(o, c2) := run_op m op c1 in (os ++ [o], c2).
Proof.
  revert c. induction l as [|[m0 op0] l IH]; intros c; simpl; [by destruct (run_op m op c)|].
  destruct (run_op m0 op0 c) as [o c1]. rewrite IH. destruct (run_ops l c1) as [os c2].
  by destruct (run_op m op c2).
Qed.

(** [h] is what the whole calls at the readings [ms], between [n0] and [n], do. *)
Record serial (n0 n : nat) (ms : list nat) (c0 : StoreConn) (h : list fin) (c : StoreConn) : Prop := {
  se_length : length ms = length h;
  se_sorted : StronglySorted le (n0 :: ms);
  se_bound : Forall (λ m, (m ≤ n)%nat) (n0 :: ms);
  se_run : run_ops (zip ms h.*1.*2) c0 = (h.*2, c)
}.
Lemma serial_later n0 n n' ms c0 h c : (n ≤ n')%nat → serial n0 n ms c0 h c → serial n0 n' ms c0 h c.
Proof. intros Hn [Hl Hs Hb Hr]. split; try done. eapply Forall_impl; [exact Hb|]. simpl. intros; lia. Qed.
Lemma serial_call n0 n n' ms c0 h c i op o c' :
  serial n0 n ms c0 h c → whole_call op c n o c' n' →
  ∃ m, serial n0 n' (ms ++ [m]) c0 (h ++ [(i, op, o)]) c'.2.
Proof.
  intros [Hl Hs Hb Hr] (m & [Hm Hm'] & Hrun). exists m. split.
  - by rewrite !length_app, Hl.
  - change (n0 :: ms ++ [m]) with ((n0 :: ms) ++ [m]). apply StronglySorted_app_2; [|done|repeat constructor].
    intros x y Hx ->%list_elem_of_singleton. rewrite Forall_forall in Hb. specialize (Hb x Hx). lia.
  - change (n0 :: ms ++ [m]) with ((n0 :: ms) ++ [m]). apply Forall_app. split; [|by repeat constructor].
    eapply Forall_impl; [exact Hb|]. simpl. intros; lia.
  - rewrite !fmap_app, zip_with_app by by rewrite !length_fmap. csimpl. rewrite run_ops_snoc, Hr. simpl.
    by rewrite Hrun.
Qed.

Lemma calls_serial ls b c0 n0 h x :
  calls (ls, ((b, c0), n0)) h x → ∃ ms, serial n0 x.2.2 ms c0 h x.2.1.2.
Proof.
  intros Hcs. remember (ls, ((b, c0), n0)) as x0 eqn:Hx0.
  induction Hcs as [x|x h ls1 [c1 n1] i l op o [c2 n2] Hcs IH Hl Hc Hx|x h ls1 c1 n1 n2 Hcs IH HR]; subst.
  - exists []. split; [done|repeat constructor|by repeat constructor|done].
  - destruct (IH eq_refl) as (ms & Hser); simpl in *. destruct c1 as [b1 k1]; simpl in *.
    apply call_whole in Hx. destruct (serial_call _ _ _ _ _ _ _ i op o c2 Hser Hx) as (m & Hser').
    by exists (ms ++ [m]).
  - destruct (IH eq_refl) as (ms & Hser); simpl in *. exists ms. by eapply serial_later.
Qed.

(** When no [COMMIT] fails no transaction is left open. *)
Lemma zoom_states_closed {A} (m : M StateConn A) (c : StoreConn) :
  Tx.working c = None → (∀ d, Tx.working d = None → Tx.working (m d).2 = None) → Tx.working (zoom states_conn m c).2 = None.
Proof.
  intros Hc Hm. unfold zoom. specialize (Hm (lget states_conn c)). destruct (m _) as [o d]; simpl in *.
  rewrite Hm; [done|]. by rewrite Hc.
Qed.
Lemma block_closed {T A} m (f : M T A) c :
  commit_error m = None → Tx.working c = None → Tx.working (Tx.block m f c).2 = None.
Proof.
  intros Hm Hc. destruct (Tx.block m f c) as [o c'] eqn:Hr.
  destruct (Tx.block_cases m f c o c' Hr) as [(a & t & _ & _ & _ & _ & _ & ->)|[(x & _ & ->)|(a & t & x & _ & _ & _ & Hx & _)]];
    [done|done|congruence].
Qed.
Lemma run_op_closed m op c : commit_error m = None → Tx.working c = None → Tx.working (run_op m op c).2 = None.
Proof.
  intros Hm Hc. assert (∀ k : M EventTable unit, Tx.working (on_events k c).2 = None) as Hev.
  { intros k. rewrite on_events_run. unfold Tx.with_connection. simpl. by destruct (Tx.execute _ c) as [[] d]. }
  destruct op as [st| |i st|i| |i| |e|es|i|l k|ts l k|r| |]; simpl; try done; try apply Hev; rewrite on_states_run;
    (apply zoom_states_closed; [exact Hc|]; intros d Hd); try by apply block_closed.
  - unfold save_snapshot, bind, of_outcome. destruct (dumps _); [by apply block_closed|done].
  - pose proof (block_closed m (λ t : StateTables, (@Ok Z 1, t)) d Hm Hd) as Hb.
    unfold health_check, read_transaction, catch, bind, ret, raise. destruct (Tx.block m _ d) as [[one|x] d']; simpl in *; [done|].
    by destruct (isinstance x _).
Qed.
Lemma run_ops_closed l c :
  Forall (λ x, commit_error x.1 = None) l → Tx.working c = None → Tx.working (run_ops l c).2 = None.
Proof.
  intros Hl. revert c. induction Hl as [|[m op] l Hm _ IH]; intros c Hc; [done|]. simpl.
  pose proof (run_op_closed m op c Hm Hc) as H1. destruct (run_op m op c) as [o c1]. specialize (IH c1 H1).
  by destruct (run_ops l c1).
Qed.

(** C6: The stores are serializable: any number of threads call the methods of
    [SQLiteStateStore] and of its event store in any way, their statements
    interleaved as the lock lets them; whenever nobody holds the lock, the
    connection - the committed tables and the transaction a refused [COMMIT] has
    left open, if any - and all answers are those of the same calls run one
    after the other as whole methods, in the order in which they ended, each at
    a reading of the clock not earlier than the previous one's.  As long as none
    of their [COMMIT]s is refused, no transaction is open then.  What the
    database raises is taken to be an [Exception], so that a failing [BEGIN]
    gives the lock back. *)
Theorem store_serializable ls k s0 n0 h (c : config K InTx nat L store_op store_reply) :
  (∀ n x, store_error n = Some x → isinstance x "Exception" = true) →
  lock_free k → steps (start ls k ((false, Tx.closed s0), n0)) h c → lock_free (cf_lock c) →
  ∃ ms, length ms = length h ∧ StronglySorted le (n0 :: ms) ∧
    run_ops (zip ms h.*1.*2) (Tx.closed s0) = (h.*2, (cf_data c).1.2) ∧
    (Forall (λ m, commit_error m = None) ms → Tx.working (cf_data c).1.2 = None).
Proof.
  intros _ Hk Hs Hf. destruct (steps_match call answered op_steps le ls k _ h c Hk Hs) as (x & Hcs & Hm).
  destruct (calls_serial _ _ _ _ _ _ Hcs) as (ms & [Hl Hso _ Hr]).
  destruct Hm as (_ & [(_ & _ & Hd)|[Hn _]]); [|done]. rewrite <-Hd. exists ms. split_and!; [done..|].
  intros Hms. pose proof (run_ops_closed (zip ms h.*1.*2) (Tx.closed s0)) as Hcl. rewrite Hr in Hcl. apply Hcl; [|done].
  clear -Hms. generalize (h.*1.*2) as ops. induction Hms as [|m ms Hm _ IH]; intros [|op ops]; constructor; auto.
Qed.

(** ** What the event log holds afterwards *)
Definition appended (op : store_op) : list RuntimeEvent :=
  match op with AppendEvent e => [e] | AppendBatch es => es | _ => [] end.
(** A call that succeeded, on the list of events. *)
Definition logged_call (l : list RuntimeEvent) (x : fin) : list RuntimeEvent :=
  match x with
  | (_, TruncateEvents, Ok _) => []
  | (_, op, Ok _) => l ++ appended op
  | (_, _, Raise _) => l
  end.

(** The log is the list in the committed table and in the open transaction. *)
Definition log_holds (c : StoreConn) (l : list RuntimeEvent) : Prop :=
  holds (events (Tx.committed c)) l ∧ ∀ w, Tx.working c = Some w → holds (events w) l.
Lemma log_view c l : log_holds c l → holds (events (lget Tx.view c)) l.
Proof. intros [Hc Hw]. simpl. destruct (Tx.working c) as [w|]; [by apply Hw|done]. Qed.
Lemma states_log {A} (reply : A → store_reply) (m : M StateConn A) c l :
  log_holds c l → log_holds (on_states reply m c).2 l.
Proof.
  intros Hl. rewrite on_states_run. unfold zoom. destruct (m _) as [o d]. simpl. pose proof (log_view c l Hl) as Hv.
  destruct Hl as [Hc Hw]. split; [done|]. simpl. intros w Hd. by destruct (Tx.working d); simplify_eq/=.
Qed.
Lemma events_log m w c l (k : M EventTable unit) :
  w ≠ Truncate → log_holds c l → NoDup (ids l) → Forall event_wf (events_of w) → (∀ t, k t = do_write m w t) →
  ∃ o1, (on_events k c).1 = omap_ok (λ _, Written) o1 ∧ log_holds (on_events k c).2 (logged l (w, o1)) ∧
    NoDup (ids (logged l (w, o1))).
Proof.
  intros Hw Hl Hnd Hwf Hk. rewrite on_events_run. unfold Tx.with_connection, Tx.execute, zoom. rewrite Hk.
  change (lget events_lens (lget Tx.view c)) with (events (lget Tx.view c)).
  pose proof (log_view c l Hl) as Hv. change (es_holds (events (lget Tx.view c)) l) in Hv.
  destruct (do_write_spec m w _ l Hv Hnd Hwf) as (o1 & t' & -> & Hh' & Hnd' & _).
  exists o1. destruct o1 as [a|x]; simpl in *.
  - by split_and!; [|split|].
  - destruct w; simpl in *; [..|done]; (split_and!; [done|split; [exact (proj1 Hl)|done]|done]).
Qed.
Lemma run_op_log m i op c l o c' :
  log_holds c l → NoDup (ids l) → Forall event_wf (appended op) → run_op m op c = (o, c') →
  log_holds c' (logged_call l (i, op, o)) ∧ NoDup (ids (logged_call l (i, op, o))).
Proof.
  intros Hh Hnd Hwf Hrun.
  assert (log_holds c' l → appended op = [] → op ≠ TruncateEvents →
    log_holds c' (logged_call l (i, op, o)) ∧ NoDup (ids (logged_call l (i, op, o)))) as Hsame.
  { intros Hc' Ha Hop. assert (logged_call l (i, op, o) = l) as ->; [|done].
    destruct o as [a|x], op; simpl in *; try done; try (by rewrite app_nil_r); by rewrite Ha, app_nil_r. }
  pose proof (@states_log) as Hst.
  destruct op as [st| |n st|n| |n| |e|es|n|? ?|? ? ?|?| |]; cbn [run_op] in Hrun;
    try (apply Hsame; [|done|done]; first
      [ match type of Hrun with on_states ?r ?f c = _ => specialize (Hst _ r f c l Hh); by rewrite Hrun in Hst end
      | unfold ask in Hrun; by injection Hrun as _ <- ]); simpl in Hwf.
  - destruct (events_log m (Append e) c l (append m e)) as ([[]|x] & Ho & Hl & Hn); [done..| |];
      rewrite Hrun in Ho, Hl; simpl in Ho; subst o; by split.
  - destruct (events_log m (Batch es) c l (append_batch m es)) as ([[]|x] & Ho & Hl & Hn); [done..| |];
      rewrite Hrun in Ho, Hl; simpl in Ho; subst o; by split.
  - unfold on_events, Tx.with_connection, Tx.execute, zoom, modify, bind, ret in Hrun. simpl in Hrun. injection Hrun as <- <-.
    split; [split; [|done]|constructor]. simpl. split_and!; constructor.
Qed.
Lemma run_ops_log ms h c l c' :
  length ms = length h → log_holds c l → NoDup (ids l) → Forall event_wf (h.*1.*2 ≫= appended) →
  run_ops (zip ms h.*1.*2) c = (h.*2, c') →
  log_holds c' (foldl logged_call l h) ∧ NoDup (ids (foldl logged_call l h)).
Proof.
  revert ms c l. induction h as [|[[i op] o] h IH]; intros [|m ms] c l Hlen Hh Hnd Hwf Hrun; simplify_eq/=; [done|].
  apply Forall_app in Hwf as [Hop Hwf]. destruct (run_op m op c) as [o1 c1] eqn:H1.
  destruct (run_ops (zip ms h.*1.*2) c1) as [os c2] eqn:H2. injection Hrun as -> -> ->.
  destruct (run_op_log m i op c l o c1 Hh Hnd Hop H1) as [Hh1 Hnd1]. by apply (IH ms c1).
Qed.

(** The event log under threads: whatever calls run at once and whichever of
    them fail, refused [COMMIT]s of the state store included, the store holds
    the events of the appends that returned, in the order in which they
    returned, batches in one piece, each id once, and that list is what is
    streamed. *)
Theorem concurrent_log ls k s0 n0 h (c : config K InTx nat L store_op store_reply) l :
  lock_free k → steps (start ls k ((false, Tx.closed s0), n0)) h c → lock_free (cf_lock c) →
  holds (events s0) l → NoDup (ids l) → Forall event_wf (h.*1.*2 ≫= appended) →
  NoDup (ids (foldl logged_call l h)) ∧
    ∀ limit offset, stream limit offset (events (lget Tx.view (cf_data c).1.2)) =
      Ok (sql_window limit offset (foldl logged_call l h)).
Proof.
  intros Hk Hs Hf Hh Hnd Hwf. destruct (steps_match call answered op_steps le ls k _ h c Hk Hs) as (x & Hcs & Hm).
  destruct (calls_serial _ _ _ _ _ _ Hcs) as (ms & [Hl _ _ Hr]).
  destruct Hm as (_ & [(_ & _ & Hd)|[Hn _]]); [|done]. rewrite <-Hd.
  destruct (run_ops_log ms h (Tx.closed s0) l x.2.1.2 Hl) as [Hh' Hnd']; [by split|done|done|exact Hr|]. split; [done|].
  intros limit offset. by apply stream_holds, log_view.
Qed.
End threads.

(** * Example: two writers, one of which fails, and a reader *)
Section examples.
#[local] Existing Instance sample_oracle.
#[local] Existing Instance stable_order.
#[local] Existing Instances LocalThreadingLock.lock LocalThreadingLock.laws.
Implicit Types (c : config LocalThreadingLock.t InTx nat (list store_op) store_op store_reply).

(** A state of one task that is saved and one whose retry count is no 64-bit
    integer. *)
Definition broken_state : RuntimeState :=
  {| rs_timestamp := "2026-01-02"; rs_workers := [];
     rs_tasks := rs_tasks sample_state ++
       [("b", {| ts_task_id := "b"; ts_title := "huge"; ts_task_type := "PYTHON"; ts_status := "Pending";
                 ts_created_at := "2026-01-01"; ts_started_at := None; ts_completed_at := None;
                 ts_retry_count := 2 ^ 63; ts_metadata := []; ts_error_message := None; ts_version := 1 |})];
     rs_queue := rs_queue sample_state; rs_scheduler := rs_scheduler sample_state; rs_schema_version := 1 |}.
Definition scripts : list (list store_op) :=
  [[AppendBatch sample_batch; Count]; [SaveState broken_state; AppendEvent (sample_event 2 (TaskDequeued "a"))];
   [ListSnapshots; Count]].
Definition empty_store : Store := {| states := empty_tables; events := empty_table |}.
Definition clients (ls : list (list store_op)) : config LocalThreadingLock.t InTx nat (list store_op) store_op store_reply :=
  start ls LocalThreadingLock.new ((false, Tx.closed empty_store), 0%nat).
Abbreviation run sch ls := (run_schedule next_call go_on op_steps sch (clients ls)).

Abbreviation finished_run := (run (round_robin 3 40) scripts).

Lemma concurrent_log_witness :
  stream 5 0 (events (lget Tx.view (cf_data finished_run.2).1.2)) = Ok sample_batch.
Proof.
  destruct (concurrent_log next_call go_on scripts LocalThreadingLock.new empty_store 0 finished_run.1 finished_run.2 []
    new_lock_free (run_schedule_steps _ _ _ le _ _)) as (_ & Hst).
  - vm_compute. reflexivity.
  - apply holds_empty.
  - constructor.
  - replace (finished_run.1.*1.*2 ≫= appended) with (sample_batch ++ [sample_event 2 (TaskDequeued "a")])
      by (vm_compute; reflexivity).
    apply Forall_app. split; [exact sample_batch_wf|repeat constructor].
  - specialize (Hst 5 0). vm_compute in Hst |- *. exact Hst.
Defined.

Lemma run_to sch h c :
  (run_schedule next_call go_on op_steps sch c).1 = h →
  steps next_call go_on op_steps le c h (run_schedule next_call go_on op_steps sch c).2.
Proof. intros <-. apply run_schedule_steps. Qed.
(** A repository called without the lock, on the same connection, reads rows of
    a transaction that is later rolled back. *)
Theorem unlocked_read_not_isolated :
  ∃ c c', steps next_call go_on op_steps le (clients [[SaveState broken_state]]) [] c ∧
    tr_list_all (tasks_table (states (lget Tx.view (cf_data c).1.2))) = Ok (dvals (rs_tasks sample_state)) ∧
    steps next_call go_on op_steps le c [(0%nat, SaveState broken_state, Raise OverflowError)] c' ∧
    (cf_data c').1.2 = Tx.closed empty_store.
Proof.
  exists (run (replicate 7 0%nat) [[SaveState broken_state]]).2,
    (run_schedule next_call go_on op_steps (replicate 9 0%nat) (run (replicate 7 0%nat) [[SaveState broken_state]]).2).2.
  split_and!.
  - apply run_to. vm_compute. reflexivity.
  - vm_compute. reflexivity.
  - apply run_to. vm_compute. reflexivity.
  - vm_compute. reflexivity.
Qed.
End examples.

(** ** A refused [COMMIT]: the saves that follow fail, until an event is appended
    and everything that waits is committed with it *)
Section refused.
#[local] Existing Instance full_oracle.
#[local] Existing Instance stable_order.
#[local] Existing Instances LocalThreadingLock.lock LocalThreadingLock.laws.

Lemma full_exception n x : store_error n = Some x → isinstance x "Exception" = true.
Proof. done. Qed.
Definition refused_scripts : list (list store_op) :=
  [[Count; Count; Count; Count; Count; Count; Count];
   [HealthCheck; HealthCheck; HealthCheck; HealthCheck; HealthCheck; SaveState sample_state; LoadState;
    AppendEvent (sample_event 2 (TaskDequeued "a")); LoadState]].
Abbreviation refused_run := (run_schedule next_call go_on op_steps (round_robin 2 120) (clients refused_scripts)).
Lemma store_serializable_witness :
  refused_run.1.*2 = mjoin (replicate 5 [Ok (CountIs 0); Ok (Healthy true)]) ++ Ok (CountIs 0) ::
    [Raise (Tx.OperationalError "database or disk is full"); Ok (CountIs 0); Raise Tx.nested; Ok Written;
     Ok (StateIs (Some (stored_form sample_state)))] ∧
  ∃ ms, run_ops (zip ms refused_run.1.*1.*2) (Tx.closed empty_store) = (refused_run.1.*2, (cf_data refused_run.2).1.2).
Proof.
  split; [vm_compute; reflexivity|].
  destruct (store_serializable next_call go_on refused_scripts LocalThreadingLock.new empty_store 0 refused_run.1 refused_run.2
    full_exception new_lock_free (run_schedule_steps _ _ _ le _ _)) as (ms & _ & _ & Hrun & _); [vm_compute; reflexivity|].
  exists ms. exact Hrun.
Defined.
End refused.
