(* ===== verification/Snapshots.v ===== *)
(** [persistence/snapshots/manager.py]: the snapshot manager over any state
    store that keeps the laws of its port, and the serializer of snapshots.
    zlib and base64 are a parameter of the serializer. *)
From S2P Require Import Prelude PyNum Values Decode Events EventStore Transactions RuntimeState StorePorts.
From stdpp Require Import gmap sorting.
Open Scope Z_scope.

(** * The serializer *)

(** The text [serialize] makes: a JSON text (which starts with a brace), or
    ["zlib:"] and an encoded text, of type [T]. *)
Inductive snapshot_text (T : Type) : Type :=
  | Plain (payload : json)
  | Zlib (encoded : T).
Arguments Plain {T} payload.
Arguments Zlib {T} encoded.

Section serializer.
(** [base64.b64encode(zlib.compress(payload.encode("utf-8")))], and back *)
Context {T : Type}.
Variable compress_text : json → T.
Variable decompress_text : T → outcome json.

(** [SnapshotSerializer.serialize], [SnapshotLoader.deserialize] *)
Definition serialize (state : RuntimeState) (compress : bool) : outcome (snapshot_text T) :=
  let? payload := dumps (VDict (state_to_dict state)) in
  Ok (if compress then Zlib (compress_text payload) else Plain payload).
Definition deserialize (raw_data : snapshot_text T) : outcome RuntimeState :=
  let? payload := match raw_data with
                  | Zlib encoded => let? j := decompress_text encoded in Ok (loads j)
                  | Plain j => Ok (loads j)
                  end in
  match payload with VDict d => state_of_dict d | _ => Raise bad_field end.

(** A state without policy objects in its tasks' metadata is read back from
    its text as it was, compressed or not; a state JSON cannot represent is
    refused before anything is compressed. *)
Theorem serializer_roundtrip state compress :
  (∀ j, decompress_text (compress_text j) = Ok j) → plain_state state →
  ∀ raw, serialize state compress = Ok raw → deserialize raw = Ok state.
Proof.
  intros Hcodec Hplain raw. unfold serialize. destruct (dumps _) as [j|] eqn:Hj; [|done].
  apply dumps_Ok in Hj as [-> _]. cbn [obind]. intros [= <-]. unfold deserialize.
  destruct compress; [rewrite Hcodec|]; cbn [obind]; unfold loads; by apply state_dict_roundtrip.
Qed.

(** * The manager *)
Record SnapshotMetadata : Type := {
  sm_snapshot_id : string; sm_timestamp : string; sm_schema_version : Z;
  sm_tasks_count : Z; sm_workers_count : Z; sm_compressed : bool
}.

Section manager.
Context {S : Type} `{!BaseStateStore S}.

Definition metadata_of (snapshot_id : string) (state : RuntimeState) (compress : bool) : SnapshotMetadata :=
  {| sm_snapshot_id := snapshot_id; sm_timestamp := rs_timestamp state;
     sm_schema_version := rs_schema_version state; sm_tasks_count := Z.of_nat (length (rs_tasks state));
     sm_workers_count := Z.of_nat (length (rs_workers state)); sm_compressed := compress |}.
(** [create_snapshot] at the [n]-th reading: the serialized text is made and
    dropped *)
Definition create_snapshot (n : nat) (snapshot_id : string) (state : RuntimeState) (compress : bool) :
    M S SnapshotMetadata :=
  serialized_state <- of_outcome (serialize state compress) ;;
  st_save_snapshot n snapshot_id state ;;;
  ret (metadata_of snapshot_id state compress).
(** [load_snapshot], [list_snapshots], [delete_snapshot] *)
Definition load_snapshot (n : nat) (snapshot_id : string) : M S (option RuntimeState) :=
  st_load_snapshot n snapshot_id.
Definition list_snapshots (n : nat) : M S (list string) := st_list_snapshots n.
Definition delete_snapshot (n : nat) (snapshot_id : string) : M S unit := st_delete_snapshot n snapshot_id.

Inductive request : Type :=
  | Create (i : string) (x : RuntimeState) (compress : bool)
  | LoadOne (i : string)
  | ListAll
  | Delete (i : string).
Inductive reply : Type :=
  | Created (md : SnapshotMetadata)
  | Loaded (x : option RuntimeState)
  | Listed (l : list string)
  | Deleted.

Definition serve (n : nat) (r : request) : M S reply :=
  match r with
  | Create i x compress => md <- create_snapshot n i x compress ;; ret (Created md)
  | LoadOne i => x <- load_snapshot n i ;; ret (Loaded x)
  | ListAll => l <- list_snapshots n ;; ret (Listed l)
  | Delete i => delete_snapshot n i ;;; ret Deleted
  end.
Fixpoint serve_all (n : nat) (rs : list request) (s : S) : list (outcome reply) * S :=
  match rs with
  | [] => ([], s)
  | r :: rs' =>
      let '(o, s1) := serve n r s in let '(os, s2) := serve_all (Datatypes.S n) rs' s1 in (o :: os, s2)
  end.
End manager.

(** ** The specification: a finite map of states *)
Inductive map_step (m : gmap string RuntimeState) :
    request → outcome reply → gmap string RuntimeState → Prop :=
  | map_create i x c : map_step m (Create i x c) (Ok (Created (metadata_of i x c))) (<[i := x]> m)
  | map_load i : map_step m (LoadOne i) (Ok (Loaded (m !! i))) m
  | map_list l : l ≡ₚ (map_to_list m).*1 → newest_first m l → map_step m ListAll (Ok (Listed l)) m
  | map_delete i : map_step m (Delete i) (Ok Deleted) (delete i m)
  | map_fails r e : map_step m r (Raise e) m.
Inductive map_steps : gmap string RuntimeState → list request → list (outcome reply) → gmap string RuntimeState → Prop :=
  | map_nil m : map_steps m [] [] m
  | map_cons m r o m1 rs os m2 : map_step m r o m1 → map_steps m1 rs os m2 → map_steps m (r :: rs) (o :: os) m2.

Definition plain_request (r : request) : Prop :=
  match r with Create _ x _ => plain_state x | _ => True end.

Section refinement.
Context {S : Type} `{StateStoreLaws S}.

(** The store is the map, with the same current state as [s0], or stuck. *)
Definition served (s0 s : S) (m : gmap string RuntimeState) : Prop :=
  (st_holds s m ∧ ∀ k, (st_load_runtime_state k s).1 = (st_load_runtime_state k s0).1) ∨ st_stuck s.

Lemma serve_raised {A} n r s0 s m (call : M S A) (f : A → reply) :
  st_holds s m → (∀ k, (st_load_runtime_state k s).1 = (st_load_runtime_state k s0).1) →
  serve n r s = (omap_ok f (call s).1, (call s).2) → raised st_stuck s (call s) →
  ∃ o s' m', serve n r s = (o, s') ∧ map_step m r o m' ∧ served s0 s' m'.
Proof.
  intros Hs Hk -> (e & s' & -> & Hs'). exists (Raise e), s', m. split; [done|]. split; [constructor|].
  destruct Hs' as [->|?]; [by left|by right].
Qed.
Lemma serve_stuck n r s : st_stuck s → ∃ e, serve n r s = (Raise e, s).
Proof.
  intros Hs. destruct r as [i x c|i| |i]; simpl;
    [destruct (st_stuck_law n i x s Hs) as (_ & _ & (e & H1) & _)
    |destruct (st_stuck_law n i sample_state s Hs) as (_ & _ & _ & (e & H1) & _)
    |destruct (st_stuck_law n "" sample_state s Hs) as (_ & _ & _ & _ & (e & H1) & _)
    |destruct (st_stuck_law n i sample_state s Hs) as (_ & _ & _ & _ & _ & (e & H1))];
    unfold create_snapshot, load_snapshot, list_snapshots, delete_snapshot, bind, of_outcome;
    [destruct (serialize x c); [|by eexists]|..]; rewrite H1; by eexists.
Qed.
Lemma serve_refines n r s0 s m :
  served s0 s m → plain_request r → ∃ o s' m', serve n r s = (o, s') ∧ map_step m r o m' ∧ served s0 s' m'.
Proof.
  intros [[Hs Hk]|Hs] Hr.
  2:{ destruct (serve_stuck n r s Hs) as [e ->]. exists (Raise e), s, m. split_and!; [done|constructor|by right]. }
  destruct r as [i x c|i| |i].
  - simpl. unfold create_snapshot. destruct (serialize x c) as [raw|e] eqn:Hser.
    2:{ eexists _, s, m. unfold bind, of_outcome. split_and!; [done|constructor|by left]. }
    destruct (st_save_snapshot_law n i x s m Hs Hr) as [(s' & Hrun & Hs' & Hk')|(e & s' & Hrun & Hs')];
      unfold bind, of_outcome; rewrite Hrun; eexists _, s', _; (split; [done|split; [constructor|]]).
    + left. split; [done|]. intros k. by rewrite Hk'.
    + destruct Hs' as [->|?]; [by left|by right].
  - destruct (st_load_snapshot_law n i s m Hs) as [Hl|[Hl _]].
    + exists (Ok (Loaded (m !! i))), s, m. simpl. unfold load_snapshot, bind. rewrite Hl. split_and!; [done|constructor|by left].
    + apply (serve_raised n (LoadOne i) s0 s m (st_load_snapshot n i) Loaded); [done..| |done].
      simpl. unfold load_snapshot, bind. by destruct (st_load_snapshot n i s) as [[]].
  - destruct (st_list_snapshots_law n s m Hs) as [(l & Hl & Hp & Hn)|[Hl _]].
    + exists (Ok (Listed l)), s, m. simpl. unfold list_snapshots, bind. rewrite Hl. split_and!; [done|by constructor|by left].
    + apply (serve_raised n ListAll s0 s m (st_list_snapshots n) Listed); [done..| |done].
      simpl. unfold list_snapshots, bind. by destruct (st_list_snapshots n s) as [[]].
  - destruct (st_delete_snapshot_law n i s m Hs) as [(s' & Hrun & Hs' & Hk')|[Hl _]].
    + exists (Ok Deleted), s', (delete i m). simpl. unfold delete_snapshot, bind. rewrite Hrun.
      split_and!; [done|constructor|]. left. split; [done|]. intros k. by rewrite Hk'.
    + apply (serve_raised n (Delete i) s0 s m (st_delete_snapshot n i) (λ _, Deleted)); [done..| |done].
      simpl. unfold delete_snapshot, bind. by destruct (st_delete_snapshot n i s) as [[]].
Qed.

(** Over any state store that keeps its port's laws, the snapshot manager is a
    finite map of states: whatever is asked of it and whichever accesses fail,
    it answers as the map does or raises and changes nothing, lists the newest
    first, and never touches the current state of the runtime - until a failure
    that leaves the store stuck, after which it only raises. *)
Theorem snapshot_manager_refines_map n rs s m :
  st_holds s m → Forall plain_request rs →
  let '(os, s') := serve_all n rs s in ∃ m', map_steps m rs os m' ∧ served s s' m'.
Proof.
  intros Hs Hrs. assert (served s s m) as Hs0 by by left.
  assert (∀ s0, served s0 s m → let '(os, s') := serve_all n rs s in ∃ m', map_steps m rs os m' ∧ served s0 s' m') as Hgo;
    [|by apply Hgo]. clear Hs Hs0.
  revert n s m. induction Hrs as [|r rs Hr _ IH]; intros n s m s0 Hs; simpl.
  { exists m. split; [constructor|done]. }
  destruct (serve_refines n r s0 s m Hs Hr) as (o & s1 & m1 & -> & Hstep & Hs1).
  specialize (IH (Datatypes.S n) s1 m1 s0 Hs1). destruct (serve_all _ rs s1) as [os s2].
  destruct IH as (m2 & Hsteps & Hs2). exists m2. split; [by econstructor|done].
Qed.
End refinement.
End serializer.

(** * Examples *)
Section examples.
#[local] Existing Instance sample_oracle.
#[local] Existing Instance stable_order.

Lemma serializer_roundtrip_witness :
  ∃ raw, serialize id sample_state true = Ok raw ∧ deserialize Ok raw = Ok sample_state.
Proof.
  eexists. split; [vm_compute; reflexivity|].
  apply (serializer_roundtrip id Ok sample_state true); [reflexivity|repeat constructor|vm_compute; reflexivity].
Defined.

Definition newer_state : RuntimeState :=
  {| rs_timestamp := "2026-02-01"; rs_tasks := []; rs_workers := []; rs_queue := rs_queue sample_state;
     rs_scheduler := rs_scheduler sample_state; rs_schema_version := 1 |}.
Definition sample_requests : list request :=
  [Create "a" sample_state true; Create "b" newer_state false; ListAll; Delete "b"; LoadOne "b"; LoadOne "a"].
Lemma sample_requests_plain : Forall plain_request sample_requests.
Proof. repeat constructor. Qed.

Lemma snapshot_manager_refines_map_witness :
  let '(os, s') := serve_all id 0 sample_requests new_conn in
  drop 2 os = [Ok (Listed ["b"; "a"]); Ok Deleted; Ok (Loaded None); Ok (Loaded (Some sample_state))] ∧
  ∃ m, map_steps ∅ sample_requests os m.
Proof.
  pose proof (snapshot_manager_refines_map id 0 sample_requests new_conn ∅
    new_conn_holds sample_requests_plain) as H.
  destruct (serve_all id 0 sample_requests new_conn) as [os s'] eqn:E.
  destruct H as (m & Hm & _). split; [|exists m; exact Hm].
  vm_compute in E. injection E as <- _. reflexivity.
Defined.
End examples.
