(* ===== verification/Tasks.v ===== *)
(** [models/task.py], [managers/task_manager.py], the exceptions' messages, and
    the environment every scheduling component shares: the heap of task
    objects, the oracle's position and the event store. *)
From S2P Require Import Prelude PyNum Values Decode Events EventStore.
From stdpp Require Import pretty.

(** * Tasks *)

Inductive Taskstatus : Type := PENDING | RUNNING | COMPLETED | FAILED.
Inductive TaskType : Type := PYTHON | BROWSER | SHELL.
#[export] Instance Taskstatus_eq_dec : EqDecision Taskstatus.
Proof. solve_decision. Defined.
#[export] Instance TaskType_eq_dec : EqDecision TaskType.
Proof. solve_decision. Defined.

(** [Enum.value] and [Enum.name] *)
Definition status_value (s : Taskstatus) : string :=
  match s with PENDING => "Pending" | RUNNING => "Running"
             | COMPLETED => "Completed" | FAILED => "Failed" end.
Definition type_value (t : TaskType) : string :=
  match t with PYTHON => "python" | BROWSER => "browser" | SHELL => "shell" end.
Definition type_name (t : TaskType) : string :=
  match t with PYTHON => "PYTHON" | BROWSER => "BROWSER" | SHELL => "SHELL" end.
(** [TaskType(value)]: [None] is the [ValueError] *)
Definition type_of_value (s : string) : option TaskType :=
  if s =s? "python" then Some PYTHON
  else if s =s? "browser" then Some BROWSER
  else if s =s? "shell" then Some SHELL else None.

Lemma type_of_value_value t : type_of_value (type_value t) = Some t.
Proof. by destruct t. Qed.

(** [metadata] is [None] only when other code assigns it so. *)
Record Task : Type := {
  task_id : string;
  task_type : TaskType;
  task_metadata : option (odict pyval);
  task_title : string;
  task_status : Taskstatus;
  created_at : string
}.

(** [task.metadata or {}], and [if task.metadata] *)
Definition metadata_or_empty (t : Task) : odict pyval := default [] (task_metadata t).
Definition has_metadata (t : Task) : bool := negb (bool_decide (metadata_or_empty t = [])).

Definition set_status (s : Taskstatus) (t : Task) : Task :=
  {| task_id := task_id t; task_type := task_type t; task_metadata := task_metadata t;
     task_title := task_title t; task_status := s; created_at := created_at t |}.
Definition set_metadata (m : odict pyval) (t : Task) : Task :=
  {| task_id := task_id t; task_type := task_type t; task_metadata := Some m;
     task_title := task_title t; task_status := task_status t; created_at := created_at t |}.
Definition set_id (i : string) (t : Task) : Task :=
  {| task_id := i; task_type := task_type t; task_metadata := task_metadata t;
     task_title := task_title t; task_status := task_status t; created_at := created_at t |}.
(** [task.metadata[k] = v] *)
Definition metadata_set (k : string) (v : pyval) (t : Task) : Task :=
  set_metadata (dset (metadata_or_empty t) k v) t.

(** [Task.start], [Task.complete], [Task.fail] *)
Definition start : Task → Task := set_status RUNNING.
Definition complete : Task → Task := set_status COMPLETED.
Definition fail : Task → Task := set_status FAILED.

(** [Task.__str__] *)
Definition task_str (t : Task) : string :=
  "Task(id=" +:+ task_id t +:+ ", title='" +:+ task_title t +:+ "', task_type='" +:+
  type_value (task_type t) +:+ "', status='" +:+ status_value (task_status t) +:+
  "', created_at=" +:+ created_at t +:+ ")".

(** [str(error)] (exceptions/*.py) *)
Definition exn_str (e : exn) : string :=
  match e with
  | TaskNotFoundError i => "Task with ID '" +:+ i +:+ "' was not found."
  | DuplicateTaskError i => "Task with ID '" +:+ i +:+ "' already exixts."
  | InvalidTaskTitleError => "Task title cannot be Empty."
  | QueueFullError c => "Queue has reached its maximum capacity of " +:+ pretty c +:+ "."
  | QueueEmptyError => "Cannot dequeue from an empty queue."
  | KeyError k => "'" +:+ k +:+ "'"
  | IndexError => "index out of range"
  | OverflowError => "(34, 'Numerical result out of range')"
  | RecursionError => "maximum recursion depth exceeded"
  | AdmissionError m | ValueError m | RuntimeError m | TypeError m | AttributeError m
  | TimeoutError m | UserExc _ m => m
  end.

(** * The shared environment

    Task objects live in a heap: the manager, the queue, the delayed tracker
    and the workers hold references to them, and a mutation through one is seen
    by all.  [env_store] is [store.event_store] ([None]: no store). *)
Record Env : Type := {
  env_tasks : gmap nat Task;
  env_tick : nat;
  env_store : option EventTable
}.

Definition with_tasks (ts : gmap nat Task) (e : Env) : Env :=
  {| env_tasks := ts; env_tick := env_tick e; env_store := env_store e |}.
Definition with_store (s : option EventTable) (e : Env) : Env :=
  {| env_tasks := env_tasks e; env_tick := env_tick e; env_store := s |}.
Definition next_tick (e : Env) : Env :=
  {| env_tasks := env_tasks e; env_tick := S (env_tick e); env_store := env_store e |}.

(** The position of the next oracle reading. *)
Definition tick : M Env nat := λ e, (Ok (env_tick e), next_tick e).

(** Attribute access on a task object; a reference the program holds is never
    dangling. *)
Definition deref (r : nat) : M Env Task := λ e,
  match env_tasks e !! r with
  | Some t => (Ok t, e)
  | None => (Raise (AttributeError "dangling reference"), e)
  end.
Definition update_task (r : nat) (f : Task → Task) : M Env unit :=
  modify (λ e, with_tasks (alter f r (env_tasks e)) e).

Section with_oracle.
Context `{!Oracle}.

(** [store.event_store.append(C(...))] guarded by
    [if self._store and getattr(self._store, "event_store", None)] *)
Definition emit_meta (d : event_data) (meta : odict pyval) : M Env unit := λ e,
  match env_store e with
  | None => (Ok tt, e)
  | Some tbl =>
      let n := env_tick e in
      let ev := {| event_id := uuid4 n; runtime_id := "default-runtime";
                   correlation_id := None; causation_id := None; timestamp := now_iso n;
                   event_type := class_name d; event_version := 1;
                   event_metadata := meta; data := d |} in
      let '(o, tbl') := append n ev tbl in
      (o, with_store (Some tbl') (next_tick e))
  end.
Definition emit (d : event_data) : M Env unit := emit_meta d [].

(** [Task(title, task_type, metadata)] *)
Definition new_task (title : string) (ty : TaskType) (metadata : option (odict pyval)) :
    M Env nat :=
  r <- tick ;;
  if str_truthy (strip title) then
    let t := {| task_id := uuid4 r; task_type := ty;
                task_metadata := Some (default [] metadata); task_title := title;
                task_status := PENDING; created_at := now_iso r |} in
    modify (λ e, with_tasks (<[r := t]> (env_tasks e)) e) ;;;
    ret r
  else raise InvalidTaskTitleError.
End with_oracle.

(** * The task manager: insertion-ordered ids to task objects *)
Definition TaskManager : Type := odict nat.

(** [add_task] *)
Definition add_task (r : nat) : M (TaskManager * Env) unit :=
  t <- env (deref r) ;;
  tasks <- self get ;;
  if dhas tasks (task_id t) then raise (DuplicateTaskError (task_id t))
  else self (modify (λ d, dset d (task_id t) r)).

(** [get_task]: on a missing id the error message reads [task.id] of [None] *)
Definition get_task (i : string) : M TaskManager nat :=
  tasks <- get ;;
  match dget tasks i with
  | None => raise (AttributeError "'NoneType' object has no attribute 'id'")
  | Some r => ret r
  end.

(** [remove_task] *)
Definition remove_task (i : string) : M TaskManager unit :=
  tasks <- get ;;
  if dhas tasks i then modify (λ d, ddel d i) else raise (TaskNotFoundError i).

(** [list_tasks] *)
Definition list_tasks : M TaskManager (list nat) := gets dvals.

(** ** The environment's operations, as equations *)
Section env_lemmas.
Context `{!Oracle}.

Lemma emit_meta_tasks d m e : env_tasks (emit_meta d m e).2 = env_tasks e.
Proof. unfold emit_meta. destruct (env_store e); [|done]. by destruct (append _ _ _). Qed.
Lemma emit_meta_nostore d m e : env_store e = None → emit_meta d m e = (Ok tt, e).
Proof. unfold emit_meta. by intros ->. Qed.
Lemma emit_meta_store_None d m e : env_store (emit_meta d m e).2 = None ↔ env_store e = None.
Proof.
  unfold emit_meta. destruct (env_store e) eqn:E; [by destruct (append _ _ _)|done].
Qed.
Lemma emit_facts d m e o e' : emit_meta d m e = (o, e') →
  env_tasks e' = env_tasks e ∧ (env_store e = None → o = Ok tt) ∧
  (env_store e' = None ↔ env_store e = None).
Proof.
  intros Hem. pose proof (emit_meta_tasks d m e) as Ht.
  pose proof (emit_meta_store_None d m e) as Hs. rewrite Hem in Ht, Hs. split_and!; [done| |done].
  intros Hn. rewrite emit_meta_nostore in Hem by done. congruence.
Qed.
(** An operation that ended with [emit d], and answers [a] if that succeeds. *)
Definition emitted {A} (d : event_data) (e e' : Env) (o : outcome A) (a : A) : Prop :=
  ∃ e1 o', env_store e1 = env_store e ∧ (env_tick e ≤ env_tick e1)%nat ∧
           emit d e1 = (o', e') ∧ o = omap_ok (λ _, a) o'.
Lemma emitted_map {A B} (f : A → B) d e e' (o : outcome A) a :
  emitted d e e' o a → emitted d e e' (omap_ok f o) (f a).
Proof. intros (e1 & o' & ? & ? & ? & ->). exists e1, o'. split_and!; [done..|]. by destruct o'. Qed.
Lemma emitted_nostore {A} d e e' (o : outcome A) a :
  emitted d e e' o a → env_store e = None → o = Ok a.
Proof.
  intros (e1 & o' & Hs & _ & Hem & ->) Hn. destruct (emit_facts _ _ _ _ _ Hem) as (_ & Ho & _).
  rewrite Ho; [done|congruence].
Qed.
Lemma deref_Some e r t : env_tasks e !! r = Some t → deref r e = (Ok t, e).
Proof. unfold deref. by intros ->. Qed.
End env_lemmas.

(** A change of the heap that keeps every task object and its id. *)
Definition ids_kept (ts ts' : gmap nat Task) : Prop :=
  ∀ r t, ts !! r = Some t → ∃ t', ts' !! r = Some t' ∧ task_id t' = task_id t.

#[export] Instance ids_kept_preorder : PreOrder ids_kept.
Proof.
  split.
  - intros ts r t ?. eauto.
  - intros ts1 ts2 ts3 H12 H23 r t (t' & H & E)%H12. apply H23 in H as (t'' & ? & ?).
    exists t''. split; [done|congruence].
Qed.

Lemma ids_kept_alter ts r f : (∀ t, task_id (f t) = task_id t) → ids_kept ts (alter f r ts).
Proof.
  intros Hf r' t Ht. rewrite lookup_alter. case_decide; subst; rewrite Ht; simpl; eauto.
Qed.

(** A task for the examples. *)
Definition sample_task (i : string) (m : odict pyval) : Task :=
  {| task_id := i; task_type := PYTHON; task_metadata := Some m; task_title := "t";
     task_status := PENDING; created_at := "" |}.

(** ** The task manager *)
Section manager.
Implicit Types (mgr : TaskManager).

(** The manager is a map in insertion order: an id is registered once, what
    was registered is found and listed last, removing it restores the manager,
    and removing an unknown id raises [TaskNotFoundError]. *)
Theorem manager_map mgr e r t :
  env_tasks e !! r = Some t →
  if decide (task_id t ∈ dkeys mgr) then
    add_task r (mgr, e) = (Raise (DuplicateTaskError (task_id t)), (mgr, e))
  else ∃ mgr', add_task r (mgr, e) = (Ok tt, (mgr', e)) ∧
    get_task (task_id t) mgr' = (Ok r, mgr') ∧
    (∀ i, i ≠ task_id t → (get_task i mgr').1 = (get_task i mgr).1) ∧
    list_tasks mgr' = (Ok (dvals mgr ++ [r]), mgr') ∧
    remove_task (task_id t) mgr' = (Ok tt, mgr) ∧
    remove_task (task_id t) mgr = (Raise (TaskNotFoundError (task_id t)), mgr).
Proof.
  intros Ht. unfold add_task. run_step. unfold deref. rewrite Ht; simpl.
  case_decide as Hin; [by rewrite (proj2 (dhas_true _ _) Hin)|].
  rewrite (proj2 (dhas_false _ _) Hin); simpl. eexists; split; [done|].
  unfold get_task, list_tasks, remove_task. run_step. rewrite dget_dset_eq.
  rewrite (proj2 (dhas_true _ _)) by (apply elem_of_dkeys_dset; by left).
  rewrite (proj2 (dhas_false _ _) Hin), (dset_fresh _ _ _ Hin).
  split_and!; [done| |by unfold dvals; rewrite fmap_app| |done].
  - intros i Hi. rewrite <-(dset_fresh _ _ _ Hin), dget_dset_ne by done. by destruct (dget mgr i).
  - f_equal. clear -Hin. unfold dkeys in Hin. induction mgr as [|[k v] mgr IH]; csimpl in *.
    + by rewrite decide_True.
    + rewrite not_elem_of_cons in Hin. rewrite decide_False by tauto. by rewrite IH by tauto.
Qed.

(** Looking up an unknown id does not raise [TaskNotFoundError]: building
    its message reads [task.id] of [None], so an [AttributeError] comes out. *)
Theorem get_task_missing mgr i :
  i ∉ dkeys mgr →
  ∃ m, get_task i mgr = (Raise (AttributeError m), mgr) ∧
       isinstance (AttributeError m) "TaskNotFoundError" = false.
Proof.
  intros Hi. apply dget_None in Hi. unfold get_task. run_step. rewrite Hi. by eexists.
Qed.
End manager.

Lemma manager_map_witness :
  let e := {| env_tasks := {[ 7%nat := sample_task "x" [] ]}; env_tick := 0; env_store := None |} in
  ∃ mgr', add_task 7 ([("y", 3%nat)], e) = (Ok tt, (mgr', e)) ∧ get_task "x" mgr' = (Ok 7%nat, mgr').
Proof.
  intros e. pose proof (manager_map [("y", 3%nat)] e 7 (sample_task "x" []) eq_refl) as H.
  rewrite decide_False in H by (apply (bool_decide_unpack _); vm_compute; exact I).
  destruct H as (mgr' & Ha & Hg & _). exists mgr'. split; [exact Ha|exact Hg].
Defined.

Lemma get_task_missing_witness :
  ∃ m, get_task "x" [] = (Raise (AttributeError m), []).
Proof.
  destruct (get_task_missing [] "x") as (m & Hm & _); [apply not_elem_of_nil|]. exists m. exact Hm.
Defined.
