(* ===== verification/Recovery.v ===== *)
(** [persistence/recovery/manager.py]: rebuilding the runtime's state from a saved state and the event log. *)
From S2P Require Import Prelude PyNum Values Decode Events EventStore Transactions RuntimeState Tasks.
Open Scope Z_scope.

Inductive RecoveryPolicy : Type := FROM_LATEST_SNAPSHOT | FROM_GENESIS.
Definition policy_value (p : RecoveryPolicy) : string :=
  match p with FROM_LATEST_SNAPSHOT => "FROM_LATEST_SNAPSHOT" | FROM_GENESIS => "FROM_GENESIS" end.

Record RecoveryReport : Type := {
  rr_success : bool;
  rr_policy_applied : string;
  rr_snapshot_loaded : bool;
  rr_snapshot_timestamp : option string;
  rr_events_replayed_count : Z;
  rr_tasks_recovered_count : Z;
  rr_workers_recovered_count : Z;
  rr_duration_seconds : spec_float
}.

(** * Event application *)

(** The local variables of [recover] that the events change. *)
Record Replay : Type := {
  rp_tasks : odict TaskExecutionState;
  rp_workers : odict WorkerStateSnapshot;
  rp_queued : list string;
  rp_size : Z;
  rp_started : bool;
  rp_delayed : list string;
  rp_timeouts : odict num
}.

(** [dataclass_replace] on a task, and on a worker *)
Definition replace_task (status : string) (started completed error : option (option string))
    (retries : option Z) (t : TaskExecutionState) : TaskExecutionState :=
  {| ts_task_id := ts_task_id t; ts_title := ts_title t; ts_task_type := ts_task_type t;
     ts_status := status; ts_created_at := ts_created_at t;
     ts_started_at := default (ts_started_at t) started;
     ts_completed_at := default (ts_completed_at t) completed;
     ts_retry_count := default (ts_retry_count t) retries; ts_metadata := ts_metadata t;
     ts_error_message := default (ts_error_message t) error; ts_version := ts_version t |}.
Definition replace_worker (state heartbeat : option string) (more_failures : Z)
    (w : WorkerStateSnapshot) : WorkerStateSnapshot :=
  {| ws_worker_id := ws_worker_id w; ws_state := default (ws_state w) state;
     ws_current_task_id := ws_current_task_id w;
     ws_heartbeat_time := default (ws_heartbeat_time w) heartbeat;
     ws_tasks_processed := ws_tasks_processed w; ws_failures := ws_failures w + more_failures;
     ws_start_time := ws_start_time w; ws_version := ws_version w |}.
(** [if k in d: d[k] = f(d[k])] *)
Definition dupd {A} (d : odict A) (k : string) (f : A → A) : odict A :=
  match dget d k with Some x => dset d k (f x) | None => d end.
(** [l.remove(x)] of a list that has [x]: the first occurrence *)
Fixpoint remove_first (x : string) (l : list string) : list string :=
  match l with [] => [] | y :: l' => if decide (x = y) then l' else y :: remove_first x l' end.
(** [if x in l: l.remove(x)] and [if x not in l: l.append(x)] *)
Definition remove_if_in (x : string) (l : list string) : list string :=
  if decide (x ∈ l) then remove_first x l else l.
Definition add_if_absent (x : string) (l : list string) : list string :=
  if decide (x ∈ l) then l else l ++ [x].

Definition with_rp_tasks (ts : odict TaskExecutionState) (r : Replay) : Replay :=
  {| rp_tasks := ts; rp_workers := rp_workers r; rp_queued := rp_queued r; rp_size := rp_size r;
     rp_started := rp_started r; rp_delayed := rp_delayed r; rp_timeouts := rp_timeouts r |}.
Definition with_rp_workers (ws : odict WorkerStateSnapshot) (r : Replay) : Replay :=
  {| rp_tasks := rp_tasks r; rp_workers := ws; rp_queued := rp_queued r; rp_size := rp_size r;
     rp_started := rp_started r; rp_delayed := rp_delayed r; rp_timeouts := rp_timeouts r |}.
(** the queue, and [queue_size = len(queued_task_ids)] *)
Definition with_rp_queued (l : list string) (r : Replay) : Replay :=
  {| rp_tasks := rp_tasks r; rp_workers := rp_workers r; rp_queued := l;
     rp_size := Z.of_nat (length l);
     rp_started := rp_started r; rp_delayed := rp_delayed r; rp_timeouts := rp_timeouts r |}.
Definition with_rp_sched (b : bool) (l : list string) (ts : odict num) (r : Replay) : Replay :=
  {| rp_tasks := rp_tasks r; rp_workers := rp_workers r; rp_queued := rp_queued r; rp_size := rp_size r;
     rp_started := b; rp_delayed := l; rp_timeouts := ts |}.

Definition new_task_state (i title ty : string) (e : RuntimeEvent) : TaskExecutionState :=
  {| ts_task_id := i; ts_title := title; ts_task_type := ty; ts_status := "Pending";
     ts_created_at := timestamp e; ts_started_at := None; ts_completed_at := None; ts_retry_count := 0;
     ts_metadata := event_metadata e; ts_error_message := None; ts_version := 1 |}.
Definition new_worker_state (w : string) (e : RuntimeEvent) : WorkerStateSnapshot :=
  {| ws_worker_id := w; ws_state := "idle"; ws_current_task_id := None; ws_heartbeat_time := timestamp e;
     ws_tasks_processed := 0; ws_failures := 0; ws_start_time := timestamp e; ws_version := 1 |}.

(** A task reaches a final status, and leaves the queue. *)
Definition finish_task (i status : string) (error : option (option string)) (e : RuntimeEvent)
    (r : Replay) : Replay :=
  with_rp_queued (remove_if_in i (rp_queued r))
    (with_rp_tasks (dupd (rp_tasks r) i (replace_task status None (Some (Some (timestamp e))) error None)) r).

(** The body of the loop over the events. *)
Definition apply_runtime_event (r : Replay) (e : RuntimeEvent) : Replay :=
  match data e with
  | TaskSubmitted i title ty => with_rp_tasks (dset (rp_tasks r) i (new_task_state i title ty e)) r
  | TaskQueued i =>
      let r' := with_rp_queued (add_if_absent i (rp_queued r)) r in
      with_rp_tasks (dupd (rp_tasks r) i (replace_task "Pending" None None None None)) r'
  | TaskDequeued i => with_rp_queued (remove_if_in i (rp_queued r)) r
  | TaskStarted i =>
      with_rp_tasks (dupd (rp_tasks r) i
        (replace_task "Running" (Some (Some (timestamp e))) None None None)) r
  | TaskCompleted i => finish_task i "Completed" None e r
  | TaskFailed i m => finish_task i "Failed" (Some (Some m)) e r
  | TaskCancelled i => finish_task i "Failed" (Some (Some "Task cancelled.")) e r
  | TaskTimedOut i => finish_task i "Failed" (Some (Some "Task timed out.")) e r
  | TaskRetried i n =>
      with_rp_tasks (dupd (rp_tasks r) i (replace_task "Pending" None None None (Some n))) r
  | WorkerStarted w => with_rp_workers (dset (rp_workers r) w (new_worker_state w e)) r
  | WorkerStopped w =>
      with_rp_workers (dupd (rp_workers r) w (replace_worker (Some "stopped") None 0)) r
  | WorkerHeartbeat w t => with_rp_workers (dupd (rp_workers r) w (replace_worker None (Some t) 0)) r
  | WorkerFailed w _ => with_rp_workers (dupd (rp_workers r) w (replace_worker (Some "failed") None 1)) r
  | WorkerRecovered w => with_rp_workers (dupd (rp_workers r) w (replace_worker (Some "idle") None 0)) r
  | SchedulerStarted => with_rp_sched true (rp_delayed r) (rp_timeouts r) r
  | SchedulerStopped => with_rp_sched false (rp_delayed r) (rp_timeouts r) r
  | RetryScheduled i _ =>
      with_rp_sched (rp_started r) (add_if_absent i (rp_delayed r)) (rp_timeouts r) r
  | TimeoutTriggered i n => with_rp_sched (rp_started r) (rp_delayed r) (dset (rp_timeouts r) i n) r
  | DelayedTaskReleased i =>
      with_rp_sched (rp_started r) (remove_if_in i (rp_delayed r)) (rp_timeouts r) r
  | EBase | RuntimeStarted | RuntimeStopped | RuntimeRecovered | SnapshotCreated _ | SnapshotLoaded _ => r
  end.
Definition replay_log (r : Replay) (es : list RuntimeEvent) : Replay := foldl apply_runtime_event r es.

(** Unpacking the base state, and packing the result. *)
Definition unpack (s : RuntimeState) : Replay :=
  {| rp_tasks := rs_tasks s; rp_workers := rs_workers s; rp_queued := qs_queued_task_ids (rs_queue s);
     rp_size := qs_size (rs_queue s); rp_started := ss_started (rs_scheduler s);
     rp_delayed := ss_delayed_task_ids (rs_scheduler s); rp_timeouts := ss_active_timeouts (rs_scheduler s) |}.
Definition pack (base : RuntimeState) (now : string) (r : Replay) : RuntimeState :=
  {| rs_timestamp := now; rs_tasks := rp_tasks r; rs_workers := rp_workers r;
     rs_queue := {| qs_queued_task_ids := rp_queued r; qs_size := rp_size r;
                    qs_capacity := qs_capacity (rs_queue base);
                    qs_policy_type := qs_policy_type (rs_queue base); qs_version := qs_version (rs_queue base) |};
     rs_scheduler := {| ss_started := rp_started r; ss_uptime_seconds := ss_uptime_seconds (rs_scheduler base);
                        ss_delayed_task_ids := rp_delayed r; ss_active_timeouts := rp_timeouts r;
                        ss_version := ss_version (rs_scheduler base) |};
     rs_schema_version := 1 |}.
(** The state to start from when there is none. *)
Definition genesis (now : string) : RuntimeState :=
  {| rs_timestamp := now; rs_tasks := []; rs_workers := [];
     rs_queue := {| qs_queued_task_ids := []; qs_size := 0; qs_capacity := None; qs_policy_type := "FIFO";
                    qs_version := 1 |};
     rs_scheduler := {| ss_started := false; ss_uptime_seconds := PFloat f_zero; ss_delayed_task_ids := [];
                        ss_active_timeouts := []; ss_version := 1 |};
     rs_schema_version := 1 |}.

(** * [RecoveryManager.recover] and [SnapshotManager] *)
Definition genesis_limit : Z := 100000.

Section recovery.
Context `{!Oracle}.
Abbreviation RM A := (M (StateConn * Env) A).

(** [time.time()], [datetime.now().isoformat()] *)
Definition read_time : RM spec_float := n <- env tick ;; ret (time_now n).
Definition read_now : RM string := n <- env tick ;; ret (now_iso n).

Definition base_state (p : RecoveryPolicy) : RM (option RuntimeState) :=
  match p with
  | FROM_LATEST_SNAPSHOT =>
      n <- env tick ;; self (load_runtime_state n)
  | FROM_GENESIS => ret None
  end.
Definition events_to_replay (base : option RuntimeState) : RM (list RuntimeEvent) :=
  store <- env (gets env_store) ;;
  match store with
  | None => ret []
  | Some tbl =>
      of_outcome
        match base with
        | Some s => if str_truthy (rs_timestamp s) then stream_from (rs_timestamp s) default_limit 0 tbl
                    else stream genesis_limit 0 tbl
        | None => stream genesis_limit 0 tbl
        end
  end.

(** The report on a recovery that took from [start] to [stop]. *)
Definition recovery_report (p : RecoveryPolicy) (loaded : option RuntimeState) (events : list RuntimeEvent) (r : Replay)
    (start stop : spec_float) : RecoveryReport :=
  {| rr_success := true; rr_policy_applied := policy_value p;
     rr_snapshot_loaded := bool_decide (is_Some loaded);
     rr_snapshot_timestamp := rs_timestamp <$> loaded;
     rr_events_replayed_count := Z.of_nat (length events);
     rr_tasks_recovered_count := Z.of_nat (length (rp_tasks r));
     rr_workers_recovered_count := Z.of_nat (length (rp_workers r));
     rr_duration_seconds := fsub stop start |}.
Definition recover (p : RecoveryPolicy) : RM (RuntimeState * RecoveryReport) :=
  start <- read_time ;;
  loaded <- base_state p ;;
  base <- match loaded with Some s => ret s | None => now <- read_now ;; ret (genesis now) end ;;
  events <- events_to_replay loaded ;;
  let r := replay_log (unpack base) events in
  now <- read_now ;;
  stop <- read_time ;;
  ret (pack base now r, recovery_report p loaded events r start stop).
End recovery.

(** * The invariant of the rebuilt state *)
Record replay_ok (r : Replay) : Prop := {
  ro_tasks : dwf (rp_tasks r);
  ro_tasks_id : Forall (λ kv, ts_task_id kv.2 = kv.1) (rp_tasks r);
  ro_workers : dwf (rp_workers r);
  ro_workers_id : Forall (λ kv, ws_worker_id kv.2 = kv.1) (rp_workers r);
  ro_queued : NoDup (rp_queued r);
  ro_size : rp_size r = Z.of_nat (length (rp_queued r));
  ro_delayed : NoDup (rp_delayed r);
  ro_timeouts : dwf (rp_timeouts r)
}.

Lemma remove_first_filter x l : NoDup l → remove_first x l = filter (λ y, y ≠ x) l.
Proof.
  induction l as [|y l IH]; [done|]. intros [Hy Hl]%NoDup_cons. simpl. rewrite filter_cons.
  case_decide as Hx.
  - subst. rewrite decide_False by tauto. symmetry. apply filter_all.
    apply Forall_forall. intros z Hz ->. done.
  - rewrite decide_True by congruence. by rewrite IH.
Qed.
Lemma remove_if_in_filter x l : NoDup l → remove_if_in x l = filter (λ y, y ≠ x) l.
Proof.
  intros Hl. unfold remove_if_in. case_decide; [by apply remove_first_filter|].
  symmetry. apply filter_all. apply Forall_forall. intros z Hz ->. done.
Qed.
Lemma remove_if_in_NoDup x l : NoDup l → NoDup (remove_if_in x l).
Proof. intros Hl. rewrite remove_if_in_filter by done. by apply NoDup_filter. Qed.
Lemma add_if_absent_NoDup x l : NoDup l → NoDup (add_if_absent x l).
Proof.
  intros Hl. unfold add_if_absent. case_decide; [done|]. apply NoDup_app. split_and!; [done| |apply NoDup_singleton].
  set_solver.
Qed.
Lemma dset_Forall {A} (P : string * A → Prop) (d : odict A) k v :
  Forall P d → P (k, v) → Forall P (dset d k v).
Proof.
  intros Hd Hv. induction Hd as [|[k' v'] d Hx Hd IH]; simpl; [by repeat constructor|].
  case_decide; subst; by constructor.
Qed.
Lemma dupd_wf {A} (d : odict A) k f : dwf d → dwf (dupd d k f).
Proof. unfold dupd. destruct (dget d k); [apply dset_wf|done]. Qed.
Lemma dupd_keyed {A} (key : A → string) (d : odict A) k f :
  (∀ x, key (f x) = key x) → Forall (λ kv, key kv.2 = kv.1) d → Forall (λ kv, key kv.2 = kv.1) (dupd d k f).
Proof.
  intros Hf Hd. unfold dupd. destruct (dget d k) as [x|] eqn:Hx; [|done].
  apply dset_Forall; [done|]. simpl. rewrite Hf. rewrite Forall_forall in Hd.
  by apply (Hd (k, x)), dget_Some_elem.
Qed.
Create HintDb recovery.
#[export] Hint Resolve dset_wf dset_Forall dupd_wf dupd_keyed remove_if_in_NoDup add_if_absent_NoDup : recovery.

Lemma apply_runtime_event_ok r e : replay_ok r → replay_ok (apply_runtime_event r e).
Proof.
  intros [H1 H2 H3 H4 H5 H6 H7 H8]. unfold apply_runtime_event, finish_task.
  destruct (data e); constructor; cbn; auto with recovery.
Qed.
Lemma replay_log_ok r es : replay_ok r → replay_ok (replay_log r es).
Proof.
  revert r. induction es as [|e es IH]; intros r Hr; [done|]. simpl. by apply IH, apply_runtime_event_ok.
Qed.
Lemma genesis_ok now : replay_ok (unpack (genesis now)).
Proof. constructor; cbn; try done; constructor. Qed.

(** * What a recovery computes *)
Definition state_ok (s : RuntimeState) : Prop := replay_ok (unpack s).

Lemma unpack_pack base now r : unpack (pack base now r) = r.
Proof. by destruct r. Qed.

Lemma state_ok_keyed s : state_ok s → state_keyed s.
Proof. intros []. by constructor. Qed.
Lemma stored_form_unpack s : unpack (stored_form s) = unpack s.
Proof. by destruct s as [? ? ? ? [] ?]. Qed.

Section correctness.
Context `{!Oracle}.

(** The database does not fail when a recovery loads the state. *)
Definition readable (e : Env) : Prop :=
  store_error (S (env_tick e)) = None ∧ commit_error (S (env_tick e)) = None.

(** The events a recovery replays: from the start, or from a loaded state on. *)
Definition replayed (loaded : option RuntimeState) (es : list RuntimeEvent) : list RuntimeEvent :=
  match loaded with
  | Some s => take 100 (filter (λ e, String.leb (rs_timestamp s) (timestamp e) = true) es)
  | None => sql_window genesis_limit 0 es
  end.

Lemma recover_run p t e tbl es loaded :
  env_store e = Some tbl → holds tbl es →
  (p = FROM_LATEST_SNAPSHOT → load_runtime_state (S (env_tick e)) t = (Ok loaded, t)) → (p = FROM_GENESIS → loaded = None) →
  (∀ s, loaded = Some s → str_truthy (rs_timestamp s) = true) →
  ∃ now0 now rep e', let base := default (genesis now0) loaded in
    recover p (t, e) = (Ok (pack base now (replay_log (unpack base) (replayed loaded es)), rep), (t, e')) ∧
    rr_events_replayed_count rep = Z.of_nat (length (replayed loaded es)) ∧
    rr_snapshot_loaded rep = bool_decide (is_Some loaded) ∧ env_store e' = env_store e.
Proof.
  intros Hst Hh Hl Hg Hts.
  assert (Hb : ∃ e1, base_state p (t, next_tick e) = (Ok loaded, (t, e1)) ∧ env_store e1 = Some tbl).
  { destruct p; unfold base_state; run_step.
    - simpl. rewrite (Hl eq_refl). eauto.
    - rewrite (Hg eq_refl). eauto. }
  destruct Hb as (e1 & Hb & Hst1).
  assert (Hev : ∀ e2, env_store e2 = Some tbl →
            events_to_replay loaded (t, e2) = (Ok (replayed loaded es), (t, e2))).
  { intros e2 H2. unfold events_to_replay, replayed. run_step. rewrite H2.
    destruct loaded as [s|].
    - rewrite (Hts s eq_refl). by rewrite (stream_from_holds tbl es _ _ _ Hh).
    - by rewrite (stream_holds tbl es _ _ Hh). }
  unfold recover, read_time, read_now. run_step. rewrite Hb. simpl.
  destruct loaded as [s|]; simpl.
  - rewrite (Hev e1 Hst1). simpl. eexists "", _, _, _. split; [done|]. cbn. split; [done|]. split; [done|].
    by rewrite Hst.
  - rewrite (Hev (next_tick e1) Hst1). simpl. eexists _, _, _, _. split; [done|]. cbn. split; [done|].
    split; [done|]. by rewrite Hst.
Qed.
End correctness.

Section theorems.
Context `{!Oracle}.

(** Recovery from genesis replays the whole log (of at most 100000 events)
    in order, and the state it builds is well formed: no task, worker, queued
    or delayed id twice, every entry under its own id, and the queue's size is
    its length. *)
Theorem recovery_from_genesis t e tbl es :
  env_store e = Some tbl → holds tbl es → Z.of_nat (length es) ≤ genesis_limit →
  ∃ s rep e', recover FROM_GENESIS (t, e) = (Ok (s, rep), (t, e')) ∧
    unpack s = replay_log (unpack (genesis "")) es ∧ state_ok s ∧
    rr_events_replayed_count rep = Z.of_nat (length es) ∧ rr_snapshot_loaded rep = false.
Proof.
  intros Hst Hh Hlen.
  destruct (recover_run FROM_GENESIS t e tbl es None Hst Hh ltac:(done) ltac:(done) ltac:(done))
    as (now0 & now & rep & e' & Hrun & Hc & Hl & _). cbn [default from_option id] in Hrun.
  assert (replayed None es = es) as Hes.
  { unfold replayed, sql_window. simpl. apply take_ge. unfold genesis_limit in *. lia. }
  rewrite Hes in Hrun, Hc. eexists _, _, _. split; [exact Hrun|]. unfold state_ok. rewrite unpack_pack.
  split_and!; [done| |done|done]. apply replay_log_ok, genesis_ok.
Qed.

Lemma recover_saved t t' e tbl es n s :
  env_store e = Some tbl → holds tbl es → readable e → state_ok s → str_truthy (rs_timestamp s) = true →
  save_runtime_state n s t = (Ok tt, t') →
  ∃ now rep e',
    recover FROM_LATEST_SNAPSHOT (t', e) =
      (Ok (pack (stored_form s) now (replay_log (unpack s) (replayed (Some s) es)), rep), (t', e')) ∧
    rr_events_replayed_count rep = Z.of_nat (length (replayed (Some s) es)).
Proof.
  intros Hst Hh Hup Hok Hts Hsave.
  destruct (recover_run FROM_LATEST_SNAPSHOT t' e tbl es (Some (stored_form s)) Hst Hh)
    as (now0 & now & rep & e' & Hrun & Hc & _); [|done|by intros ? [= <-]|].
  { intros _. destruct Hup. by apply (load_saved n _ s t t' (state_ok_keyed s Hok) Hts). }
  exists now, rep, e'. cbn [default from_option id] in Hrun. rewrite stored_form_unpack in Hrun. by split.
Qed.

(** C16: Recovery from a saved state replays, on top of it, the first 100 of the
    events not older than it, never more ([stream_from] is called with its
    default limit): what the log says after those is not recovered. *)
Theorem recovery_from_saved t t' e tbl es n s :
  env_store e = Some tbl → holds tbl es → readable e → state_ok s → str_truthy (rs_timestamp s) = true →
  save_runtime_state n s t = (Ok tt, t') →
  ∃ s' rep e', recover FROM_LATEST_SNAPSHOT (t', e) = (Ok (s', rep), (t', e')) ∧
    unpack s' = replay_log (unpack s)
      (take 100 (filter (λ ev, String.leb (rs_timestamp s) (timestamp ev) = true) es)) ∧
    state_ok s' ∧ rr_events_replayed_count rep ≤ 100.
Proof.
  intros Hst Hh Hup Hok Hts Hsave.
  destruct (recover_saved t t' e tbl es n s Hst Hh Hup Hok Hts Hsave) as (now & rep & e' & Hrun & Hc).
  eexists _, _, _. split; [exact Hrun|]. unfold state_ok. rewrite unpack_pack.
  split_and!; [done|by apply replay_log_ok|]. rewrite Hc. unfold replayed. rewrite length_take. lia.
Qed.

(** Snapshots are sound: when the saved state is the replay of the older part
    of the log and at most 100 events followed, recovery from it agrees with
    recovery from genesis. *)
Theorem snapshot_recovery_agrees t t' e tbl es1 es2 n ts :
  env_store e = Some tbl → holds tbl (es1 ++ es2) → readable e → str_truthy ts = true →
  Forall (λ ev, String.leb ts (timestamp ev) = false) es1 →
  Forall (λ ev, String.leb ts (timestamp ev) = true) es2 →
  (length es2 ≤ 100)%nat → Z.of_nat (length (es1 ++ es2)) ≤ genesis_limit →
  save_runtime_state n (pack (genesis "") ts (replay_log (unpack (genesis "")) es1)) t = (Ok tt, t') →
  ∃ s1 rep1 s2 rep2,
    (recover FROM_LATEST_SNAPSHOT (t', e)).1 = Ok (s1, rep1) ∧ (recover FROM_GENESIS (t', e)).1 = Ok (s2, rep2) ∧
    rs_tasks s1 = rs_tasks s2 ∧ rs_workers s1 = rs_workers s2 ∧ rs_queue s1 = rs_queue s2 ∧
    rs_scheduler s1 = rs_scheduler s2 ∧ rr_events_replayed_count rep1 = Z.of_nat (length es2).
Proof.
  intros Hst Hh Hup Hts H1 H2 Hlen Hall Hsave. set (base := pack _ ts _) in Hsave.
  assert (Hok : state_ok base).
  { unfold state_ok, base. rewrite unpack_pack. apply replay_log_ok, genesis_ok. }
  destruct (recover_saved t t' e tbl (es1 ++ es2) n base Hst Hh Hup Hok Hts Hsave) as (now & rep1 & e1 & Hr1 & Hc).
  destruct (recover_run FROM_GENESIS t' e tbl (es1 ++ es2) None Hst Hh ltac:(done) ltac:(done) ltac:(done))
    as (now0 & now' & rep2 & e2 & Hr2 & _). cbn [default from_option id] in Hr2.
  assert (replayed (Some base) (es1 ++ es2) = es2) as Hes.
  { unfold replayed. rewrite filter_app, filter_none, filter_all; [by apply take_ge|done|].
    eapply Forall_impl; [exact H1|]. intros ev. cbn. by intros ->. }
  assert (replayed None (es1 ++ es2) = es1 ++ es2) as Hes'.
  { unfold replayed, sql_window. simpl. apply take_ge. unfold genesis_limit in *. lia. }
  rewrite Hes in Hr1, Hc. rewrite Hes' in Hr2.
  eexists _, rep1, _, rep2. rewrite Hr1, Hr2. split; [done|]. split; [done|].
  assert (replay_log (unpack (genesis now0)) (es1 ++ es2) = replay_log (unpack base) es2) as ->.
  { unfold base. rewrite unpack_pack. unfold replay_log. by rewrite foldl_app. }
  by split_and!.
Qed.
End theorems.

(** * Examples *)
Section examples.
#[local] Existing Instance sample_oracle.

Definition logged (ds : list event_data) (first : nat) : list RuntimeEvent :=
  imap (λ i d, sample_event (first + i) d) ds.
Definition log_table (es : list RuntimeEvent) : EventTable := (append_batch 0 es empty_table).2.
Definition log_env (es : list RuntimeEvent) : Env :=
  {| env_tasks := ∅; env_tick := 900; env_store := Some (log_table es) |}.

(** The life of a task, up to its start, and what follows. *)
Definition life : list RuntimeEvent :=
  logged [TaskSubmitted "a" "build" "PYTHON"; TaskQueued "a"; WorkerStarted "W-001"; TaskDequeued "a";
          TaskStarted "a"] 100.
Definition finish : list RuntimeEvent := logged [WorkerHeartbeat "W-001" "t"; TaskCompleted "a"] 200.
Definition saved_at : string := now_iso 150.
Definition saved : RuntimeState := pack (genesis "") saved_at (replay_log (unpack (genesis "")) life).

Lemma log_holds es : Forall event_wf es → bool_decide (NoDup (map event_id es)) = true →
  holds (log_table es) es.
Proof.
  intros Hwf Hnd%bool_decide_eq_true.
  destruct (insert_events_holds es empty_table [] holds_empty Hwf Hnd) as (t & Ht & Hh).
  unfold log_table, append_batch, transaction. simpl. by rewrite Ht.
Qed.
Lemma life_finish_holds : holds (log_table (life ++ finish)) (life ++ finish).
Proof. apply log_holds; [repeat constructor|vm_compute; reflexivity]. Qed.
Lemma saved_ok : state_ok saved.
Proof. unfold state_ok, saved. rewrite unpack_pack. apply replay_log_ok, genesis_ok. Qed.
Definition saved_tables : StateConn := (save_runtime_state 0 saved new_conn).2.
Definition status_of_task (i : string) (s : RuntimeState) : option string := ts_status <$> dget (rs_tasks s) i.

Lemma recovery_from_genesis_witness :
  ∃ s rep e', recover FROM_GENESIS (new_conn, log_env (life ++ finish)) = (Ok (s, rep), (new_conn, e')) ∧
    unpack s = replay_log (unpack (genesis "")) (life ++ finish) ∧ state_ok s.
Proof.
  destruct (recovery_from_genesis new_conn (log_env (life ++ finish)) _ (life ++ finish)
    eq_refl life_finish_holds) as (s & rep & e' & Hr & Hu & Hok & _); [vm_compute; discriminate|].
  exists s, rep, e'. split; [exact Hr|]. split; [exact Hu|exact Hok].
Defined.

Lemma sample_readable : readable (log_env (life ++ finish)).
Proof. done. Qed.
Lemma recovery_from_saved_witness :
  ∃ s rep e', recover FROM_LATEST_SNAPSHOT (saved_tables, log_env (life ++ finish)) =
      (Ok (s, rep), (saved_tables, e')) ∧ rr_events_replayed_count rep ≤ 100.
Proof.
  destruct (recovery_from_saved new_conn saved_tables (log_env (life ++ finish)) _ (life ++ finish) 0 saved
    eq_refl life_finish_holds sample_readable saved_ok eq_refl) as (s & rep & e' & Hr & _ & _ & Hc);
    [vm_compute; reflexivity|].
  exists s, rep, e'. split; [exact Hr|exact Hc].
Defined.

Lemma snapshot_recovery_agrees_witness :
  ∃ s1 rep1 s2 rep2,
    (recover FROM_LATEST_SNAPSHOT (saved_tables, log_env (life ++ finish))).1 = Ok (s1, rep1) ∧
    (recover FROM_GENESIS (saved_tables, log_env (life ++ finish))).1 = Ok (s2, rep2) ∧
    rs_tasks s1 = rs_tasks s2 ∧ rr_events_replayed_count rep1 = 2.
Proof.
  destruct (snapshot_recovery_agrees new_conn saved_tables (log_env (life ++ finish)) _ life finish 0 saved_at
    eq_refl life_finish_holds sample_readable eq_refl) as (s1 & rep1 & s2 & rep2 & H1 & H2 & H3 & _ & _ & _ & Hc).
  - apply (bool_decide_unpack _). vm_compute. exact I.
  - apply (bool_decide_unpack _). vm_compute. exact I.
  - vm_compute. repeat constructor.
  - vm_compute. discriminate.
  - vm_compute. reflexivity.
  - exists s1, rep1, s2, rep2. split; [exact H1|]. split; [exact H2|]. split; [exact H3|exact Hc].
Defined.

(** After a saved state and more than 100 events, a completed task is
    recovered as running, and recovery from genesis has it completed. *)
Theorem late_completion_not_recovered :
  let beats := replicate 100 (WorkerHeartbeat "W-001" "t") in
  let e := log_env (life ++ logged (beats ++ [TaskCompleted "a"]) 200) in
  let recovered p := match (recover p (saved_tables, e)).1 with
                     | Ok (s, _) => status_of_task "a" s | Raise _ => None end in
  recovered FROM_LATEST_SNAPSHOT = Some "Running" ∧ recovered FROM_GENESIS = Some "Completed".
Proof. vm_compute. auto. Qed.

(** The log of a task that timed out while its executor went on to the end
    is recovered as a completed task with a time-out message, and its entry
    among the active time-outs stays for ever. *)
Theorem timed_out_recovered_completed :
  let r := replay_log (unpack (genesis ""))
    (life ++ logged [TaskTimedOut "a"; TimeoutTriggered "a" (PInt 5); TaskFailed "a" "exceeded";
                     TaskCompleted "a"] 300) in
  (λ t, (ts_status t, ts_error_message t)) <$> dget (rp_tasks r) "a" = Some ("Completed", Some "exceeded") ∧
  rp_timeouts r = [("a", PInt 5)].
Proof. vm_compute. auto. Qed.
End examples.
