(* ===== verification/Policy.v ===== *)
(** [scheduling/queue/policy.py]: the strategies that order the task ids of the
    queue.  [SchedulingPolicy] is the interface the queue calls, [PolicyLaws]
    the contract its theorems rely on; the FIFO, priority and deadline policies
    implement both. *)
From stdpp Require Import sorting.
From S2P Require Import Prelude PyNum Heapq Values Decode Events EventStore Tasks.
Open Scope Z_scope.

(** The abstract base class. *)
Class SchedulingPolicy (P : Type) : Type := {
  pol_init : P;
  pol_add : Task → M P unit;
  pol_remove : string → M P unit;
  pol_next : M P (option string);
  pol_peek : M P (option string);
  pol_clear : M P unit
}.

(** The contract: under [pol_wf], a policy is the list [pol_live] of its ids in
    dequeue order.  [pol_tracked] are the ids it still has a trace of (an id
    removed lazily is tracked until it is popped); the laws hold for ids that
    are added while untracked. *)
Class PolicyLaws (P : Type) `{SchedulingPolicy P} : Type := {
  pol_wf : P → Prop;
  pol_live : P → list string;
  pol_tracked : P → gset string;
  pol_addable : Task → Prop;
  pol_init_spec : pol_wf pol_init ∧ pol_live pol_init = [] ∧ pol_tracked pol_init = ∅;
  pol_live_NoDup p : pol_wf p → NoDup (pol_live p);
  pol_live_tracked p i : pol_wf p → i ∈ pol_live p → i ∈ pol_tracked p;
  pol_add_spec p t : pol_wf p → pol_addable t → task_id t ∉ pol_tracked p →
    ∃ p' l1 l2, pol_add t p = (Ok tt, p') ∧ pol_wf p' ∧ pol_live p = l1 ++ l2 ∧
      pol_live p' = l1 ++ task_id t :: l2 ∧ pol_tracked p' = {[task_id t]} ∪ pol_tracked p;
  pol_remove_spec p i : pol_wf p → i ∈ pol_live p →
    ∃ p', pol_remove i p = (Ok tt, p') ∧ pol_wf p' ∧
      pol_live p' = filter (λ j, j ≠ i) (pol_live p) ∧ pol_tracked p' ⊆ pol_tracked p;
  pol_next_spec p : pol_wf p →
    ∃ p', pol_next p = (Ok (head (pol_live p)), p') ∧ pol_wf p' ∧
      pol_live p' = tail (pol_live p) ∧ pol_tracked p' ⊆ pol_tracked p;
  pol_peek_spec p : pol_wf p →
    ∃ p', pol_peek p = (Ok (head (pol_live p)), p') ∧ pol_wf p' ∧
      pol_live p' = pol_live p ∧ pol_tracked p' ⊆ pol_tracked p
}.

(** * FIFO *)
Module FIFOPolicy.
(** [_order: deque[str]] *)
Record t : Type := { order : list string }.

(** [deque.remove(x)]: the first occurrence; [None] is the [ValueError] *)
Fixpoint deque_remove (x : string) (l : list string) : option (list string) :=
  match l with
  | [] => None
  | y :: l' => if decide (x = y) then Some l' else (cons y) <$> deque_remove x l'
  end.

Definition add (tk : Task) : M t unit := modify (λ p, {| order := order p ++ [task_id tk] |}).
Definition remove (i : string) : M t unit :=
  modify (λ p, {| order := default (order p) (deque_remove i (order p)) |}).
Definition next : M t (option string) := λ p,
  match order p with
  | [] => (Ok None, p)
  | i :: l => (Ok (Some i), {| order := l |})
  end.
Definition peek : M t (option string) := gets (λ p, head (order p)).
Definition clear : M t unit := modify (λ _, {| order := [] |}).

#[export] Instance policy : SchedulingPolicy t := {|
  pol_init := {| order := [] |};
  pol_add := add; pol_remove := remove; pol_next := next; pol_peek := peek; pol_clear := clear
|}.

Lemma deque_remove_filter x l :
  NoDup l → default l (deque_remove x l) = filter (λ y, y ≠ x) l.
Proof.
  induction l as [|y l IH]; simpl; [done|]. intros [Hni Hnd]%NoDup_cons.
  rewrite filter_cons. destruct (decide (x = y)) as [->|Hne]; simpl.
  - rewrite decide_False by naive_solver. symmetry. apply filter_all.
    apply Forall_forall. intros z Hz ->. done.
  - rewrite decide_True by done. rewrite <-IH by done. by destruct (deque_remove x l).
Qed.

#[export] Program Instance laws : PolicyLaws t := {|
  pol_wf p := NoDup (order p);
  pol_live := order;
  pol_tracked p := list_to_set (order p);
  pol_addable _ := True
|}.
Next Obligation. split_and!; [apply NoDup_nil_2|done|done]. Qed.
Next Obligation. done. Qed.
Next Obligation. intros p i _. simpl. by rewrite elem_of_list_to_set. Qed.
Next Obligation.
  intros p tk Hnd _. rewrite elem_of_list_to_set. intros Hni.
  exists {| order := order p ++ [task_id tk] |}, (order p), []. simpl.
  split_and!; [done| |by rewrite app_nil_r|done|set_solver].
  apply NoDup_app. split_and!; [done| |apply NoDup_singleton]. set_solver.
Qed.
Next Obligation.
  intros p i Hnd Hin. eexists. split; [done|]. simpl.
  rewrite deque_remove_filter by done.
  split_and!; [by apply NoDup_filter|done|].
  intros x. rewrite !elem_of_list_to_set, list_elem_of_filter. tauto.
Qed.
Next Obligation.
  intros [[|i l]] Hnd; simpl; eexists; split_and!; try done.
  - by apply NoDup_cons in Hnd as [_ ?].
  - simpl. set_solver.
Qed.
Next Obligation. intros p Hnd. by exists p. Qed.
End FIFOPolicy.

(** * The heap policies

    [PriorityPolicy] and [DeadlinePolicy] differ by the key of an item only:
    [HeapPolicy k] is the state of either. *)
Inductive heap_kind : Type := Priority | Deadline.

Module HeapPolicy.
(** [_heap], [_removed] (lazy deletions) and [_counter] *)
Record t (k : heap_kind) : Type := {
  heap : list entry;
  removed : gset string;
  counter : Z
}.
Arguments heap {k} _.
Arguments removed {k} _.
Arguments counter {k} _.

Section ops.
Context `{!Oracle}.

(** [PriorityPolicy.add]: [-priority], the priority 0 by default *)
Definition priority_key (tk : Task) : outcome num :=
  let priority :=
    if has_metadata tk then default (VInt 0) (dget (metadata_or_empty tk) "priority")
    else VInt 0 in
  match as_num priority with
  | Some n => Ok (num_neg n)
  | None => Raise (TypeError "bad operand type for unary -")
  end.

(** [DeadlinePolicy.add]: infinity by default and on an unreadable date *)
Definition deadline_key (tk : Task) : outcome num :=
  if has_metadata tk then
    match dget (metadata_or_empty tk) "deadline" with
    | None => Ok (PFloat f_inf)
    | Some val =>
        match as_num val, val with
        | Some n, _ => let? f := to_float n in Ok (PFloat f)
        | None, VStr s =>
            match iso_timestamp s with
            | Ok f => Ok (PFloat f)
            | Raise e => if isinstance e "ValueError" then Ok (PFloat f_inf) else Raise e
            end
        | None, _ => Ok (PFloat f_inf)
        end
    end
  else Ok (PFloat f_inf).

Definition key (k : heap_kind) : Task → outcome num :=
  match k with Priority => priority_key | Deadline => deadline_key end.

Context {k : heap_kind}.
Implicit Types (p : t k).

(** [_removed.discard(task.id)], then the key (which may raise), then the push *)
Definition discard (i : string) p : t k :=
  {| heap := heap p; removed := removed p ∖ {[i]}; counter := counter p |}.
Definition push (a : num) (i : string) p : t k :=
  {| heap := heappush entry_lt (heap p) (a, counter p, i);
     removed := removed p; counter := counter p + 1 |}.
Definition add (tk : Task) : M (t k) unit :=
  modify (discard (task_id tk)) ;;;
  a <- of_outcome (key k tk) ;;
  modify (push a (task_id tk)).

Definition remove (i : string) : M (t k) unit :=
  modify (λ p, {| heap := heap p; removed := {[i]} ∪ removed p; counter := counter p |}).

(** The loops of [next] and [peek]; one iteration pops an item, so the
    length of the heap is enough fuel ([next_fuel], [peek_fuel]). *)
Fixpoint next_loop (fuel : nat) p : option string * t k :=
  match heappop entry_lt (heap p) with
  | None => (None, p)
  | Some ((_, _, i), h) =>
      if decide (i ∈ removed p) then
        let p' := {| heap := h; removed := removed p ∖ {[i]}; counter := counter p |} in
        match fuel with O => (None, p') | S fuel' => next_loop fuel' p' end
      else (Some i, {| heap := h; removed := removed p; counter := counter p |})
  end.
Definition next : M (t k) (option string) := λ p,
  let '(o, p') := next_loop (length (heap p)) p in (Ok o, p').

Fixpoint peek_loop (fuel : nat) p : option string * t k :=
  match heap p with
  | [] => (None, p)
  | (_, _, i) :: _ =>
      if decide (i ∈ removed p) then
        let h := match heappop entry_lt (heap p) with Some (_, h) => h | None => [] end in
        let p' := {| heap := h; removed := removed p ∖ {[i]}; counter := counter p |} in
        match fuel with O => (None, p') | S fuel' => peek_loop fuel' p' end
      else (Some i, p)
  end.
Definition peek : M (t k) (option string) := λ p,
  let '(o, p') := peek_loop (length (heap p)) p in (Ok o, p').

Definition clear : M (t k) unit :=
  modify (λ _, {| heap := []; removed := ∅; counter := 0 |}).

#[export] Instance policy : SchedulingPolicy (t k) := {|
  pol_init := {| heap := []; removed := ∅; counter := 0 |};
  pol_add := add; pol_remove := remove; pol_next := next; pol_peek := peek; pol_clear := clear
|}.
End ops.

(** ** The order of the heap policies *)
Definition entry_le (x y : entry) : Prop := entry_lt y x = false.
#[export] Instance entry_le_dec : RelDecision entry_le.
Proof. intros x y. unfold entry_le. apply _. Defined.

Lemma entry_lt_ok x y : entry_lt x y = true → entry_ok x ∧ entry_ok y.
Proof.
  destruct x as [[a n] s], y as [[a' n'] s'].
  unfold entry_lt, entry_ok, not_nan, num_eq, num_lt, num_cmp; simpl.
  by destruct (num_val a), (num_val a').
Qed.
#[export] Instance entry_le_total : Total entry_le.
Proof.
  intros x y. unfold entry_le. destruct (entry_lt y x) eqn:E; [|by left].
  right. destruct (entry_lt_ok _ _ E). by apply entry_lt_asym.
Qed.

Lemma entry_le_antisym_id x y :
  entry_ok x → entry_ok y → entry_le x y → entry_le y x → x.2 = y.2.
Proof.
  destruct x as [[a n] s], y as [[a' n'] s']. intros [u Hu] [v Hv].
  cbn [fst] in Hu, Hv. unfold entry_le.
  rewrite (entry_lt_val _ _ _ _ _ _ v u), (entry_lt_val _ _ _ _ _ _ u v) by done.
  rewrite (xcmp_antisym u v), (Z.compare_antisym n n'). simpl.
  destruct (xcmp u v), (n ?= n'); simpl; try done.
  rewrite !negb_false_iff, !leb_le. intros. by apply (anti_symm String.le).
Qed.

Definition sorted (h : list entry) : list entry := merge_sort entry_le h.

Lemma sorted_perm h : sorted h ≡ₚ h.
Proof. apply merge_sort_Permutation. Qed.
Lemma sorted_sorted h : Forall entry_ok h → StronglySorted entry_le (sorted h).
Proof.
  intros Hok. apply (sorted_strong _ entry_ok).
  - intros a b c ??? H1 H2. by apply (entry_le_trans a b c).
  - by rewrite sorted_perm.
  - apply Sorted_merge_sort, _.
Qed.

(** A sorted permutation of the heap is [sorted] of the heap. *)
Lemma sorted_unique h l :
  NoDup (h.*2) → Forall entry_ok h → l ≡ₚ h → StronglySorted entry_le l → sorted h = l.
Proof.
  intros Hnd Hok Hp Hs.
  assert (∀ x y : entry, x ∈ h → y ∈ h → x.2 = y.2 → x = y) as Hinj.
  { clear -Hnd. induction h as [|z h IH]; [by intros ?? ?%not_elem_of_nil|].
    apply NoDup_cons in Hnd as [Hni Hnd]. intros x y.
    rewrite !elem_of_cons. intros [->|Hx] [->|Hy] Heq; [done| | |auto];
      destruct Hni; [rewrite Heq|rewrite <-Heq]; by apply list_elem_of_fmap_2. }
  rewrite Forall_forall in Hok.
  apply (StronglySorted_unique_strong entry_le); [|apply sorted_sorted; by rewrite Forall_forall|done|].
  - intros x y. rewrite sorted_perm, Hp. intros Hx Hy Hxy Hyx.
    apply Hinj; [done..|]. apply entry_le_antisym_id; auto.
  - by rewrite sorted_perm.
Qed.

Section laws.
Context `{!Oracle} {k : heap_kind}.
Implicit Types (p : t k).

Definition wf p : Prop :=
  is_heap entry_lt (heap p) ∧ Forall entry_ok (heap p) ∧ NoDup ((heap p).*2) ∧
  Forall (λ e, e.1.2 < counter p) (heap p).
(** The entries that are not lazily deleted, in service order. *)
Definition entries p : list entry :=
  filter (λ e, e.2 ∉ removed p) (sorted (heap p)).
Definition live p : list string := (entries p).*2.
Definition tracked p : gset string := list_to_set ((heap p).*2).
Definition addable (tk : Task) : Prop := ∃ a, key k tk = Ok a ∧ not_nan a.

Lemma live_filter p : live p = filter (λ i, i ∉ removed p) ((sorted (heap p)).*2).
Proof. unfold live, entries. by rewrite list_filter_fmap. Qed.
Lemma elem_of_live p i : i ∈ live p ↔ (i ∉ removed p) ∧ i ∈ ((heap p).*2).
Proof. by rewrite live_filter, list_elem_of_filter, (sorted_perm (heap p)). Qed.
Lemma elem_of_tracked p i : i ∈ tracked p ↔ i ∈ ((heap p).*2).
Proof. unfold tracked. by rewrite elem_of_list_to_set. Qed.

Lemma pop_sorted p x h :
  wf p → heappop entry_lt (heap p) = Some (x, h) →
  sorted (heap p) = x :: sorted h ∧ heap p ≡ₚ x :: h ∧ (x.2 ∉ (h.*2)) ∧
  heap p !! 0%nat = Some x ∧
  ∀ r, wf {| heap := h; removed := r; counter := counter p |}.
Proof.
  intros (Hh & Hok & Hnd & Hc) Hpop.
  destruct (heappop_spec entry_lt entry_ok entry_lt_asym entry_le_trans _ _ _ Hh Hok Hpop)
    as (Hp & Hh' & Htop).
  pose proof (heap_head_min entry_lt entry_ok entry_lt_asym entry_le_trans _ _ Hh Hok Htop) as Hmin.
  pose proof Hok as Hok'. rewrite Hp in Hok', Hc. pose proof Hnd as Hnd'. rewrite Hp in Hnd'.
  apply Forall_cons in Hok' as [Hx Hok']. apply Forall_cons in Hc as [_ Hc].
  apply NoDup_cons in Hnd' as [Hni Hnd'].
  split_and!; [|done|done|done|by intros r; split_and!].
  apply sorted_unique; [done..|by rewrite Hp, sorted_perm|].
  constructor; [by apply sorted_sorted|]. rewrite sorted_perm.
  apply Forall_forall. intros y Hy. apply Hmin. rewrite Hp. by right.
Qed.

Lemma entries_empty p : heap p = [] → entries p = [].
Proof. unfold entries. by intros ->. Qed.

(** The head of the heap decides the head of the live entries. *)
Lemma pop_entries p x h :
  wf p → heappop entry_lt (heap p) = Some (x, h) →
  entries p = if decide (x.2 ∈ removed p)
    then entries {| heap := h; removed := removed p ∖ {[x.2]}; counter := counter p |}
    else x :: entries {| heap := h; removed := removed p; counter := counter p |}.
Proof.
  intros Hwf Hpop. destruct (pop_sorted p x h Hwf Hpop) as (Hs & _ & Hni & _).
  unfold entries; simpl. rewrite Hs, filter_cons.
  destruct (decide (x.2 ∈ removed p)).
  - rewrite decide_False by tauto. apply filter_ext_in. intros y Hy.
    rewrite (sorted_perm h) in Hy. apply (list_elem_of_fmap_2 snd) in Hy.
    assert (y.2 ≠ x.2) by (intros E; by rewrite E in Hy).
    rewrite elem_of_difference, elem_of_singleton. tauto.
  - by rewrite decide_True.
Qed.

Lemma next_loop_spec fuel p :
  wf p → (length (heap p) ≤ fuel)%nat →
  let '(o, p') := next_loop fuel p in
  o = snd <$> head (entries p) ∧ wf p' ∧ entries p' = tail (entries p) ∧
  tracked p' ⊆ tracked p.
Proof.
  revert p. induction fuel as [|fuel IH]; intros p Hwf Hf; cbn [next_loop].
  all: destruct (heappop entry_lt (heap p)) as [[[[a c] i] h]|] eqn:Hpop;
    [|apply heappop_None in Hpop; by rewrite (entries_empty _ Hpop)].
  all: destruct (pop_sorted p _ h Hwf Hpop) as (_ & Hp & _ & _ & Hwf').
  { rewrite Hp in Hf. simpl in Hf. lia. }
  rewrite (pop_entries p _ h Hwf Hpop); cbn [snd].
  assert (∀ r, tracked {| heap := h; removed := r; counter := counter p |} ⊆ tracked p) as Htr.
  { intros r j. rewrite !elem_of_tracked; simpl. rewrite Hp. by right. }
  destruct (decide (i ∈ removed p)); [|split_and!; by auto].
  specialize (IH _ (Hwf' (removed p ∖ {[i]}))). rewrite Hp in Hf. simpl in *.
  specialize (IH ltac:(lia)). destruct (next_loop fuel _) as [o p'].
  destruct IH as (-> & ? & -> & ?). split_and!; [done..|]. by etrans.
Qed.

Lemma peek_loop_spec fuel p :
  wf p → (length (heap p) ≤ fuel)%nat →
  let '(o, p') := peek_loop fuel p in
  o = snd <$> head (entries p) ∧ wf p' ∧ entries p' = entries p ∧ tracked p' ⊆ tracked p.
Proof.
  revert p. induction fuel as [|fuel IH]; intros p Hwf Hf; cbn [peek_loop].
  all: destruct (heap p) as [|[[a c] i] l] eqn:Hheap;
    [by rewrite (entries_empty _ Hheap)|]; simpl in Hf; try lia.
  destruct (heappop entry_lt (heap p)) as [[x h]|] eqn:Hpop;
    [|apply heappop_None in Hpop; congruence].
  destruct (pop_sorted p _ h Hwf Hpop) as (_ & Hp & _ & Htop & Hwf').
  rewrite Hheap in Htop. injection Htop as <-.
  pose proof (pop_entries p _ h Hwf Hpop) as Hlive; cbn [snd] in Hlive.
  rewrite Hheap in Hpop. rewrite Hpop.
  destruct (decide (i ∈ removed p)); [|by rewrite Hlive].
  specialize (IH _ (Hwf' (removed p ∖ {[i]}))). rewrite Hheap in Hp.
  apply Permutation_length in Hp as Hlen. simpl in *. specialize (IH ltac:(lia)).
  destruct (peek_loop fuel _) as [o p']. destruct IH as (-> & ? & -> & Htr).
  rewrite Hlive. split_and!; [done..|]. etrans; [done|].
  intros j. rewrite !elem_of_tracked; simpl. rewrite Hheap, Hp. by right.
Qed.

(** The operations of the policy on its entries. *)
Lemma next_spec p : wf p → ∃ p',
  next p = (Ok (snd <$> head (entries p)), p') ∧ wf p' ∧ entries p' = tail (entries p) ∧
  tracked p' ⊆ tracked p.
Proof.
  intros Hwf. pose proof (next_loop_spec _ p Hwf (le_n _)) as Hn. unfold next.
  destruct (next_loop _ p) as [o p']. destruct Hn as (-> & ? & ? & ?). by exists p'.
Qed.
Lemma heap_peek_spec p : wf p → ∃ p',
  peek p = (Ok (snd <$> head (entries p)), p') ∧ wf p' ∧ entries p' = entries p ∧
  tracked p' ⊆ tracked p.
Proof.
  intros Hwf. pose proof (peek_loop_spec _ p Hwf (le_n _)) as Hn. unfold peek.
  destruct (peek_loop _ p) as [o p']. destruct Hn as (-> & ? & ? & ?). by exists p'.
Qed.
Lemma remove_spec p i : wf p → ∃ p',
  remove i p = (Ok tt, p') ∧ wf p' ∧ entries p' = filter (λ e, e.2 ≠ i) (entries p) ∧
  tracked p' ⊆ tracked p.
Proof.
  intros Hwf. eexists. split; [done|]. split_and!; [done| |done].
  unfold entries; simpl. rewrite list_filter_filter. apply list_filter_iff. set_solver.
Qed.

(** The items whose key is at most [a]: those served before a new item of
    key [a]. *)
Definition before (a : num) (e : entry) : Prop := num_lt a e.1.1 = false.
#[export] Instance before_dec a e : Decision (before a e).
Proof. unfold before. apply _. Defined.

Lemma before_val a e u w : num_val a = Some w → num_val e.1.1 = Some u →
  before a e ↔ xcmp w u ≠ Lt.
Proof.
  intros Hw Hu. unfold before, num_lt, num_cmp. rewrite Hw, Hu. by destruct (xcmp w u).
Qed.
Lemma before_le a x y :
  not_nan a → entry_ok x → entry_ok y → before a x → ¬ before a y → entry_le x y.
Proof.
  destruct x as [[b n] s], y as [[b' n'] s']. intros [w Hw] [u Hu] [v Hv].
  cbn [fst] in Hu, Hv. rewrite !(before_val _ _ _ _ Hw) by done.
  unfold entry_le. rewrite (entry_lt_val _ _ _ _ _ _ v u) by done. intros Hwu Hwv.
  destruct (xcmp v u) eqn:Hvu; [| |done]; exfalso; apply Hwv.
  - by rewrite (xcmp_eq_r v u w).
  - apply (xcmp_le_trans v u w); [|done]. by rewrite (xcmp_antisym v u), Hvu.
Qed.
Lemma before_le_new a c i x :
  not_nan a → entry_ok x → before a x → x.1.2 < c → entry_le x (a, c, i).
Proof.
  destruct x as [[b n] s]. intros [w Hw] [u Hu]; cbn [fst snd] in *.
  rewrite (before_val a (b, n, s) u w Hw Hu). unfold entry_le.
  rewrite (entry_lt_val _ _ _ _ _ _ w u) by done. intros ? Hlt.
  destruct (xcmp w u); [|done|done]. destruct (Z.compare_spec c n); [lia|lia|done].
Qed.
Lemma new_le_after a c i y :
  not_nan a → entry_ok y → ¬ before a y → entry_le (a, c, i) y.
Proof.
  destruct y as [[b n] s]. intros [w Hw] [u Hu]; cbn [fst] in *.
  rewrite (before_val a (b, n, s) u w Hw Hu). unfold entry_le.
  rewrite (entry_lt_val _ _ _ _ _ _ u w), (xcmp_antisym w u) by done.
  intros Hn. destruct (xcmp w u); [by destruct Hn|done|by destruct Hn].
Qed.

(** An added item goes after the items whose key is at most its own (so
    first-in first-out among equals) and before the others. *)
Lemma push_sorted p a i :
  wf p → not_nan a → i ∉ tracked p →
  let es := sorted (heap p) in
  sorted (heap p) = filter (before a) es ++ filter (λ e, ¬ before a e) es ∧
  sorted (heap (push a i p)) =
    filter (before a) es ++ (a, counter p, i) :: filter (λ e, ¬ before a e) es.
Proof.
  intros (Hh & Hok & Hnd & Hc) Ha Hi es. rewrite elem_of_tracked in Hi.
  pose proof (sorted_sorted (heap p) Hok) as Hs.
  assert (Hes : es ≡ₚ heap p) by apply sorted_perm.
  assert (Hoke : ∀ e, e ∈ es → entry_ok e ∧ e.1.2 < counter p).
  { intros e. rewrite Hes. rewrite Forall_forall in Hok, Hc. auto. }
  assert (Hcross : ∀ x y, x ∈ filter (before a) es → y ∈ filter (λ e, ¬ before a e) es →
    entry_le x y).
  { intros x y. rewrite !list_elem_of_filter. intros [Hx [? _]%Hoke] [Hy [? _]%Hoke].
    by apply (before_le a). }
  assert (Hsplit : filter (before a) es ++ filter (λ e, ¬ before a e) es ≡ₚ es)
    by apply filter_app_complement.
  assert (Hss : StronglySorted entry_le es) by done. clearbody es. split.
  - apply sorted_unique; [done..|by rewrite Hsplit|].
    apply StronglySorted_app_2; auto using StronglySorted_filter.
  - apply sorted_unique; unfold push; simpl; rewrite ?heappush_perm.
    + by apply NoDup_cons.
    + by constructor.
    + by rewrite <-Permutation_middle, Hsplit, Hes.
    + apply StronglySorted_app_2; [|auto using StronglySorted_filter|constructor;
        [auto using StronglySorted_filter|]].
      * intros x y Hx [->|Hy]%elem_of_cons; [|by auto].
        apply list_elem_of_filter in Hx as [Hb [??]%Hoke]. by apply before_le_new.
      * apply Forall_forall. intros y [Hb [??]%Hoke]%list_elem_of_filter.
        by apply new_le_after.
Qed.

Lemma add_run p tk a :
  key k tk = Ok a → add tk p = (Ok tt, push a (task_id tk) (discard (task_id tk) p)).
Proof. intros Hk. unfold add. run_step. by rewrite Hk. Qed.

Lemma discard_wf p i : wf p → wf (discard i p).
Proof. done. Qed.

Lemma push_wf p a i : wf p → not_nan a → i ∉ tracked p → wf (push a i p).
Proof.
  intros (Hh & Hok & Hnd & Hc) Ha Hi. rewrite elem_of_tracked in Hi.
  unfold push, wf; simpl. split_and!; rewrite ?heappush_perm; csimpl.
  - apply (heappush_heap entry_lt entry_ok entry_lt_asym entry_le_trans); [done|by constructor].
  - by constructor.
  - by apply NoDup_cons.
  - constructor; simpl; [lia|]. eapply Forall_impl; [done|]. simpl; lia.
Qed.

Lemma add_entries p tk a :
  wf p → key k tk = Ok a → not_nan a → task_id tk ∉ tracked p →
  let p' := push a (task_id tk) (discard (task_id tk) p) in
  entries p = filter (before a) (entries p) ++ filter (λ e, ¬ before a e) (entries p) ∧
  entries p' = filter (before a) (entries p) ++
    (a, counter p, task_id tk) :: filter (λ e, ¬ before a e) (entries p) ∧
  tracked p' = {[task_id tk]} ∪ tracked p.
Proof.
  intros Hwf Hk Ha Hi p'.
  assert (Hcomm : ∀ (Q : entry → Prop) `{!∀ e, Decision (Q e)},
    filter (λ e, e.2 ∉ removed p) (filter Q (sorted (heap p))) = filter Q (entries p)).
  { intros Q ?. unfold entries. rewrite !list_filter_filter. apply list_filter_iff. tauto. }
  destruct (push_sorted p a (task_id tk) Hwf Ha Hi) as [Hes Hes'].
  split_and!.
  - unfold entries at 1. rewrite Hes at 1. by rewrite filter_app, !Hcomm.
  - unfold entries at 1, p'. unfold push, discard; simpl.
    unfold push in Hes'; simpl in Hes'. rewrite Hes', filter_app.
    rewrite filter_cons, decide_True
      by (simpl; rewrite elem_of_difference, elem_of_singleton; tauto). rewrite <-!Hcomm.
    rewrite elem_of_tracked in Hi.
    assert (Hext : ∀ (Q : entry → Prop) `{!∀ e, Decision (Q e)},
      filter (λ e, e.2 ∉ removed p ∖ {[task_id tk]}) (filter Q (sorted (heap p))) =
      filter (λ e, e.2 ∉ removed p) (filter Q (sorted (heap p)))).
    { intros Q ?. apply filter_ext_in. intros e He.
      apply list_elem_of_filter in He as [_ He]. rewrite sorted_perm in He.
      apply (list_elem_of_fmap_2 snd) in He.
      assert (e.2 ≠ task_id tk) by (intros E; by rewrite E in He).
      rewrite elem_of_difference, elem_of_singleton. tauto. }
    by rewrite !Hext.
  - apply set_eq. intros j. rewrite elem_of_union, !elem_of_tracked, elem_of_singleton.
    unfold p', push; simpl. rewrite heappush_perm. csimpl. by rewrite elem_of_cons.
Qed.

Lemma live_head p : head (live p) = snd <$> head (entries p).
Proof. unfold live. by destruct (entries p). Qed.
Lemma live_tail p p' : entries p' = tail (entries p) → live p' = tail (live p).
Proof. unfold live. intros ->. by destruct (entries p). Qed.
End laws.

#[export] Program Instance laws `{!Oracle} (k : heap_kind) : PolicyLaws (t k) := {|
  pol_wf := wf; pol_live := live; pol_tracked := tracked; pol_addable := addable (k:=k)
|}.
Next Obligation.
  intros. split_and!; [|done|done]. split_and!; try constructor.
  intros i ? p. simpl. by rewrite lookup_nil.
Qed.
Next Obligation.
  intros ? k p (_ & _ & Hnd & _). simpl. rewrite live_filter. apply NoDup_filter.
  by rewrite sorted_perm.
Qed.
Next Obligation. intros ? k p i _ [_ Hi]%elem_of_live. by apply elem_of_tracked. Qed.
Next Obligation.
  intros ? k p tk Hwf (a & Hk & Ha) Hi. simpl. rewrite (add_run _ _ _ Hk).
  destruct (add_entries p tk a Hwf Hk Ha Hi) as (Hl & Hl' & Htr).
  eexists _, _, _. split; [done|]. split_and!; [by apply push_wf| | |done].
  - unfold live. rewrite Hl at 1. by rewrite fmap_app.
  - unfold live. rewrite Hl', fmap_app. by csimpl.
Qed.
Next Obligation.
  intros ? k p i Hwf Hi. simpl.
  destruct (remove_spec p i Hwf) as (p' & Hr & Hwf' & He & Htr). exists p'.
  split_and!; [done..| |done]. unfold live. by rewrite He, list_filter_fmap.
Qed.
Next Obligation.
  intros ? k p Hwf. simpl. destruct (next_spec p Hwf) as (p' & Hn & Hwf' & He & Htr).
  exists p'. rewrite live_head. split_and!; [done..| |done]. by apply live_tail.
Qed.
Next Obligation.
  intros ? k p Hwf. simpl. destruct (heap_peek_spec p Hwf) as (p' & Hn & Hwf' & He & Htr).
  exists p'. rewrite live_head. split_and!; [done..| |done]. unfold live. by rewrite He.
Qed.
End HeapPolicy.
