(* ===== verification/TaskQueue.v ===== *)
(** [scheduling/queue/in_memory_queue.py], [queue/events.py],
    [queue/metrics.py]: the in-memory task queue, over any
    [SchedulingPolicy].  Every method holds the queue's lock, so each is one
    operation on the queue and the shared environment; [QueueThreads] has the
    statements inside it interrupted by other threads. *)
From S2P Require Import Prelude PyNum Heapq Values Decode Events EventStore Tasks Policy.
Open Scope Z_scope.

(** * Queue domain events and their publisher *)
Module QueueEvents.
(** [QueueEvent] and its subclasses: the id, then the fields of the class *)
Inductive QueueEvent : Type :=
  | TaskQueued (task_id timestamp : string)
  | TaskDequeued (task_id timestamp : string)
  | TaskCancelled (task_id timestamp : string)
  | TaskRejected (task_id timestamp reason : string).
End QueueEvents.

(** [QueueMetrics] *)
Record QueueMetrics : Type := {
  m_size : Z;
  m_capacity : option Z;
  m_utilization : spec_float;
  m_enqueue_count : Z;
  m_dequeue_count : Z;
  m_cancel_count : Z;
  m_average_wait_time_ms : spec_float
}.

(** [InMemoryTaskQueue].  [_storage] maps ids to task objects; only lookups and
    its length are observed.  [q_published] is the trace of what the publisher
    received (a [NullEventPublisher] drops it). *)
Record Queue (P : Type) : Type := {
  q_max_size : option Z;
  q_policy : P;
  q_storage : gmap string nat;
  q_enqueue_count : Z;
  q_dequeue_count : Z;
  q_cancel_count : Z;
  q_published : list QueueEvents.QueueEvent
}.
Arguments Build_Queue {P}.
Arguments q_max_size {P} _.
Arguments q_policy {P} _.
Arguments q_storage {P} _.
Arguments q_enqueue_count {P} _.
Arguments q_dequeue_count {P} _.
Arguments q_cancel_count {P} _.
Arguments q_published {P} _.

Section ops.
Context `{!Oracle} {P : Type} `{!SchedulingPolicy P}.
Implicit Types (q : Queue P).

Definition with_policy (p : P) q : Queue P :=
  Build_Queue (q_max_size q) p (q_storage q) (q_enqueue_count q) (q_dequeue_count q)
    (q_cancel_count q) (q_published q).
Definition with_storage (s : gmap string nat) q : Queue P :=
  Build_Queue (q_max_size q) (q_policy q) s (q_enqueue_count q) (q_dequeue_count q)
    (q_cancel_count q) (q_published q).
Definition add_counts (e d c : Z) q : Queue P :=
  Build_Queue (q_max_size q) (q_policy q) (q_storage q) (q_enqueue_count q + e)
    (q_dequeue_count q + d) (q_cancel_count q + c) (q_published q).
Definition with_published (ev : QueueEvents.QueueEvent) q : Queue P :=
  Build_Queue (q_max_size q) (q_policy q) (q_storage q) (q_enqueue_count q)
    (q_dequeue_count q) (q_cancel_count q) (q_published q ++ [ev]).

(** [__init__] *)
Definition new_queue (max_size : option Z) : Queue P :=
  {| q_max_size := match max_size with Some m => if 0 <? m then Some m else None | None => None end;
     q_policy := pol_init; q_storage := ∅; q_enqueue_count := 0; q_dequeue_count := 0;
     q_cancel_count := 0; q_published := [] |}.

Definition policy_lens : lens (Queue P) P := Lens q_policy with_policy.

Definition QM (A : Type) : Type := M (Queue P * Env) A.

Definition publish (ev : string → QueueEvents.QueueEvent) : QM unit :=
  n <- env tick ;;
  self (modify (with_published (ev (now_iso n)))).

Definition qsize q : Z := Z.of_nat (size (q_storage q)).
Definition is_full q : bool :=
  match q_max_size q with Some m => m <=? qsize q | None => false end.

(** [if not task.metadata: task.metadata = {}], then the stamp *)
Definition stamp_queued_at (r : nat) : M Env unit :=
  n <- tick ;;
  update_task r (metadata_set "queued_at" (VStr (now_iso n))).

(** [enqueue] *)
Definition enqueue (r : nat) : QM unit :=
  t <- env (deref r) ;;
  q <- self get ;;
  if is_full q then
    publish (λ ts, QueueEvents.TaskRejected (task_id t) ts "Queue capacity limit reached") ;;;
    raise (QueueFullError (default 0 (q_max_size q)))
  else
    self (modify (λ q, with_storage (<[task_id t := r]> (q_storage q)) q)) ;;;
    self (zoom policy_lens (pol_add t)) ;;;
    self (modify (add_counts 1 0 0)) ;;;
    env (stamp_queued_at r) ;;;
    publish (QueueEvents.TaskQueued (task_id t)) ;;;
    env (emit (TaskQueued (task_id t))).

(** [dequeue] *)
Definition dequeue : QM nat :=
  next_id <- self (zoom policy_lens pol_next) ;;
  q <- self get ;;
  match next_id with
  | None => raise QueueEmptyError
  | Some i =>
      match q_storage q !! i with
      | None => raise QueueEmptyError
      | Some r =>
          self (modify (λ q, with_storage (delete i (q_storage q)) q)) ;;;
          self (modify (add_counts 0 1 0)) ;;;
          t <- env (deref r) ;;
          publish (QueueEvents.TaskDequeued (task_id t)) ;;;
          env (emit (TaskDequeued (task_id t))) ;;;
          ret r
      end
  end.

(** [peek] *)
Definition peek : QM (option nat) :=
  next_id <- self (zoom policy_lens pol_peek) ;;
  q <- self get ;;
  match next_id with
  | None => ret None
  | Some i => ret (q_storage q !! i)
  end.

(** [cancel] *)
Definition cancel (i : string) : QM nat :=
  q <- self get ;;
  match q_storage q !! i with
  | None => raise (TaskNotFoundError i)
  | Some r =>
      self (modify (λ q, with_storage (delete i (q_storage q)) q)) ;;;
      self (zoom policy_lens (pol_remove i)) ;;;
      self (modify (add_counts 0 0 1)) ;;;
      publish (QueueEvents.TaskCancelled i) ;;;
      env (emit (TaskCancelled i)) ;;;
      ret r
  end.

(** [lookup], [contains], [size], [is_empty], [get_metrics] *)
Definition lookup (i : string) : QM nat :=
  q <- self get ;;
  match q_storage q !! i with
  | None => raise (TaskNotFoundError i)
  | Some r => ret r
  end.
Definition contains (i : string) : QM bool :=
  q <- self get ;; ret (bool_decide (is_Some (q_storage q !! i))).
Definition queue_size : QM Z := q <- self get ;; ret (qsize q).
Definition is_empty : QM bool := q <- self get ;; ret (qsize q =? 0).
Definition get_metrics : QM QueueMetrics :=
  q <- self get ;;
  ret {| m_size := qsize q; m_capacity := q_max_size q;
         m_utilization :=
           match q_max_size q with
           | Some m => if m =? 0 then f_zero
                       else fdiv (round_to_float (qsize q) 0) (round_to_float m 0)
           | None => f_zero
           end;
         m_enqueue_count := q_enqueue_count q; m_dequeue_count := q_dequeue_count q;
         m_cancel_count := q_cancel_count q; m_average_wait_time_ms := f_zero |}.
End ops.

(** * Correctness over any policy that satisfies its contract *)
Section correctness.
Context `{!Oracle} {P : Type} `{HP : PolicyLaws P}.
Implicit Types (q : Queue P) (e : Env).

(** The policy's live ids are the keys of the storage, every stored object
    carries the id it is stored under, the capacity is respected, and the
    counters account for what is stored. *)
Record queue_inv (s : Queue P * Env) : Prop := {
  inv_policy : pol_wf (q_policy s.1);
  inv_live : ∀ i, i ∈ pol_live (q_policy s.1) ↔ is_Some (q_storage s.1 !! i);
  inv_ids : ∀ i r, q_storage s.1 !! i = Some r →
    ∃ t, env_tasks s.2 !! r = Some t ∧ task_id t = i;
  inv_capacity : ∀ m, q_max_size s.1 = Some m → 0 < m ∧ qsize s.1 ≤ m;
  inv_counts : q_enqueue_count s.1 = q_dequeue_count s.1 + q_cancel_count s.1 + qsize s.1
}.

Lemma new_queue_inv max_size e : queue_inv (new_queue max_size, e).
Proof.
  destruct pol_init_spec as (Hwf & Hl & _). constructor; simpl.
  - done.
  - intros i. rewrite Hl, lookup_empty. split; [by intros ?%not_elem_of_nil|by intros []].
  - intros i r. by rewrite lookup_empty.
  - intros m. unfold qsize; simpl. rewrite map_size_empty.
    destruct max_size as [z|]; [|done]. case_match; [|done]. intros [= <-]. lia.
  - unfold qsize; simpl. by rewrite map_size_empty.
Qed.

Lemma queue_inv_env q e e' :
  queue_inv (q, e) → ids_kept (env_tasks e) (env_tasks e') → queue_inv (q, e').
Proof.
  intros [H1 H2 H3 H4 H5] Hk. constructor; simpl in *; auto.
  intros i r (t & Ht & <-)%H3. by apply Hk.
Qed.

Lemma queue_inv_published ev q e : queue_inv (q, e) → queue_inv (with_published ev q, e).
Proof. by intros []; constructor. Qed.

Lemma live_length q e : queue_inv (q, e) → Z.of_nat (length (pol_live (q_policy q))) = qsize q.
Proof.
  intros [Hwf Hl _ _ _]; simpl in *. unfold qsize. f_equal.
  rewrite <-size_dom. rewrite <-(size_list_to_set (C:=gset string)) by by apply pol_live_NoDup.
  f_equal. apply set_eq. intros i. by rewrite elem_of_list_to_set, elem_of_dom, Hl.
Qed.

Lemma live_nil q e : queue_inv (q, e) → pol_live (q_policy q) = [] ↔ qsize q = 0.
Proof.
  intros Hinv. rewrite <-(live_length q e Hinv). destruct (pol_live _); simpl; split; try done; lia.
Qed.

Lemma size_delete_Some (m : gmap string nat) i r :
  m !! i = Some r → Z.of_nat (size (delete i m)) = Z.of_nat (size m) - 1.
Proof.
  intros Hr. rewrite map_size_delete, Hr.
  assert (size m ≠ 0%nat); [|lia].
  intros E. apply map_size_empty_inv in E. by rewrite E, lookup_empty in Hr.
Qed.

(** Events and stamps keep the queue's own state. *)
Lemma publish_run ev q e :
  publish ev (q, e) = (Ok tt, (with_published (ev (now_iso (env_tick e))) q, next_tick e)).
Proof. done. Qed.

(** ** enqueue *)
Definition stamped e : Task → Task :=
  metadata_set "queued_at" (VStr (now_iso (env_tick e))).

Lemma enqueue_run q e r t p' :
  env_tasks e !! r = Some t → is_full q = false → pol_add t (q_policy q) = (Ok tt, p') →
  ∃ o e' evs,
    enqueue r (q, e) = (o, (Build_Queue (q_max_size q) p' (<[task_id t := r]> (q_storage q))
      (q_enqueue_count q + 1) (q_dequeue_count q + 0) (q_cancel_count q + 0) (q_published q ++ evs), e')) ∧
    env_tasks e' = alter (stamped e) r (env_tasks e) ∧ emitted (TaskQueued (task_id t)) e e' o tt ∧
    (env_store e' = None ↔ env_store e = None).
Proof.
  intros Ht Hfull Hadd. unfold enqueue. run_step.
  rewrite (deref_Some e r t Ht); simpl. rewrite Hfull; simpl. rewrite Hadd; simpl.
  destruct (emit (TaskQueued (task_id t)) _) as [o e'] eqn:Hemit.
  eexists o, e', [_]. split; [done|].
  destruct (emit_facts _ _ _ _ _ Hemit) as (Htk & Ho & Hs); simpl in *.
  split_and!; [done| |done..]. eexists _, o. split_and!; [| |exact Hemit|]; simpl; [done|lia|by destruct o as [[]|]].
Qed.

(** A new item enters the abstract order at the place its policy gives it,
    whether or not the event store accepts the event. *)
Lemma enqueue_spec q e r t :
  queue_inv (q, e) → env_tasks e !! r = Some t → is_full q = false →
  pol_addable t → task_id t ∉ pol_tracked (q_policy q) →
  ∃ o q' e' l1 l2,
    enqueue r (q, e) = (o, (q', e')) ∧ queue_inv (q', e') ∧
    pol_live (q_policy q) = l1 ++ l2 ∧
    pol_live (q_policy q') = l1 ++ task_id t :: l2 ∧
    q_storage q' = <[task_id t := r]> (q_storage q) ∧
    pol_tracked (q_policy q') = {[task_id t]} ∪ pol_tracked (q_policy q) ∧
    q_max_size q' = q_max_size q ∧ env_tasks e' = alter (stamped e) r (env_tasks e) ∧
    (env_store e = None → o = Ok tt) ∧ (env_store e' = None ↔ env_store e = None) ∧
    emitted (TaskQueued (task_id t)) e e' o tt.
Proof.
  intros Hinv Ht Hfull Hadd Hfresh.
  destruct (pol_add_spec (q_policy q) t) as (p' & l1 & l2 & Hrun & Hwf & Hl & Hl' & Htr);
    [apply Hinv|done|done|].
  destruct (enqueue_run q e r t p' Ht Hfull Hrun) as (o & e' & evs & Henq & Hk & Ho & Hst).
  eexists o, _, e', l1, l2.
  split_and!; [exact Henq| |done|done|done|done|done|done|by apply (emitted_nostore _ _ _ _ _ Ho)|apply Hst..|done].
  assert (Hk' : ids_kept (env_tasks e) (env_tasks e')) by (rewrite Hk; by apply ids_kept_alter).
  assert (Hnew : q_storage q !! task_id t = None).
  { apply eq_None_not_Some. rewrite <-(inv_live _ Hinv). simpl. intros Hin.
    apply Hfresh. apply pol_live_tracked; [apply Hinv|done]. }
  assert (Hsz : Z.of_nat (size (<[task_id t := r]> (q_storage q))) = qsize q + 1).
  { unfold qsize. rewrite map_size_insert_None by done. lia. }
  destruct Hinv as [H1 H2 H3 H4 H5]; constructor; simpl in *; unfold qsize in *; simpl.
  - done.
  - intros i. rewrite Hl', lookup_insert. case_decide as Hi.
    + subst. split; [eauto|]. intros _. set_solver.
    + rewrite <-H2, Hl. set_solver.
  - intros i r'. rewrite lookup_insert. case_decide as Hi.
    + intros [= <-]. subst. destruct (Hk' _ _ Ht) as (t' & ? & ?). eauto.
    + intros Hs. destruct (H3 _ _ Hs) as (t' & Ht' & <-). by apply Hk'.
  - intros m Hm. unfold is_full in Hfull. rewrite Hm in Hfull.
    destruct (H4 _ Hm). apply Z.leb_gt in Hfull. unfold qsize in *. lia.
  - lia.
Qed.

Lemma enqueue_full q e r t :
  env_tasks e !! r = Some t → is_full q = true →
  enqueue r (q, e) =
    (Raise (QueueFullError (default 0 (q_max_size q))),
     (with_published (QueueEvents.TaskRejected (task_id t) (now_iso (env_tick e))
        "Queue capacity limit reached") q, next_tick e)).
Proof.
  intros Ht Hfull. unfold enqueue. run_step. rewrite (deref_Some e r t Ht); simpl.
  by rewrite Hfull.
Qed.

(** ** dequeue *)
Lemma dequeue_run q e p' i r t :
  pol_next (q_policy q) = (Ok (Some i), p') → q_storage q !! i = Some r →
  env_tasks e !! r = Some t →
  ∃ o e' evs,
    dequeue (q, e) = (o, (Build_Queue (q_max_size q) p' (delete i (q_storage q))
      (q_enqueue_count q + 0) (q_dequeue_count q + 1) (q_cancel_count q + 0) (q_published q ++ evs), e')) ∧
    env_tasks e' = env_tasks e ∧ emitted (TaskDequeued (task_id t)) e e' o r.
Proof.
  intros Hn Hs Ht. unfold dequeue. run_step. rewrite Hn; simpl. rewrite Hs; simpl.
  rewrite (deref_Some e r t Ht); simpl.
  destruct (emit (TaskDequeued (task_id t)) _) as [o e'] eqn:Hemit.
  destruct (emit_facts _ _ _ _ _ Hemit) as (Htk & Ho & _); simpl in *.
  destruct o as [[]|x]; eexists _, e', [_]; (split; [done|]); (split; [done|]);
    (eexists _, _; split_and!; [| |exact Hemit|]; simpl; [done|lia|done]).
Qed.

(** [dequeue] serves the head of the abstract order, and raises
    [QueueEmptyError] exactly when nothing is stored. *)
Lemma dequeue_spec q e :
  queue_inv (q, e) →
  match pol_live (q_policy q) with
  | [] => ∃ q', dequeue (q, e) = (Raise QueueEmptyError, (q', e)) ∧ queue_inv (q', e) ∧
            pol_live (q_policy q') = [] ∧ q_max_size q' = q_max_size q
  | i :: l => ∃ o q' e' r,
      dequeue (q, e) = (o, (q', e')) ∧ queue_inv (q', e') ∧
      pol_live (q_policy q') = l ∧ q_storage q !! i = Some r ∧
      q_storage q' = delete i (q_storage q) ∧
      pol_tracked (q_policy q') ⊆ pol_tracked (q_policy q) ∧
      q_max_size q' = q_max_size q ∧ emitted (TaskDequeued i) e e' o r
  end.
Proof.
  intros Hinv. destruct (pol_next_spec (q_policy q)) as (p' & Hn & Hwf & Hl & Htr); [apply Hinv|].
  pose proof (pol_live_NoDup (q_policy q) (inv_policy _ Hinv)) as Hnd; simpl in Hnd.
  pose proof Hinv as [H1 H2 H3 H4 H5]; simpl in *.
  destruct (pol_live (q_policy q)) as [|i l] eqn:Hlive; simpl in *.
  - exists (with_policy p' q). split_and!; [unfold dequeue; run_step; by rewrite Hn| |done..].
    constructor; simpl; auto. intros i. by rewrite Hl, H2.
  - destruct (proj1 (H2 i)) as [r Hr]; [by left|].
    destruct (H3 _ _ Hr) as (t & Ht & Hid).
    destruct (dequeue_run q e p' i r t Hn Hr Ht) as (o & e' & evs & Hd & Htk & Ho).
    rewrite Hid in Ho. eexists o, _, e', r. split_and!; [exact Hd| |done..].
    apply NoDup_cons in Hnd as [Hni Hnd].
    assert (Hsz : Z.of_nat (size (delete i (q_storage q))) = qsize q - 1).
    { unfold qsize. pose proof (size_delete_Some _ _ _ Hr). lia. }
    constructor; simpl; unfold qsize in *; simpl.
    + done.
    + intros j. rewrite Hl, lookup_delete. case_decide as Hj.
      * subst. split; [done|by intros []].
      * rewrite <-H2. set_solver.
    + intros j r'. rewrite lookup_delete. case_decide; [done|]. rewrite Htk. auto.
    + intros m Hm. destruct (H4 _ Hm). lia.
    + lia.
Qed.

(** [peek] shows the object [dequeue] would serve, and serves nothing. *)
Lemma peek_spec q e :
  queue_inv (q, e) →
  ∃ q', peek (q, e) = (Ok (i ← head (pol_live (q_policy q)); q_storage q !! i), (q', e)) ∧
    queue_inv (q', e) ∧ pol_live (q_policy q') = pol_live (q_policy q) ∧
    q_storage q' = q_storage q ∧ pol_tracked (q_policy q') ⊆ pol_tracked (q_policy q) ∧
    q_max_size q' = q_max_size q.
Proof.
  intros Hinv. destruct (pol_peek_spec (q_policy q)) as (p' & Hn & Hwf & Hl & Htr); [apply Hinv|].
  exists (with_policy p' q). split_and!; [|constructor; simpl|done..].
  - unfold peek. run_step. rewrite Hn; simpl. by destruct (head _).
  - done.
  - intros i. rewrite Hl. apply Hinv.
  - apply Hinv.
  - apply Hinv.
  - apply Hinv.
Qed.

(** ** cancel *)
Lemma cancel_run q e i r p' :
  q_storage q !! i = Some r → pol_remove i (q_policy q) = (Ok tt, p') →
  ∃ o e' evs,
    cancel i (q, e) = (o, (Build_Queue (q_max_size q) p' (delete i (q_storage q))
      (q_enqueue_count q + 0) (q_dequeue_count q + 0) (q_cancel_count q + 1) (q_published q ++ evs), e')) ∧
    env_tasks e' = env_tasks e ∧ emitted (TaskCancelled i) e e' o r.
Proof.
  intros Hs Hr. unfold cancel. run_step. rewrite Hs; simpl. rewrite Hr; simpl.
  destruct (emit (TaskCancelled i) _) as [o e'] eqn:Hemit.
  destruct (emit_facts _ _ _ _ _ Hemit) as (Htk & Ho & _); simpl in *.
  destruct o as [[]|x]; eexists _, e', [_]; (split; [done|]); (split; [done|]);
    (eexists _, _; split_and!; [| |exact Hemit|]; simpl; [done|lia|done]).
Qed.

(** [cancel] removes exactly the id it is given, and reports an unknown one. *)
Lemma cancel_spec q e i :
  queue_inv (q, e) →
  match q_storage q !! i with
  | None => cancel i (q, e) = (Raise (TaskNotFoundError i), (q, e))
  | Some r => ∃ o q' e',
      cancel i (q, e) = (o, (q', e')) ∧ queue_inv (q', e') ∧
      pol_live (q_policy q') = filter (λ j, j ≠ i) (pol_live (q_policy q)) ∧
      q_storage q' = delete i (q_storage q) ∧
      pol_tracked (q_policy q') ⊆ pol_tracked (q_policy q) ∧
      q_max_size q' = q_max_size q ∧ emitted (TaskCancelled i) e e' o r
  end.
Proof.
  intros Hinv. destruct (q_storage q !! i) as [r|] eqn:Hs.
  2:{ unfold cancel. run_step. by rewrite Hs. }
  pose proof Hinv as [H1 H2 H3 H4 H5]; simpl in *.
  destruct (pol_remove_spec (q_policy q) i) as (p' & Hr & Hwf & Hl & Htr);
    [done|by apply H2|].
  destruct (cancel_run q e i r p' Hs Hr) as (o & e' & evs & Hc & Htk & Ho).
  eexists o, _, e'. split_and!; [exact Hc| |done..].
  assert (Hsz := size_delete_Some (q_storage q) i r Hs).
  constructor; simpl; unfold qsize in *; simpl.
  - done.
  - intros j. rewrite Hl, list_elem_of_filter, lookup_delete, H2. case_decide; [|naive_solver].
    subst. split; [naive_solver|by intros []].
  - intros j r'. rewrite lookup_delete. case_decide; [done|]. rewrite Htk. auto.
  - intros m Hm. destruct (H4 _ Hm). lia.
  - lia.
Qed.

Lemma lookup_run q e i :
  lookup i (q, e) =
    (match q_storage q !! i with Some r => Ok r | None => Raise (TaskNotFoundError i) end, (q, e)).
Proof. unfold lookup. run_step. by destruct (q_storage q !! i). Qed.
End correctness.
