(* ===== verification/QueuePort.v ===== *)
(** [scheduling/queue/base_queue.py]: the abstract task queue.  The class
    [BaseTaskQueue] has the methods of the abstract base class; [TaskQueueLaws]
    says what their documentation promises, in terms of the items that wait,
    in service order, and of the events a queue logs.  [InMemoryTaskQueue]
    satisfies it over any policy.  A client that is proved against the laws
    (the tracker's callback here, the orchestrator's cancellation in
    [WorkflowQueue]) works with every such queue. *)
From S2P Require Import Prelude PyNum Heapq Values Decode Events EventStore Tasks Policy.
From S2P Require Import TaskQueue.
Open Scope Z_scope.

(** * The interface *)
Class BaseTaskQueue (Q : Type) : Type := {
  bq_enqueue : nat → M (Q * Env) unit;
  bq_dequeue : M (Q * Env) nat;
  bq_peek : M (Q * Env) (option nat);
  bq_cancel : string → M (Q * Env) nat;
  bq_lookup : string → M (Q * Env) nat;
  bq_contains : string → M (Q * Env) bool;
  bq_get_metrics : M (Q * Env) QueueMetrics;
  bq_size : M (Q * Env) Z;
  bq_is_empty : M (Q * Env) bool
}.

Definition has_room (cap : option Z) (l : list (string * nat)) : Prop :=
  ∀ m, cap = Some m → Z.of_nat (length l) < m.

Lemma has_room_dec cap l : {has_room cap l} + {∃ m, cap = Some m ∧ m ≤ Z.of_nat (length l)}.
Proof.
  destruct cap as [m|]; [|by left]. destruct (decide (m ≤ Z.of_nat (length l))); [right; eauto|left].
  intros m' [= <-]. lia.
Qed.

(** A sound queue holds items under distinct ids, each the id of its object,
    within its capacity.  [bq_takes] are the tasks it can be given. *)
Class TaskQueueLaws `{!Oracle} (Q : Type) `{!BaseTaskQueue Q} : Type := {
  bq_ok : Q * Env → Prop;
  bq_items : Q → list (string * nat);
  bq_capacity : Q → option Z;
  bq_takes : Q → Task → Prop;
  bq_ok_env q e e' : bq_ok (q, e) → ids_kept (env_tasks e) (env_tasks e') → bq_ok (q, e');
  bq_ids_once q e : bq_ok (q, e) → NoDup ((bq_items q).*1);
  bq_objects q e i r : bq_ok (q, e) → (i, r) ∈ bq_items q → ∃ t, env_tasks e !! r = Some t ∧ task_id t = i;
  bq_bounded q e m : bq_ok (q, e) → bq_capacity q = Some m → Z.of_nat (length (bq_items q)) ≤ m;
  bq_enqueue_law q e r t :
    bq_ok (q, e) → env_tasks e !! r = Some t → bq_takes q t → has_room (bq_capacity q) (bq_items q) →
    ∃ o q' e' l1 l2, bq_enqueue r (q, e) = (o, (q', e')) ∧ bq_ok (q', e') ∧ bq_capacity q' = bq_capacity q ∧
      bq_items q = l1 ++ l2 ∧ bq_items q' = l1 ++ (task_id t, r) :: l2 ∧
      (task_id t ∉ ((bq_items q).*1)) ∧ emitted (TaskQueued (task_id t)) e e' o tt;
  bq_full_law q e r t m :
    bq_ok (q, e) → env_tasks e !! r = Some t → bq_capacity q = Some m → Z.of_nat (length (bq_items q)) = m →
    ∃ q' e', bq_enqueue r (q, e) = (Raise (QueueFullError m), (q', e')) ∧ bq_ok (q', e') ∧
      bq_items q' = bq_items q ∧ bq_capacity q' = bq_capacity q ∧ env_store e' = env_store e ∧
      (env_tick e ≤ env_tick e')%nat;
  bq_dequeue_law q e :
    bq_ok (q, e) →
    match bq_items q with
    | [] => ∃ q', bq_dequeue (q, e) = (Raise QueueEmptyError, (q', e)) ∧ bq_ok (q', e) ∧ bq_items q' = [] ∧
              bq_capacity q' = bq_capacity q
    | (i, r) :: l => ∃ o q' e', bq_dequeue (q, e) = (o, (q', e')) ∧ bq_ok (q', e') ∧ bq_items q' = l ∧
                       bq_capacity q' = bq_capacity q ∧ emitted (TaskDequeued i) e e' o r
    end;
  bq_peek_law q e :
    bq_ok (q, e) →
    ∃ q', bq_peek (q, e) = (Ok (head ((bq_items q).*2)), (q', e)) ∧ bq_ok (q', e) ∧ bq_items q' = bq_items q ∧
      bq_capacity q' = bq_capacity q;
  bq_cancel_law q e i r :
    bq_ok (q, e) → (i, r) ∈ bq_items q →
    ∃ o q' e', bq_cancel i (q, e) = (o, (q', e')) ∧ bq_ok (q', e') ∧
      bq_items q' = filter (λ x, x.1 ≠ i) (bq_items q) ∧ bq_capacity q' = bq_capacity q ∧
      emitted (TaskCancelled i) e e' o r;
  bq_cancel_unknown q e i :
    bq_ok (q, e) → i ∉ ((bq_items q).*1) → bq_cancel i (q, e) = (Raise (TaskNotFoundError i), (q, e));
  bq_lookup_law q e i r : bq_ok (q, e) → (i, r) ∈ bq_items q → bq_lookup i (q, e) = (Ok r, (q, e));
  bq_lookup_unknown q e i :
    bq_ok (q, e) → i ∉ ((bq_items q).*1) → bq_lookup i (q, e) = (Raise (TaskNotFoundError i), (q, e));
  bq_contains_law q e i :
    bq_ok (q, e) → bq_contains i (q, e) = (Ok (bool_decide (i ∈ ((bq_items q).*1))), (q, e));
  bq_size_law q e : bq_ok (q, e) → bq_size (q, e) = (Ok (Z.of_nat (length (bq_items q))), (q, e));
  bq_is_empty_law q e : bq_ok (q, e) → bq_is_empty (q, e) = (Ok (bool_decide (bq_items q = [])), (q, e));
  bq_metrics_law q e :
    bq_ok (q, e) → ∃ m, bq_get_metrics (q, e) = (Ok m, (q, e)) ∧
      m_size m = Z.of_nat (length (bq_items q)) ∧ m_capacity m = bq_capacity q ∧
      m_enqueue_count m = m_dequeue_count m + m_cancel_count m + m_size m
}.

(** * [InMemoryTaskQueue] *)
Section in_memory.
Context `{!Oracle} {P : Type} `{HP : PolicyLaws P}.
Implicit Types (q : Queue P) (e : Env).

#[export] Instance in_memory_queue : BaseTaskQueue (Queue P) := {|
  bq_enqueue := enqueue; bq_dequeue := dequeue; bq_peek := peek; bq_cancel := cancel; bq_lookup := lookup;
  bq_contains := contains; bq_get_metrics := get_metrics; bq_size := queue_size; bq_is_empty := is_empty
|}.

(** The objects in service order. *)
Definition contents (q : Queue P) : list (string * nat) :=
  omap (λ i, pair i <$> q_storage q !! i) (pol_live (q_policy q)).

Lemma contents_from (st : gmap string nat) (l : list string) :
  (∀ i, i ∈ l → is_Some (st !! i)) →
  (omap (λ i, pair i <$> st !! i) l).*1 = l ∧
  length (omap (λ i, pair i <$> st !! i) l) = length l.
Proof.
  induction l as [|i l IH]; intros Hst; [done|]. csimpl.
  destruct (Hst i) as [r Hr]; [by left|]. rewrite Hr; csimpl.
  destruct IH as [-> ->]; [|done]. intros j Hj. apply Hst. by right.
Qed.

Lemma contents_ids q e : queue_inv (q, e) →
  (contents q).*1 = pol_live (q_policy q) ∧ Z.of_nat (length (contents q)) = qsize q.
Proof.
  intros Hinv. destruct (contents_from (q_storage q) (pol_live (q_policy q))) as [H1 H2].
  { intros i. apply (inv_live _ Hinv). }
  split; [done|]. rewrite <-(live_length q e Hinv). unfold contents. by rewrite H2.
Qed.

Lemma contents_elem q e i r : queue_inv (q, e) →
  (i, r) ∈ contents q ↔ q_storage q !! i = Some r.
Proof.
  intros Hinv. unfold contents. rewrite list_elem_of_omap. split.
  - intros (j & _ & Hj). destruct (q_storage q !! j) eqn:E; by simplify_eq/=.
  - intros Hr. exists i. rewrite Hr. split; [|done]. apply (inv_live _ Hinv). eauto.
Qed.

Lemma contents_unknown q e i : queue_inv (q, e) →
  q_storage q !! i = None → i ∉ ((contents q).*1).
Proof.
  intros Hinv Hn. destruct (contents_ids q e Hinv) as [-> _].
  rewrite (inv_live _ Hinv); simpl. rewrite Hn. by intros [].
Qed.

Lemma omap_storage_ext (st st' : gmap string nat) (l : list string) :
  (∀ i, i ∈ l → st !! i = st' !! i) →
  omap (λ i, pair i <$> st !! i) l = omap (λ i, pair i <$> st' !! i) l.
Proof.
  induction l as [|i l IH]; intros Heq; [done|]. csimpl.
  rewrite (Heq i) by left. rewrite IH; [done|]. intros j Hj. apply Heq. by right.
Qed.

(** Removing an id from the live ids and from the storage removes its pair. *)
Lemma contents_delete (st : gmap string nat) (l : list string) i :
  NoDup l →
  omap (λ j, pair j <$> delete i st !! j) (filter (λ j, j ≠ i) l) =
  filter (λ x, x.1 ≠ i) (omap (λ j, pair j <$> st !! j) l).
Proof.
  induction l as [|j l IH]; [done|]. intros [_ Hnd]%NoDup_cons.
  rewrite filter_cons. destruct (decide (j = i)) as [->|Hne]; csimpl.
  - rewrite decide_False by tauto. rewrite IH by done.
    destruct (st !! i); csimpl; [|done]. rewrite filter_cons, decide_False by (simpl; tauto). done.
  - rewrite decide_True by done. csimpl. rewrite lookup_delete_ne, IH by done.
    destruct (st !! j); csimpl; [|done]. by rewrite filter_cons, decide_True.
Qed.
Lemma contents_fst q e i : queue_inv (q, e) → i ∈ ((contents q).*1) ↔ is_Some (q_storage q !! i).
Proof. intros Hinv. destruct (contents_ids q e Hinv) as [-> _]. apply (inv_live _ Hinv). Qed.

Lemma new_queue_empty max_size : contents (new_queue (P:=P) max_size) = [].
Proof. unfold contents; simpl. by destruct pol_init_spec as (_ & -> & _). Qed.

(** ** The laws *)
Lemma enqueue_contents q e r t :
  queue_inv (q, e) → env_tasks e !! r = Some t → pol_addable t → task_id t ∉ pol_tracked (q_policy q) →
  has_room (q_max_size q) (contents q) →
  ∃ o q' e' l1 l2, enqueue r (q, e) = (o, (q', e')) ∧ queue_inv (q', e') ∧ q_max_size q' = q_max_size q ∧
    contents q = l1 ++ l2 ∧ contents q' = l1 ++ (task_id t, r) :: l2 ∧
    (task_id t ∉ ((contents q).*1)) ∧ emitted (TaskQueued (task_id t)) e e' o tt.
Proof.
  intros Hinv Ht Hadd Hfresh Hroom. destruct (contents_ids q e Hinv) as [Hids Hlen].
  assert (Hfull : is_full q = false).
  { unfold is_full. destruct (q_max_size q) as [m|] eqn:Hm; [|done]. apply Z.leb_gt. specialize (Hroom m eq_refl). lia. }
  destruct (enqueue_spec q e r t Hinv Ht Hfull Hadd Hfresh)
    as (o & q' & e' & l1 & l2 & Hrun & Hinv' & Hl & Hl' & Hst & _ & Hcap & _ & _ & _ & Ho).
  assert (Hni : task_id t ∉ l1 ++ l2).
  { rewrite <-Hl. intros Hin. apply Hfresh, pol_live_tracked; [apply Hinv|done]. }
  exists o, q', e', (omap (λ i, pair i <$> q_storage q !! i) l1), (omap (λ i, pair i <$> q_storage q !! i) l2).
  split_and!; [done..| | |by rewrite Hids, Hl|done].
  - unfold contents. by rewrite Hl, omap_app.
  - unfold contents. rewrite Hl', Hst, omap_app. csimpl. rewrite lookup_insert_eq; simpl.
    f_equal; [|f_equal]; apply omap_storage_ext; intros i Hi;
      rewrite lookup_insert_ne; try done; intros <-; apply Hni; set_solver.
Qed.
Lemma full_contents q e r t m :
  queue_inv (q, e) → env_tasks e !! r = Some t → q_max_size q = Some m → Z.of_nat (length (contents q)) = m →
  ∃ q' e', enqueue r (q, e) = (Raise (QueueFullError m), (q', e')) ∧ queue_inv (q', e') ∧
    contents q' = contents q ∧ q_max_size q' = q_max_size q ∧ env_store e' = env_store e ∧
    (env_tick e ≤ env_tick e')%nat.
Proof.
  intros Hinv Ht Hm Hlen. destruct (contents_ids q e Hinv) as [_ Hsz].
  assert (Hfull : is_full q = true) by (unfold is_full; rewrite Hm; apply Z.leb_le; lia).
  rewrite (enqueue_full q e r t Ht Hfull), Hm. eexists _, _. split_and!; [done| |done..|simpl; lia].
  by apply queue_inv_published, (queue_inv_env _ e).
Qed.
Lemma dequeue_contents q e :
  queue_inv (q, e) →
  match contents q with
  | [] => ∃ q', dequeue (q, e) = (Raise QueueEmptyError, (q', e)) ∧ queue_inv (q', e) ∧ contents q' = [] ∧
            q_max_size q' = q_max_size q
  | (i, r) :: l => ∃ o q' e', dequeue (q, e) = (o, (q', e')) ∧ queue_inv (q', e') ∧ contents q' = l ∧
                     q_max_size q' = q_max_size q ∧ emitted (TaskDequeued i) e e' o r
  end.
Proof.
  intros Hinv. pose proof (dequeue_spec q e Hinv) as Hspec.
  pose proof (pol_live_NoDup _ (inv_policy _ Hinv)) as Hnd. simpl in Hnd. unfold contents at 1.
  destruct (pol_live (q_policy q)) as [|i l] eqn:Hl.
  - destruct Hspec as (q' & Hrun & Hinv' & Hl' & Hcap). exists q'. split_and!; [done..| |done].
    unfold contents. by rewrite Hl'.
  - destruct Hspec as (o & q' & e' & r & Hrun & Hinv' & Hl' & Hr & Hst & _ & Hcap & Ho).
    apply NoDup_cons in Hnd as [Hni _]. csimpl. rewrite Hr. csimpl.
    exists o, q', e'. split_and!; [done..| |done|done]. unfold contents. rewrite Hl', Hst.
    apply omap_storage_ext. intros j Hj. rewrite lookup_delete_ne; [done|]. by intros ->.
Qed.
Lemma peek_contents q e :
  queue_inv (q, e) →
  ∃ q', peek (q, e) = (Ok (head ((contents q).*2)), (q', e)) ∧ queue_inv (q', e) ∧ contents q' = contents q ∧
    q_max_size q' = q_max_size q.
Proof.
  intros Hinv. destruct (contents_ids q e Hinv) as [Hids _].
  destruct (peek_spec q e Hinv) as (q' & Hrun & Hinv' & Hl & Hst & _ & Hcap).
  exists q'. split_and!; [|done| |done]; [|unfold contents; by rewrite Hl, Hst].
  rewrite Hrun. do 2 f_equal. rewrite <-Hids. destruct (contents q) as [|[i r] l] eqn:E; [done|]. csimpl.
  apply (contents_elem q e); [done|]. rewrite E. by left.
Qed.
Lemma cancel_contents q e i r :
  queue_inv (q, e) → (i, r) ∈ contents q →
  ∃ o q' e', cancel i (q, e) = (o, (q', e')) ∧ queue_inv (q', e') ∧
    contents q' = filter (λ x, x.1 ≠ i) (contents q) ∧ q_max_size q' = q_max_size q ∧
    emitted (TaskCancelled i) e e' o r.
Proof.
  intros Hinv Hr. apply (contents_elem q e i r Hinv) in Hr. pose proof (cancel_spec q e i Hinv) as Hspec.
  rewrite Hr in Hspec. destruct Hspec as (o & q' & e' & Hrun & Hinv' & Hl' & Hst & _ & Hcap & Ho).
  exists o, q', e'. split_and!; [done..| |done|done].
  unfold contents. rewrite Hl', Hst. apply contents_delete, pol_live_NoDup, Hinv.
Qed.
Lemma storage_unknown q e i : queue_inv (q, e) → i ∉ ((contents q).*1) → q_storage q !! i = None.
Proof. intros Hinv Hi. apply eq_None_not_Some. by rewrite <-(contents_fst q e i Hinv). Qed.

#[export] Program Instance in_memory_laws : TaskQueueLaws (Queue P) := {|
  bq_ok := queue_inv;
  bq_items := contents;
  bq_capacity := q_max_size;
  bq_takes q t := pol_addable t ∧ task_id t ∉ pol_tracked (q_policy q)
|}.
Next Obligation. exact queue_inv_env. Qed.
Next Obligation. intros q e Hinv. rewrite (proj1 (contents_ids q e Hinv)). apply pol_live_NoDup, Hinv. Qed.
Next Obligation. intros q e i r Hinv Hr. apply (inv_ids _ Hinv). by apply (contents_elem q e). Qed.
Next Obligation.
  intros q e m Hinv Hm. destruct (inv_capacity _ Hinv m Hm), (contents_ids q e Hinv) as [_ Hlen]. simpl in *. lia.
Qed.
Next Obligation. intros q e r t Hinv Ht [Ha Hn] Hroom. by apply (enqueue_contents q e r t). Qed.
Next Obligation. exact full_contents. Qed.
Next Obligation. exact dequeue_contents. Qed.
Next Obligation. exact peek_contents. Qed.
Next Obligation. exact cancel_contents. Qed.
Next Obligation.
  intros q e i Hinv Hi. pose proof (cancel_spec q e i Hinv) as Hc. by rewrite (storage_unknown q e i Hinv Hi) in Hc.
Qed.
Next Obligation.
  intros q e i r Hinv Hr. etrans; [apply lookup_run|]. by rewrite (proj1 (contents_elem q e i r Hinv) Hr).
Qed.
Next Obligation. intros q e i Hinv Hi. etrans; [apply lookup_run|]. by rewrite (storage_unknown q e i Hinv Hi). Qed.
Next Obligation.
  intros q e i Hinv. transitivity (Ok (bool_decide (is_Some (q_storage q !! i))), (q, e)); [done|].
  do 2 f_equal. apply bool_decide_ext. symmetry. by apply (contents_fst q e).
Qed.
Next Obligation. intros q e Hinv. rewrite (proj2 (contents_ids q e Hinv)). done. Qed.
Next Obligation.
  intros q e Hinv. destruct (contents_ids q e Hinv) as [_ Hlen].
  transitivity (Ok (qsize q =? 0), (q, e)); [done|]. do 2 f_equal.
  case_bool_decide as Hc; [apply Z.eqb_eq|apply Z.eqb_neq]; rewrite <-Hlen; destruct (contents q); simpl in *; try done; lia.
Qed.
Next Obligation.
  intros q e Hinv. eexists. split; [done|]. simpl. split_and!; [by rewrite (proj2 (contents_ids q e Hinv))|done|].
  apply (inv_counts _ Hinv).
Qed.
End in_memory.
