(* ===== verification/QueueSpec.v ===== *)
(** The abstract specification of the task queue and the refinement: a queue
    that keeps the contract of [QueuePort], as [InMemoryTaskQueue] does under
    every policy, behaves as a bounded list of (id, task) pairs, under any
    interleaving of its operations with changes other components make to the
    task objects. *)
From S2P Require Import Prelude PyNum Heapq Values Decode Events EventStore Tasks Policy.
From S2P Require Import TaskQueue QueuePort.
Open Scope Z_scope.

(** * The specification *)

(** What a queue operation answers. *)
Inductive reply : Type :=
  | Done
  | Served (r : nat)
  | Peeked (r : option nat)
  | SizeIs (z : Z).

Inductive spec_op : Type :=
  | Enqueue (i : string) (r : nat)
  | Dequeue
  | Cancel (i : string)
  | Peek
  | Lookup (i : string)
  | Size.

(** One operation of a queue of capacity [cap].  Where a new item enters is the
    policy's choice. *)
Inductive spec_step (cap : option Z) :
    list (string * nat) → spec_op → outcome reply → list (string * nat) → Prop :=
  | spec_enqueue i r l1 l2 :
      has_room cap (l1 ++ l2) → i ∉ ((l1 ++ l2).*1) →
      spec_step cap (l1 ++ l2) (Enqueue i r) (Ok Done) (l1 ++ (i, r) :: l2)
  | spec_reject i r m l :
      cap = Some m → Z.of_nat (length l) = m →
      spec_step cap l (Enqueue i r) (Raise (QueueFullError m)) l
  | spec_dequeue i r l : spec_step cap ((i, r) :: l) Dequeue (Ok (Served r)) l
  | spec_empty : spec_step cap [] Dequeue (Raise QueueEmptyError) []
  | spec_cancel i r l1 l2 :
      i ∉ (l1.*1) → spec_step cap (l1 ++ (i, r) :: l2) (Cancel i) (Ok (Served r)) (l1 ++ l2)
  | spec_cancel_unknown i l :
      i ∉ (l.*1) → spec_step cap l (Cancel i) (Raise (TaskNotFoundError i)) l
  | spec_peek l : spec_step cap l Peek (Ok (Peeked (head l.*2))) l
  | spec_lookup i r l : (i, r) ∈ l → spec_step cap l (Lookup i) (Ok (Served r)) l
  | spec_lookup_unknown i l :
      i ∉ (l.*1) → spec_step cap l (Lookup i) (Raise (TaskNotFoundError i)) l
  | spec_size l : spec_step cap l Size (Ok (SizeIs (Z.of_nat (length l)))) l.

Definition spec_label : Type := spec_op * outcome reply.

Inductive spec_steps (cap : option Z) :
    list (string * nat) → list spec_label → list (string * nat) → Prop :=
  | spec_nil l : spec_steps cap l [] l
  | spec_cons l op o l' ls l'' :
      spec_step cap l op o l' → spec_steps cap l' ls l'' → spec_steps cap l ((op, o) :: ls) l''.

(** The tasks a history accepted, and those it gave back. *)
Definition accepted (ls : list spec_label) : list nat :=
  omap (λ x, match x with (Enqueue _ r, Ok _) => Some r | _ => None end) ls.
Definition given_back (ls : list spec_label) : list nat :=
  omap (λ x, match x with (Dequeue, Ok (Served r)) | (Cancel _, Ok (Served r)) => Some r
                        | _ => None end) ls.

Lemma spec_step_length cap l op o l' :
  spec_step cap l op o l' → (∀ m, cap = Some m → Z.of_nat (length l) ≤ m) →
  ∀ m, cap = Some m → Z.of_nat (length l') ≤ m.
Proof.
  destruct 1 as [i r l1 l2 Hroom _| | | | | | | | |]; intros Hl m' Hm'; auto;
    specialize (Hl m' Hm'); rewrite ?length_app in *; simpl in *; try lia.
  specialize (Hroom m' Hm'). rewrite length_app in Hroom. lia.
Qed.

(** Removing by id is removing the item. *)
Lemma spec_cancel_filter cap i r l :
  NoDup (l.*1) → (i, r) ∈ l → spec_step cap l (Cancel i) (Ok (Served r)) (filter (λ x, x.1 ≠ i) l).
Proof.
  intros Hnd (l1 & l2 & ->)%list_elem_of_split. rewrite fmap_app in Hnd. csimpl in Hnd.
  apply NoDup_app in Hnd as (_ & Hd1 & [Hd2 _]%NoDup_cons).
  assert (i ∉ l1.*1) as Hd by (intros Hi; apply (Hd1 i Hi); by left).
  rewrite filter_app, filter_cons, decide_False by (simpl; tauto).
  rewrite !filter_all; [by constructor|..]; apply Forall_forall; intros [j r'] Hj; simpl; intros ->;
    by apply (list_elem_of_fmap_2 fst) in Hj.
Qed.

(** No task is lost or served twice: what was waiting and what was accepted is
    what was given back and what still waits. *)
Lemma spec_steps_conserve cap l ls l' :
  spec_steps cap l ls l' → l.*2 ++ accepted ls ≡ₚ given_back ls ++ l'.*2.
Proof.
  induction 1 as [l|l op o l' ls l'' Hs _ IH]; [by rewrite app_nil_r|].
  destruct Hs; csimpl; rewrite ?fmap_app in *; csimpl;
    rewrite <-?IH, ?fmap_app; csimpl; try done; solve_Permutation.
Qed.

(** * The implementation *)

Inductive queue_op : Type :=
  | OpEnqueue (r : nat)
  | OpDequeue
  | OpCancel (i : string)
  | OpPeek
  | OpLookup (i : string)
  | OpSize.

Section refinement.
Context `{!Oracle} {Q : Type} `{!BaseTaskQueue Q} `{!TaskQueueLaws Q}.
Implicit Types (q : Q) (e : Env).

Definition run_op (op : queue_op) : M (Q * Env) reply :=
  match op with
  | OpEnqueue r => bq_enqueue r ;;; ret Done
  | OpDequeue => r <- bq_dequeue ;; ret (Served r)
  | OpCancel i => r <- bq_cancel i ;; ret (Served r)
  | OpPeek => r <- bq_peek ;; ret (Peeked r)
  | OpLookup i => r <- bq_lookup i ;; ret (Served r)
  | OpSize => z <- bq_size ;; ret (SizeIs z)
  end.

(** A task may be enqueued when the queue can take it (an [InMemoryTaskQueue]:
    its policy can order it and keeps no trace of its id, which is neither
    waiting nor lazily deleted). *)
Definition admissible (op : queue_op) (s : Q * Env) : Prop :=
  match op with
  | OpEnqueue r => ∃ t, env_tasks s.2 !! r = Some t ∧ bq_takes s.1 t
  | _ => True
  end.

(** The specified operation an operation stands for. *)
Definition spec_of (op : queue_op) (s : Q * Env) : spec_op :=
  match op with
  | OpEnqueue r => Enqueue (default "" (task_id <$> env_tasks s.2 !! r)) r
  | OpDequeue => Dequeue
  | OpCancel i => Cancel i
  | OpPeek => Peek
  | OpLookup i => Lookup i
  | OpSize => Size
  end.

(** The event an operation on the items [l] logs. *)
Definition log_entry (l : list (string * nat)) (op : spec_op) (rep : outcome reply) : option event_data :=
  match op, rep with
  | Enqueue i _, Ok _ => Some (TaskQueued i)
  | Dequeue, Ok _ => (λ x, TaskDequeued x.1) <$> head l
  | Cancel i, Ok _ => Some (TaskCancelled i)
  | _, _ => None
  end.

(** An operation answers as specified, unless logging it fails; the failure
    is then reported after the queue has changed. *)
Definition answers (l : list (string * nat)) (op : spec_op) (e e' : Env) (o rep : outcome reply) : Prop :=
  match log_entry l op rep with
  | Some d => ∃ a, rep = Ok a ∧ emitted d e e' o a
  | None => o = rep ∧ env_store e' = env_store e ∧ (env_tick e ≤ env_tick e')%nat
  end.
Lemma answers_nostore l op e e' o rep : answers l op e e' o rep → env_store e = None → o = rep.
Proof.
  unfold answers. destruct (log_entry _ _ _); [|by intros [-> _]].
  intros (a & -> & He). by apply (emitted_nostore _ _ _ _ _ He).
Qed.

Lemma answers_quiet l op e e' o :
  log_entry l op o = None → env_store e' = env_store e → (env_tick e ≤ env_tick e')%nat →
  answers l op e e' o o.
Proof. unfold answers. by intros -> ? ?. Qed.

Definition simulates (op : queue_op) (s : Q * Env) : Prop :=
  ∃ o s' rep, run_op op s = (o, s') ∧ bq_ok s' ∧
    answers (bq_items s.1) (spec_of op s) s.2 s'.2 o rep ∧
    bq_capacity s'.1 = bq_capacity s.1 ∧
    spec_step (bq_capacity s.1) (bq_items s.1) (spec_of op s) rep (bq_items s'.1).

Lemma sim_enqueue r s : bq_ok s → admissible (OpEnqueue r) s → simulates (OpEnqueue r) s.
Proof.
  destruct s as [q e]. intros Hok (t & Ht & Htakes); simpl in *. unfold simulates; simpl. rewrite Ht; simpl.
  destruct (has_room_dec (bq_capacity q) (bq_items q)) as [Hroom|(m & Hm & Hle)].
  - destruct (bq_enqueue_law q e r t Hok Ht Htakes Hroom) as (o & q' & e' & l1 & l2 & Hrun & Hok' & Hc & Hl & Hl' & Hni & Ho).
    eexists _, (q', e'), (Ok Done). split_and!; [by apply (bind_ret_run _ (λ _, Done))|done| |done|].
    + exists Done. split; [done|]. by apply (emitted_map (λ _, Done) _ _ _ _ tt).
    + simpl. rewrite Hl', Hl in *. by apply spec_enqueue.
  - pose proof (bq_bounded q e m Hok Hm) as Hb. assert (Hlen : Z.of_nat (length (bq_items q)) = m) by lia.
    destruct (bq_full_law q e r t m Hok Ht Hm Hlen) as (q' & e' & Hrun & Hok' & Hi & Hc & Hst & Htick).
    eexists _, (q', e'), (Raise _). run_step. rewrite Hrun. split_and!; [done|done|by apply answers_quiet|done|].
    simpl. rewrite Hi. by apply spec_reject.
Qed.

Lemma sim_dequeue s : bq_ok s → simulates OpDequeue s.
Proof.
  destruct s as [q e]. intros Hok. pose proof (bq_dequeue_law q e Hok) as Hlaw.
  unfold simulates; simpl. destruct (bq_items q) as [|[i r] l] eqn:Hl.
  - destruct Hlaw as (q' & Hrun & Hok' & Hl' & Hc). run_step. rewrite Hrun.
    eexists _, _, (Raise _). split_and!; [done|done|by apply answers_quiet|done|]. simpl. rewrite Hl'. constructor.
  - destruct Hlaw as (o & q' & e' & Hrun & Hok' & Hl' & Hc & Ho).
    eexists _, (q', e'), (Ok (Served r)).
    split_and!; [by apply bind_ret_run|done| |done|simpl; rewrite Hl'; constructor].
    unfold answers; simpl. exists (Served r). split; [done|]. by apply (emitted_map Served).
Qed.

Lemma sim_cancel i s : bq_ok s → simulates (OpCancel i) s.
Proof.
  destruct s as [q e]. intros Hok. unfold simulates; simpl.
  destruct (decide (i ∈ ((bq_items q).*1))) as [Hi|Hi].
  - apply list_elem_of_fmap in Hi as ([i' r] & -> & Hin). simpl in *.
    destruct (bq_cancel_law q e i' r Hok Hin) as (o & q' & e' & Hrun & Hok' & Hl' & Hc & Ho).
    eexists _, (q', e'), (Ok (Served r)). split_and!; [by apply bind_ret_run|done| |done|].
    + exists (Served r). split; [done|]. by apply (emitted_map Served).
    + simpl. rewrite Hl'. by apply spec_cancel_filter, Hin; apply (bq_ids_once q e).
  - run_step. rewrite (bq_cancel_unknown q e i Hok Hi). eexists _, _, (Raise _).
    split_and!; [done|done|by apply answers_quiet|done|]. by constructor.
Qed.

Lemma sim_read op s :
  bq_ok s → match op with OpPeek | OpLookup _ | OpSize => True | _ => False end →
  simulates op s.
Proof.
  destruct s as [q e]. intros Hok Hop. unfold simulates. destruct op as [| | | |i|]; try done; simpl.
  - destruct (bq_peek_law q e Hok) as (q' & Hrun & Hok' & Hl & Hc).
    run_step. rewrite Hrun. eexists _, _, (Ok (Peeked _)). split_and!; [done|done|by apply answers_quiet|done|].
    simpl. rewrite Hl. constructor.
  - run_step. destruct (decide (i ∈ ((bq_items q).*1))) as [Hi|Hi].
    + apply list_elem_of_fmap in Hi as ([i' r] & -> & Hin). simpl in *. rewrite (bq_lookup_law q e i' r Hok Hin).
      eexists _, _, (Ok (Served r)). split_and!; [done|done|by apply answers_quiet|done|]. by constructor.
    + rewrite (bq_lookup_unknown q e i Hok Hi). eexists _, _, (Raise _).
      split_and!; [done|done|by apply answers_quiet|done|]. by constructor.
  - run_step. rewrite (bq_size_law q e Hok). eexists _, _, (Ok (SizeIs _)).
    split_and!; [done|done|by apply answers_quiet|done|]. constructor.
Qed.

Lemma sim_op op s : bq_ok s → admissible op s → simulates op s.
Proof.
  intros Hinv Hadm. destruct op; [by apply sim_enqueue|by apply sim_dequeue|by apply sim_cancel|..];
    by apply sim_read.
Qed.

(** ** Histories

    The queue's operations in any order, between changes other components
    make to the environment (which keep every task object and its id).  An
    event records the specified operation, the answer, and the event store
    the operation found. *)
Definition event : Type := spec_op * outcome reply * option EventTable.

Inductive runs : Q * Env → list event → Q * Env → Prop :=
  | runs_nil s : runs s [] s
  | runs_op op s o s' h s'' :
      admissible op s → run_op op s = (o, s') → runs s' h s'' →
      runs s ((spec_of op s, o, env_store s.2) :: h) s''
  | runs_env q e e' h s'' :
      ids_kept (env_tasks e) (env_tasks e') → runs (q, e') h s'' → runs (q, e) h s''.

(** A specified event explains a recorded one: the same operation, and the
    same answer unless a store was there to fail. *)
Definition explains (x : event) (y : spec_label) : Prop :=
  x.1.1 = y.1 ∧ (x.2 = None → x.1.2 = y.2).

Lemma runs_refine s h s' :
  runs s h s' → bq_ok s →
  bq_ok s' ∧ bq_capacity s'.1 = bq_capacity s.1 ∧
  ∃ ls, Forall2 explains h ls ∧
    spec_steps (bq_capacity s.1) (bq_items s.1) ls (bq_items s'.1).
Proof.
  induction 1 as [s|op s o s' h s'' Hadm Hrun _ IH|q e e' h s'' Hk _ IH]; intros Hinv.
  - split_and!; [done..|]. exists []. split; constructor.
  - destruct (sim_op op s Hinv Hadm) as (o' & s1 & rep & Hrun' & Hinv' & Ha & Hcap & Hs).
    rewrite Hrun in Hrun'. injection Hrun' as <- <-.
    destruct (IH Hinv') as (Hi & Hc & ls & Hex & Hls). rewrite Hcap in Hc, Hls.
    split_and!; [done..|]. exists ((spec_of op s, rep) :: ls).
    split; [constructor; [split; [done|by apply (answers_nostore _ _ _ _ _ _ Ha)]|done]|by econstructor].
  - apply IH. by apply (bq_ok_env q e).
Qed.

(** A list of operations as a history. *)
Fixpoint run_ops (ops : list queue_op) (s : Q * Env) : list event * (Q * Env) :=
  match ops with
  | [] => ([], s)
  | op :: ops' =>
      let '(o, s') := run_op op s in
      let '(h, s'') := run_ops ops' s' in
      ((spec_of op s, o, env_store s.2) :: h, s'')
  end.
Fixpoint all_admissible (ops : list queue_op) (s : Q * Env) : Prop :=
  match ops with
  | [] => True
  | op :: ops' => admissible op s ∧ all_admissible ops' (run_op op s).2
  end.

Lemma run_ops_runs ops s :
  all_admissible ops s → runs s (run_ops ops s).1 (run_ops ops s).2.
Proof.
  revert s. induction ops as [|op ops IH]; intros s; simpl; [constructor|]. intros [Ha Hs].
  destruct (run_op op s) as [o s'] eqn:Hop. specialize (IH s' Hs).
  destruct (run_ops ops s') as [h s''] eqn:Hops. simpl in *. by eapply runs_op.
Qed.
End refinement.

(** * The queue's theorems *)
Section theorems.
Context `{!Oracle} {P : Type} `{HP : PolicyLaws P}.

(** C7: Every history of the queue in which each [enqueue] is given a task that
    exists, that the policy can order and whose id neither waits in the queue
    nor is still kept by the policy as a lazily deleted entry, is a history of
    the bounded list of [spec_step], which ends as what the queue contains:
    operation by operation the same answers, unless an event store is there,
    where logging may raise instead; for every policy that keeps the laws of
    its port, every capacity and interleaved changes of the task objects that
    keep their ids. *)
Theorem queue_refines_spec max_size e h (s : Queue P * Env) :
  runs (new_queue max_size, e) h s →
  ∃ ls, Forall2 explains h ls ∧
    spec_steps (q_max_size (new_queue (P:=P) max_size)) [] ls (contents s.1).
Proof.
  intros Hr. destruct (runs_refine _ _ _ Hr (new_queue_inv max_size e)) as (_ & _ & ls & Hex & Hls).
  exists ls. split; [done|]. by rewrite <-(new_queue_empty (P:=P) max_size).
Qed.

(** Capacity and counters, after any history: at most [max_size] tasks wait,
    and the counters of [get_metrics] account for every accepted task. *)
Theorem queue_bounds max_size e h (s : Queue P * Env) :
  runs (new_queue max_size, e) h s →
  ∃ mt, get_metrics s = (Ok mt, s) ∧
    m_size mt = Z.of_nat (length (contents s.1)) ∧
    (∀ m, max_size = Some m → 0 < m → m_capacity mt = Some m ∧ m_size mt ≤ m) ∧
    m_enqueue_count mt = m_dequeue_count mt + m_cancel_count mt + m_size mt.
Proof.
  intros Hr. destruct (runs_refine _ _ _ Hr (new_queue_inv max_size e)) as (Hinv & Hc & _).
  destruct s as [q e']. eexists. split; [by unfold get_metrics; run_step|]. simpl in *.
  destruct (contents_ids q e' Hinv) as [_ Hlen]. rewrite Hlen.
  split_and!; [done| |apply Hinv]. intros m -> Hm.
  assert (q_max_size q = Some m) as Hq by (rewrite Hc; simpl; by rewrite (proj2 (Z.ltb_lt _ _) Hm)).
  split; [done|]. by apply (inv_capacity _ Hinv).
Qed.

(** Without an event store, no task is lost, invented or served twice: the
    tasks accepted so far are, as a multiset, those handed out by [dequeue]
    and [cancel] together with those still waiting. *)
Theorem queue_conserves max_size e h (s : Queue P * Env) :
  runs (new_queue max_size, e) h s → Forall (λ x, x.2 = None) h →
  accepted (h.*1) ≡ₚ given_back (h.*1) ++ (contents s.1).*2.
Proof.
  intros Hr Hno. destruct (runs_refine _ _ _ Hr (new_queue_inv max_size e)) as (_ & _ & ls & Hex & Hls).
  assert (h.*1 = ls) as ->.
  { clear -Hex Hno. induction Hex as [|[[op o] st] [op' o'] h ls [Ho Ha] _ IH]; [done|].
    apply Forall_cons in Hno as [Hx Hno]. csimpl. rewrite IH by done. simpl in *.
    f_equal. rewrite Ho, Ha by done. done. }
  apply spec_steps_conserve in Hls. change (bq_items (new_queue max_size, e).1) with (contents (new_queue (P:=P) max_size)) in Hls.
  by rewrite new_queue_empty in Hls.
Qed.
End theorems.

(** * Examples *)
Section examples.
#[local] Existing Instance sample_oracle.
#[local] Existing Instance FIFOPolicy.policy.
#[local] Existing Instance FIFOPolicy.laws.

Definition sample_env : Env := {|
  env_tasks := list_to_map [(0%nat, sample_task "a" []); (1%nat, sample_task "b" [])];
  env_tick := 0; env_store := None |}.
Definition sample_ops : list queue_op :=
  [OpEnqueue 0; OpEnqueue 1; OpSize; OpDequeue; OpCancel "b"; OpDequeue].
Definition sample_start : Queue FIFOPolicy.t * Env := (new_queue (Some 2), sample_env).
Definition sample_history : list event := (run_ops sample_ops sample_start).1.
Definition sample_end : Queue FIFOPolicy.t * Env := (run_ops sample_ops sample_start).2.

Lemma sample_runs : runs sample_start sample_history sample_end.
Proof.
  apply run_ops_runs. unfold sample_ops, all_admissible, admissible.
  split; [exists (sample_task "a" []); split; [by vm_compute|split; [exact I|by vm_compute]]|].
  split; [exists (sample_task "b" []); split; [by vm_compute|split; [exact I|by vm_compute]]|].
  done.
Qed.

Lemma queue_refines_spec_witness :
  sample_history.*1 =
    [(Enqueue "a" 0, Ok Done); (Enqueue "b" 1, Ok Done); (Size, Ok (SizeIs 2));
     (Dequeue, Ok (Served 0)); (Cancel "b", Ok (Served 1)); (Dequeue, Raise QueueEmptyError)] ∧
  ∃ ls, Forall2 explains sample_history ls ∧
    spec_steps (q_max_size (new_queue (P:=FIFOPolicy.t) (Some 2))) [] ls (contents sample_end.1).
Proof.
  split; [by vm_compute|].
  exact (queue_refines_spec (Some 2) sample_env sample_history sample_end sample_runs).
Defined.

Lemma queue_bounds_witness :
  ∃ mt, get_metrics sample_end = (Ok mt, sample_end) ∧
    m_size mt = Z.of_nat (length (contents sample_end.1)) ∧
    (∀ m, Some 2 = Some m → 0 < m → m_capacity mt = Some m ∧ m_size mt ≤ m) ∧
    m_enqueue_count mt = m_dequeue_count mt + m_cancel_count mt + m_size mt.
Proof. exact (queue_bounds (Some 2) sample_env sample_history sample_end sample_runs). Defined.

Lemma queue_conserves_witness :
  accepted (sample_history.*1) ≡ₚ given_back (sample_history.*1) ++ (contents sample_end.1).*2.
Proof.
  apply (queue_conserves (Some 2) sample_env sample_history sample_end sample_runs).
  vm_compute. repeat constructor.
Defined.
End examples.
