(* ===== verification/QueueThreads.v ===== *)
(** [scheduling/queue/in_memory_queue.py] under real threads: the methods of
    [InMemoryTaskQueue] statement by statement, inside the queue's lock, while
    other code changes task objects and the event store.  Every run of any
    number of client threads is a run of the bounded list of [QueueSpec]. *)
From S2P Require Import Prelude PyNum Heapq Values Decode Events EventStore Tasks Policy.
From S2P Require Import TaskQueue QueuePort QueueSpec Sync.
Open Scope Z_scope.

(** * The methods, statement by statement

    A method of the policy touches guarded data only, so it is one step;
    [datetime.now()], every access to a task object and every append to the
    event store (which has a lock of its own) is a step on shared data. *)
Section code.
Context `{!Oracle} {P : Type} `{!SchedulingPolicy P}.
Abbreviation QP A := (prog (Queue P) Env A).

Definition publish_steps (ev : string → QueueEvents.QueueEvent) : QP unit :=
  n <~ on_shared tick ;;
  on_self (modify (with_published (ev (now_iso n)))).

Definition enqueue_steps (r : nat) : QP unit :=
  t <~ on_shared (deref r) ;;
  q <~ on_self get ;;
  if is_full q then
    publish_steps (λ ts, QueueEvents.TaskRejected (task_id t) ts "Queue capacity limit reached") ;~
    Return (Raise (QueueFullError (default 0 (q_max_size q))))
  else
    on_self (modify (λ q, with_storage (<[task_id t := r]> (q_storage q)) q)) ;~
    t' <~ on_shared (deref r) ;;
    on_self (zoom policy_lens (pol_add t')) ;~
    on_self (modify (add_counts 1 0 0)) ;~
    on_shared (update_task r (λ t, set_metadata (metadata_or_empty t) t)) ;~
    n <~ on_shared tick ;;
    on_shared (update_task r (metadata_set "queued_at" (VStr (now_iso n)))) ;~
    publish_steps (QueueEvents.TaskQueued (task_id t)) ;~
    on_shared (emit (TaskQueued (task_id t))).

Definition dequeue_steps : QP nat :=
  next_id <~ on_self (zoom policy_lens pol_next) ;;
  q <~ on_self get ;;
  match next_id with
  | None => Return (Raise QueueEmptyError)
  | Some i =>
      match q_storage q !! i with
      | None => Return (Raise QueueEmptyError)
      | Some r =>
          on_self (modify (λ q, with_storage (delete i (q_storage q)) q)) ;~
          on_self (modify (add_counts 0 1 0)) ;~
          t <~ on_shared (deref r) ;;
          publish_steps (QueueEvents.TaskDequeued (task_id t)) ;~
          on_shared (emit (TaskDequeued (task_id t))) ;~
          Return (Ok r)
      end
  end.

Definition peek_steps : QP (option nat) :=
  next_id <~ on_self (zoom policy_lens pol_peek) ;;
  q <~ on_self get ;;
  match next_id with
  | None => Return (Ok None)
  | Some i => Return (Ok (q_storage q !! i))
  end.

Definition cancel_steps (i : string) : QP nat :=
  q <~ on_self get ;;
  match q_storage q !! i with
  | None => Return (Raise (TaskNotFoundError i))
  | Some r =>
      on_self (modify (λ q, with_storage (delete i (q_storage q)) q)) ;~
      on_self (zoom policy_lens (pol_remove i)) ;~
      on_self (modify (add_counts 0 0 1)) ;~
      publish_steps (QueueEvents.TaskCancelled i) ;~
      on_shared (emit (TaskCancelled i)) ;~
      Return (Ok r)
  end.

Definition lookup_steps (i : string) : QP nat :=
  q <~ on_self get ;;
  match q_storage q !! i with
  | None => Return (Raise (TaskNotFoundError i))
  | Some r => Return (Ok r)
  end.
Definition size_steps : QP Z := q <~ on_self get ;; Return (Ok (qsize q)).

Definition op_steps (op : queue_op) : QP reply :=
  match op with
  | OpEnqueue r => enqueue_steps r ;~ Return (Ok QueueSpec.Done)
  | OpDequeue => r <~ dequeue_steps ;; Return (Ok (Served r))
  | OpCancel i => r <~ cancel_steps i ;; Return (Ok (Served r))
  | OpPeek => r <~ peek_steps ;; Return (Ok (Peeked r))
  | OpLookup i => r <~ lookup_steps i ;; Return (Ok (Served r))
  | OpSize => z <~ size_steps ;; Return (Ok (SizeIs z))
  end.
End code.

(** * One call, with interruptions *)
Section interrupted.
Context `{!Oracle} {P : Type} `{HP : PolicyLaws P}.
Implicit Types (q : Queue P) (e : Env).

(** What other code may do to the shared data: it keeps the task objects, their
    ids, and that the policy can order them; no event store appears. *)
Record meanwhile (e e' : Env) : Prop := {
  mw_ids : ids_kept (env_tasks e) (env_tasks e');
  mw_addable r t t' : env_tasks e !! r = Some t → env_tasks e' !! r = Some t' → pol_addable t → pol_addable t';
  mw_store : env_store e = None → env_store e' = None
}.
#[export] Instance meanwhile_preorder : PreOrder meanwhile.
Proof.
  split.
  - intros e. split; [done| |done]. intros r t t' Ht Ht'. by simplify_eq.
  - intros e1 e2 e3 [I1 A1 S1] [I2 A2 S2]. split; [by etrans| |auto].
    intros r t t'' Ht Ht'' Ha. destruct (I1 r t Ht) as (t' & Ht' & _). eauto.
Qed.
Lemma meanwhile_rtc e e' : rtc meanwhile e e' → meanwhile e e'.
Proof. induction 1; [done|by etrans]. Qed.

(** What a call itself does to them: ids stay, and no store appears. *)
Record kept (e e' : Env) : Prop := {
  kp_ids : ids_kept (env_tasks e) (env_tasks e');
  kp_store : env_store e = None → env_store e' = None
}.
#[export] Instance kept_preorder : PreOrder kept.
Proof. split; [done|]. intros e1 e2 e3 [I1 S1] [I2 S2]. split; [by etrans|auto]. Qed.
Lemma meanwhile_kept e e' : meanwhile e e' → kept e e'.
Proof. intros [Hi _ Hs]. by split. Qed.
Lemma kept_alter f r e : (∀ t, task_id (f t) = task_id t) → kept e (update_task r f e).2.
Proof. intros Hf. split; [by apply ids_kept_alter|done]. Qed.
Lemma kept_emit d e : kept e (emit d e).2.
Proof.
  destruct (emit d e) as [o e'] eqn:He. destruct (emit_facts _ _ _ _ _ He) as (Ht & _ & Hs); simpl.
  split; [by rewrite Ht|tauto].
Qed.
Lemma kept_inv q e e' : kept e e' → queue_inv (q, e) → queue_inv (q, e').
Proof. intros [Hi _] Hq. by apply (queue_inv_env q e). Qed.

(** What was published is read by no method. *)
Definition unpublished q : Queue P :=
  Build_Queue (q_max_size q) (q_policy q) (q_storage q) (q_enqueue_count q) (q_dequeue_count q)
    (q_cancel_count q) [].
Lemma unpublished_inv q1 q2 e : unpublished q1 = unpublished q2 → queue_inv (q1, e) → queue_inv (q2, e).
Proof. destruct q1, q2. intros [= -> -> -> -> -> ->]. by intros []; constructor. Qed.
Lemma unpublished_contents q1 q2 : unpublished q1 = unpublished q2 → contents q1 = contents q2.
Proof. destruct q1, q2. by intros [= -> -> -> -> -> ->]. Qed.

(** The answer [o] of a call that should answer [rep]: the same, unless logging
    the call's event failed. *)
Definition answers_as (e : Env) (d : option event_data) (o rep : outcome reply) : Prop :=
  match d with
  | None => o = rep
  | Some d => ∃ a e1, rep = Ok a ∧ kept e e1 ∧ o = omap_ok (λ _, a) (emit d e1).1
  end.

(** A whole call, however it is interrupted, is a step of the specified list. *)
Definition simulated (op : queue_op) q e (o : outcome reply) q' e' : Prop :=
  ∃ rep, spec_step (q_max_size q) (contents q) (spec_of op (q, e)) rep (contents q') ∧
    answers_as e (log_entry (contents q) (spec_of op (q, e)) rep) o rep ∧
    queue_inv (q', e') ∧ q_max_size q' = q_max_size q ∧ kept e e' ∧
    pol_tracked (q_policy q') ⊆
      match spec_of op (q, e) with Enqueue i _ => {[i]} | _ => ∅ end ∪ pol_tracked (q_policy q).
End interrupted.

(** One step of an interrupted run, in a hypothesis. *)
Ltac exec_step H :=
  lazymatch type of H with
  | exec _ (OnSelf _ _) _ _ _ =>
      let e := fresh "e" in let Hr := fresh "Hr" in
      apply exec_self_inv in H as (e & Hr & H); apply meanwhile_rtc in Hr; simpl in H
  | exec _ (OnEnv _ _) _ _ _ =>
      let e := fresh "e" in let Hr := fresh "Hr" in
      apply exec_env_inv in H as (e & Hr & H); apply meanwhile_rtc in Hr; simpl in H
  | exec _ (Return _) _ _ _ =>
      let e := fresh "e" in let Hr := fresh "Hr" in
      apply exec_return_inv in H as (-> & e & Hr & H); apply meanwhile_rtc in Hr; simplify_eq
  end.
(** The shared data after a run, step by step from its end. *)
Ltac kept_run :=
  repeat first
    [ reflexivity
    | match goal with Hr : meanwhile ?x ?y |- kept _ ?y => transitivity x; [|by apply meanwhile_kept] end
    | match goal with
      | |- kept _ (emit _ ?x).2 => transitivity x; [|apply kept_emit]
      | |- kept _ (next_tick ?x) => transitivity x; [|by split]
      | |- kept _ (with_tasks (alter _ _ _) ?x) => transitivity x; [|by apply kept_alter]
      end ].

Section simulation.
Context `{!Oracle} {P : Type} `{HP : PolicyLaws P}.
Implicit Types (q : Queue P) (e : Env).
Lemma ids_kept_altered r f ts : (∀ t, task_id (f t) = task_id t) → ids_kept (alter f r ts) ts.
Proof.
  intros Hf r' t. rewrite lookup_alter. case_decide; subst; [|eauto].
  destruct (ts !! r') as [t0|]; [|done]. intros [= <-]. exists t0. by rewrite Hf.
Qed.
(** The last statement of a method that logs. *)
Lemma emit_steps_run d (a : reply) q q' e e' o :
  exec meanwhile (match (emit d e).1 with Ok _ => Return (Ok a) | Raise x => Return (Raise x) end)
    (q, (emit d e).2) o (q', e') →
  q' = q ∧ o = omap_ok (λ _, a) (emit d e).1 ∧ kept e e'.
Proof.
  intros Hx. pose proof (kept_emit d e) as Hk. destruct (emit d e) as [[u|x] e1]; simpl in *; exec_step Hx;
    (split_and!; [done..|]); etrans; [exact Hk|by apply meanwhile_kept|exact Hk|by apply meanwhile_kept].
Qed.
Lemma emit_served d r q q' e e' o :
  exec meanwhile (r <~ match (emit d e).1 with Ok _ => Return (Ok r) | Raise x => Return (Raise x) end ;;
                  Return (Ok (Served r))) (q, (emit d e).2) o (q', e') →
  q' = q ∧ o = omap_ok (λ _, Served r) (emit d e).1 ∧ kept e e'.
Proof. intros Hx. apply emit_steps_run. by destruct (emit d e) as [[]]. Qed.
(** The queue after a call is the one an uninterrupted call leaves. *)
Lemma same_queue q1 q' e e1 e' :
  unpublished q1 = unpublished q' → queue_inv (q1, e1) → ids_kept (env_tasks e1) (env_tasks e) → kept e e' →
  queue_inv (q', e') ∧ contents q' = contents q1.
Proof.
  intros Hu Hinv Hi [Hk _]. split; [|by apply unpublished_contents].
  apply (unpublished_inv q1); [done|]. apply (queue_inv_env q1 e1); [done|]. by etrans.
Qed.

Lemma enqueue_simulated q e r t o q' e' :
  queue_inv (q, e) → env_tasks e !! r = Some t → pol_addable t → task_id t ∉ pol_tracked (q_policy q) →
  exec meanwhile (op_steps (OpEnqueue r)) (q, e) o (q', e') → simulated (OpEnqueue r) q e o q' e'.
Proof.
  intros Hinv Ht Hadd Hnew Hx. unfold op_steps, enqueue_steps in Hx. simpl in Hx.
  exec_step Hx. destruct (mw_ids _ _ Hr r t Ht) as (t1 & Ht1 & Hid1).
  pose proof (mw_addable _ _ Hr r t t1 Ht Ht1 Hadd) as Hadd1. rewrite (deref_Some e0 r t1 Ht1) in Hx; simpl in Hx.
  exec_step Hx. simpl in Hx. pose proof (meanwhile_kept _ _ (transitivity Hr Hr0)) as Hk1.
  pose proof (kept_inv q e e1 Hk1 Hinv) as Hinv1. destruct (mw_ids _ _ Hr0 r t1 Ht1) as (t2 & Ht2 & Hid2).
  destruct (contents_ids q e Hinv) as [_ Hlen]. unfold simulated; simpl. rewrite Ht; simpl.
  destruct (is_full q) eqn:Hfull; simpl in Hx.
  - repeat exec_step Hx. unfold is_full in Hfull. destruct (q_max_size q) as [m|] eqn:Hm; [|done].
    apply Z.leb_le in Hfull. destruct (inv_capacity _ Hinv m Hm) as [_ Hle]. simpl in Hle.
    eexists (Raise _). split_and!; [|done| |done| |set_solver].
    + change (contents (with_published _ q)) with (contents q). apply spec_reject; [done|]. simpl; lia.
    + apply queue_inv_published. revert Hinv. apply kept_inv. kept_run.
    + kept_run.
  - exec_step Hx. exec_step Hx. destruct (mw_ids _ _ Hr1 r t2 Ht2) as (t3 & Ht3 & Hid3).
    destruct (mw_ids _ _ Hr2 r t3 Ht3) as (t4 & Ht4 & Hid4).
    assert (pol_addable t4) as Ha4. { apply (mw_addable e e3 (ltac:(by repeat (etrans; [|eassumption])))) with r t; try done. }
    assert (task_id t4 = task_id t) as Hid by congruence.
    assert (kept e e3) as Hk3 by kept_run. pose proof (kept_inv q e e3 Hk3 Hinv) as Hinv3.
    destruct (enqueue_contents q e3 r t4 Hinv3 Ht4 Ha4) as (o1 & q1 & e1' & l1 & l2 & Hrun & Hinv1' & Hcap & Hl & Hl' & Hni & _);
      [by rewrite Hid| |].
    { intros m Hm. unfold is_full in Hfull. rewrite Hm in Hfull. apply Z.leb_gt in Hfull. lia. }
    destruct (enqueue_spec q e3 r t4 Hinv3 Ht4 Hfull Ha4) as (o2 & q2 & e2' & _ & _ & Hrun2 & _ & _ & _ & _ & Htr & _);
      [by rewrite Hid|]. rewrite Hrun in Hrun2. injection Hrun2 as <- <- <-.
    destruct (pol_add_spec (q_policy q) t4) as (p' & _ & _ & Hp & _); [apply Hinv|done|by rewrite Hid|].
    destruct (enqueue_run q e3 r t4 p' Ht4 Hfull Hp) as (o2 & e2' & evs & Hrun2 & Henv & _).
    rewrite Hrun in Hrun2. injection Hrun2 as _ Hq1 <-.
    rewrite (deref_Some e3 r t4 Ht4) in Hx; simpl in Hx. exec_step Hx.
    unfold zoom in Hx; simpl in Hx. rewrite Hp in Hx; simpl in Hx. repeat exec_step Hx.
    apply emit_steps_run in Hx as (Hq' & -> & Hk11).
    assert (kept e e11) as Hk by kept_run. assert (kept e3 e') as Hk3' by (etrans; [|exact Hk11]; kept_run).
    destruct (same_queue q1 q' e3 e1' e' ltac:(by rewrite Hq1, Hq', Hid, Hid1) Hinv1') as [Hinv' Hc'];
      [rewrite Henv; by apply ids_kept_altered|done|].
    rewrite Hc', Hl', Hl, Hid, Hid1. exists (Ok Done). split_and!.
    + apply spec_enqueue; rewrite <-Hl; [|by rewrite <-Hid].
      intros m Hm. unfold is_full in Hfull. rewrite Hm in Hfull. apply Z.leb_gt in Hfull. lia.
    + exists Done, e11. by split_and!.
    + done.
    + by rewrite Hq'.
    + by etrans.
    + rewrite <-Hid, <-Htr, Hq1, Hq'. done.
Qed.

Lemma dequeue_simulated q e o q' e' :
  queue_inv (q, e) → exec meanwhile (op_steps OpDequeue) (q, e) o (q', e') → simulated OpDequeue q e o q' e'.
Proof.
  intros Hinv Hx. pose proof (dequeue_spec q e Hinv) as Hspec. pose proof (dequeue_contents q e Hinv) as Hlaw.
  destruct (pol_next_spec (q_policy q)) as (p' & Hn & Hwf & Hl & Htr); [apply Hinv|].
  destruct (contents_ids q e Hinv) as [Hids _]. unfold simulated; simpl.
  unfold op_steps, dequeue_steps in Hx. simpl in Hx. exec_step Hx.
  unfold zoom in Hx; simpl in Hx. rewrite Hn in Hx; simpl in Hx. exec_step Hx.
  destruct (contents q) as [|[i r] l] eqn:Hc; rewrite <-Hids in *; simpl in *.
  - exec_step Hx. destruct Hlaw as (q1 & Hrun & Hinv1 & Hc1 & _).
    assert (q1 = with_policy p' q) as -> by (unfold dequeue in Hrun; revert Hrun; run_step; rewrite Hn; simpl; congruence).
    exists (Raise QueueEmptyError). rewrite Hc1. split_and!; [constructor|done| |done|kept_run|set_solver].
    apply (kept_inv _ e); [kept_run|done].
  - destruct Hspec as (o1 & q1 & e1' & r' & Hrun & Hinv1 & _ & Hr' & _).
    destruct Hlaw as (o2 & q2 & e2' & Hrun2 & _ & Hc1 & _). rewrite Hrun in Hrun2. injection Hrun2 as <- <- <-.
    assert (r' = r) as ->.
    { assert ((i, r) ∈ contents q) as Hin by (rewrite Hc; by left). apply (contents_elem q e i r Hinv) in Hin. congruence. }
    destruct (inv_ids _ Hinv i r Hr') as (t & Ht & Hid); simpl in Ht.
    destruct (dequeue_run q e p' i r t Hn Hr' Ht) as (o2 & e2' & evs & Hrun2 & Henv & _).
    rewrite Hrun in Hrun2. injection Hrun2 as _ Hq1 <-.
    rewrite Hr' in Hx; simpl in Hx. exec_step Hx. exec_step Hx. exec_step Hx.
    assert (kept e e4) as Hk4 by kept_run. destruct (kp_ids _ _ Hk4 r t Ht) as (t4 & Ht4 & Hid4).
    rewrite (deref_Some e4 r t4 Ht4) in Hx; simpl in Hx. repeat exec_step Hx.
    apply emit_served in Hx as (Hq' & -> & Hk7).
    assert (kept e e7) as Hk by kept_run. assert (kept e e') as Hke by by etrans.
    destruct (same_queue q1 q' e e1' e' ltac:(by rewrite Hq1, Hq') Hinv1) as [Hinv' Hc'];
      [by rewrite Henv|done|].
    exists (Ok (Served r)). rewrite Hc', Hc1, Hid4, Hid. split_and!; [constructor| |done|by rewrite Hq'|done|].
    + exists (Served r), e7. by split_and!.
    + rewrite Hq'; simpl. set_solver.
Qed.

Lemma cancel_simulated i q e o q' e' :
  queue_inv (q, e) → exec meanwhile (op_steps (OpCancel i)) (q, e) o (q', e') → simulated (OpCancel i) q e o q' e'.
Proof.
  intros Hinv Hx. unfold op_steps, cancel_steps in Hx. simpl in Hx. exec_step Hx.
  unfold simulated; simpl. destruct (q_storage q !! i) as [r|] eqn:Hs; simpl in Hx.
  2:{ exec_step Hx. exists (Raise (TaskNotFoundError i)). split_and!; [|done| |done|kept_run|set_solver].
      - constructor. by eapply contents_unknown.
      - apply (kept_inv _ e); [kept_run|done]. }
  assert ((i, r) ∈ contents q) as Hin by by apply (contents_elem q e i r Hinv).
  destruct (cancel_contents q e i r Hinv Hin) as (o1 & q1 & e1' & Hrun & Hinv1 & Hc1 & _).
  destruct (pol_remove_spec (q_policy q) i) as (p' & Hp & _ & _ & Htr); [apply Hinv| |].
  { apply (inv_live _ Hinv); simpl. by rewrite Hs. }
  destruct (cancel_run q e i r p' Hs Hp) as (o2 & e2' & evs & Hrun2 & Henv & _).
  rewrite Hrun in Hrun2. injection Hrun2 as _ Hq1 <-.
  exec_step Hx. exec_step Hx. unfold zoom in Hx; simpl in Hx. rewrite Hp in Hx; simpl in Hx. repeat exec_step Hx.
  apply emit_served in Hx as (Hq' & -> & Hk7).
  assert (kept e e') as Hke by (etrans; [|exact Hk7]; kept_run).
  destruct (same_queue q1 q' e e1' e' ltac:(by rewrite Hq1, Hq') Hinv1) as [Hinv' Hc'];
    [by rewrite Henv|done|].
  exists (Ok (Served r)). rewrite Hc', Hc1. split_and!; [| |done|by rewrite Hq'|done|].
  - apply spec_cancel_filter; [|done]. rewrite (proj1 (contents_ids q e Hinv)). apply pol_live_NoDup, Hinv.
  - exists (Served r), e6. split_and!; [done|kept_run|done].
  - rewrite Hq'; simpl. set_solver.
Qed.

Lemma read_simulated op q e o q' e' :
  match op with OpPeek | OpLookup _ | OpSize => True | _ => False end →
  queue_inv (q, e) → exec meanwhile (op_steps op) (q, e) o (q', e') → simulated op q e o q' e'.
Proof.
  intros Hop Hinv Hx. destruct (contents_ids q e Hinv) as [Hids Hlen].
  unfold simulated. destruct op as [| | | |i|]; try done; simpl; unfold op_steps in Hx.
  - destruct (peek_contents q e Hinv) as (q1 & Hrun & Hinv1 & Hc1 & Hcap).
    destruct (pol_peek_spec (q_policy q)) as (p' & Hp & _ & _ & Htr); [apply Hinv|].
    unfold peek in Hrun. revert Hrun. run_step. unfold peek_steps in Hx. simpl in Hx. exec_step Hx.
    unfold zoom in Hx; simpl in Hx. rewrite Hp in Hx |- *; simpl in Hx |- *. exec_step Hx. intros Hrun.
    exists (Ok (Peeked (head ((contents q).*2)))).
    destruct (head (pol_live (q_policy q))); simpl in Hx; exec_step Hx; rewrite Hc1;
      (split_and!; [apply spec_peek|simpl; congruence|apply (kept_inv _ e); [kept_run|done]|done|kept_run|simpl; set_solver]).
  - unfold lookup_steps in Hx. simpl in Hx. exec_step Hx.
    destruct (q_storage q !! i) as [r|] eqn:Hs; simpl in Hx; exec_step Hx.
    + exists (Ok (Served r)). split_and!; [|done|apply (kept_inv _ e); [kept_run|done]|done|kept_run|set_solver].
      constructor. by apply (contents_elem q e i r Hinv).
    + eexists (Raise _). split_and!; [|done|apply (kept_inv _ e); [kept_run|done]|done|kept_run|set_solver].
      constructor. by eapply contents_unknown.
  - unfold size_steps in Hx. simpl in Hx. exec_step Hx. exec_step Hx. exists (Ok (SizeIs (qsize q))).
    split_and!; [|done|apply (kept_inv _ e); [kept_run|done]|done|kept_run|set_solver].
    rewrite <-Hlen. constructor.
Qed.

Lemma op_simulated op q e o q' e' :
  queue_inv (q, e) → admissible op (q, e) → exec meanwhile (op_steps op) (q, e) o (q', e') →
  simulated op q e o q' e'.
Proof.
  intros Hinv Hadm Hx. destruct op as [r| |i| |i|]; try by apply read_simulated.
  - destruct Hadm as (t & Ht & Ha & Hn). by apply (enqueue_simulated q e r t).
  - by apply dequeue_simulated.
  - by apply cancel_simulated.
Qed.

Lemma stamp_filled k v r (ts : gmap nat Task) :
  alter (metadata_set k v) r (alter (λ t, set_metadata (metadata_or_empty t) t) r ts) = alter (metadata_set k v) r ts.
Proof.
  apply map_eq. intros j. destruct (decide (r = j)) as [->|Hne].
  - rewrite !lookup_alter_eq. by destruct (ts !! j).
  - by rewrite !lookup_alter_ne.
Qed.
(** Without interruptions the statements are the methods of [TaskQueue]. *)
Lemma steps_denote op s : denote (op_steps op) s = run_op op s.
Proof.
  destruct s as [q e]. destruct op as [r| |i| |i|]; simpl.
  - unfold enqueue_steps, enqueue, stamp_queued_at. run_step.
    destruct (env_tasks e !! r) as [t|] eqn:Ht; [|unfold deref; by rewrite Ht].
    rewrite (deref_Some e r t Ht); simpl. destruct (is_full q); simpl; [done|].
    rewrite (deref_Some e r t Ht); simpl. destruct (pol_add t (q_policy q)) as [[[]|x] p']; simpl; [|done].
    unfold with_tasks, next_tick; simpl. rewrite stamp_filled. by destruct (emit _ _) as [[[]|x] e'].
  - unfold dequeue_steps, dequeue. run_step. destruct (pol_next (q_policy q)) as [[[i|]|x] p']; simpl; [|done..].
    destruct (q_storage q !! i) as [r|]; simpl; [|done]. unfold deref.
    destruct (env_tasks e !! r) as [t|]; simpl; [|done]. by destruct (emit _ _) as [[[]|x] e'].
  - unfold cancel_steps, cancel. run_step. destruct (q_storage q !! i) as [r|]; simpl; [|done].
    destruct (pol_remove i (q_policy q)) as [[[]|x] p']; simpl; [|done]. by destruct (emit _ _) as [[[]|x] e'].
  - unfold peek_steps, peek. run_step. by destruct (pol_peek (q_policy q)) as [[[i|]|x] p'].
  - unfold lookup_steps, lookup. run_step. by destruct (q_storage q !! i).
  - done.
Qed.
End simulation.

(** * All calls of all threads *)
Section threads.
Context `{!Oracle} {P : Type} `{HP : PolicyLaws P}.
Context {K : Type} `{!LockInterface K} `{!LockLaws K}.
Context {L : Type} (call : L → option queue_op) (answered : L → outcome reply → L).
Abbreviation calls := (calls (S:=Queue P) call answered op_steps meanwhile).
Abbreviation steps := (steps (K:=K) (S:=Queue P) call answered op_steps meanwhile).
Implicit Types (q : Queue P) (e : Env).

(** A thread calls [enqueue] only with a task the queue can take: one that
    exists, that its policy can order and whose id it keeps no trace of. *)
Definition well_behaved (ls : list L) q e : Prop :=
  ∀ h ls' q' e' i l r, calls (ls, (q, e)) h (ls', (q', e')) → ls' !! i = Some l →
    call l = Some (OpEnqueue r) → admissible (OpEnqueue r) (q', e').

(** The specified operation a call stands for. *)
Definition stands_for e (op : queue_op) (sop : spec_op) : Prop :=
  match op with
  | OpEnqueue r => ∃ t, env_tasks e !! r = Some t ∧ sop = Enqueue (task_id t) r
  | OpDequeue => sop = Dequeue
  | OpCancel i => sop = Cancel i
  | OpPeek => sop = Peek
  | OpLookup i => sop = Lookup i
  | OpSize => sop = Size
  end.
(** A call of the run and a step of the specification: the same operation and
    the same answer, unless appending the call's event raised. *)
Definition witnessed (e0 e : Env) (x : finished (Op:=queue_op) (V:=reply)) (y : spec_label) : Prop :=
  stands_for e x.1.2 y.1 ∧
  (x.2 = y.2 ∨ ∃ l d a e1, log_entry l y.1 y.2 = Some d ∧ y.2 = Ok a ∧ kept e0 e1 ∧
     x.2 = omap_ok (λ _, a) (emit d e1).1).

Lemma stands_for_kept e e' op sop : kept e e' → stands_for e op sop → stands_for e' op sop.
Proof.
  intros [Hi _]. destruct op as [r| | | | |]; try done. intros (t & Ht & ->).
  destruct (Hi r t Ht) as (t' & Ht' & Hid). exists t'. by rewrite Hid.
Qed.
Lemma spec_of_stands op q e : admissible op (q, e) → stands_for e op (spec_of op (q, e)).
Proof. destruct op as [r| | | | |]; try done. intros (t & Ht & _). simpl in *. rewrite Ht. by exists t. Qed.
Lemma spec_steps_snoc cap l ls l' op o l'' :
  spec_steps cap l ls l' → spec_step cap l' op o l'' → spec_steps cap l (ls ++ [(op, o)]) l''.
Proof.
  induction 1 as [l|l op1 o1 l1 ls l2 H1 _ IH]; intros Hs; simpl.
  - eapply spec_cons; [done|constructor].
  - eapply spec_cons; [done|auto].
Qed.

Lemma calls_refine ls q e h x :
  queue_inv (q, e) → well_behaved ls q e → calls (ls, (q, e)) h x →
  queue_inv x.2 ∧ q_max_size x.2.1 = q_max_size q ∧ kept e x.2.2 ∧
  ∃ ys, Forall2 (witnessed e x.2.2) h ys ∧ spec_steps (q_max_size q) (contents q) ys (contents x.2.1).
Proof.
  intros Hinv Hwb Hcs. remember (ls, (q, e)) as x0 eqn:Hx0.
  induction Hcs as [x|x h ls1 [q1 e1] i l op o [q2 e2] Hcs IH Hl Hc Hx|x h ls1 q1 e1 e2 Hcs IH HR]; subst.
  - split_and!; [done..|]. exists []. split; constructor.
  - destruct (IH eq_refl) as (Hinv1 & Hm1 & Hk1 & ys & Hys & Hss); simpl in *.
    assert (admissible op (q1, e1)) as Hadm.
    { destruct op as [r| | | | |]; try done. by eapply (Hwb h ls1 q1 e1 i l r). }
    destruct (op_simulated op q1 e1 o q2 e2 Hinv1 Hadm Hx) as (rep & Hspec & Ha & Hinv2 & Hm2 & Hk2 & _).
    rewrite Hm1 in *. split_and!; [done|done|by etrans|]. exists (ys ++ [(spec_of op (q1, e1), rep)]).
    split; [|by eapply spec_steps_snoc]. apply Forall2_app.
    + eapply Forall2_impl; [exact Hys|]. intros y z [Hst Hans]. split; [by eapply stands_for_kept|done].
    + apply Forall2_cons. split; [|constructor]. split; [by eapply stands_for_kept, spec_of_stands|].
      unfold answers_as in Ha. simpl in *. destruct (log_entry _ _ _) as [d|] eqn:Hlog; [right|by left].
      destruct Ha as (a & e3 & -> & Hk3 & ->). exists (contents q1), d, a, e3. split_and!; [done|done|by etrans|done].
  - destruct (IH eq_refl) as (Hinv1 & Hm1 & Hk1 & ys & Hys & Hss); simpl in *.
    apply meanwhile_kept in HR. split_and!; [by apply (kept_inv q1 e1)|done|by etrans|].
    exists ys. split; [|done]. eapply Forall2_impl; [exact Hys|]. intros y z [Hst Hans].
    split; [by eapply stands_for_kept|done].
Qed.

(** C5: The in-memory queue is linearizable: any number of threads call its methods,
    where every [enqueue] is given a task that exists, that the policy can order
    and whose id neither waits in the queue nor is still kept by the policy as
    a lazily deleted entry; the statements of the methods interleave with each
    other as the lock lets them and with changes other code makes to the task
    objects (never to an id) and to the event store.  Whenever nobody holds the
    lock, the calls that have ended, in the order in which they ended, are a run
    of the bounded list of [QueueSpec], which contains what the queue contains;
    so every accepted task was given back to one thread or still waits.  Without
    an event store the answers are the specified ones; with one, a call may
    raise what the logging of its event raises instead. *)
Theorem queue_linearizable max_size e ls k h (c : config K (Queue P) Env L queue_op reply) :
  lock_free k → well_behaved ls (new_queue max_size) e →
  steps (start ls k (new_queue max_size, e)) h c → lock_free (cf_lock c) →
  ∃ ys, Forall2 (witnessed e (cf_data c).2) h ys ∧
    spec_steps (q_max_size (new_queue (P:=P) max_size)) [] ys (contents (cf_data c).1) ∧
    accepted ys ≡ₚ given_back ys ++ (contents (cf_data c).1).*2 ∧
    (env_store e = None → h.*2 = ys.*2).
Proof.
  intros Hk Hwb Hs Hf. destruct (steps_match call answered op_steps meanwhile ls k _ h c Hk Hs) as (x & Hcs & Hm).
  destruct (calls_refine ls _ e h x (new_queue_inv max_size e) Hwb Hcs) as (_ & _ & _ & ys & Hys & Hss).
  destruct Hm as (_ & [(_ & _ & Hd)|[Hn _]]); [|done]. rewrite Hd in *. rewrite new_queue_empty in Hss.
  exists ys. split_and!; [done|done|by apply spec_steps_conserve in Hss|].
  intros Hno. clear -Hys Hno. induction Hys as [|[[i op] o] [sop rep] h ys [_ Ha] _ IH]; [done|].
  csimpl. rewrite IH. f_equal. simpl in Ha. destruct Ha as [->|(l & d & a & e1 & _ & -> & [_ Hst] & ->)]; [done|].
  unfold emit. by rewrite emit_meta_nostore by auto.
Qed.
End threads.

(** * Clients with scripts *)
Section scripts.
Context `{!Oracle} {P : Type} `{HP : PolicyLaws P}.
Implicit Types (q : Queue P) (e : Env).

Abbreviation calls := (calls (S:=Queue P) next_call go_on op_steps meanwhile).

(** The tasks the scripts still enqueue. *)
Definition to_enqueue (ls : list (list queue_op)) : list nat :=
  omap (λ op, match op with OpEnqueue r => Some r | _ => None end) (concat ls).
Definition name_in e (r : nat) : string := default "" (task_id <$> env_tasks e !! r).

Lemma concat_advance {A} (ls : list (list A)) i x l :
  ls !! i = Some (x :: l) → concat ls ≡ₚ x :: concat (<[i := l]> ls).
Proof.
  intros Hl. rewrite <-(take_drop_middle ls i (x :: l) Hl) at 1.
  rewrite (insert_take_drop ls i l) by by eapply lookup_lt_Some.
  rewrite !concat_app. simpl. solve_Permutation.
Qed.
Definition enqueued_by (op : queue_op) : list nat := match op with OpEnqueue r => [r] | _ => [] end.
Lemma to_enqueue_advance ls i op l :
  ls !! i = Some (op :: l) → to_enqueue ls ≡ₚ enqueued_by op ++ to_enqueue (<[i := l]> ls).
Proof. intros Hl. unfold to_enqueue. rewrite (concat_advance ls i op l Hl). by destruct op. Qed.
Lemma name_in_kept e e' r : kept e e' → is_Some (env_tasks e !! r) → name_in e' r = name_in e r.
Proof.
  intros [Hi _] [t Ht]. destruct (Hi r t Ht) as (t' & Ht' & Hid). unfold name_in. by rewrite Ht, Ht'; simpl; rewrite Hid.
Qed.

(** What holds while the scripts run: the tasks still to be enqueued are new to
    the policy. *)
Record scripts_inv (ls0 : list (list queue_op)) e (ls : list (list queue_op)) q e' : Prop := {
  si_queue : queue_inv (q, e');
  si_kept : kept e e';
  si_sub : to_enqueue ls ⊆+ to_enqueue ls0;
  si_once : NoDup (name_in e <$> to_enqueue ls);
  si_new r : r ∈ to_enqueue ls → name_in e r ∉ pol_tracked (q_policy q)
}.
Lemma scripts_admissible ls0 e ls q e' i op l :
  (∀ t, pol_addable t) → Forall (λ r, is_Some (env_tasks e !! r)) (to_enqueue ls0) →
  scripts_inv ls0 e ls q e' → ls !! i = Some (op :: l) → admissible op (q, e').
Proof.
  intros Hadd Hex [_ Hk Hsub _ Hnew] Hl. destruct op as [r| | | | |]; try done.
  assert (r ∈ to_enqueue ls) as Hr by (rewrite (to_enqueue_advance ls i _ l Hl); by left).
  rewrite Forall_forall in Hex. destruct (Hex r ltac:(by eapply elem_of_submseteq)) as [t Ht].
  destruct (kp_ids _ _ Hk r t Ht) as (t' & Ht' & Hid). exists t'. split; [done|]. split; [apply Hadd|].
  specialize (Hnew r Hr). unfold name_in in Hnew. rewrite Ht in Hnew. simpl in *. by rewrite Hid.
Qed.

Lemma scripts_run ls0 e max_size h x :
  (∀ t, pol_addable t) → Forall (λ r, is_Some (env_tasks e !! r)) (to_enqueue ls0) →
  NoDup (name_in e <$> to_enqueue ls0) →
  calls (ls0, (new_queue max_size, e)) h x → scripts_inv ls0 e x.1 x.2.1 x.2.2.
Proof.
  intros Hadd Hex Hnd Hcs. remember (ls0, (new_queue max_size, e)) as x0 eqn:Hx0.
  induction Hcs as [x|x h ls1 [q1 e1] i l op o [q2 e2] Hcs IH Hl Hc He|x h ls1 q1 e1 e2 Hcs IH HR]; subst; simpl in *.
  - split; [apply new_queue_inv|done..|]. intros r _. simpl. destruct pol_init_spec as (_ & _ & ->). set_solver.
  - specialize (IH eq_refl). destruct l as [|op' l]; simplify_eq/=.
    pose proof (scripts_admissible ls0 e ls1 q1 e1 i op l Hadd Hex IH Hl) as Hadm.
    destruct IH as [Hinv Hk Hsub Hnd1 Hnew].
    destruct (op_simulated op q1 e1 o q2 e2 Hinv Hadm He) as (rep & _ & _ & Hinv2 & _ & Hk2 & Htr).
    change (list_insert i l ls1) with (<[i := l]> ls1).
    pose proof (to_enqueue_advance ls1 i op l Hl) as Hperm. set (rest := to_enqueue (<[i := l]> ls1)) in *.
    rewrite Hperm, fmap_app, NoDup_app in Hnd1. destruct Hnd1 as (_ & Hdisj & Hnd1).
    split; [done|by etrans| |done|].
    + etrans; [|exact Hsub]. rewrite Hperm. by apply submseteq_inserts_l.
    + intros r Hr [Hop|Hold]%Htr%elem_of_union; [|apply (Hnew r); [rewrite Hperm; set_solver|done]].
      destruct op as [r0| | | | |]; try by apply not_elem_of_empty in Hop. simpl in Hop. apply elem_of_singleton in Hop.
      destruct Hadm as (t & Ht & _). simpl in Ht.
      assert (r0 ∈ to_enqueue ls1) as Hr0 by (rewrite Hperm; by left).
      rewrite Forall_forall in Hex. assert (is_Some (env_tasks e !! r0)) as Hs0 by (apply Hex; by eapply elem_of_submseteq).
      apply (Hdisj (name_in e r0)); [by left|]. apply list_elem_of_fmap. exists r. split; [|done].
      rewrite <-(name_in_kept e e1 r0 Hk Hs0). by rewrite Hop.
  - destruct (IH eq_refl) as [Hinv Hk Hsub Hnd1 Hnew]. apply meanwhile_kept in HR.
    split; [by apply (kept_inv q1 e1)|by etrans|done..].
Qed.

(** Scripts that enqueue every task at most once, tasks with different ids, are
    well behaved under a policy that can order every task. *)
Lemma scripts_well_behaved ls max_size e :
  (∀ t, pol_addable t) → Forall (λ r, is_Some (env_tasks e !! r)) (to_enqueue ls) →
  NoDup (name_in e <$> to_enqueue ls) →
  well_behaved (P:=P) next_call go_on ls (new_queue max_size) e.
Proof.
  intros Hadd Hex Hnd h ls' q' e' i l r Hcs Hl Hc. destruct l as [|op l]; simplify_eq/=.
  by apply (scripts_admissible ls e ls' q' e' i (OpEnqueue r) l Hadd Hex (scripts_run ls e max_size h _ Hadd Hex Hnd Hcs)).
Qed.
End scripts.

(** * Example: a producer, a consumer and a client that cancels *)
Section examples.
#[local] Existing Instance sample_oracle.
#[local] Existing Instance FIFOPolicy.policy.
#[local] Existing Instance FIFOPolicy.laws.
#[local] Existing Instances LocalThreadingLock.lock LocalThreadingLock.laws.
Abbreviation Q := (Queue FIFOPolicy.t).

Definition scripts : list (list queue_op) :=
  [[OpEnqueue 0; OpEnqueue 1]; [OpDequeue; OpDequeue]; [OpCancel "b"; OpSize]].
Definition clients : config LocalThreadingLock.t Q Env (list queue_op) queue_op reply :=
  start scripts LocalThreadingLock.new (new_queue (Some 2), sample_env).
Abbreviation finished_run := (run_schedule next_call go_on op_steps (round_robin 3 80) clients).

Lemma scripts_behave : well_behaved next_call go_on scripts (new_queue (P:=FIFOPolicy.t) (Some 2)) sample_env.
Proof.
  apply scripts_well_behaved; [done| |].
  - repeat (apply Forall_cons; split; [vm_compute; by eexists|]). constructor.
  - apply (bool_decide_unpack _). vm_compute. exact I.
Qed.

Lemma queue_linearizable_witness :
  finished_run.1 = [(0%nat, OpEnqueue 0, Ok Done); (1%nat, OpDequeue, Ok (Served 0));
    (2%nat, OpCancel "b", Raise (TaskNotFoundError "b")); (0%nat, OpEnqueue 1, Ok Done);
    (1%nat, OpDequeue, Ok (Served 1)); (2%nat, OpSize, Ok (SizeIs 0))] ∧
  ∃ ys, Forall2 (witnessed sample_env (cf_data finished_run.2).2) finished_run.1 ys ∧
    accepted ys ≡ₚ given_back ys ++ (contents (cf_data finished_run.2).1).*2 ∧ finished_run.1.*2 = ys.*2.
Proof.
  split; [vm_compute; reflexivity|].
  destruct (queue_linearizable next_call go_on (Some 2) sample_env scripts LocalThreadingLock.new finished_run.1
    finished_run.2 new_lock_free scripts_behave (run_schedule_steps _ _ _ meanwhile _ _)) as (ys & Hys & _ & Hcons & Hans);
    [vm_compute; reflexivity|].
  exists ys. split; [exact Hys|]. split; [exact Hcons|]. by apply Hans.
Defined.
End examples.
