(* ===== verification/QueueRecovery.v ===== *)
(** The queue and the recovery together: what [RecoveryManager] rebuilds from
    the events the queue logs is what waits in the queue. *)
From S2P Require Import Prelude PyNum Heapq Values Decode Events EventStore RuntimeState Tasks.
From S2P Require Import Recovery Policy TaskQueue QueuePort QueueSpec.
From stdpp Require Import pretty.
Open Scope Z_scope.

(** A store whose writes succeed, and UUIDs that do not repeat. *)
Class ReliableStore `{!Oracle} : Prop := {
  store_never_fails : ∀ n, store_error n = None;
  uuid4_inj : ∀ m n, uuid4 m = uuid4 n → m = n
}.

Section logs.
Context `{!Oracle} `{!ReliableStore}.

(** The store holds the events [es], all stamped in the past. *)
Definition log_is (e : Env) (es : list RuntimeEvent) : Prop :=
  ∃ tbl, env_store e = Some tbl ∧ holds tbl es ∧
         Forall (λ ev, ∃ n, (n < env_tick e)%nat ∧ event_id ev = uuid4 n) es.

Lemma log_is_later e e' es :
  log_is e es → env_store e' = env_store e → (env_tick e ≤ env_tick e')%nat → log_is e' es.
Proof.
  intros (tbl & Hs & Hh & Hf) Hst Ht. exists tbl. split_and!; [congruence|done|].
  eapply Forall_impl; [exact Hf|]. intros ev (n & ? & ?). exists n. split; [lia|done].
Qed.

Lemma emit_logs d e es : log_is e es →
  ∃ ev e', emit d e = (Ok tt, e') ∧ data ev = d ∧ log_is e' (es ++ [ev]).
Proof.
  intros (tbl & Hs & Hh & Hf). unfold emit, emit_meta. rewrite Hs.
  set (ev := {| event_id := _ |}). unfold append, transaction. rewrite store_never_fails.
  assert (Hid : event_id ev ∉ map event_id es).
  { intros (ev' & Heq & Hin)%list_elem_of_In%in_map_iff. rewrite Forall_forall in Hf.
    destruct (Hf ev') as (n & Hn & Hev'); [by apply list_elem_of_In|]. simpl in Heq.
    rewrite Hev' in Heq. apply uuid4_inj in Heq. lia. }
  destruct (insert_event_holds tbl es ev Hh) as (tbl' & -> & Hh'); [by split_and!|done|].
  exists ev. eexists. split; [done|]. split; [done|]. exists tbl'. split_and!; [done|done|].
  apply Forall_app. split.
  - eapply Forall_impl; [exact Hf|]. intros ev' (n & ? & ?). exists n. simpl. split; [lia|done].
  - constructor; [|done]. exists (env_tick e). simpl. split; [lia|done].
Qed.

Lemma emitted_logs {A} d e e' (o : outcome A) a es : log_is e es → emitted d e e' o a →
  o = Ok a ∧ ∃ ev, data ev = d ∧ log_is e' (es ++ [ev]).
Proof.
  intros Hl (e1 & o' & Hs & Ht & Hem & ->).
  destruct (emit_logs d e1 es (log_is_later e e1 es Hl Hs Ht)) as (ev & e2 & Hem' & Hd & Hl').
  rewrite Hem in Hem'. injection Hem' as -> ->. split; [done|]. by exists ev.
Qed.
End logs.

(** * The queue part of the replay *)
Definition queue_event (l : list string) (d : event_data) : list string :=
  match d with
  | TaskQueued i => add_if_absent i l
  | TaskDequeued i | TaskCompleted i | TaskFailed i _ | TaskCancelled i | TaskTimedOut i => remove_if_in i l
  | _ => l
  end.

Lemma apply_queued r e : replay_ok r →
  rp_queued (apply_runtime_event r e) = queue_event (rp_queued r) (data e).
Proof. intros _. unfold apply_runtime_event, queue_event, finish_task. by destruct (data e). Qed.

Lemma replay_queued r es : replay_ok r →
  rp_queued (replay_log r es) = foldl queue_event (rp_queued r) (map data es).
Proof.
  revert r. induction es as [|e es IH]; intros r Hr; [done|]. simpl.
  rewrite IH by by apply apply_runtime_event_ok. by rewrite apply_queued.
Qed.

(** An event of another component that tells nothing of the waiting ids [l]: not
    a queue event, and no end of a waiting task. *)
Definition quiet (l : list string) (d : event_data) : Prop :=
  match d with
  | TaskQueued _ | TaskDequeued _ => False
  | TaskCompleted i | TaskFailed i _ | TaskCancelled i | TaskTimedOut i => i ∉ l
  | _ => True
  end.

Lemma remove_absent i l : i ∉ l → remove_if_in i l = l.
Proof. intros Hi. unfold remove_if_in. by rewrite decide_False. Qed.
Lemma quiet_event l l' d : l ≡ₚ l' → quiet l d → queue_event l' d = l'.
Proof. intros Hp. destruct d; simpl; try done; rewrite Hp; apply remove_absent. Qed.
Lemma quiet_events l l' ds : l ≡ₚ l' → Forall (quiet l) ds → foldl queue_event l' ds = l'.
Proof.
  intros Hp. induction 1 as [|d ds Hd _ IH]; simpl; [done|]. by rewrite (quiet_event l).
Qed.

Lemma filter_perm (i : string) (l l' : list string) : l ≡ₚ l' → filter (λ y, y ≠ i) l ≡ₚ filter (λ y, y ≠ i) l'.
Proof. by intros ->. Qed.

(** A logged operation changes the replayed queue as it changed the queue. *)
Lemma log_entry_replay cap l op rep l' ids :
  spec_step cap l op rep l' → NoDup (l.*1) → ids ≡ₚ l.*1 →
  match log_entry l op rep with Some d => queue_event ids d ≡ₚ l'.*1 | None => l' = l end.
Proof.
  intros Hs Hnd Hp. assert (Hndi : NoDup ids) by by rewrite Hp.
  destruct Hs as [i r l1 l2 _ Hi| |i r l| |i r l1 l2 Hi| | | | |]; simpl; try done.
  - unfold add_if_absent. rewrite decide_False by by rewrite Hp.
    rewrite Hp, !fmap_app. csimpl. solve_Permutation.
  - rewrite remove_if_in_filter by done. rewrite Hp. csimpl in Hnd. apply NoDup_cons in Hnd as [Hni _].
    csimpl. rewrite filter_cons, decide_False by tauto. rewrite filter_all; [done|].
    apply Forall_forall. intros x Hx ->. done.
  - rewrite remove_if_in_filter by done. rewrite Hp. rewrite fmap_app in *. csimpl in Hnd. csimpl.
    apply NoDup_app in Hnd as (_ & Hd & [Hni _]%NoDup_cons).
    rewrite filter_app, filter_cons, decide_False by tauto. rewrite fmap_app.
    rewrite !filter_all; [done|apply Forall_forall; intros x Hx ->; done..].
Qed.

(** From genesis a log of at most [genesis_limit] events is replayed whole. *)
Lemma genesis_replays_all tbl es : count tbl ≤ genesis_limit → holds tbl es → replayed None es = es.
Proof.
  intros Hlen [Hh _]. unfold replayed, sql_window. simpl. apply take_ge.
  unfold count, genesis_limit in *. rewrite (Forall2_length _ _ _ Hh) in Hlen. lia.
Qed.

(** * Histories of a queue with a store *)
Section histories.
Context `{!Oracle} `{!ReliableStore} {Q : Type} `{!BaseTaskQueue Q} `{!TaskQueueLaws Q}.
Implicit Types (q : Q) (e : Env).

(** Queue operations in any order; between them other components change task
    objects, draw oracle readings, and log events that are [quiet] for what
    waits in the queue. *)
Inductive logged_run : Q * Env → Q * Env → Prop :=
  | logged_nil s : logged_run s s
  | logged_op op s s'' :
      admissible op s → logged_run (run_op op s).2 s'' → logged_run s s''
  | logged_env q e e' s'' :
      ids_kept (env_tasks e) (env_tasks e') →
      (∀ es, log_is e es → ∃ es', log_is e' (es ++ es') ∧
         Forall (quiet ((bq_items q).*1)) (map data es')) →
      logged_run (q, e') s'' → logged_run (q, e) s''.

(** The replay of the log agrees with the queue. *)
Definition in_step (s : Q * Env) (es : list RuntimeEvent) : Prop :=
  bq_ok s ∧ log_is s.2 es ∧
  foldl queue_event [] (map data es) ≡ₚ (bq_items s.1).*1.

Lemma in_step_op op s es : in_step s es → admissible op s →
  ∃ es', in_step (run_op op s).2 es'.
Proof.
  intros (Hinv & Hlog & Hp) Hadm.
  destruct (sim_op op s Hinv Hadm) as (o & s' & rep & Hrun & Hinv' & Ha & _ & Hs). rewrite Hrun. simpl.
  assert (Hnd : NoDup ((bq_items s.1).*1)).
  { destruct s as [q e]. by apply (bq_ids_once q e). }
  pose proof (log_entry_replay _ _ _ _ _ _ Hs Hnd Hp) as Hre. unfold answers in Ha.
  destruct (log_entry _ _ _) as [d|].
  - destruct Ha as (a & _ & Hem). destruct (emitted_logs d _ _ o a es Hlog Hem) as (_ & ev & Hd & Hl).
    exists (es ++ [ev]). split_and!; [done|done|]. rewrite map_app, foldl_app. simpl. by rewrite Hd.
  - destruct Ha as (_ & Hst & Ht). exists es. split_and!; [done|by apply (log_is_later s.2)|by rewrite Hre].
Qed.

Lemma in_step_run s s' es : logged_run s s' → in_step s es → ∃ es', in_step s' es'.
Proof.
  intros Hr. revert es. induction Hr as [s|op s s'' Hadm _ IH|q e e' s'' Hk Hlog _ IH]; intros es Hin.
  - by exists es.
  - destruct (in_step_op op s es Hin Hadm) as [es' Hin']. by apply (IH es').
  - destruct Hin as (Hinv & Hl & Hp). destruct (Hlog es Hl) as (es' & Hl' & Hq).
    apply (IH (es ++ es')). split_and!; [by apply (bq_ok_env q e)|done|].
    simpl in *. rewrite map_app, foldl_app. by rewrite (quiet_events ((bq_items q).*1)).
Qed.
End histories.

(** * The theorem *)
Section restoration.
Context `{!Oracle} `{!ReliableStore} {P : Type} `{HP : PolicyLaws P}.

(** C18: Recovery restores the queue: after any history of a queue that logs to a
    store that never fails and is empty at first (with at most 100000 events in
    the end and UUIDs that do not repeat), in which each [enqueue] is given a task that exists, that the policy
    can order and whose id neither waits nor is still kept by the policy, and in
    which other components log no queue event and never the end of a task that
    waits, recovery from genesis finds exactly the ids that wait in the queue,
    each once, and their number. *)
Theorem recovery_restores_queue max_size e (s : Queue P * Env) t :
  log_is e [] → logged_run (new_queue max_size, e) s →
  (∀ tbl, env_store s.2 = Some tbl → count tbl ≤ genesis_limit) →
  ∃ st rep e', recover FROM_GENESIS (t, s.2) = (Ok (st, rep), (t, e')) ∧
    qs_queued_task_ids (rs_queue st) ≡ₚ (contents s.1).*1 ∧
    qs_size (rs_queue st) = Z.of_nat (length (contents s.1)).
Proof.
  intros He Hrun Hlen.
  destruct (in_step_run _ _ [] Hrun) as (es & Hinv & (tbl & Hst & Hh & Hf) & Hp).
  { split_and!; [apply new_queue_inv|done|]. simpl. by rewrite new_queue_empty. }
  destruct (recover_run FROM_GENESIS t s.2 tbl es None Hst Hh ltac:(done) ltac:(done) ltac:(done))
    as (now0 & now & rep & e' & Hr & _). cbn [default from_option id] in Hr.
  rewrite (genesis_replays_all tbl es (Hlen tbl Hst) Hh) in Hr. eexists _, rep, e'. split; [exact Hr|]. cbn.
  pose proof (replay_log_ok _ es (genesis_ok now0)) as Hok.
  assert (Hq : rp_queued (replay_log (unpack (genesis now0)) es) ≡ₚ (contents s.1).*1).
  { rewrite replay_queued by apply genesis_ok. exact Hp. }
  split; [exact Hq|]. rewrite (ro_size _ Hok), Hq. by rewrite length_fmap.
Qed.
End restoration.

(** * Examples *)
Lemma append_inj (s a b : string) : (s +:+ a = s +:+ b → a = b)%string.
Proof. induction s as [|c s IH]; simpl; [done|]. intros [= H]. auto. Qed.
#[local] Instance sample_reliable : @ReliableStore sample_oracle.
Proof.
  constructor; [done|]. intros m n H. simpl in H. injection H as H.
  unfold nat_string in H. assert (N.of_nat m = N.of_nat n) as E by (by apply (inj pretty)). lia.
Qed.

Section examples.
#[local] Existing Instance sample_oracle.
#[local] Existing Instance FIFOPolicy.policy.
#[local] Existing Instance FIFOPolicy.laws.

Definition store_env : Env := with_store (Some empty_table) sample_env.
Definition queue_start : Queue FIFOPolicy.t * Env := (new_queue None, store_env).
Definition queue_end : Queue FIFOPolicy.t * Env :=
  (run_op OpDequeue (run_op (OpEnqueue 1) (run_op (OpEnqueue 0) queue_start).2).2).2.

Lemma queue_end_run : logged_run queue_start queue_end.
Proof.
  apply (logged_op (OpEnqueue 0)).
  { exists (sample_task "a" []); split; [by vm_compute|split; [exact I|by vm_compute]]. }
  apply (logged_op (OpEnqueue 1)).
  { exists (sample_task "b" []); split; [by vm_compute|split; [exact I|by vm_compute]]. }
  apply (logged_op OpDequeue); [exact I|]. apply logged_nil.
Qed.

Lemma recovery_restores_queue_witness :
  ∃ st rep e', recover FROM_GENESIS (new_conn, queue_end.2) = (Ok (st, rep), (new_conn, e')) ∧
    qs_queued_task_ids (rs_queue st) ≡ₚ ["b"] ∧ qs_size (rs_queue st) = 1.
Proof.
  assert (log_is store_env []) as Hl.
  { exists empty_table. split; [reflexivity|]. split; [exact holds_empty|constructor]. }
  destruct (recovery_restores_queue None store_env queue_end new_conn Hl queue_end_run)
    as (st & rep & e' & Hr & Hq & Hs).
  - intros tbl Ht. vm_compute in Ht. injection Ht as <-. vm_compute. discriminate.
  - exists st, rep, e'. split; [exact Hr|]. split; [exact Hq|exact Hs].
Defined.
End examples.
