(* ===== verification/PolicyOrder.v ===== *)
(** The service order of the heap policies: a binary heap with a tie-breaking
    counter and lazy deletion behaves as a stable sorted list, while no id is
    added again before its last trace is gone; and what happens otherwise. *)
From S2P Require Import Prelude PyNum Heapq Values Decode Events EventStore Tasks Policy.
From S2P Require Import TaskQueue.
Open Scope Z_scope.

(** * The reference: a list sorted by key, equal keys in order of arrival *)
Abbreviation ranked := (list (num * string)).

Definition rank_insert (a : num) (i : string) (l : ranked) : ranked :=
  filter (λ x, num_lt a x.1 = false) l ++ (a, i) :: filter (λ x, num_lt a x.1 ≠ false) l.

Inductive policy_op : Type :=
  | Add (t : Task)
  | Remove (i : string)
  | Next
  | PeekNext.

Definition added (ops : list policy_op) : list Task :=
  omap (λ op, match op with Add t => Some t | _ => None end) ops.

Section runs.
Context {P : Type} `{!SchedulingPolicy P}.

Definition policy_step (op : policy_op) : M P (option string) :=
  match op with
  | Add t => pol_add t ;;; ret None
  | Remove i => pol_remove i ;;; ret None
  | Next => pol_next
  | PeekNext => pol_peek
  end.

(** The answers of a sequence of operations. *)
Fixpoint policy_run (ops : list policy_op) (p : P) : list (outcome (option string)) :=
  match ops with
  | [] => []
  | op :: ops' => let '(o, p') := policy_step op p in o :: policy_run ops' p'
  end.
End runs.

Definition ranked_step (key : Task → outcome num) (op : policy_op) (l : ranked) :
    outcome (option string) * ranked :=
  match op with
  | Add t => match key t with
             | Ok a => (Ok None, rank_insert a (task_id t) l)
             | Raise x => (Raise x, l)
             end
  | Remove i => (Ok None, filter (λ x, x.2 ≠ i) l)
  | Next => (Ok (snd <$> head l), tail l)
  | PeekNext => (Ok (snd <$> head l), l)
  end.

Fixpoint ranked_run (key : Task → outcome num) (ops : list policy_op) (l : ranked) :
    list (outcome (option string)) :=
  match ops with
  | [] => []
  | op :: ops' => let '(o, l') := ranked_step key op l in o :: ranked_run key ops' l'
  end.

Section order.
Context `{!Oracle} {k : heap_kind}.
Import HeapPolicy.
Implicit Types (p : t k).

Definition forget_counter (e : entry) : num * string := (e.1.1, e.2).
Definition abs (p : t k) : ranked := forget_counter <$> entries p.

Lemma abs_filter p (Q : num * string → Prop) `{!∀ x, Decision (Q x)} :
  filter Q (abs p) = forget_counter <$> filter (λ e, Q (forget_counter e)) (entries p).
Proof. unfold abs. by rewrite list_filter_fmap. Qed.

Lemma abs_head p : snd <$> head (abs p) = snd <$> head (entries p).
Proof. unfold abs. by destruct (entries p). Qed.

(** One operation of the heap policy is one operation of the sorted list. *)
Lemma policy_step_ranked op p :
  wf p → match op with Add t => addable (k:=k) t ∧ task_id t ∉ tracked p | _ => True end →
  ∃ p', policy_step op p = ((ranked_step (key k) op (abs p)).1, p') ∧ wf p' ∧
    abs p' = (ranked_step (key k) op (abs p)).2 ∧
    tracked p' ⊆ list_to_set (task_id <$> added [op]) ∪ tracked p.
Proof.
  intros Hwf Hop. destruct op as [tk|i| |]; simpl.
  - destruct Hop as [(a & Hk & Ha) Hfresh]. rewrite Hk; simpl.
    destruct (add_entries p tk a Hwf Hk Ha Hfresh) as (_ & He & Htr).
    eexists. split; [by rewrite (bind_ret_run _ (λ _, None) _ _ _ (add_run _ _ _ Hk))|].
    split_and!; [by apply push_wf| |rewrite Htr; set_solver].
    unfold rank_insert. rewrite !abs_filter. unfold abs. rewrite He, fmap_app. by csimpl.
  - destruct (remove_spec p i Hwf) as (p' & Hr & Hwf' & He & Htr). exists p'.
    split_and!; [by rewrite (bind_ret_run _ (λ _, None) _ _ _ Hr)|done| |set_solver].
    rewrite abs_filter. unfold abs. by rewrite He.
  - destruct (next_spec p Hwf) as (p' & Hn & Hwf' & He & Htr). exists p'.
    rewrite abs_head. split_and!; [done..| |set_solver]. unfold abs. rewrite He.
    by destruct (entries p).
  - destruct (heap_peek_spec p Hwf) as (p' & Hn & Hwf' & He & Htr). exists p'.
    rewrite abs_head. split_and!; [done..| |set_solver]. unfold abs. by rewrite He.
Qed.

Lemma policy_run_ranked ops p :
  wf p → Forall (addable (k:=k)) (added ops) → NoDup (task_id <$> added ops) →
  (∀ i, i ∈ tracked p → i ∉ (task_id <$> added ops)) →
  policy_run ops p = ranked_run (key k) ops (abs p).
Proof.
  revert p. induction ops as [|op ops IH]; intros p Hwf Hadd Hnd Hfresh; simpl; [done|].
  destruct (policy_step_ranked op p Hwf) as (p' & -> & Hwf' & Habs & Htr).
  { destruct op; try done. csimpl in *. split; [by apply Forall_inv in Hadd|].
    intros Hi. apply (Hfresh _ Hi). by left. }
  destruct (ranked_step (key k) op (abs p)) as [o l] eqn:Hl; simpl in *. subst l.
  f_equal. apply IH; [done|..]; destruct op; csimpl in *;
    try apply Forall_cons in Hadd as [_ Hadd]; try apply NoDup_cons in Hnd as [Hni Hnd]; try done.
  all: intros j Hj; apply Htr in Hj; specialize (Hfresh j); set_solver.
Qed.
End order.

(** * The theorems *)
Section theorems.
Context `{!Oracle}.
#[local] Existing Instance HeapPolicy.policy.
#[local] Existing Instance HeapPolicy.laws.

(** C20: Whatever the order of additions, cancellations, peeks and dequeues, the
    priority and the deadline policy answer as the stable sorted list does:
    smallest key first, equal keys first in first out.  Every task must have
    a key that compares (not a NaN) and its id be added once. *)
Theorem heap_policy_stable (k : heap_kind) ops :
  Forall (HeapPolicy.addable (k:=k)) (added ops) → NoDup (task_id <$> added ops) →
  policy_run ops (pol_init : HeapPolicy.t k) = ranked_run (HeapPolicy.key k) ops [].
Proof.
  intros Hadd Hnd. destruct (pol_init_spec (P:=HeapPolicy.t k)) as (Hwf & _ & _).
  rewrite (policy_run_ranked ops); [|done..|].
  - unfold abs. by rewrite HeapPolicy.entries_empty.
  - by intros i ?%elem_of_empty.
Qed.

(** The key of the two policies on the common metadata. *)
Lemma priority_key_int tk m z :
  task_metadata tk = Some m → dget m "priority" = Some (VInt z) →
  HeapPolicy.key Priority tk = Ok (PInt (- z)).
Proof.
  intros Hm Hz. simpl. unfold HeapPolicy.priority_key, has_metadata, metadata_or_empty.
  rewrite Hm; simpl. rewrite bool_decide_false by (intros ->; done). simpl. by rewrite Hz.
Qed.

(** A task whose deadline is absent or unreadable has the key infinity: it
    goes after everything waiting, and every task with a finite deadline that
    arrives later is served before it. *)
Theorem deadline_default_last tk a s x l j :
  has_metadata tk = false ∨ dget (metadata_or_empty tk) "deadline" = None ∨
    (dget (metadata_or_empty tk) "deadline" = Some (VStr s) ∧
     iso_timestamp s = Raise (ValueError x)) →
  num_lt a (PFloat f_inf) = true →
  HeapPolicy.key Deadline tk = Ok (PFloat f_inf) ∧
  rank_insert (PFloat f_inf) (task_id tk) l = l ++ [(PFloat f_inf, task_id tk)] ∧
  rank_insert a j (l ++ [(PFloat f_inf, task_id tk)]) =
    rank_insert a j l ++ [(PFloat f_inf, task_id tk)].
Proof.
  intros Hd Hlt. split_and!.
  - simpl. unfold HeapPolicy.deadline_key. destruct Hd as [->|[Hd|[Hd Hi]]]; [done|..].
    + rewrite Hd. by case_match.
    + rewrite Hd, Hi. by case_match.
  - assert (Hn : ∀ y : num * string, num_lt (PFloat f_inf) y.1 = false).
    { intros y. unfold num_lt, num_cmp. simpl. by destruct (num_val y.1) as [[]|]. }
    unfold rank_insert. rewrite filter_all, filter_none; [done|..];
      apply Forall_forall; intros y _; rewrite Hn; auto.
  - unfold rank_insert. rewrite !filter_app, !filter_cons; simpl. rewrite Hlt; simpl.
    by rewrite app_nil_r, <-app_assoc.
Qed.
End theorems.

(** * Examples *)
Section examples.
#[local] Existing Instance sample_oracle.
#[local] Existing Instance HeapPolicy.policy.
#[local] Existing Instance HeapPolicy.laws.

Definition prio (i : string) (z : Z) : Task := sample_task i [("priority", VInt z)].

Lemma prio_addable i z : HeapPolicy.addable (k:=Priority) (prio i z).
Proof. exists (PInt (- z)). split; [done|by eexists]. Qed.

Lemma heap_policy_stable_witness :
  let ops := [Add (prio "a" 1); Add (prio "b" 5); Add (prio "c" 1); Next; Remove "a"; Next; Next] in
  policy_run ops (pol_init : HeapPolicy.t Priority) =
    ranked_run (HeapPolicy.key Priority) ops [] ∧
  ranked_run (HeapPolicy.key Priority) ops [] =
    [Ok None; Ok None; Ok None; Ok (Some "b"); Ok None; Ok (Some "c"); Ok None].
Proof.
  split.
  - apply heap_policy_stable; [|vm_compute; repeat constructor; set_solver].
    repeat constructor; apply prio_addable.
  - vm_compute. reflexivity.
Defined.

Lemma deadline_default_last_witness :
  HeapPolicy.key Deadline (sample_task "x" []) = Ok (PFloat f_inf) ∧
  rank_insert (PFloat f_inf) "x" [(PInt 7, "y")] = [(PInt 7, "y"); (PFloat f_inf, "x")] ∧
  rank_insert (PInt 9) "z" [(PInt 7, "y"); (PFloat f_inf, "x")] =
    [(PInt 7, "y"); (PInt 9, "z"); (PFloat f_inf, "x")].
Proof.
  apply (deadline_default_last (sample_task "x" []) (PInt 9) "" "" [(PInt 7, "y")] "z").
  - by left.
  - reflexivity.
Defined.

(** A queue with priority policy, and three task objects: [a] is cancelled
    and enqueued again with a lower priority. *)
Definition revival_env : Env := {|
  env_tasks := list_to_map [(0%nat, prio "a" 10); (1%nat, prio "b" 5); (2%nat, prio "a" 1);
                            (3%nat, prio "c" 0)];
  env_tick := 0; env_store := None |}.
Definition revival_run : M (Queue (HeapPolicy.t Priority) * Env) (nat * Z) :=
  enqueue 0 ;;; enqueue 1 ;;; cancel "a" ;;; enqueue 2 ;;; enqueue 3 ;;;
  r <- dequeue ;; dequeue ;;; z <- queue_size ;; ret (r, z).

(** An id cancelled and enqueued again while its old heap entry is still
    there is served at its old priority (10 rather than 1, before the task of
    priority 5); its second entry then makes [dequeue] raise
    [QueueEmptyError] while the task [c] waits. *)
Theorem cancelled_entry_revived :
  let '(o, s) := revival_run (new_queue None, revival_env) in
  o = Ok (2%nat, 1) ∧ (dequeue s).1 = Raise QueueEmptyError ∧
  (lookup "c" s).1 = Ok 3%nat.
Proof. vm_compute. auto. Qed.
End examples.
