(* ===== verification/Admission.v ===== *)
(** [scheduling/admission/]: the admission controller and its two plugins. *)
From S2P Require Import Prelude PyNum Values Decode Events EventStore Tasks.
From stdpp Require Import pretty.
Open Scope Z_scope.

(** [AdmissionPlugin]: what the controller uses of a plugin.  [admits] receives
    a task object and returns one. *)
Record AdmissionPlugin : Type := { admits : nat → M Env nat }.

(** the plugin's method *)
Definition mutate (default_priority : Z) (t : Task) : Task :=
  let m := metadata_or_empty t in
  let m := if dhas m "priority" then m else dset m "priority" (VInt default_priority) in
  set_metadata (dset m "admitted_by" (VStr "MetadataMutatorPlugin")) t.
Definition MetadataMutatorPlugin (default_priority : Z) : AdmissionPlugin := {|
  admits r := update_task r (mutate default_priority) ;;; ret r
|}.

(** its method *)
Definition title_too_long (max_title_length : Z) : exn :=
  AdmissionError ("Task title exceeds maximum length of " +:+ pretty max_title_length +:+ " characters.").
Definition shell_not_allowed : exn :=
  AdmissionError "Shell tasks require explicit 'allow_shell' metadata flag for security.".

Definition validate (max_title_length : Z) (t : Task) : outcome unit :=
  if max_title_length <? Z.of_nat (String.length (task_title t)) then
    Raise (title_too_long max_title_length)
  else if (type_value (task_type t) =s? "shell") &&
          negb (has_metadata t &&
                truthy (default (VBool false) (dget (metadata_or_empty t) "allow_shell"))) then
    Raise shell_not_allowed
  else Ok tt.
Definition TaskValidatorPlugin (max_title_length : Z) : AdmissionPlugin := {|
  admits r := t <- deref r ;; of_outcome (validate max_title_length t) ;;; ret r
|}.

(** [AdmissionController.submit]: each plugin sees the task the previous one
    returned; an [Exception] that is no [AdmissionError] becomes one. *)
Definition reraise (x : exn) : exn :=
  if isinstance x "AdmissionError" then x
  else if isinstance x "Exception" then AdmissionError ("Internal admission error: " +:+ exn_str x)
  else x.

Fixpoint submit (plugins : list AdmissionPlugin) (mutated_task : nat) : M Env nat :=
  match plugins with
  | [] => ret mutated_task
  | p :: plugins' =>
      r <- catch (admits p mutated_task) (λ x, raise (reraise x)) ;;
      submit plugins' r
  end.

(** [register_plugin] *)
Definition register_plugin (p : AdmissionPlugin) (plugins : list AdmissionPlugin) :
    list AdmissionPlugin := plugins ++ [p].

(** * Correctness *)

Lemma submit_app ps1 ps2 r e :
  submit (ps1 ++ ps2) r e =
    match submit ps1 r e with
    | (Ok r', e') => submit ps2 r' e'
    | (Raise x, e') => (Raise x, e')
    end.
Proof.
  revert r e. induction ps1 as [|p ps1 IH]; intros r e; simpl; [done|].
  unfold bind, catch, raise. destruct (admits p r e) as [[r'|x] e']; [apply IH|done].
Qed.

(** Whatever the plugins do, the controller fails with an [AdmissionError]
    only (exceptions outside [Exception], such as an interrupt, escape), and a
    registered plugin runs last, on the task the chain returned. *)
Theorem submit_errors plugins p r e :
  (∀ x e', submit plugins r e = (Raise x, e') →
     isinstance x "AdmissionError" = true ∨ isinstance x "Exception" = false) ∧
  submit (register_plugin p plugins) r e =
    match submit plugins r e with
    | (Ok r', e') => submit [p] r' e'
    | (Raise x, e') => (Raise x, e')
    end.
Proof.
  split; [|apply submit_app]. revert r e.
  induction plugins as [|q ps IH]; intros r e x e'; simpl; [done|].
  unfold bind, catch, raise. destruct (admits q r e) as [[r'|y] e1]; [apply IH|].
  intros [= <- _]. unfold reraise. destruct (isinstance y "AdmissionError") eqn:E1; [auto|].
  destruct (isinstance y "Exception") eqn:E2; auto.
Qed.

(** The task the runtime's standard chain (mutator, then validator) admits. *)
Definition admissible_task (max_title_length : Z) (t : Task) : Prop :=
  Z.of_nat (String.length (task_title t)) ≤ max_title_length ∧
  (task_type t = SHELL →
    ∃ v, dget (metadata_or_empty t) "allow_shell" = Some v ∧ truthy v = true).
#[export] Instance admissible_task_dec n t : Decision (admissible_task n t).
Proof.
  unfold admissible_task. apply and_dec; [apply _|].
  destruct (decide (task_type t = SHELL)) as [Hs|Hs].
  - destruct (dget (metadata_or_empty t) "allow_shell") as [v|];
      [destruct (truthy v) eqn:E; [left; eauto|]|];
      right; intros Hc; destruct (Hc Hs) as (w & ? & ?); congruence.
  - left. done.
Defined.

Lemma mutate_get dp t k : k ≠ "admitted_by" → k ≠ "priority" →
  dget (metadata_or_empty (mutate dp t)) k = dget (metadata_or_empty t) k.
Proof.
  intros H1 H2. unfold mutate, metadata_or_empty at 1. simpl.
  rewrite dget_dset_ne by done. case_match; by rewrite ?dget_dset_ne.
Qed.

Lemma mutate_has_metadata dp t : has_metadata (mutate dp t) = true.
Proof.
  unfold has_metadata, mutate, metadata_or_empty at 1. simpl. apply negb_true_iff, bool_decide_eq_false.
  intros E. apply (f_equal (λ d, dget d "admitted_by")) in E. by rewrite dget_dset_eq in E.
Qed.

Lemma validate_spec n t : has_metadata t = true →
  validate n t = if decide (admissible_task n t) then Ok tt
                 else Raise (if n <? Z.of_nat (String.length (task_title t))
                             then title_too_long n else shell_not_allowed).
Proof.
  intros Hm. unfold validate. rewrite Hm; simpl.
  destruct (Z.ltb_spec n (Z.of_nat (String.length (task_title t)))) as [Hl|Hl].
  { rewrite decide_False; [done|]. unfold admissible_task. lia. }
  destruct (type_value (task_type t) =s? "shell") eqn:Hs; simpl.
  - assert (task_type t = SHELL) as Hty by (by destruct (task_type t)).
    destruct (dget (metadata_or_empty t) "allow_shell") as [v|] eqn:Hv; simpl.
    + destruct (truthy v) eqn:Hb; simpl; [rewrite decide_True|rewrite decide_False]; try done.
      * split; eauto.
      * intros [_ Hc]. destruct (Hc Hty) as (v' & ? & ?). congruence.
    + rewrite decide_False; [done|]. intros [_ Hc]. destruct (Hc Hty) as (v' & ? & ?). congruence.
  - rewrite decide_True; [done|]. split; [done|]. intros Hty. by rewrite Hty in Hs.
Qed.

Lemma standard_chain_run n dp r t e :
  env_tasks e !! r = Some t →
  submit [MetadataMutatorPlugin dp; TaskValidatorPlugin n] r e =
    (if decide (admissible_task n t) then Ok r
     else Raise (if n <? Z.of_nat (String.length (task_title t))
                 then title_too_long n else shell_not_allowed),
     with_tasks (<[r := mutate dp t]> (env_tasks e)) e).
Proof.
  intros Ht.
  assert (Halter : alter (mutate dp) r (env_tasks e) = <[r := mutate dp t]> (env_tasks e)).
  { apply map_eq. intros j. rewrite lookup_alter, lookup_insert. case_decide; subst; by rewrite ?Ht. }
  simpl. unfold update_task, bind, catch, modify, ret. rewrite Halter.
  rewrite (deref_Some _ r (mutate dp t)) by (simpl; by rewrite lookup_insert_eq).
  unfold of_outcome. rewrite validate_spec by apply mutate_has_metadata.
  assert (Hiff : admissible_task n (mutate dp t) ↔ admissible_task n t).
  { unfold admissible_task. by rewrite mutate_get. }
  change (task_title (mutate dp t)) with (task_title t).
  destruct (decide (admissible_task n t)); [rewrite decide_True by tauto; done|].
  rewrite decide_False by tauto. unfold raise, reraise. by destruct (n <? _).
Qed.

(** The standard chain admits exactly the tasks whose title fits and which,
    if they run shell commands, carry a true [allow_shell]; an admitted task
    keeps its priority or gets the default one, is marked, and is otherwise
    unchanged; the mutation stays on a rejected task. *)
Theorem standard_chain_spec n dp r t e :
  env_tasks e !! r = Some t →
  submit [MetadataMutatorPlugin dp; TaskValidatorPlugin n] r e =
    (if decide (admissible_task n t) then Ok r
     else Raise (if n <? Z.of_nat (String.length (task_title t))
                 then title_too_long n else shell_not_allowed),
     with_tasks (<[r := mutate dp t]> (env_tasks e)) e) ∧
  let m' := metadata_or_empty (mutate dp t) in
  dget m' "priority" = Some (default (VInt dp) (dget (metadata_or_empty t) "priority")) ∧
  dget m' "admitted_by" = Some (VStr "MetadataMutatorPlugin") ∧
  (∀ k, k ≠ "priority" → k ≠ "admitted_by" → dget m' k = dget (metadata_or_empty t) k) ∧
  task_id (mutate dp t) = task_id t ∧ task_status (mutate dp t) = task_status t.
Proof.
  intros Ht. split; [by apply standard_chain_run|].
  split_and!; [|by apply dget_dset_eq|intros; by apply mutate_get|done..].
  unfold mutate, metadata_or_empty at 1; simpl. rewrite dget_dset_ne by done.
  destruct (dhas (metadata_or_empty t) "priority") eqn:Hp.
  - apply dhas_true, dget_is_Some in Hp as [v ->]. done.
  - apply dhas_false, dget_None in Hp. by rewrite Hp, dget_dset_eq.
Qed.

Lemma standard_chain_spec_witness :
  let t := {| task_id := "s"; task_type := SHELL; task_metadata := Some []; task_title := "ls";
              task_status := PENDING; created_at := "" |} in
  let e := {| env_tasks := {[ 0%nat := t ]}; env_tick := 0; env_store := None |} in
  (submit [MetadataMutatorPlugin 0; TaskValidatorPlugin 255] 0 e).1 = Raise shell_not_allowed.
Proof.
  intros t e. destruct (standard_chain_spec 255 0 0 t e) as [-> _]; reflexivity.
Defined.
