(* ===== verification/Retry.v ===== *)
(** [scheduling/retry/]: the retry policy and engine. *)
From S2P Require Import Prelude PyNum Values Decode Events EventStore Tasks.
Open Scope Z_scope.

Section retry.
Context `{!Oracle}.

(** [RetryPolicy.calculate_delay] *)
Definition calculate_delay (p : RetryPolicy) (retry_count : Z) : outcome num :=
  if retry_count <=? 0 then Ok (PFloat f_zero)
  else let? b := num_pow (backoff_factor p) (retry_count - 1) in
       num_mul (initial_delay_seconds p) b.

(** [task.metadata.get("retry_count", 0)], an int: the runtime writes no other
    value, and another type is reported as the [TypeError] of the comparison. *)
Definition retry_count (t : Task) : outcome Z :=
  match as_num (default (VInt 0) (dget (metadata_or_empty t) "retry_count")) with
  | Some (PInt z) => Ok z
  | _ => Raise (TypeError "'>=' not supported")
  end.

(** [RetryEngine.should_retry] *)
Definition should_retry (t : Task) (error : exn) : outcome bool :=
  if has_metadata t then
    match dget (metadata_or_empty t) "retry_policy" with
    | Some (VRetryPolicy p) =>
        let? n := retry_count t in
        if max_retries p <=? n then Ok false
        else
          match retryable_exceptions p with
          | Some (c :: cs) => Ok (existsb (isinstance error) (c :: cs))
          | _ => Ok true
          end
    | _ => Ok false
    end
  else Ok false.

(** [RetryEngine.prepare_retry] *)
Definition prepare_retry : M Task num :=
  t <- get ;;
  match dget (metadata_or_empty t) "retry_policy" with
  | None => raise (KeyError "retry_policy")
  | Some v =>
      n <- of_outcome (retry_count t) ;;
      modify (metadata_set "retry_count" (VInt (n + 1))) ;;;
      modify (set_status PENDING) ;;;
      match v with
      | VRetryPolicy p => of_outcome (calculate_delay p (n + 1))
      | _ => raise (AttributeError "calculate_delay")
      end
  end.

(** The retry decision of [_handle_task_failure]: the delay of the next
    attempt, or none. *)
Definition on_failure (error : exn) : M Task (option num) :=
  t <- get ;;
  b <- of_outcome (should_retry t error) ;;
  if (b : bool) then d <- prepare_retry ;; ret (Some d) else ret None.

(** The decisions on a sequence of failures of the same task. *)
Fixpoint failures (errors : list exn) : M Task (list (option num)) :=
  match errors with
  | [] => ret []
  | x :: errors' => o <- on_failure x ;; os <- failures errors' ;; ret (o :: os)
  end.

(** ** Correctness *)
Definition retryable (p : RetryPolicy) (error : exn) : Prop :=
  match retryable_exceptions p with
  | None | Some [] => True
  | Some cs => Exists (λ c, isinstance error c = true) cs
  end.
#[export] Instance retryable_dec p x : Decision (retryable p x).
Proof. unfold retryable. destruct (retryable_exceptions p) as [[]|]; apply _. Defined.

(** A task carrying the policy [p] that was retried [n] times. *)
Definition retried (p : RetryPolicy) (n : Z) (t : Task) : Prop :=
  dget (metadata_or_empty t) "retry_policy" = Some (VRetryPolicy p) ∧ retry_count t = Ok n.

Lemma retryable_spec p error :
  match retryable_exceptions p with
  | Some (c :: cs) => Ok (existsb (isinstance error) (c :: cs))
  | _ => Ok true
  end = Ok (bool_decide (retryable p error)).
Proof.
  assert (∀ b : bool, (b = true ↔ retryable p error) → Ok b = Ok (bool_decide (retryable p error))) as Hb.
  { intros b Hb. f_equal. apply eq_true_iff_eq. by rewrite bool_decide_eq_true. }
  destruct (retryable_exceptions p) as [[|c cs]|] eqn:E; apply Hb; unfold retryable; rewrite E; try done.
  rewrite existsb_exists, Exists_exists. by setoid_rewrite list_elem_of_In.
Qed.

Lemma should_retry_spec p n t error : retried p n t →
  should_retry t error = Ok (bool_decide (n < max_retries p ∧ retryable p error)).
Proof.
  intros [Hp Hn]. unfold should_retry. rewrite Hp, Hn; cbn [obind].
  unfold has_metadata. rewrite bool_decide_false by (intros E; by rewrite E in Hp); cbn [negb].
  destruct (Z.leb_spec (max_retries p) n).
  { rewrite bool_decide_false by lia. done. }
  rewrite retryable_spec. f_equal. apply bool_decide_ext. naive_solver.
Qed.

Lemma prepare_retry_spec p n t : retried p n t →
  prepare_retry t = (calculate_delay p (n + 1),
    set_status PENDING (metadata_set "retry_count" (VInt (n + 1)) t)).
Proof.
  intros [Hp Hn]. unfold prepare_retry. run_step. rewrite Hp, Hn; simpl. by destruct (calculate_delay _ _).
Qed.

Lemma retried_next p n t : retried p n t →
  retried p (n + 1) (set_status PENDING (metadata_set "retry_count" (VInt (n + 1)) t)).
Proof.
  intros [Hp Hn]. unfold retried, retry_count, metadata_or_empty; simpl.
  by rewrite dget_dset_eq, dget_dset_ne.
Qed.

Lemma on_failure_spec p n t error : retried p n t →
  on_failure error t =
    if decide (n < max_retries p ∧ retryable p error)
    then (omap_ok Some (calculate_delay p (n + 1)),
          set_status PENDING (metadata_set "retry_count" (VInt (n + 1)) t))
    else (Ok None, t).
Proof.
  intros Ht. unfold on_failure. run_step. rewrite (should_retry_spec p n) by done; simpl.
  case_decide as Hd; [rewrite bool_decide_true by done|by rewrite bool_decide_false].
  rewrite (prepare_retry_spec p n) by done. by destruct (calculate_delay _ _).
Qed.

(** What the decisions should be: the [n]-th failure is retried with the
    [n+1]-th delay while retries remain; an error outside the filter is not. *)
Fixpoint expected (p : RetryPolicy) (n : Z) (errors : list exn) : outcome (list (option num)) :=
  match errors with
  | [] => Ok []
  | x :: errors' =>
      if decide (n < max_retries p ∧ retryable p x) then
        let? d := calculate_delay p (n + 1) in
        let? ds := expected p (n + 1) errors' in Ok (Some d :: ds)
      else let? ds := expected p n errors' in Ok (None :: ds)
  end.

Lemma failures_expected p n t errors : retried p n t →
  (failures errors t).1 = expected p n errors.
Proof.
  revert n t. induction errors as [|x errors IH]; intros n t Ht; simpl; [done|].
  unfold bind. rewrite (on_failure_spec p n) by done. case_decide.
  - destruct (calculate_delay p (n + 1)) as [d|y]; simpl; [|done].
    specialize (IH _ _ (retried_next p n t Ht)).
    destruct (failures errors _) as [[ds|y] t']; simpl in *; by rewrite <-IH.
  - specialize (IH _ _ Ht). destruct (failures errors t) as [[ds|y] t']; simpl in *; by rewrite <-IH.
Qed.

(** C37: However often and however a task fails, it is retried at most
    [max_retries] times in all (counting those before), whatever the backoff. *)
Theorem retries_bounded p n t errors ds t' :
  retried p n t → failures errors t = (Ok ds, t') →
  Z.of_nat (length (omap id ds)) ≤ Z.max 0 (max_retries p - n) ∧ length ds = length errors.
Proof.
  intros Ht Hrun. pose proof (failures_expected p n t errors Ht) as He. rewrite Hrun in He.
  simpl in He. symmetry in He. clear Hrun Ht. revert n ds He.
  induction errors as [|x errors IH]; intros n ds; simpl.
  { intros [= <-]. simpl. lia. }
  case_decide as Hd.
  - destruct (calculate_delay p (n + 1)) as [d|]; simpl; [|done].
    destruct (expected p (n + 1) errors) as [ds'|] eqn:E; simpl; [|done].
    intros [= <-]. destruct (IH _ _ E). csimpl. lia.
  - destruct (expected p n errors) as [ds'|] eqn:E; simpl; [|done].
    intros [= <-]. destruct (IH _ _ E). csimpl. lia.
Qed.

Definition backoff_policy (m d b : Z) (fs : option (list string)) : RetryPolicy := {|
  max_retries := m; initial_delay_seconds := PInt d; backoff_factor := PInt b;
  retryable_exceptions := fs |}.

(** With an int delay [d] and factor [b], a task whose failures are all
    retryable gets the delays [d * b^n, d * b^(n+1), ...] and then no retry. *)
Theorem backoff_delays m d b fs n t errors :
  let p := backoff_policy m d b fs in
  retried p n t → 0 ≤ n → Forall (retryable p) errors →
  (failures errors t).1 =
    Ok (map (λ i, let k := n + Z.of_nat i in
                  if k <? m then Some (PInt (d * b ^ k)) else None) (seq 0 (length errors))).
Proof.
  intros p Ht Hn Herr. rewrite (failures_expected p n) by done. clear t Ht.
  revert n Hn. induction Herr as [|x errors Hx _ IH]; intros n Hn; simpl; [done|].
  rewrite Z.add_0_r, <-seq_shift, map_map. destruct (Z.ltb_spec n m) as [Hlt|Hge].
  - rewrite decide_True by done.
    unfold calculate_delay. rewrite (proj2 (Z.leb_gt (n + 1) 0)) by lia. simpl.
    rewrite IH by lia. simpl. replace (n + 1 - 1) with n by lia. do 2 f_equal.
    apply map_ext. intros i. by replace (n + 1 + Z.of_nat i) with (n + Z.of_nat (S i)) by lia.
  - rewrite decide_False by (simpl; lia). rewrite IH by lia. simpl. do 2 f_equal.
    apply map_ext. intros i. cbv zeta. rewrite !(proj2 (Z.ltb_ge _ _)) by lia. done.
Qed.
End retry.

(** * Examples *)
Section examples.
#[local] Existing Instance sample_oracle.

Definition retry_task (p : RetryPolicy) : Task := sample_task "r" [("retry_policy", VRetryPolicy p)].

Lemma retries_bounded_witness :
  let p := backoff_policy 1 3 2 (Some ["ValueError"]) in
  Z.of_nat (length (omap id [None; Some (PInt 3); None])) ≤ Z.max 0 (1 - 0) ∧
  length [None; Some (PInt 3); None] = 3%nat.
Proof.
  intros p.
  apply (retries_bounded p 0 (retry_task p) [IndexError; ValueError "x"; ValueError "y"] _
    (failures [IndexError; ValueError "x"; ValueError "y"] (retry_task p)).2); [done|].
  vm_compute. reflexivity.
Defined.

Lemma backoff_delays_witness :
  let p := backoff_policy 3 5 2 None in
  (failures [IndexError; IndexError; IndexError; IndexError] (retry_task p)).1 =
    Ok [Some (PInt 5); Some (PInt 10); Some (PInt 20); None].
Proof.
  intros p. apply (backoff_delays 3 5 2 None 0 (retry_task p)); [done|lia|].
  repeat constructor.
Defined.
End examples.
