(* ===== verification/Delayed.v ===== *)
(** [scheduling/delayed/tracker.py]: the timer heap of delayed tasks. *)
From S2P Require Import Prelude PyNum Heapq Values Tasks.
Open Scope Z_scope.

(** A heap item [(target_epoch_time, entry_id, task)]; the entry ids differ, so
    a comparison never reaches the task objects. *)
Abbreviation delayed_entry := (num * Z * nat)%type.
Definition delayed_lt (x y : delayed_entry) : bool := entry_lt (x.1, "") (y.1, "").
(** The times are doubles, and not NaN. *)
Definition time_ok (n : num) : Prop := ∃ f, n = PFloat f ∧ is_nan f = false.
Definition delayed_ok (x : delayed_entry) : Prop := time_ok x.1.1.

Record Tracker : Type := {
  dt_heap : list delayed_entry;
  dt_counter : Z;
  dt_started : bool;
  dt_stop : bool
}.
Definition new_tracker : Tracker :=
  {| dt_heap := []; dt_counter := 0; dt_started := false; dt_stop := false |}.

Definition with_heap (h : list delayed_entry) (c : Z) (d : Tracker) : Tracker :=
  {| dt_heap := h; dt_counter := c; dt_started := dt_started d; dt_stop := dt_stop d |}.

(** [while self._heap and self._heap[0][0] <= now]: at most one iteration per
    item ([pop_due_enough]). *)
Fixpoint pop_due (fuel : nat) (now : num) (h : list delayed_entry) :
    list delayed_entry * list delayed_entry :=
  match fuel, h with
  | S fuel', x :: _ =>
      if num_le x.1.1 now then
        match heappop delayed_lt h with
        | Some (y, h') => let '(due, rest) := pop_due fuel' now h' in (y :: due, rest)
        | None => ([], h)
        end
      else ([], h)
  | _, _ => ([], h)
  end.

(** [max(0.01, min(next_run - time.time(), 0.5))], 0.1 on an empty heap *)
Definition sleep_time (h : list delayed_entry) (now : spec_float) : outcome num :=
  match h with
  | [] => Ok (PFloat (f_ratio 1 10))
  | x :: _ =>
      let? d := num_op Z.sub fsub x.1.1 (PFloat now) in
      Ok (num_max (PFloat (f_ratio 1 100)) (num_min d (PFloat (f_ratio 1 2))))
  end.

(** The tracker next to the world [W] its callback acts on. *)
Section tracker.
Context {W : Type}.
Variable clock : M W spec_float.
Variable on_task_ready : nat → M W unit.

(** [start], [stop]: the flags (the thread they govern runs [run_loop]) *)
Definition start_tracker : M (Tracker * W) unit :=
  d <- self get ;;
  if dt_started d then ret tt
  else self (modify (λ d, {| dt_heap := dt_heap d; dt_counter := dt_counter d;
                             dt_started := true; dt_stop := false |})).
Definition stop_tracker : M (Tracker * W) unit :=
  d <- self get ;;
  if dt_started d then
    self (modify (λ d, {| dt_heap := dt_heap d; dt_counter := dt_counter d;
                          dt_started := false; dt_stop := true |}))
  else ret tt.

(** [add_delayed_task] *)
Definition add_delayed_task (r : nat) (delay_seconds : num) : M (Tracker * W) unit :=
  if num_le delay_seconds (PInt 0) then env (on_task_ready r)
  else
    now <- env clock ;;
    run_at <- of_outcome (num_add (PFloat now) delay_seconds) ;;
    self (modify (λ d, with_heap (heappush delayed_lt (dt_heap d) (run_at, dt_counter d, r))
                                 (dt_counter d + 1) d)).

(** [size] *)
Definition tracker_size : M (Tracker * W) Z := self (gets (λ d, Z.of_nat (length (dt_heap d)))).

(** The callback on a matured item; an [Exception] is logged. *)
Definition release (x : delayed_entry) : M (Tracker * W) unit :=
  catch (env (on_task_ready x.2))
        (λ y, if isinstance y "Exception" then ret tt else raise y).

(** [_run_loop] under the heap's lock: the items whose time has come leave the
    heap. *)
Definition collect_due : M (Tracker * W) (list delayed_entry) :=
  now <- env clock ;;
  d <- self get ;;
  let '(due, rest) := pop_due (length (dt_heap d)) (PFloat now) (dt_heap d) in
  self (modify (λ d, with_heap rest (dt_counter d) d)) ;;;
  ret due.

(** One iteration of [_run_loop]; the answer is the time it sleeps. *)
Definition poll : M (Tracker * W) num :=
  due <- collect_due ;;
  for_each due release ;;;
  d <- self get ;;
  match dt_heap d with
  | [] => of_outcome (sleep_time [] f_zero)
  | h => now' <- env clock ;; of_outcome (sleep_time h now')
  end.
End tracker.

(** * Correctness *)
Lemma time_ok_not_nan n : time_ok n → not_nan n.
Proof. intros (f & -> & Hf). unfold not_nan. destruct f; try done; by eexists. Qed.
Lemma num_add_time f n m : num_add (PFloat f) n = Ok m → not_nan m → time_ok m.
Proof.
  unfold num_add, num_op. simpl. intros Hm [u Hu]. destruct (to_float n) as [g|]; [|done].
  injection Hm as <-. eexists. split; [done|]. by destruct (fadd f g).
Qed.

Lemma delayed_lt_asym x y : delayed_ok x → delayed_ok y → delayed_lt x y = true → delayed_lt y x = false.
Proof. intros Hx Hy. by apply entry_lt_asym; apply time_ok_not_nan. Qed.
Lemma delayed_le_trans x y z : delayed_ok x → delayed_ok y → delayed_ok z →
  delayed_lt y x = false → delayed_lt z y = false → delayed_lt z x = false.
Proof. intros Hx Hy Hz. by apply entry_le_trans; apply time_ok_not_nan. Qed.

Definition tracker_wf (d : Tracker) : Prop :=
  is_heap delayed_lt (dt_heap d) ∧ Forall delayed_ok (dt_heap d).

(** Earlier or at the same time, then in order of arrival. *)
Definition delayed_le (x y : delayed_entry) : Prop := delayed_lt y x = false.

(** The order of the heap bounds the times of the items by the time of its head. *)
Lemma delayed_le_time x y now :
  delayed_ok x → delayed_ok y → delayed_le x y → num_le y.1.1 now = true → num_le x.1.1 now = true.
Proof.
  destruct x as [[a n] r], y as [[b m] s]. intros [u Hu]%time_ok_not_nan [v Hv]%time_ok_not_nan.
  cbn [fst snd] in *. unfold delayed_le, delayed_lt; cbn [fst]. rewrite (entry_lt_val _ _ _ _ _ _ v u) by done.
  unfold num_le, num_cmp. rewrite Hu, Hv. destruct (num_val now) as [w|]; [|done].
  intros Hle Hw. pose proof (xcmp_le_trans u v w) as Htr.
  rewrite (xcmp_antisym u w), (xcmp_antisym v w), (xcmp_antisym u v) in Htr.
  rewrite (xcmp_antisym u v) in Hle. destruct (xcmp u w); [done|done|].
  exfalso. apply Htr; [by destruct (xcmp u v)|by destruct (xcmp v w)|done].
Qed.

Lemma pop_due_spec fuel now h :
  is_heap delayed_lt h → Forall delayed_ok h → (length h ≤ fuel)%nat →
  let '(due, rest) := pop_due fuel now h in
  h ≡ₚ due ++ rest ∧ is_heap delayed_lt rest ∧
  Forall (λ x, num_le x.1.1 now = true) due ∧ Forall (λ x, num_le x.1.1 now = false) rest ∧
  StronglySorted delayed_le due.
Proof.
  revert h. induction fuel as [|fuel IH]; intros [|x h] Hh Hok Hf; simpl in Hf; try lia;
    cbn [pop_due]; try (split_and!; try done; constructor).
  destruct (num_le x.1.1 now) eqn:Hx.
  2:{ split_and!; [done..|constructor| |constructor]. rewrite Forall_forall in *.
      pose proof (heap_head_min delayed_lt delayed_ok delayed_lt_asym delayed_le_trans
        _ x Hh ltac:(by apply Forall_forall) eq_refl) as Hmin.
      intros y Hy. destruct (num_le y.1.1 now) eqn:E; [|done].
      rewrite <-Hx. symmetry. apply (delayed_le_time x y); auto; [apply Hok; by left|by apply Hmin]. }
  destruct (heappop delayed_lt (x :: h)) as [[y h']|] eqn:Hpop;
    [|by apply heappop_None in Hpop].
  destruct (heappop_spec delayed_lt delayed_ok delayed_lt_asym delayed_le_trans _ _ _ Hh Hok Hpop)
    as (Hp & Hh' & Htop). injection Htop as <-.
  pose proof (heap_head_min delayed_lt delayed_ok delayed_lt_asym delayed_le_trans
    _ x Hh Hok eq_refl) as Hmin.
  assert (Hok' : Forall delayed_ok h') by (rewrite Hp in Hok; by apply Forall_cons in Hok as [_ ?]).
  specialize (IH h' Hh' Hok'). apply Permutation_length in Hp as Hlen. simpl in Hlen.
  destruct (pop_due fuel now h') as [due rest].
  destruct IH as (Hp' & Hr & Hd & Hl & Hs); [lia|].
  split_and!; [by rewrite Hp, Hp'|done|by constructor|done|].
  constructor; [done|]. apply Forall_forall. intros z Hz. apply Hmin.
  rewrite Hp, Hp'. apply elem_of_cons. right. apply elem_of_app. by left.
Qed.

Lemma pop_due_perm fuel now h :
  h ≡ₚ (pop_due fuel now h).1 ++ (pop_due fuel now h).2.
Proof.
  revert h. induction fuel as [|fuel IH]; intros [|x h]; cbn [pop_due]; try done.
  destruct (num_le x.1.1 now); [|done].
  destruct (heappop delayed_lt (x :: h)) as [[y h']|] eqn:Hpop; [|done].
  specialize (IH h'). destruct (pop_due fuel now h') as [due rest]; simpl in *.
  by rewrite (heappop_perm _ _ _ _ Hpop), IH.
Qed.

(** A round of the tracker releases exactly the tasks whose time has come, in
    the order of their times and, among equal times, of their arrival; the
    others stay, and the heap stays a heap. *)
Theorem pop_due_exact now (d : Tracker) :
  tracker_wf d →
  let '(due, rest) := pop_due (length (dt_heap d)) now (dt_heap d) in
  dt_heap d ≡ₚ due ++ rest ∧ tracker_wf (with_heap rest (dt_counter d) d) ∧
  (∀ x, x ∈ due ↔ x ∈ dt_heap d ∧ num_le x.1.1 now = true) ∧
  StronglySorted delayed_le due.
Proof.
  intros [Hh Hok]. pose proof (pop_due_spec (length (dt_heap d)) now (dt_heap d) Hh Hok (le_n _)) as Hs.
  destruct (pop_due _ _ _) as [due rest]. destruct Hs as (Hp & Hr & Hd & Hl & Hs).
  rewrite Hp in Hok. apply Forall_app in Hok as [_ Hok].
  split; [done|]. split; [by split|]. split; [|done]. intros x. rewrite Hp, elem_of_app.
  rewrite Forall_forall in Hd, Hl. split.
  - intros Hx. auto.
  - intros [[Hx|Hx] Hle]; [done|]. by rewrite (Hl x Hx) in Hle.
Qed.

Lemma add_delayed_heap d x : tracker_wf d → delayed_ok x →
  tracker_wf (with_heap (heappush delayed_lt (dt_heap d) x) (dt_counter d + 1) d) ∧
  heappush delayed_lt (dt_heap d) x ≡ₚ x :: dt_heap d.
Proof.
  intros [Hh Hok] Hx. pose proof (heappush_perm delayed_lt (dt_heap d) x) as Hp.
  split; [|done]. split; simpl.
  - apply (heappush_heap delayed_lt delayed_ok delayed_lt_asym delayed_le_trans); [done|by constructor].
  - rewrite Hp. by constructor.
Qed.

(** Adding a delayed task: a positive delay stores the task, due at the time
    read plus the delay; otherwise the callback runs at once and the tracker is
    untouched. *)
Theorem add_delayed_spec {W} (clock : M W spec_float) cb r delay d w now w' run_at :
  tracker_wf d → clock w = (Ok now, w') →
  num_add (PFloat now) delay = Ok run_at → not_nan run_at →
  if num_le delay (PInt 0)
  then add_delayed_task clock cb r delay (d, w) = ((cb r w).1, (d, (cb r w).2))
  else ∃ h, add_delayed_task clock cb r delay (d, w) =
              (Ok tt, (with_heap h (dt_counter d + 1) d, w')) ∧
            h ≡ₚ (run_at, dt_counter d, r) :: dt_heap d ∧
            tracker_wf (with_heap h (dt_counter d + 1) d).
Proof.
  intros Hwf Hclock Hadd Hnan. unfold add_delayed_task. destruct (num_le delay (PInt 0)).
  - run_step. by destruct (cb r w).
  - run_step. rewrite Hclock; simpl. rewrite Hadd; simpl.
    apply (num_add_time now delay) in Hnan; [|done].
    destruct (add_delayed_heap d (run_at, dt_counter d, r) Hwf Hnan) as [Hwf' Hp].
    eexists. split; [done|]. by split.
Qed.

(** The tracker never sleeps less than 10 ms or more than half a second,
    whatever the clock reads. *)
Theorem sleep_time_bounds h now s :
  sleep_time h now = Ok s →
  num_le (PFloat (f_ratio 1 100)) s = true ∧ num_le s (PFloat (f_ratio 1 2)) = true.
Proof.
  unfold sleep_time. destruct h as [|x h].
  { intros [= <-]. split; by vm_compute. }
  destruct (num_op _ _ _ _) as [d|]; simpl; [|done]. intros [= <-].
  unfold num_max, num_min.
  destruct (num_lt (PFloat (f_ratio 1 2)) d) eqn:E1; [split; by vm_compute|].
  destruct (num_lt (PFloat (f_ratio 1 100)) d) eqn:E2; [|split; by vm_compute].
  unfold num_lt, num_le, num_cmp in *. destruct (num_val d) as [u|]; [|by destruct (num_val (PFloat (f_ratio 1 100)))].
  assert (not_nan (PFloat (f_ratio 1 100))) as [v Hv] by (vm_compute; eauto).
  assert (not_nan (PFloat (f_ratio 1 2))) as [w Hw] by (vm_compute; eauto).
  rewrite Hv, Hw in *.
  rewrite (xcmp_antisym w u). split; [by destruct (xcmp v u)|by destruct (xcmp w u)].
Qed.

(** * Examples *)
Lemma new_tracker_wf : tracker_wf new_tracker.
Proof. split; [|constructor]. intros i ? p. simpl. by rewrite lookup_nil. Qed.

Definition sample_time (t : Z) : num := PFloat (round_to_float t 0).
Definition sample_add (t : Z) (r : nat) (d : Tracker) : Tracker :=
  with_heap (heappush delayed_lt (dt_heap d) (sample_time t, dt_counter d, r)) (dt_counter d + 1) d.
Definition sample_tracker : Tracker :=
  sample_add 5 4 (sample_add 3 3 (sample_add 9 2 (sample_add 5 1 new_tracker))).

Lemma sample_tracker_wf : tracker_wf sample_tracker.
Proof.
  unfold sample_tracker. repeat (apply add_delayed_heap; [|by eexists]). apply new_tracker_wf.
Qed.

Lemma pop_due_exact_witness :
  let '(due, rest) := pop_due 4 (PInt 5) (dt_heap sample_tracker) in
  due.*2 = [3; 1; 4]%nat ∧ rest.*2 = [2]%nat ∧ tracker_wf (with_heap rest 4 sample_tracker).
Proof.
  pose proof (pop_due_exact (PInt 5) sample_tracker sample_tracker_wf) as H.
  vm_compute in H |- *. split; [reflexivity|split; [reflexivity|apply H]].
Defined.

Lemma add_delayed_spec_witness :
  ∃ h, add_delayed_task (W:=nat) (λ n, (Ok f_zero, n)) (λ _, ret tt) 7 (PInt 2) (new_tracker, 0%nat) =
         (Ok tt, (with_heap h 1 new_tracker, 0%nat)) ∧
       h ≡ₚ [(PFloat (round_to_float 2 0), 0, 7%nat)] ∧ tracker_wf (with_heap h 1 new_tracker).
Proof.
  apply (add_delayed_spec (W:=nat) (λ n, (Ok f_zero, n)) (λ _, ret tt) 7 (PInt 2) new_tracker 0%nat
    f_zero 0%nat (PFloat (round_to_float 2 0)) new_tracker_wf); [reflexivity|reflexivity|].
  vm_compute. eauto.
Defined.

Lemma sleep_time_bounds_witness :
  let s := PFloat (f_ratio 1 2) in
  sleep_time [(PInt 100, 0, 0%nat)] (round_to_float 7 0) = Ok s ∧
  num_le (PFloat (f_ratio 1 100)) s = true ∧ num_le s (PFloat (f_ratio 1 2)) = true.
Proof.
  intros s. assert (sleep_time [(PInt 100, 0, 0%nat)] (round_to_float 7 0) = Ok s) as H
    by (vm_compute; reflexivity).
  split; [exact H|]. apply (sleep_time_bounds _ _ _ H).
Defined.
