(* ===== verification/Scheduler.v ===== *)
(** [scheduling/scheduler/intelligent_scheduler.py]: routing of new, delayed
    and failed tasks between the admission chain, the queue, the timer heap and
    the event store.  The state is the tracker next to the queue and the shared
    environment; each method is run to its end ([System] interleaves them). *)
From S2P Require Import Prelude PyNum Heapq Values Decode Events EventStore Tasks Policy.
From S2P Require Import TaskQueue Admission Retry Delayed.
Open Scope Z_scope.

(** Run a computation on the task object behind a reference. *)
Definition on_task {A} (r : nat) (m : M Task A) : M Env A := λ e,
  match env_tasks e !! r with
  | Some t => let '(o, t') := m t in (o, with_tasks (<[r := t']> (env_tasks e)) e)
  | None => (Raise (AttributeError "dangling reference"), e)
  end.

Section scheduler.
Context `{!Oracle} {P : Type} `{!SchedulingPolicy P}.

Abbreviation Sched := (Tracker * (Queue P * Env))%type.

(** Operations on the shared environment of the scheduler. *)
Definition on_env {A} (m : M Env A) : M Sched A := env (env m).

(** [time.time()] *)
Definition wall_clock : M (Queue P * Env) spec_float :=
  n <- env tick ;; ret (time_now n).

(** [_on_delayed_task_ready] *)
Definition on_delayed_task_ready (r : nat) : M (Queue P * Env) unit :=
  catch
    (enqueue r ;;;
     t <- env (deref r) ;;
     env (emit (DelayedTaskReleased (task_id t))))
    (λ x, if isinstance x "Exception" then ret tt else raise x).

Definition delay_task (r : nat) (delay_seconds : num) : M Sched unit :=
  add_delayed_task wall_clock on_delayed_task_ready r delay_seconds.

(** [schedule] *)
Definition schedule (admission : option (list AdmissionPlugin)) (r : nat) (delay_seconds : num) :
    M Sched unit :=
  r <- match admission with
       | Some plugins => on_env (submit plugins r)
       | None => ret r
       end ;;
  if num_lt (PInt 0) delay_seconds then
    delay_task r delay_seconds ;;;
    t <- on_env (deref r) ;;
    on_env (emit (RetryScheduled (task_id t) delay_seconds))
  else env (enqueue r).

(** [_handle_task_failure] *)
Definition handle_task_failure (r : nat) (error : exn) : M Sched unit :=
  t <- on_env (deref r) ;;
  b <- of_outcome (should_retry t error) ;;
  if (b : bool) then
    delay <- on_env (on_task r prepare_retry) ;;
    delay_task r delay ;;;
    t <- on_env (deref r) ;;
    n <- of_outcome (retry_count t) ;;
    on_env (emit (TaskRetried (task_id t) n)) ;;;
    on_env (emit (RetryScheduled (task_id t) delay))
  else on_env (emit (TaskFailed (task_id t) (exn_str error))).

(** The delayed tracker's round, on the scheduler's callback. *)
Definition tracker_round : M Sched num := poll wall_clock on_delayed_task_ready.

(** The manager and the environment, inside the runtime's state. *)
Definition manager_env : lens (TaskManager * Sched) (TaskManager * Env) :=
  Lens (λ s, (s.1, s.2.2.2)) (λ x s, (x.1, (s.2.1, (s.2.2.1, x.2)))).

(** [Runtime.submit_task]; the manager is next to the scheduler. *)
Definition submit_task (admission : option (list AdmissionPlugin)) (title : string) (ty : TaskType)
    (metadata : option (odict pyval)) (delay_seconds : num) : M (TaskManager * Sched) nat :=
  r <- env (on_env (new_task title ty metadata)) ;;
  zoom manager_env (add_task r) ;;;
  t <- env (on_env (deref r)) ;;
  env (on_env (emit_meta (TaskSubmitted (task_id t) (task_title t) (type_name (task_type t)))
                         (metadata_or_empty t))) ;;;
  env (schedule admission r delay_seconds) ;;;
  ret r.
End scheduler.

#[local] Arguments submit : simpl never.

(** * Correctness *)
Section correctness.
Context `{!Oracle} {P : Type} `{HP : PolicyLaws P}.
Implicit Types (q : Queue P) (e : Env) (d : Tracker).

(** ** Release of a matured task *)

(** Whatever happens inside, the callback lets no [Exception] out. *)
Lemma on_ready_total r (s s' : Queue P * Env) x :
  on_delayed_task_ready r s = (Raise x, s') → isinstance x "Exception" = false.
Proof.
  unfold on_delayed_task_ready, catch. destruct (bind _ _ s) as [[?|y] s1]; [done|].
  destruct (isinstance y "Exception") eqn:E; [done|]. unfold raise. by intros [= <- _].
Qed.

(** The state after a release does not depend on the event store's moods. *)
Lemma on_ready_spec r q e t :
  queue_inv (q, e) → env_tasks e !! r = Some t → is_full q = false →
  pol_addable t → task_id t ∉ pol_tracked (q_policy q) →
  ∃ o q' e' l1 l2,
    on_delayed_task_ready r (q, e) = (o, (q', e')) ∧ queue_inv (q', e') ∧
    pol_live (q_policy q) = l1 ++ l2 ∧ pol_live (q_policy q') = l1 ++ task_id t :: l2 ∧
    q_storage q' = <[task_id t := r]> (q_storage q) ∧
    pol_tracked (q_policy q') = {[task_id t]} ∪ pol_tracked (q_policy q) ∧
    q_max_size q' = q_max_size q ∧ env_tasks e' = alter (stamped e) r (env_tasks e) ∧
    (env_store e = None → o = Ok tt ∧ env_store e' = None).
Proof.
  intros Hinv Ht Hfull Hadd Hfresh.
  destruct (enqueue_spec q e r t Hinv Ht Hfull Hadd Hfresh)
    as (o & q' & e' & l1 & l2 & Hrun & Hinv' & Hl & Hl' & Hst & Htr & Hcap & Hk & Ho & Hn).
  unfold on_delayed_task_ready. run_step. rewrite Hrun. destruct o as [[]|x].
  - simpl. 
    assert (∃ t', env_tasks e' !! r = Some t') as [t' Ht']
      by (rewrite Hk, lookup_alter_eq, Ht; eauto). rewrite (deref_Some e' r t' Ht'). simpl.
    destruct (emit (DelayedTaskReleased (task_id t')) e') as [o e''] eqn:Hemit.
    destruct (emit_facts _ _ _ _ _ Hemit) as (Htk & Ho' & Hn').
    exists (match o with Ok _ => Ok tt | Raise x => if isinstance x "Exception" then Ok tt else Raise x end),
      q', e'', l1, l2.
    assert (Hi : queue_inv (q', e'')) by (by apply (queue_inv_env q' e'); [|rewrite Htk]).
    split_and!; try done.
    + destruct o as [[]|x]; simpl; [done|]. by destruct (isinstance x "Exception").
    + by rewrite Htk.
    + intros He. assert (env_store e' = None) as He' by by apply Hn.
      rewrite (Ho' He'). split; [done|]. by apply Hn'.
  - exists (if isinstance x "Exception" then Ok tt else Raise x), q', e', l1, l2.
    split_and!; try done.
    + by destruct (isinstance x "Exception").
    + intros He. by specialize (Ho He).
Qed.

Lemma on_ready_full r q e t :
  env_tasks e !! r = Some t → is_full q = true →
  on_delayed_task_ready r (q, e) =
    (Ok tt, (with_published (QueueEvents.TaskRejected (task_id t) (now_iso (env_tick e))
        "Queue capacity limit reached") q, next_tick e)).
Proof.
  intros Ht Hfull. unfold on_delayed_task_ready. run_step.
  by rewrite (enqueue_full q e r t Ht Hfull).
Qed.

(** ** A round of the tracker *)

(** The task behind [r] can be released: it has a key and its id is new. *)
Definition releasable q e (r : nat) : Prop :=
  ∃ t, env_tasks e !! r = Some t ∧ pol_addable t ∧ task_id t ∉ pol_tracked (q_policy q).
Definition id_of e (r : nat) : string := default "" (task_id <$> env_tasks e !! r).

Abbreviation release := (release (W:=Queue P * Env) on_delayed_task_ready).

Lemma release_all due d q e :
  queue_inv (q, e) → q_max_size q = None → env_store e = None →
  Forall (λ x, releasable q e x.2) due → NoDup ((λ x, id_of e x.2) <$> due) →
  ∃ q' e', for_each due release (d, (q, e)) = (Ok tt, (d, (q', e'))) ∧
    queue_inv (q', e') ∧
    pol_live (q_policy q') ≡ₚ ((λ x, id_of e x.2) <$> due) ++ pol_live (q_policy q) ∧
    Forall (λ x, q_storage q' !! id_of e x.2 = Some x.2) due ∧
    (∀ i, i ∉ ((λ x, id_of e x.2) <$> due) → q_storage q' !! i = q_storage q !! i).
Proof.
  revert q e. induction due as [|x due IH]; intros q e Hinv Hcap Hst Hrel Hnd; csimpl.
  { exists q, e. by split_and!. }
  apply Forall_cons in Hrel as [(t & Ht & Hadd & Hfresh) Hrel]. csimpl in Hnd.
  apply NoDup_cons in Hnd as [Hni Hnd].
  assert (Hx : id_of e x.2 = task_id t) by (unfold id_of; by rewrite Ht).
  destruct (on_ready_spec x.2 q e t Hinv Ht) as
    (o & q' & e' & l1 & l2 & Hrun & Hinv' & Hl & Hl' & Hs & Htr & Hc & Hk & Ho); [|done..|].
  { unfold is_full. by rewrite Hcap. }
  destruct (Ho Hst) as [-> Hst'].
  assert (Hids : ∀ r, id_of e' r = id_of e r).
  { intros r. unfold id_of. rewrite Hk, lookup_alter. case_decide; subst; by destruct (env_tasks e !! _). }
  assert (Hdue : (λ x, id_of e' x.2) <$> due = (λ x, id_of e x.2) <$> due)
    by (apply list_fmap_ext; auto).
  destruct (IH q' e' Hinv') as (q'' & e'' & Hrun' & Hinv'' & Hlive & Hsto & Hkeep); [congruence|done| | |].
  - rewrite Forall_forall in Hrel |- *. intros y Hy. destruct (Hrel y Hy) as (u & Hu & Hau & Hfu).
    assert (Hne : task_id u ≠ task_id t).
    { intros E. apply Hni. rewrite Hx, <-E. apply list_elem_of_fmap. exists y.
      unfold id_of. by rewrite Hu. }
    exists u. rewrite Hk, lookup_alter_ne by (intros E; rewrite E in Ht; congruence).
    split_and!; [done|done|]. rewrite Htr. set_solver.
  - by rewrite Hdue.
  - exists q'', e''. unfold Delayed.release at 1. unfold bind, catch, zoom; simpl. rewrite Hrun; simpl.
    rewrite Hdue in Hkeep. split_and!; [done|done| | |].
    + rewrite Hlive, Hdue, Hl', Hl, Hx. solve_Permutation.
    + constructor; [by rewrite Hkeep, Hs, Hx, lookup_insert_eq by done|].
      eapply Forall_impl; [exact Hsto|]. intros y; cbv beta; by rewrite Hids.
    + intros i. rewrite not_elem_of_cons, Hx. intros [??].
      by rewrite Hkeep, Hs, lookup_insert_ne by done.
Qed.

Lemma sleep_time_total h now : Forall delayed_ok h → ∃ s, sleep_time h now = Ok s.
Proof.
  destruct h as [|x h]; simpl; [eauto|]. intros [(f & -> & _) _]%Forall_cons. simpl. eauto.
Qed.

(** ** Failure handling *)

(** The task object a retry leaves: one more retry counted, pending again. *)
Definition prepared (n : Z) (t : Task) : Task :=
  set_status PENDING (metadata_set "retry_count" (VInt (n + 1)) t).

Lemma on_task_run {A} r (m : M Task A) e t o t' :
  env_tasks e !! r = Some t → m t = (o, t') →
  on_task r m e = (o, with_tasks (<[r := t']> (env_tasks e)) e).
Proof. intros Ht Hm. unfold on_task. by rewrite Ht, Hm. Qed.

Lemma emit2_run ev1 ev2 e o1 o2 e1 e2 :
  emit ev1 e = (o1, e1) → emit ev2 e1 = (o2, e2) →
  env_tasks e1 = env_tasks e ∧ env_tasks e2 = env_tasks e ∧
  (env_store e = None → o1 = Ok tt ∧ o2 = Ok tt).
Proof.
  intros H1 H2. destruct (emit_facts _ _ _ _ _ H1) as (Ht1 & Ho1 & Hs1).
  destruct (emit_facts _ _ _ _ _ H2) as (Ht2 & Ho2 & Hs2).
  split_and!; [done|congruence|]. intros He. split; [auto|]. apply Ho2. by apply Hs1.
Qed.
End correctness.

Section theorems.
Context `{!Oracle} {P : Type} `{HP : PolicyLaws P}.
Implicit Types (q : Queue P) (e : Env) (d : Tracker).

(** A round of the timer moves exactly the tasks whose time has come from
    the heap into the (unbounded) queue, each under its own id, and leaves the
    others in the heap; what already waited still waits. *)
Theorem round_releases d q e :
  let now := PFloat (time_now (env_tick e)) in
  let due := (pop_due (length (dt_heap d)) now (dt_heap d)).1 in
  tracker_wf d → queue_inv (q, e) → q_max_size q = None → env_store e = None →
  Forall (λ x, releasable q e x.2) due → NoDup ((λ x, id_of e x.2) <$> due) →
  ∃ s d' q' e',
    tracker_round (d, (q, e)) = (Ok s, (d', (q', e'))) ∧ tracker_wf d' ∧ queue_inv (q', e') ∧
    dt_heap d ≡ₚ due ++ dt_heap d' ∧ Forall (λ x, num_le x.1.1 now = false) (dt_heap d') ∧
    pol_live (q_policy q') ≡ₚ ((λ x, id_of e x.2) <$> due) ++ pol_live (q_policy q) ∧
    Forall (λ x, q_storage q' !! id_of e x.2 = Some x.2) due.
Proof.
  intros now due [Hh Hok] Hinv Hcap Hst Hrel Hnd.
  pose proof (pop_due_spec (length (dt_heap d)) now (dt_heap d) Hh Hok (le_n _)) as Hpop.
  destruct (pop_due _ _ _) as [due' rest] eqn:Edue. simpl in due. subst due.
  destruct Hpop as (Hp & Hr & _ & Hlate & _).
  assert (Hokr : Forall delayed_ok rest) by (rewrite Hp in Hok; by apply Forall_app in Hok as [_ ?]).
  set (d1 := with_heap rest (dt_counter d) d).
  destruct (release_all due' d1 q (next_tick e)) as (q' & e' & Hrun & Hinv' & Hlive & Hsto & _);
    [by apply (queue_inv_env q e)|done..|].
  assert (∃ s e'', tracker_round (d, (q, e)) = (Ok s, (d1, (q', e''))) ∧
    env_tasks e'' = env_tasks e') as (s & e'' & Hround & Htk).
  { unfold tracker_round, poll, collect_due. run_step. fold now. rewrite Edue. simpl. fold d1.
    rewrite Hrun. simpl. destruct rest as [|x rest]; simpl; [by eexists _, e'|].
    destruct (sleep_time_total (x :: rest) (time_now (env_tick e')) Hokr) as [s Hs].
    simpl in Hs. rewrite Hs. by eexists s, (next_tick e'). }
  exists s, d1, q', e''. split; [done|]. split; [by split|].
  split; [by apply (queue_inv_env q' e'); [|rewrite Htk]|]. by split_and!.
Qed.

(** A matured task that meets a full queue is dropped: the callback
    succeeds, the tracker no longer has the task and the queue never got it. *)
Theorem matured_task_lost d q e r t n run_at :
  env_tasks e !! r = Some t → is_full q = true →
  dt_heap d = [(run_at, n, r)] → num_le run_at (PFloat (time_now (env_tick e))) = true →
  ∃ s q' e', tracker_round (d, (q, e)) = (Ok s, (with_heap [] (dt_counter d) d, (q', e'))) ∧
    q_storage q' = q_storage q ∧ q_policy q' = q_policy q ∧ env_tasks e' = env_tasks e.
Proof.
  intros Ht Hfull Hd Hdue. unfold tracker_round, poll, collect_due. run_step. rewrite Hd. simpl.
  rewrite Hdue. simpl. unfold Delayed.release. run_step.
  rewrite (on_ready_full r q (next_tick e) t Ht Hfull). simpl. by eexists _, _, _.
Qed.

(** A failed task that may be retried waits in the timer heap until the
    current time plus its backoff delay, pending and with one more retry
    counted; a task that may not is left as it is and nothing is scheduled. *)
Theorem failure_routing p n t r error d q e delay run_at :
  tracker_wf d → env_tasks e !! r = Some t → retried p n t →
  calculate_delay p (n + 1) = Ok delay → num_le delay (PInt 0) = false →
  num_add (PFloat (time_now (env_tick e))) delay = Ok run_at → not_nan run_at →
  ∃ o d' e', handle_task_failure r error (d, (q, e)) = (o, (d', (q, e'))) ∧
    (env_store e = None → o = Ok tt) ∧
    if decide (n < max_retries p ∧ retryable p error)
    then dt_heap d' ≡ₚ (run_at, dt_counter d, r) :: dt_heap d ∧ tracker_wf d' ∧
         env_tasks e' = <[r := prepared n t]> (env_tasks e)
    else d' = d ∧ env_tasks e' = env_tasks e.
Proof.
  intros Hwf Ht Hr Hdelay Hpos Hadd Hnan. unfold handle_task_failure, on_env. run_step.
  rewrite (deref_Some e r t Ht); simpl. rewrite (should_retry_spec p n) by done.
  case_decide as Hc; [rewrite bool_decide_true by done|rewrite bool_decide_false by done]; simpl.
  2:{ destruct (emit (TaskFailed (task_id t) (exn_str error)) e) as [o e'] eqn:He.
      destruct (emit_facts _ _ _ _ _ He) as (Htk & Ho & _). exists o, d, e'. by split_and!. }
  rewrite (on_task_run _ _ _ _ _ _ Ht (prepare_retry_spec p n t Hr)). rewrite Hdelay. simpl.
  unfold delay_task, add_delayed_task. rewrite Hpos. run_step. rewrite Hadd; simpl.
  pose proof (num_add_time _ _ _ Hadd Hnan) as Htime.
  destruct (add_delayed_heap d (run_at, dt_counter d, r) Hwf Htime) as [Hwf' Hp].
  unfold deref; simpl. rewrite lookup_insert_eq; simpl.
  destruct (retried_next p n t Hr) as [_ Hn]. rewrite Hn; simpl.
  set (e0 := next_tick _).
  destruct (emit (TaskRetried (task_id t) (n + 1)) e0) as [o1 e1] eqn:He1.
  destruct (emit (RetryScheduled (task_id t) delay) e1) as [o2 e2] eqn:He2.
  destruct (emit2_run _ _ _ _ _ _ _ He1 He2) as (Ht1 & Ht2 & Ho).
  destruct o1 as [[]|x]; simpl; rewrite ?He2; eexists _, _, _; (split; [done|]).
  - split; [intros Hs; by destruct (Ho Hs)|]. simpl. by split_and!.
  - split; [intros Hs; by destruct (Ho Hs)|]. simpl. by split_and!.
Qed.

(** A task the admission chain rejects enters neither the queue nor the
    timer heap. *)
Theorem rejected_not_scheduled plugins r delay x d q e e' :
  submit plugins r e = (Raise x, e') →
  schedule (Some plugins) r delay (d, (q, e)) = (Raise x, (d, (q, e'))).
Proof. intros Hs. unfold schedule, on_env. run_step. by rewrite Hs. Qed.

(** The object a submission creates, and the one admission leaves. *)
Definition fresh_task (n : nat) (title : string) (ty : TaskType) (metadata : option (odict pyval)) : Task :=
  {| task_id := uuid4 n; task_type := ty; task_metadata := Some (default [] metadata);
     task_title := title; task_status := PENDING; created_at := now_iso n |}.

(** References are drawn in order, so those in use are below the next one. *)
Definition env_wf e : Prop := ∀ r, is_Some (env_tasks e !! r) → (r < env_tick e)%nat.

Lemma new_task_run title ty md e :
  new_task title ty md e =
    if str_truthy (strip title)
    then (Ok (env_tick e), with_tasks (<[env_tick e := fresh_task (env_tick e) title ty md]> (env_tasks e)) (next_tick e))
    else (Raise InvalidTaskTitleError, next_tick e).
Proof. unfold new_task. run_step. by destruct (str_truthy _). Qed.

(** The environment a submission leaves to the queue: the new task object is
    [mutate dp] of the fresh one. *)
Definition admitted_env (dp : Z) (t : Task) e : Env :=
  with_tasks (<[env_tick e := mutate dp t]> (<[env_tick e := t]> (env_tasks e))) (next_tick e).

(** A submission with a title, up to the queue. *)
Lemma submit_to_queue n dp title ty md delay (mgr : TaskManager) d q e :
  let r := env_tick e in
  let t := fresh_task r title ty md in
  str_truthy (strip title) = true → env_store e = None →
  uuid4 r ∉ dkeys mgr → num_lt (PInt 0) delay = false →
  submit_task (Some [MetadataMutatorPlugin dp; TaskValidatorPlugin n]) title ty md delay (mgr, (d, (q, e))) =
    let '(o, s) :=
      if decide (admissible_task n t) then enqueue r (q, admitted_env dp t e)
      else (Raise (if n <? Z.of_nat (String.length title) then title_too_long n else shell_not_allowed),
            (q, admitted_env dp t e)) in
    (match o with Ok _ => Ok r | Raise x => Raise x end, (mgr ++ [(uuid4 r, r)], (d, s))).
Proof.
  intros r t Htitle Hst Hmgr Hdelay.
  unfold submit_task, on_env. run_step. rewrite new_task_run, Htitle. fold r t. simpl.
  set (e1 := with_tasks (<[r := t]> (env_tasks e)) (next_tick e)).
  assert (Ht1 : env_tasks e1 !! r = Some t) by (simpl; by rewrite lookup_insert_eq).
  unfold add_task. run_step. fold r t e1. rewrite (deref_Some e1 r t Ht1); simpl.
  change (task_id t) with (uuid4 r). rewrite (proj2 (dhas_false _ _) Hmgr); simpl.
  fold r t e1. rewrite (deref_Some e1 r t Ht1); simpl.
  rewrite (dset_fresh mgr _ r Hmgr). rewrite emit_meta_nostore by done. simpl.
  unfold schedule, on_env. run_step. fold r t e1.
  pose proof (standard_chain_run n dp r t e1 Ht1) as Hrun. simpl in Hrun |- *. rewrite Hrun.
  case_decide; simpl; [|done]. rewrite Hdelay. simpl.
  change (with_tasks _ e1) with (admitted_env dp t e).
  by destruct (enqueue r (q, admitted_env dp t e)) as [[[]|x] s].
Qed.

(** The queue's invariant does not mention the new object. *)
Lemma admitted_env_inv dp t q e : queue_inv (q, e) → env_wf e → queue_inv (q, admitted_env dp t e).
Proof.
  intros Hinv Hwf. apply (queue_inv_env q e); [done|]. intros r' t' Hr'. simpl.
  assert (env_tick e ≠ r') by (intros <-; specialize (Hwf _ ltac:(by eexists)); lia).
  rewrite !lookup_insert_ne by done. eauto.
Qed.

(** An admitted submission to a queue with room. *)
Lemma submit_admitted n dp title ty md delay (mgr : TaskManager) d q e :
  let r := env_tick e in
  let t := fresh_task r title ty md in
  str_truthy (strip title) = true → admissible_task n t → num_lt (PInt 0) delay = false →
  queue_inv (q, e) → env_wf e → env_store e = None → is_full q = false →
  uuid4 r ∉ dkeys mgr → uuid4 r ∉ pol_tracked (q_policy q) → pol_addable (mutate dp t) →
  ∃ q' e', submit_task (Some [MetadataMutatorPlugin dp; TaskValidatorPlugin n]) title ty md delay (mgr, (d, (q, e))) =
             (Ok r, (mgr ++ [(uuid4 r, r)], (d, (q', e')))) ∧
    queue_inv (q', e') ∧ q_storage q' = <[uuid4 r := r]> (q_storage q) ∧
    uuid4 r ∈ pol_live (q_policy q') ∧
    env_tasks e' = <[r := stamped (next_tick e) (mutate dp t)]> (env_tasks e) ∧ env_store e' = None.
Proof.
  intros r t Htitle Hadm Hdelay Hinv Hwf Hst Hfull Hmgr Hfresh Hadd.
  rewrite submit_to_queue by done. fold r t. rewrite decide_True by done.
  assert (Ht : env_tasks (admitted_env dp t e) !! r = Some (mutate dp t)) by (simpl; by rewrite lookup_insert_eq).
  destruct (enqueue_spec q _ r (mutate dp t) (admitted_env_inv dp t q e Hinv Hwf) Ht Hfull Hadd Hfresh)
    as (o & q' & e' & l1 & l2 & -> & Hinv' & _ & Hl' & Hsto & _ & _ & Htk & Ho & Hn & _).
  rewrite (Ho Hst). exists q', e'. split_and!; [done..| | |by apply Hn].
  - rewrite Hl'. set_solver.
  - rewrite Htk. apply map_eq. intros r'. destruct (decide (r' = r)) as [->|Hne].
    + by rewrite lookup_alter_eq, Ht, lookup_insert_eq.
    + rewrite lookup_alter_ne, lookup_insert_ne by done. simpl. by rewrite !lookup_insert_ne.
Qed.

(** The task an admitted submission makes of its arguments. *)
Definition submitted_metadata (dp : Z) (md : option (odict pyval)) (queued : string) (m : odict pyval) : Prop :=
  dget m "priority" = Some (default (VInt dp) (dget (default [] md) "priority")) ∧
  dget m "admitted_by" = Some (VStr "MetadataMutatorPlugin") ∧ dget m "queued_at" = Some (VStr queued) ∧
  ∀ k, k ≠ "priority" → k ≠ "admitted_by" → k ≠ "queued_at" → dget m k = dget (default [] md) k.
Lemma stamped_mutated dp e r title ty md :
  ∃ m, submitted_metadata dp md (now_iso (env_tick e)) m ∧
    stamped e (mutate dp (fresh_task r title ty md)) =
      {| task_id := uuid4 r; task_type := ty; task_metadata := Some m; task_title := title;
         task_status := PENDING; created_at := now_iso r |}.
Proof.
  eexists. split; [|done]. unfold submitted_metadata, metadata_or_empty. cbn [task_metadata mutate set_metadata fresh_task].
  simpl. unfold metadata_or_empty; simpl. set (m := default [] md).
  assert (∀ k, dget (if dhas m "priority" then m else dset m "priority" (VInt dp)) k =
    if decide (k = "priority") then Some (default (VInt dp) (dget m "priority")) else dget m k) as Hp.
  { intros k. destruct (dhas m "priority") eqn:Hh.
    - case_decide as Hk; [|done]. subst. unfold dhas in Hh. by destruct (dget m "priority").
    - apply dhas_false, dget_None in Hh. rewrite Hh. case_decide as Hk; [subst; by rewrite dget_dset_eq|by rewrite dget_dset_ne]. }
  split_and!.
  - by rewrite !dget_dset_ne, Hp by done.
  - by rewrite dget_dset_ne, dget_dset_eq by done.
  - by rewrite dget_dset_eq.
  - intros k H1 H2 H3. rewrite !dget_dset_ne, Hp by done. by rewrite decide_False.
Qed.

(** C36: Submitting a task through the standard chain, without an event store and
    without a delay, to a queue with room that its policy lets take the task
    under an id new to the manager and the queue: a blank title raises and
    registers nothing; otherwise the manager lists the new task last; when the
    chain admits it, the queue holds it under its id, and it is a pending task
    of the given title and type with the given metadata, to which the chain has
    added the default priority, unless one was given, and its mark, and the
    queue the time; no other task object changes.  When the chain does not admit it,
    an [AdmissionError] is raised and the queue is as before. *)
Theorem submit_task_spec n dp title ty md delay (mgr : TaskManager) d q e :
  let r := env_tick e in
  let t := fresh_task r title ty md in
  let chain := [MetadataMutatorPlugin dp; TaskValidatorPlugin n] in
  queue_inv (q, e) → env_wf e → env_store e = None → is_full q = false →
  uuid4 r ∉ dkeys mgr → uuid4 r ∉ pol_tracked (q_policy q) →
  pol_addable (mutate dp t) → num_lt (PInt 0) delay = false →
  if str_truthy (strip title) then
    if decide (admissible_task n t) then
      ∃ q' e' m, submit_task (Some chain) title ty md delay (mgr, (d, (q, e))) =
                   (Ok r, (mgr ++ [(uuid4 r, r)], (d, (q', e')))) ∧
        queue_inv (q', e') ∧ q_storage q' = <[uuid4 r := r]> (q_storage q) ∧
        uuid4 r ∈ pol_live (q_policy q') ∧
        env_tasks e' = <[r := {| task_id := uuid4 r; task_type := ty; task_metadata := Some m; task_title := title;
                                 task_status := PENDING; created_at := now_iso r |}]> (env_tasks e) ∧
        submitted_metadata dp md (now_iso (S r)) m
    else ∃ x e', submit_task (Some chain) title ty md delay (mgr, (d, (q, e))) =
                 (Raise x, (mgr ++ [(uuid4 r, r)], (d, (q, e')))) ∧ isinstance x "AdmissionError" = true
  else submit_task (Some chain) title ty md delay (mgr, (d, (q, e))) =
         (Raise InvalidTaskTitleError, (mgr, (d, (q, next_tick e)))).
Proof.
  intros r t chain Hinv Hwf Hst Hfull Hmgr Hfresh Hadd Hdelay.
  destruct (str_truthy (strip title)) eqn:Htitle.
  2:{ unfold submit_task, on_env. run_step. by rewrite new_task_run, Htitle. }
  case_decide as Hc.
  - destruct (submit_admitted n dp title ty md delay mgr d q e) as (q' & e' & Hrun & Hi & Hs & Hl & Htk & _); try done.
    destruct (stamped_mutated dp (next_tick e) r title ty md) as (m & Hm & Ht). fold r t in Htk. unfold t in Htk.
    rewrite Ht in Htk. by exists q', e', m.
  - unfold chain. rewrite submit_to_queue by done. fold r t. rewrite decide_False by done.
    eexists _, _. split; [done|]. by destruct (n <? _).
Qed.
End theorems.

(** * Examples *)
Section examples.
#[local] Existing Instance sample_oracle.
#[local] Existing Instance FIFOPolicy.policy.
#[local] Existing Instance FIFOPolicy.laws.

Definition sample_world (store : option EventTable) (ts : list (nat * Task)) : Env :=
  {| env_tasks := list_to_map ts; env_tick := 10; env_store := store |}.
Definition fifo (max_size : option Z) : Queue FIFOPolicy.t := new_queue max_size.

Lemma round_releases_witness :
  let e := sample_world None [(1%nat, sample_task "a" []); (2%nat, sample_task "b" []);
                              (3%nat, sample_task "c" []); (4%nat, sample_task "d" [])] in
  ∃ s d' q' e', tracker_round (sample_tracker, (fifo None, e)) = (Ok s, (d', (q', e'))) ∧
    Forall (λ x, num_le x.1.1 (PFloat (round_to_float 10 0)) = false) (dt_heap d') ∧
    pol_live (q_policy q') ≡ₚ ["c"; "a"; "d"; "b"].
Proof.
  intros e.
  destruct (round_releases sample_tracker (fifo None) e) as (s & d' & q' & e' & Hr & _ & _ & _ & Hl & Hq & _).
  - apply sample_tracker_wf.
  - apply (new_queue_inv (P:=FIFOPolicy.t)).
  - reflexivity.
  - reflexivity.
  - vm_compute. repeat (apply Forall_cons; split; [eexists; split; [reflexivity|split; [exact I|discriminate]]|]).
    constructor.
  - vm_compute. apply (bool_decide_unpack _). vm_compute. exact I.
  - exists s, d', q', e'. split; [exact Hr|]. split; [exact Hl|]. vm_compute in Hq |- *. exact Hq.
Defined.

Definition full_fifo : Queue FIFOPolicy.t :=
  {| q_max_size := Some 1; q_policy := {| FIFOPolicy.order := ["a"] |}; q_storage := {["a" := 1%nat]};
     q_enqueue_count := 1; q_dequeue_count := 0; q_cancel_count := 0; q_published := [] |}.

Lemma matured_task_lost_witness :
  let e := sample_world None [(1%nat, sample_task "a" []); (2%nat, sample_task "b" [])] in
  let d := sample_add 3 2 new_tracker in
  ∃ s q' e', tracker_round (d, (full_fifo, e)) = (Ok s, (with_heap [] (dt_counter d) d, (q', e'))) ∧
    q_storage q' = q_storage full_fifo ∧ q_policy q' = q_policy full_fifo ∧ env_tasks e' = env_tasks e.
Proof.
  intros e d. apply (matured_task_lost d full_fifo e 2 (sample_task "b" []) 0 (sample_time 3));
    vm_compute; reflexivity.
Defined.

Lemma failure_routing_witness :
  let p := backoff_policy 2 5 2 None in
  let e := sample_world None [(1%nat, retry_task p)] in
  let delay := PInt 5 in
  ∃ o d' e', handle_task_failure 1 IndexError (new_tracker, (fifo None, e)) =
               (o, (d', (fifo None, e'))) ∧ o = Ok tt ∧
             dt_heap d' ≡ₚ [(sample_time 15, 0, 1%nat)].
Proof.
  intros p e delay.
  destruct (failure_routing p 0 (retry_task p) 1 IndexError new_tracker (fifo None) e delay (sample_time 15))
    as (o & d' & e' & Hrun & Ho & Hd).
  - apply new_tracker_wf.
  - reflexivity.
  - split; reflexivity.
  - reflexivity.
  - reflexivity.
  - vm_compute. reflexivity.
  - vm_compute. eauto.
  - exists o, d', e'. split; [exact Hrun|]. split; [apply Ho; reflexivity|].
    rewrite decide_True in Hd by (split; [reflexivity|exact I]). apply Hd.
Defined.

Lemma rejected_not_scheduled_witness :
  let e := sample_world None [(1%nat, sample_task "a" [])] in
  schedule (Some [TaskValidatorPlugin 0]) 1 (PInt 0) (new_tracker, (fifo None, e)) =
    (Raise (title_too_long 0), (new_tracker, (fifo None, e))).
Proof. intros e. apply (rejected_not_scheduled (P:=FIFOPolicy.t)). vm_compute. reflexivity. Defined.

Lemma submit_task_spec_witness :
  let chain := [MetadataMutatorPlugin 0; TaskValidatorPlugin 255] in
  ∃ q' e' m, submit_task (Some chain) "build" PYTHON None (PInt 0) ([], (new_tracker, (fifo None, sample_world None []))) =
      (Ok 10%nat, ([("id-10", 10%nat)], (new_tracker, (q', e')))) ∧
    queue_inv (q', e') ∧ q_storage q' = {["id-10" := 10%nat]} ∧ "id-10" ∈ pol_live (q_policy q') ∧
    task_metadata <$> env_tasks e' !! 10%nat = Some (Some m) ∧ dget m "priority" = Some (VInt 0).
Proof.
  intros chain.
  assert (env_wf (sample_world None [])) as Hwf by (intros r [t Ht]; vm_compute in Ht; discriminate).
  assert (uuid4 10 ∉ dkeys ([] : TaskManager)) as Hm by apply not_elem_of_nil.
  assert (uuid4 10 ∉ pol_tracked (q_policy (fifo None))) as Hf by apply not_elem_of_empty.
  pose proof (submit_task_spec 255 0 "build" PYTHON None (PInt 0) [] new_tracker (fifo None)
    (sample_world None []) (new_queue_inv (P:=FIFOPolicy.t) None _) Hwf eq_refl eq_refl Hm Hf I eq_refl) as H.
  change (str_truthy (strip "build")) with true in H. cbv iota in H.
  rewrite decide_True in H by (split; [vm_compute; discriminate|intros E; discriminate E]).
  destruct H as (q' & e' & m & Hrun & Hi & Hs & Hl & Ht & Hmeta & _). exists q', e', m.
  split; [exact Hrun|]. split; [exact Hi|]. split; [exact Hs|]. split; [exact Hl|]. split; [|exact Hmeta].
  rewrite Ht. change (env_tick (sample_world None [])) with 10%nat. rewrite lookup_insert_eq. reflexivity.
Defined.

(** The types of the events in a store. *)
Definition stored_types (e : Env) : list string :=
  match env_store e with Some tbl => map row_event_type (rows tbl) | None => [] end.

(** With a zero backoff delay the retried task is enqueued while its failure
    is handled, and the log has its release before the retry it answers. *)
Theorem immediate_retry_event_order :
  let p := backoff_policy 1 0 2 None in
  let e := sample_world (Some empty_table) [(1%nat, retry_task p)] in
  let '(o, (d, (q, e'))) := handle_task_failure 1 IndexError (new_tracker, (fifo None, e)) in
  o = Ok tt ∧ pol_live (q_policy q) = ["r"] ∧
  stored_types e' = ["TaskQueued"; "DelayedTaskReleased"; "TaskRetried"; "RetryScheduled"].
Proof. vm_compute. auto. Qed.

(** With an event store, a task submitted with a retry policy in its
    metadata (a dataclass instance, which JSON cannot encode) raises after
    the manager registered it: it is neither logged nor scheduled. *)
Theorem retry_policy_not_storable :
  let p := backoff_policy 1 1 2 None in
  let e := sample_world (Some empty_table) [] in
  let '(o, (mgr, (d, (q, e')))) :=
    submit_task None "build" PYTHON (Some [("retry_policy", VRetryPolicy p)]) (PInt 0)
      ([], (new_tracker, (fifo None, e))) in
  o = Raise (TypeError "not JSON serializable") ∧ dkeys mgr = ["id-10"] ∧
  pol_live (q_policy q) = [] ∧ dt_heap d = [] ∧ stored_types e' = [].
Proof. vm_compute. auto. Qed.
End examples.
