(* ===== verification/WorkerPool.v ===== *)
(** [scheduling/worker/worker.py], [scheduling/worker/pool.py],
    [scheduling/timeout/manager.py] and the dispatch loop of
    [scheduling/scheduler/intelligent_scheduler.py]: the threads of the runtime.

    A worker's thread is a program counter; the code between two of its visible
    points runs as one action, and the actions of the worker threads, the
    scheduler loop, the delayed tracker, the time-out monitor, the supervisor and
    the clients interleave freely. *)
From S2P Require Import Prelude PyNum Heapq Values Decode Events EventStore Tasks Policy.
From S2P Require Import TaskQueue Admission Retry Delayed Scheduler.
Open Scope Z_scope.

(** * State *)
Inductive WorkerState : Type := IDLE | RUNNING | STOPPING | STOPPED | FAILED.
#[export] Instance WorkerState_eq_dec : EqDecision WorkerState.
Proof. solve_decision. Defined.

(** Where a worker's thread is in [Worker._run]. *)
Inductive pc : Type :=
  | AtLoop                                      (** before the test of the stop event *)
  | AtGet                                       (** before [self._task_queue.get] *)
  | Got (r : nat)                               (** after it *)
  | Marked (r : nat)                            (** state [RUNNING], task recorded *)
  | Executing (r : nat) (started : nat)         (** in [executor.execute] *)
  | Returned (r : nat) (started : nat) (o : outcome unit)
  | Finishing                                   (** in the [finally] block *)
  | Exited.

Record Worker : Type := {
  wk_state : WorkerState;
  wk_pc : pc;
  wk_stop : bool;                               (** [_stop_event] *)
  wk_current : option nat;                      (** [current_task] *)
  wk_task_start : option nat;                   (** [task_start_time], as a clock reading *)
  wk_heartbeat : nat;
  wk_processed : Z;
  wk_failures : Z
}.

Record Pool : Type := {
  pl_started : bool;
  pl_workers : odict Worker;
  pl_queue : list nat;                          (** [_task_queue], a [queue.Queue] *)
  pl_completed : Z;
  pl_failed : Z;
  pl_time : spec_float;
  pl_start_time : option nat
}.
Definition new_pool : Pool :=
  {| pl_started := false; pl_workers := []; pl_queue := []; pl_completed := 0; pl_failed := 0;
     pl_time := f_zero; pl_start_time := None |}.

Definition with_workers (ws : odict Worker) (p : Pool) : Pool :=
  {| pl_started := pl_started p; pl_workers := ws; pl_queue := pl_queue p; pl_completed := pl_completed p;
     pl_failed := pl_failed p; pl_time := pl_time p; pl_start_time := pl_start_time p |}.
Definition with_pool_queue (l : list nat) (p : Pool) : Pool :=
  {| pl_started := pl_started p; pl_workers := pl_workers p; pl_queue := l; pl_completed := pl_completed p;
     pl_failed := pl_failed p; pl_time := pl_time p; pl_start_time := pl_start_time p |}.
Definition with_started (b : bool) (n : option nat) (p : Pool) : Pool :=
  {| pl_started := b; pl_workers := pl_workers p; pl_queue := pl_queue p; pl_completed := pl_completed p;
     pl_failed := pl_failed p; pl_time := pl_time p; pl_start_time := n |}.
Definition add_completed (d : spec_float) (p : Pool) : Pool :=
  {| pl_started := pl_started p; pl_workers := pl_workers p; pl_queue := pl_queue p;
     pl_completed := pl_completed p + 1; pl_failed := pl_failed p; pl_time := fadd (pl_time p) d;
     pl_start_time := pl_start_time p |}.
Definition add_failed (p : Pool) : Pool :=
  {| pl_started := pl_started p; pl_workers := pl_workers p; pl_queue := pl_queue p;
     pl_completed := pl_completed p; pl_failed := pl_failed p + 1; pl_time := pl_time p;
     pl_start_time := pl_start_time p |}.

(** Updates of a worker. *)
Definition at_pc (c : pc) (w : Worker) : Worker :=
  {| wk_state := wk_state w; wk_pc := c; wk_stop := wk_stop w; wk_current := wk_current w;
     wk_task_start := wk_task_start w; wk_heartbeat := wk_heartbeat w; wk_processed := wk_processed w;
     wk_failures := wk_failures w |}.
Definition in_state (s : WorkerState) (w : Worker) : Worker :=
  {| wk_state := s; wk_pc := wk_pc w; wk_stop := wk_stop w; wk_current := wk_current w;
     wk_task_start := wk_task_start w; wk_heartbeat := wk_heartbeat w; wk_processed := wk_processed w;
     wk_failures := wk_failures w |}.
Definition on_job (job start : option nat) (heartbeat : nat) (w : Worker) : Worker :=
  {| wk_state := wk_state w; wk_pc := wk_pc w; wk_stop := wk_stop w; wk_current := job;
     wk_task_start := start; wk_heartbeat := heartbeat; wk_processed := wk_processed w;
     wk_failures := wk_failures w |}.
Definition counted (p f : Z) (w : Worker) : Worker :=
  {| wk_state := wk_state w; wk_pc := wk_pc w; wk_stop := wk_stop w; wk_current := wk_current w;
     wk_task_start := wk_task_start w; wk_heartbeat := wk_heartbeat w; wk_processed := wk_processed w + p;
     wk_failures := wk_failures w + f |}.
Definition stopping (w : Worker) : Worker :=
  {| wk_state := STOPPING; wk_pc := wk_pc w; wk_stop := true; wk_current := wk_current w;
     wk_task_start := wk_task_start w; wk_heartbeat := wk_heartbeat w; wk_processed := wk_processed w;
     wk_failures := wk_failures w |}.

(** [Worker(...)] and [Worker.start] at a clock reading: a fresh thread *)
Definition new_worker (n : nat) : Worker :=
  {| wk_state := IDLE; wk_pc := AtLoop; wk_stop := false; wk_current := None; wk_task_start := None;
     wk_heartbeat := n; wk_processed := 0; wk_failures := 0 |}.
(** [Worker.stop] *)
Definition stop_worker (w : Worker) : Worker :=
  match wk_state w with STOPPED | FAILED => w | _ => stopping w end.

(** [f"W-{i+1:03d}"] *)
Definition digits3 (n : nat) : string :=
  let s := nat_string n in
  match String.length s with 1%nat => "00" +:+ s | 2%nat => "0" +:+ s | _ => s end.
Definition worker_id (i : nat) : string := "W-" +:+ digits3 (S i).

(** * Operations *)
Section pool.
Context `{!Oracle} {P : Type} `{!SchedulingPolicy P}.
Abbreviation Sched := (Tracker * (Queue P * Env))%type.
Abbreviation PM A := (M (Pool * Sched) A).

Definition pool_env {A} (m : M Env A) : PM A := env (on_env m).
Definition workers_in (s : WorkerState) (p : Pool) : list string :=
  dkeys (filter (λ x, wk_state x.2 = s) (pl_workers p)).
(** [active_workers], [idle_workers] *)
Definition active_workers : PM (list string) := self (gets (workers_in RUNNING)).
Definition idle_workers : PM (list string) := self (gets (workers_in IDLE)).
Definition update_worker (w : string) (f : Worker → Worker) : PM unit :=
  self (modify (λ p, match dget (pl_workers p) w with
                     | Some x => with_workers (dset (pl_workers p) w (f x)) p | None => p end)).

(** [WorkerPool.start] of a pool of [size] workers *)
Definition start_pool (size : nat) : PM unit :=
  p <- self get ;;
  if pl_started p then ret tt
  else
    n <- pool_env tick ;;
    self (modify (with_started true (Some n))) ;;;
    for_each (seq 0 size) (λ i,
      n <- pool_env tick ;;
      self (modify (λ p, with_workers (dset (pl_workers p) (worker_id i) (new_worker n)) p))) ;;;
    p <- self get ;;
    for_each (dkeys (pl_workers p)) (λ w, pool_env (emit (WorkerStarted w))).
(** [WorkerPool.stop], up to the joins *)
Definition stop_pool : PM unit :=
  p <- self get ;;
  if pl_started p then
    self (modify (λ p, with_workers (prod_map id stop_worker <$> pl_workers p)
                                    (with_started false (pl_start_time p) p)))
  else ret tt.
(** [WorkerPool.submit] *)
Definition submit_to_pool (r : nat) : PM unit :=
  p <- self get ;;
  if pl_started p then self (modify (λ p, with_pool_queue (pl_queue p ++ [r]) p))
  else raise (RuntimeError "Cannot submit task. Worker pool is not running.").

(** [_on_task_completed], [_on_task_failed]: totals, and the callback of the
    scheduler, whose exceptions are logged *)
Definition on_task_completed (duration : spec_float) : PM unit :=
  self (modify (add_completed duration)).
Definition log_exceptions (m : PM unit) : PM unit :=
  catch m (λ x, if isinstance x "Exception" then ret tt else raise x).
Definition on_task_failed (w : string) (error : exn) : PM unit :=
  p <- self get ;;
  self (modify add_failed) ;;;
  match x ← dget (pl_workers p) w; wk_current x with
  | Some r => log_exceptions (env (handle_task_failure r error))
  | None => ret tt
  end.

(** [_handle_task_timeout] *)
Definition timeout_seconds_of (t : Task) : num :=
  match dget (metadata_or_empty t) "timeout_policy" with
  | Some (VTimeoutPolicy p) => timeout_seconds p
  | _ => PFloat f_zero
  end.
Definition handle_task_timeout (r : nat) : PM unit :=
  self (modify add_failed) ;;;
  t <- pool_env (deref r) ;;
  pool_env (emit (TaskTimedOut (task_id t))) ;;;
  pool_env (emit (TimeoutTriggered (task_id t) (timeout_seconds_of t))) ;;;
  env (handle_task_failure r (TimeoutError "Task execution exceeded timeout threshold.")).

(** ** [statistics] and [IntelligentScheduler.get_metrics] *)
Record WorkerPoolMetrics : Type := {
  wm_total : Z; wm_idle : Z; wm_running : Z; wm_stopping : Z; wm_stopped : Z; wm_failed : Z;
  wm_tasks_completed : Z; wm_tasks_failed : Z; wm_average_execution_time : spec_float;
  wm_uptime : spec_float
}.
Definition uptime_since (start : option nat) (now : nat) : spec_float :=
  match start with Some n => total_seconds (now_us now - now_us n) | None => f_zero end.
Definition statistics : PM WorkerPoolMetrics :=
  p <- self get ;;
  let count s := Z.of_nat (length (workers_in s p)) in
  now <- (match pl_start_time p with Some _ => pool_env tick | None => ret 0%nat end) ;;
  ret {| wm_total := Z.of_nat (length (pl_workers p)); wm_idle := count IDLE; wm_running := count RUNNING;
         wm_stopping := count STOPPING; wm_stopped := count STOPPED; wm_failed := count FAILED;
         wm_tasks_completed := pl_completed p; wm_tasks_failed := pl_failed p;
         wm_average_execution_time :=
           if 0 <? pl_completed p then fdiv (pl_time p) (round_to_float (pl_completed p) 0) else f_zero;
         wm_uptime := uptime_since (pl_start_time p) now |}.

Record SchedulerMetrics : Type := {
  sm_queue_size : Z; sm_queue_utilization : spec_float; sm_workers_total : Z; sm_workers_idle : Z;
  sm_workers_running : Z; sm_workers_failed : Z; sm_tasks_completed : Z; sm_tasks_failed : Z;
  sm_average_execution_time_ms : spec_float; sm_delayed_tasks_count : Z; sm_uptime_seconds : spec_float
}.
(** [start] is the clock reading at which the scheduler was started *)
Definition scheduler_metrics (start : option nat) : PM SchedulerMetrics :=
  q <- env (env get_metrics) ;;
  p <- statistics ;;
  now <- (match start with Some _ => pool_env tick | None => ret 0%nat end) ;;
  n <- env tracker_size ;;
  ret {| sm_queue_size := m_size q; sm_queue_utilization := m_utilization q;
         sm_workers_total := wm_total p; sm_workers_idle := wm_idle p; sm_workers_running := wm_running p;
         sm_workers_failed := wm_failed p; sm_tasks_completed := wm_tasks_completed p;
         sm_tasks_failed := wm_tasks_failed p;
         sm_average_execution_time_ms := fmul (wm_average_execution_time p) (round_to_float 1000 0);
         sm_delayed_tasks_count := n; sm_uptime_seconds := uptime_since start now |}.

(** ** The pieces of [Worker._run] *)

(** the loop's test of the stop event *)
Definition worker_loop (w : string) (x : Worker) : PM unit :=
  update_worker w (if wk_stop x then λ x, in_state STOPPED (at_pc Exited x) else at_pc AtGet).
(** [get], whatever has become of the event: a task of the pool's queue, or an
    empty wait and its heartbeat *)
Definition worker_get (w : string) (x : Worker) : PM unit :=
  p <- self get ;;
  match pl_queue p with
  | r :: l => self (modify (with_pool_queue l)) ;;; update_worker w (at_pc (Got r))
  | [] =>
      if wk_stop x then update_worker w (at_pc AtLoop)
      else n <- pool_env tick ;;
           update_worker w (λ x, at_pc AtLoop (on_job (wk_current x) (wk_task_start x) n x))
  end.
(** the locked block before a task *)
Definition worker_mark (w : string) (r : nat) : PM unit :=
  heartbeat <- pool_env tick ;;
  start <- pool_env tick ;;
  update_worker w (λ x, in_state RUNNING (at_pc (Marked r) (on_job (Some r) (Some start) heartbeat x))).
(** the two events and [task.start()]; an exception here leaves the loop: the
    thread ends, with state [FAILED] if it is an [Exception] *)
Definition crashed (e : exn) (x : Worker) : Worker :=
  (if isinstance e "Exception" then in_state FAILED else id) (at_pc Exited x).
Definition worker_announce (w : string) (x : Worker) (r : nat) : PM unit :=
  catch
    (t <- pool_env (deref r) ;;
     pool_env (emit (TaskStarted (task_id t))) ;;;
     pool_env (emit (WorkerHeartbeat w (now_iso (wk_heartbeat x)))) ;;;
     n <- pool_env tick ;;
     pool_env (update_task r start) ;;;
     update_worker w (at_pc (Executing r n)))
    (λ e, update_worker w (crashed e)).
(** [executor.execute(task)]: code outside this model; it may change the task
    object, and returns or raises *)
Definition worker_execute (w : string) (r n : nat) (f : Task → Task) (o : outcome unit) : PM unit :=
  pool_env (update_task r f) ;;;
  update_worker w (at_pc (Returned r n o)).
(** the rest of the [try] block, after a normal return; what raises there is
    handled like a failure of the executor *)
Definition worker_complete (w : string) (r n : nat) : PM unit :=
  pool_env (update_task r (λ t, match task_status t with Tasks.FAILED => t | _ => complete t end)) ;;;
  catch
    (t <- pool_env (deref r) ;;
     pool_env (emit (TaskCompleted (task_id t))) ;;;
     now <- pool_env tick ;;
     on_task_completed (fsub (time_now now) (time_now n)) ;;;
     update_worker w (λ x, counted 1 0 (at_pc Finishing x)))
    (λ e, update_worker w (at_pc (Returned r n (Raise e)))).
(** the [finally] block, and where the thread goes after it *)
Definition finally_block (next : pc) (n : nat) (x : Worker) : Worker :=
  (if wk_stop x then id else in_state IDLE) (at_pc next (on_job None None n x)).
Definition worker_finish (w : string) : PM unit :=
  n <- pool_env tick ;; update_worker w (finally_block AtLoop n).
(** an exception of the executor that is not an [Exception] passes both
    [except] clauses and ends the thread *)
Definition worker_abort (w : string) : PM unit :=
  n <- pool_env tick ;; update_worker w (finally_block Exited n).

(** the [except] block *)
Definition worker_fail (w : string) (r : nat) (e : exn) : PM unit :=
  catch
    (pool_env (update_task r (λ t, match task_status t with Tasks.FAILED => t | _ => fail t end)) ;;;
     on_task_failed w e ;;;
     update_worker w (λ x, counted 0 1 (at_pc Finishing x)))
    (λ _, worker_abort w).

(** The next piece of [w]'s thread; [f] and [o] are what its executor does to
    the task and how it ends, where the piece is the call of the executor. *)
Definition worker_step (w : string) (f : Task → Task) (o : outcome unit) : PM unit :=
  p <- self get ;;
  match dget (pl_workers p) w with
  | None => ret tt
  | Some x =>
      match wk_pc x with
      | AtLoop => worker_loop w x
      | AtGet => worker_get w x
      | Got r => worker_mark w r
      | Marked r => worker_announce w x r
      | Executing r n => worker_execute w r n f o
      | Returned r n (Ok _) => worker_complete w r n
      | Returned r _ (Raise e) => if isinstance e "Exception" then worker_fail w r e else worker_abort w
      | Finishing => worker_finish w
      | Exited => ret tt
      end
  end.

(** ** The other threads *)

(** [_supervise] on one worker: a fresh one takes the place of a failed one. *)
Definition supervise_worker (w : string) : PM unit :=
  p <- self get ;;
  match wk_state <$> dget (pl_workers p) w with
  | Some FAILED =>
      pool_env (emit (WorkerFailed w "Worker thread crashed")) ;;;
      pool_env (emit (WorkerRecovered w)) ;;;
      n <- pool_env tick ;;
      self (modify (λ p, with_workers (dset (pl_workers p) w (new_worker n)) p))
  | _ => ret tt
  end.
(** a round of [_supervise], under the pool's lock *)
Definition supervise : PM unit :=
  p <- self get ;; for_each (dkeys (pl_workers p)) supervise_worker.

(** [TimeoutManager._run_loop] on one worker of its scan: has its task
    overrun? *)
Definition overrun (t : Task) (start now : nat) : outcome bool :=
  match dget (metadata_or_empty t) "timeout_policy" with
  | Some (VTimeoutPolicy p) =>
      let? limit := timedelta_us (timeout_seconds p) in Ok (limit <? now_us now - now_us start)
  | _ => Ok false
  end.
Definition check_timeout (now : nat) (w : string) : PM unit :=
  p <- self get ;;
  match x ← dget (pl_workers p) w; r ← wk_current x; start ← wk_task_start x; Some (r, start) with
  | Some (r, start) =>
      t <- pool_env (deref r) ;;
      late <- of_outcome (overrun t start now) ;;
      if (late : bool) then
        update_worker w (λ x, on_job (wk_current x) None (wk_heartbeat x) x) ;;;
        pool_env (update_task r fail) ;;;
        log_exceptions (handle_task_timeout r)
      else ret tt
  | None => ret tt
  end.
End pool.
