(* ===== verification/Accounting.v ===== *)
(** Where the references to task objects are.  A computation is described by
    the references it takes in, those its outcome hands out, and the change of
    those its state holds: nothing it does creates one.  The rules follow the
    monad; then every operation of the scheduler, the tracker, the queue and
    the workers is accounted for, together with the consistency of the workers'
    program counters and published states. *)
From S2P Require Import Prelude PyNum Heapq Values Decode Events EventStore Tasks Policy.
From S2P Require Import TaskQueue Admission Retry Delayed Scheduler WorkerPool.
Open Scope Z_scope.

(** * The logic *)
Definition triple {S A} (pl : S → list nat) (P : S → Prop) (inn : list nat) (m : M S A)
    (Q : outcome A → S → Prop) (out : outcome A → list nat) : Prop :=
  ∀ s o s', P s → m s = (o, s') → Q o s' ∧ out o ++ pl s' ⊆+ inn ++ pl s.

Section rules.
Context {S : Type} (pl : S → list nat).

Lemma t_conseq {A} P P' inn (m : M S A) (Q Q' : outcome A → S → Prop) out out' :
  triple pl P inn m Q out → (∀ s, P' s → P s) → (∀ o s, Q o s → Q' o s) → (∀ o, out' o ⊆+ out o) →
  triple pl P' inn m Q' out'.
Proof.
  intros Hm HP HQ Hout s o s' HP' Hrun. destruct (Hm s o s' (HP _ HP') Hrun) as [HQo Hsub].
  split; [auto|]. etrans; [|exact Hsub]. by apply submseteq_skips_r.
Qed.

Lemma t_ret {A} P inn (a : A) (Q : outcome A → S → Prop) out :
  (∀ s, P s → Q (Ok a) s) → out (Ok a) ⊆+ inn → triple pl P inn (ret a) Q out.
Proof. intros HQ Hout s o s' HP [= <- <-]. split; [auto|]. by apply submseteq_skips_r. Qed.

Lemma t_bind {A B} P inn (m : M S A) (k : A → M S B) Q out R out' :
  triple pl P inn m Q out →
  (∀ a, triple pl (Q (Ok a)) (out (Ok a)) (k a) R out') →
  (∀ e s, Q (Raise e) s → R (Raise e) s) → (∀ e, out' (Raise e) ⊆+ out (Raise e)) →
  triple pl P inn (bind m k) R out'.
Proof.
  intros Hm Hk HR Hout s o s' HP. unfold bind. destruct (m s) as [[a|e] s1] eqn:E.
  - intros Hrun. destruct (Hm _ _ _ HP E) as [HQ Hs]. destruct (Hk a _ _ _ HQ Hrun) as [HRo Hs'].
    split; [done|]. by etrans.
  - intros [= <- <-]. destruct (Hm _ _ _ HP E) as [HQ Hs]. split; [auto|].
    etrans; [|exact Hs]. by apply submseteq_skips_r.
Qed.

Lemma t_catch {A} P inn (m : M S A) h Q out R out' :
  triple pl P inn m Q out →
  (∀ e, triple pl (Q (Raise e)) (out (Raise e)) (h e) R out') →
  (∀ a s, Q (Ok a) s → R (Ok a) s) → (∀ a, out' (Ok a) ⊆+ out (Ok a)) →
  triple pl P inn (catch m h) R out'.
Proof.
  intros Hm Hk HR Hout s o s' HP. unfold catch. destruct (m s) as [[a|e] s1] eqn:E.
  - intros [= <- <-]. destruct (Hm _ _ _ HP E) as [HQ Hs]. split; [auto|].
    etrans; [|exact Hs]. by apply submseteq_skips_r.
  - intros Hrun. destruct (Hm _ _ _ HP E) as [HQ Hs]. destruct (Hk e _ _ _ HQ Hrun) as [HRo Hs'].
    split; [done|]. by etrans.
Qed.

(** A computation that reads the state, or leaves what is accounted alone. *)
Lemma t_get {A} (f : S → A) P inn (Q : outcome A → S → Prop) :
  (∀ s, P s → Q (Ok (f s)) s) → triple pl P inn (gets f) Q (λ _, inn).
Proof. intros HQ s o s' HP [= <- <-]. auto. Qed.
Lemma t_modify P inn f (Q : outcome unit → S → Prop) out :
  (∀ s, P s → Q (Ok tt) (f s) ∧ out (Ok tt) ++ pl (f s) ⊆+ inn ++ pl s) →
  triple pl P inn (modify f) Q out.
Proof. intros HQ s o s' HP [= <- <-]. auto. Qed.
Lemma t_of_outcome {A} P inn (x : outcome A) : triple pl P inn (of_outcome x) (λ _, P) (λ _, inn).
Proof. intros s o s' HP [= <- <-]. done. Qed.
Lemma t_raise {A} P inn e : triple pl P inn (raise (A:=A) e) (λ _, P) (λ _, inn).
Proof. intros s o s' HP [= <- <-]. done. Qed.

Lemma t_pure {A} (φ : Prop) P inn (m : M S A) Q out :
  (∀ s, P s → φ) → (φ → triple pl P inn m Q out) → triple pl P inn m Q out.
Proof. intros HP Hm s o s' Hs. by apply Hm; [eapply HP|]. Qed.
Lemma t_weaken {A} P inn (m : M S A) Q out :
  triple pl (λ _, True) inn m Q out → triple pl P inn m Q out.
Proof. intros Hm. by eapply t_conseq. Qed.
(** A reference lent to a computation that gives it back. *)
Lemma t_lend {A} l P inn (m : M S A) Q out :
  triple pl P (l ++ inn) m Q (λ o, l ++ out o) → triple pl P inn m Q out.
Proof.
  intros Hm s o s' HP Hrun. destruct (Hm _ _ _ HP Hrun) as [HQ Hs]. split; [done|].
  rewrite <-!(assoc_L (++)) in Hs. by apply submseteq_app_inv_l in Hs.
Qed.

Lemma t_frame {A} l P inn (m : M S A) Q out :
  triple pl P inn m Q out → triple pl P (l ++ inn) m Q (λ o, l ++ out o).
Proof.
  intros Hm s o s' HP Hrun. destruct (Hm _ _ _ HP Hrun) as [HQ Hs]. split; [done|].
  rewrite <-!(assoc_L (++)). by apply submseteq_skips_l.
Qed.

Lemma t_for_each {A} P (l : list A) (body : A → M S unit) :
  (∀ x, triple pl P [] (body x) (λ _, P) (λ _, [])) →
  triple pl P [] (for_each l body) (λ _, P) (λ _, []).
Proof.
  intros Hb. induction l as [|x l IH]; simpl; [by apply t_ret|].
  eapply t_bind; [apply Hb|intros []; apply IH|done|done].
Qed.
End rules.

(** An object next to an environment. *)
Definition both {C E} (f : C → list nat) (g : E → list nat) (s : C * E) : list nat := f s.1 ++ g s.2.

Lemma t_env {C E A} (f : C → list nat) (g : E → list nat) (PC : C → Prop) PE inn (m : M E A) QE out :
  triple g PE inn m QE out →
  triple (both f g) (λ s, PC s.1 ∧ PE s.2) inn (env m) (λ o s, PC s.1 ∧ QE o s.2) out.
Proof.
  intros Hm [c e] o s' [HC HE] Hrun. unfold zoom in Hrun; simpl in *.
  destruct (m e) as [o' e'] eqn:E0. injection Hrun as <- <-. destruct (Hm _ _ _ HE E0) as [HQ Hs].
  split; [done|]. unfold both; simpl. rewrite !(Permutation_app_swap_app _ (f c)). by apply submseteq_skips_l.
Qed.

Lemma t_self {C E A} (f : C → list nat) (g : E → list nat) PC (PE : E → Prop) inn (m : M C A) QC out :
  triple f PC inn m QC out →
  triple (both f g) (λ s, PC s.1 ∧ PE s.2) inn (self m) (λ o s, QC o s.1 ∧ PE s.2) out.
Proof.
  intros Hm [c e] o s' [HC HE] Hrun. unfold zoom in Hrun; simpl in *.
  destruct (m c) as [o' c'] eqn:E0. injection Hrun as <- <-. destruct (Hm _ _ _ HC E0) as [HQ Hs].
  split; [done|]. unfold both; simpl. rewrite !(assoc_L (++)). by apply submseteq_skips_r.
Qed.

(** Computations of an environment that holds no references. *)
Definition nowhere {E} (_ : E) : list nat := [].
Lemma t_nowhere {E A} inn (m : M E A) : triple nowhere (λ _, True) inn m (λ _ _, True) (λ _, inn).
Proof. by intros s o s' _ _. Qed.

Section plain.
Context {C E : Type} (f : C → list nat) (g : E → list nat).
Implicit Types (inn : list nat).

Lemma t_envP {A} (PC : C → Prop) inn (m : M E A) out :
  triple g (λ _, True) inn m (λ _ _, True) out →
  triple (both f g) (λ s, PC s.1) inn (env m) (λ _ s, PC s.1) out.
Proof. intros Hm. eapply t_conseq; [by apply (t_env f g PC)|naive_solver..|done]. Qed.
Lemma t_selfP {A} (PC : C → Prop) inn (m : M C A) QC out :
  triple f PC inn m QC out →
  triple (both f g) (λ s, PC s.1) inn (self m) (λ o s, QC o s.1) out.
Proof. intros Hm. eapply t_conseq; [by apply (t_self f g PC (λ _, True))|naive_solver..|done]. Qed.
Lemma t_env' {A} inn (m : M E A) out :
  triple g (λ _, True) inn m (λ _ _, True) out →
  triple (both f g) (λ _, True) inn (env m) (λ _ _, True) out.
Proof. by apply (t_envP (λ _, True)). Qed.
Lemma t_self' {A} inn (m : M C A) out :
  triple f (λ _, True) inn m (λ _ _, True) out →
  triple (both f g) (λ _, True) inn (self m) (λ _ _, True) out.
Proof. by apply (t_selfP (λ _, True)). Qed.
Lemma t_envE {A} (PE : E → Prop) inn (m : M E A) QE out :
  triple g PE inn m QE out →
  triple (both f g) (λ s, PE s.2) inn (env m) (λ o s, QE o s.2) out.
Proof. intros Hm. eapply t_conseq; [by apply (t_env f g (λ _, True))|naive_solver..|done]. Qed.
Lemma t_selfE {A} (PE : E → Prop) inn (m : M C A) out :
  triple f (λ _, True) inn m (λ _ _, True) out →
  triple (both f g) (λ s, PE s.2) inn (self m) (λ _ s, PE s.2) out.
Proof. intros Hm. eapply t_conseq; [by apply (t_self f g (λ _, True) PE)|naive_solver..|done]. Qed.
(** Reading the object's state. *)
Lemma t_read {A} (PC : C → Prop) inn (k : C → M (C * E) A) R out :
  (∀ c, PC c → triple (both f g) (λ s, s.1 = c) inn (k c) R out) →
  triple (both f g) (λ s, PC s.1) inn (bind (self get) k) R out.
Proof. intros Hk [c e] o s' HP Hrun. by apply (Hk c HP (c, e)). Qed.
End plain.

(** A computation that leaves the holdings as they are. *)
Lemma t_neutral {S A} (pl : S → list nat) inn (m : M S A) :
  (∀ s, pl (m s).2 = pl s) → triple pl (λ _, True) inn m (λ _ _, True) (λ _, inn).
Proof. intros Hm s o s' _ Hrun. specialize (Hm s). rewrite Hrun in Hm. simpl in Hm. by rewrite Hm. Qed.
Lemma t_drop {S A} (pl : S → list nat) inn (m : M S A) Q out out' P :
  triple pl P inn m Q out → (∀ o, out' o ⊆+ out o) → triple pl P inn m Q out'.
Proof. intros. by eapply t_conseq. Qed.

(** Step through a sequence: the first computation by [lem], which holds
    references on every outcome alike. *)
Ltac t_seq lem :=
  eapply t_bind;
    [apply lem; try done | intros ? | try done | try (intros; simpl; apply submseteq_nil_l)].

(** * The queue, the tracker and the scheduler *)
Section scheduler.
Context `{!Oracle} {P : Type} `{!SchedulingPolicy P}.

Definition queue_refs (q : Queue P) : list nat := (map_to_list (q_storage q)).*2.
Definition heap_refs (d : Tracker) : list nat := (dt_heap d).*2.
Definition queue_pl : Queue P * Env → list nat := both queue_refs nowhere.
Definition sched_pl : Tracker * (Queue P * Env) → list nat := both heap_refs queue_pl.

Abbreviation quiet m := (∀ inn, triple queue_pl (λ _, True) inn m (λ _ _, True) (λ _, inn)).

Lemma t_queue_env {A} (m : M Env A) : quiet (env m).
Proof. intros inn. apply t_env', t_nowhere. Qed.
Lemma t_queue_self {A} (m : M (Queue P) A) :
  (∀ q, q_storage (m q).2 = q_storage q) → quiet (self m).
Proof. intros Hm inn. apply t_self', t_neutral. intros q. unfold queue_refs. by rewrite Hm. Qed.
Lemma t_publish ev : quiet (publish (P:=P) ev).
Proof. intros inn. apply t_neutral. by intros [q e]. Qed.
Lemma t_policy {A} (m : M P A) : quiet (self (zoom policy_lens m)).
Proof. apply t_queue_self. intros q. unfold zoom. by destruct (m _). Qed.

Lemma map_refs_insert (m : gmap string nat) i r :
  (map_to_list (<[i := r]> m)).*2 ⊆+ r :: (map_to_list m).*2.
Proof.
  rewrite <-insert_delete_eq, map_to_list_insert by (by rewrite lookup_delete_eq). csimpl.
  apply submseteq_skip. destruct (m !! i) as [r'|] eqn:E.
  - rewrite <-(map_to_list_delete m i r' E). csimpl. by apply submseteq_cons.
  - by rewrite delete_id.
Qed.
Lemma map_refs_delete (m : gmap string nat) i r :
  m !! i = Some r → r :: (map_to_list (delete i m)).*2 ≡ₚ (map_to_list m).*2.
Proof. intros Hr. by rewrite <-(map_to_list_delete m i r Hr). Qed.

Lemma t_enqueue r : triple queue_pl (λ _, True) [r] (enqueue r) (λ _ _, True) (λ _, []).
Proof.
  unfold enqueue. t_seq @t_queue_env. t_seq @t_queue_self. destruct (is_full _).
  { t_seq @t_publish. eapply t_drop; [apply t_raise|]. intros. apply submseteq_nil_l. }
  eapply (t_bind _ _ _ _ _ (λ _ _, True) (λ _, []));
    [apply t_self'|intros ?|done|done].
  { apply t_modify. intros q _. split; [done|]. apply map_refs_insert. }
  t_seq @t_policy. t_seq @t_queue_self. t_seq @t_queue_env. t_seq @t_publish.
  apply t_queue_env.
Qed.

Lemma t_dequeue : triple queue_pl (λ _, True) [] dequeue (λ _ _, True)
  (λ o, match o with Ok r => [r] | Raise _ => [] end).
Proof.
  intros [q e] o s' _ Hrun. split; [done|]. revert Hrun. unfold dequeue. run_step.
  destruct (pol_next (q_policy q)) as [[[i|]|x] p'] eqn:Hn; simpl; try (intros [= <- <-]; done).
  destruct (q_storage q !! i) as [r|] eqn:Hr; simpl; [|intros [= <- <-]; done].
  assert (Hin : r :: (map_to_list (delete i (q_storage q))).*2 ⊆+ queue_pl (q, e)).
  { unfold queue_pl, both, nowhere, queue_refs; simpl. rewrite app_nil_r.
    by rewrite map_refs_delete. }
  assert (Hin' : (map_to_list (delete i (q_storage q))).*2 ⊆+ queue_pl (q, e)).
  { etrans; [|exact Hin]. by apply submseteq_cons. }
  unfold queue_pl, both, nowhere, queue_refs in *; simpl in *. rewrite app_nil_r in *.
  destruct (deref r e) as [[t|x] e1] eqn:Hd; simpl.
  - destruct (emit _ _) as [[[]|x] e2]; intros [= <- <-]; simpl; by rewrite ?app_nil_r.
  - intros [= <- <-]; simpl. by rewrite ?app_nil_r.
Qed.

Lemma t_ready r : triple queue_pl (λ _, True) [r] (on_delayed_task_ready r) (λ _ _, True) (λ _, []).
Proof.
  unfold on_delayed_task_ready. eapply (t_catch _ _ _ _ _ (λ _ _, True) (λ _, [])); [|intros x|done|done].
  - t_seq @t_enqueue. t_seq @t_queue_env. apply t_queue_env.
  - destruct (isinstance x "Exception"); [by apply t_ret|apply t_raise].
Qed.

Abbreviation calm m := (∀ inn, triple sched_pl (λ _, True) inn m (λ _ _, True) (λ _, inn)).
Lemma t_on_env {A} (m : M Env A) : calm (on_env (P:=P) m).
Proof. intros inn. apply t_env', t_queue_env. Qed.
Lemma t_wall_clock : quiet (wall_clock (P:=P)).
Proof. intros inn. apply t_neutral. by intros [q e]. Qed.
Lemma t_clock {A} (m : M (Queue P * Env) A) inn out :
  triple queue_pl (λ _, True) inn m (λ _ _, True) out →
  triple sched_pl (λ _, True) inn (env m) (λ _ _, True) out.
Proof. apply t_env'. Qed.

Lemma t_delay_task r delay :
  triple sched_pl (λ _, True) [r] (delay_task r delay) (λ _ _, True) (λ _, []).
Proof.
  unfold delay_task, add_delayed_task. destruct (num_le delay (PInt 0)); [apply t_clock, t_ready|].
  t_seq @t_clock; [apply t_wall_clock|]. t_seq @t_of_outcome. apply t_self', t_modify.
  intros d _. split; [done|]. unfold heap_refs; simpl. by rewrite heappush_perm.
Qed.

Lemma t_failure r error :
  triple sched_pl (λ _, True) [r] (handle_task_failure r error) (λ _ _, True) (λ _, []).
Proof.
  unfold handle_task_failure. t_seq @t_on_env. t_seq @t_of_outcome. destruct a0.
  - t_seq @t_on_env. t_seq @t_delay_task. t_seq @t_on_env. t_seq @t_of_outcome. t_seq @t_on_env.
    apply t_on_env.
  - eapply t_drop; [apply t_on_env|]. intros. apply submseteq_nil_l.
Qed.
End scheduler.

Section scheduling.
Context `{!Oracle} {P : Type} `{!SchedulingPolicy P}.

(** The admission chain hands back the task object it was given. *)
Definition keeps_task (admission : option (list AdmissionPlugin)) : Prop :=
  match admission with
  | None => True
  | Some plugins => ∀ r e r' e', submit plugins r e = (Ok r', e') → r' = r
  end.

Lemma t_schedule admission r delay :
  keeps_task admission →
  triple (sched_pl (P:=P)) (λ _, True) [r] (schedule admission r delay) (λ _ _, True) (λ _, []).
Proof.
  intros Ha. unfold schedule.
  eapply (t_bind _ _ _ _ _ (λ o _, ∀ r', o = Ok r' → r' = r) (λ _, [r]));
    [|intros r'|done|intros; apply submseteq_nil_l].
  - destruct admission as [plugins|]; [|apply t_ret; naive_solver].
    intros [d [q e]] o s' _ Hrun. unfold on_env, zoom in Hrun; simpl in Hrun.
    destruct (submit plugins r e) as [o' e'] eqn:E. injection Hrun as <- <-.
    split; [|done]. intros r' ->. by eapply Ha.
  - apply (t_pure _ (r' = r)); [auto|intros ->]. apply t_weaken.
    destruct (num_lt _ _); [|apply t_clock, t_enqueue].
    t_seq @t_delay_task. t_seq @t_on_env. apply t_on_env.
Qed.

Lemma t_collect :
  triple (sched_pl (P:=P)) (λ _, True) [] (collect_due wall_clock) (λ _ _, True)
    (λ o, match o with Ok l => l.*2 | Raise _ => [] end).
Proof.
  intros [d [q e]] o s' _. unfold collect_due. run_step.
  pose proof (pop_due_perm (length (dt_heap d)) (PFloat (time_now (env_tick e))) (dt_heap d)) as Hp.
  destruct (pop_due _ _ _) as [due rest]. intros [= <- <-]. split; [done|].
  unfold sched_pl, both, heap_refs; simpl in *. rewrite Hp, fmap_app, <-(assoc_L (++)). done.
Qed.

Lemma t_release x :
  triple (sched_pl (P:=P)) (λ _, True) [x.2] (release on_delayed_task_ready x) (λ _ _, True) (λ _, []).
Proof.
  unfold release. eapply (t_catch _ _ _ _ _ (λ _ _, True) (λ _, [])); [|intros y|done|done].
  - apply t_clock, t_ready.
  - destruct (isinstance y "Exception"); [by apply t_ret|apply t_raise].
Qed.
End scheduling.

(** * The worker pool *)

(** The task a worker's thread has in hand. *)
Definition in_hand (x : Worker) : list nat :=
  match wk_pc x with
  | Got r | Marked r | Executing r _ | Returned r _ _ => [r]
  | _ => []
  end.
Definition hands (ws : odict Worker) : list nat := mjoin (in_hand <$> dvals ws).
Definition pool_refs (p : Pool) : list nat := pl_queue p ++ hands (pl_workers p).

(** What a worker publishes agrees with where its thread is.  It names a task
    from the moment it records it to the end of the [finally] block, and the task
    it crashed on for ever after.  While it is not asked to stop, it is [IDLE]
    just while it names none, and [RUNNING] while its thread lives and names one.
    Only a thread that ended is [FAILED] or [STOPPED]. *)
Definition worker_ok (x : Worker) : Prop :=
  match wk_pc x with
  | AtLoop | AtGet | Got _ => wk_current x = None ∧ (wk_state x = IDLE ∨ wk_stop x = true)
  | Marked r | Executing r _ | Returned r _ _ =>
      wk_current x = Some r ∧ (wk_state x = RUNNING ∨ wk_stop x = true)
  | Finishing => is_Some (wk_current x) ∧ (wk_state x = RUNNING ∨ wk_stop x = true)
  | Exited =>
      (wk_current x = None ∧ (wk_state x = IDLE ∨ wk_stop x = true)) ∨
      (is_Some (wk_current x) ∧ (wk_state x = RUNNING ∨ wk_state x = FAILED ∨ wk_stop x = true))
  end ∧ (wk_pc x ≠ Exited → wk_state x ≠ STOPPED ∧ wk_state x ≠ FAILED).
Definition pool_ok (p : Pool) : Prop :=
  dwf (pl_workers p) ∧ Forall (λ kx, worker_ok kx.2) (pl_workers p).
Definition at_w (w : string) (x : Worker) (p : Pool) : Prop :=
  pool_ok p ∧ dget (pl_workers p) w = Some x.

Lemma new_worker_ok n : worker_ok (new_worker n).
Proof. split; [by split; [|left]|done]. Qed.

Lemma hands_dset ws w x y :
  dget ws w = Some x → hands (dset ws w y) ++ in_hand x ≡ₚ in_hand y ++ hands ws.
Proof.
  unfold hands, dvals. induction ws as [|[k z] ws IH]; csimpl; [done|]. case_decide.
  - intros [= ->]. csimpl. rewrite <-(assoc_L (++)). f_equiv. apply Permutation_app_comm.
  - intros Hx. csimpl. rewrite <-(assoc_L (++)), (IH Hx). apply Permutation_app_swap_app.
Qed.

Lemma pool_ok_dset p w y : pool_ok p → worker_ok y → pool_ok (with_workers (dset (pl_workers p) w y) p).
Proof.
  intros [Hwf Hok] Hy. split; [by apply dset_wf|]. simpl. clear Hwf.
  induction Hok as [|[k z] ws Hz Hok IH]; simpl; [by apply Forall_singleton|].
  case_decide; by apply Forall_cons.
Qed.
Lemma pool_ok_get p w x : pool_ok p → dget (pl_workers p) w = Some x → worker_ok x.
Proof. intros [_ Hok] Hx. rewrite Forall_forall in Hok. by apply (Hok (w, x)), dget_Some_elem. Qed.

Lemma crashed_ok e x r :
  wk_current x = Some r → wk_state x = RUNNING ∨ wk_stop x = true → worker_ok (crashed e x).
Proof.
  intros Hc Hs. unfold crashed. destruct (isinstance e "Exception"); (split; [right; simpl|done]);
    (split; [by eexists|tauto]).
Qed.

Lemma crashed_hand e x : in_hand (crashed e x) = [].
Proof. unfold crashed. by destruct (isinstance e "Exception"). Qed.

Section pool.
Context `{!Oracle} {P : Type} `{!SchedulingPolicy P}.
Abbreviation PS := (Pool * (Tracker * (Queue P * Env)))%type.

Definition pool_pl : PS → list nat := both pool_refs sched_pl.

Lemma t_pool_env {A} (PC : Pool → Prop) inn (m : M Env A) :
  triple pool_pl (λ s, PC s.1) inn (pool_env m) (λ _ s, PC s.1) (λ _, inn).
Proof. apply t_envP, t_on_env. Qed.

(** The update of the worker [x] of [w] to [g x]. *)
Lemma t_update w x g inn out :
  worker_ok (g x) → out ++ in_hand (g x) ⊆+ inn ++ in_hand x →
  triple pool_pl (λ s, at_w w x s.1) inn (update_worker w g) (λ _ s, pool_ok s.1) (λ _, out).
Proof.
  intros Hok Hout. apply (t_selfP _ _ (at_w w x) _ _ (λ _, pool_ok)), t_modify.
  intros p [Hp Hx]. rewrite Hx. split; [by apply pool_ok_dset|].
  pose proof (hands_dset (pl_workers p) w x (g x) Hx) as Hh. unfold pool_refs; simpl.
  apply (submseteq_app_inv_r _ _ (in_hand x)). rewrite <-!(assoc_L (++)), Hh.
  rewrite !(Permutation_app_swap_app _ (pl_queue p)). apply submseteq_skips_l.
  rewrite (assoc (++) out), (Permutation_app_comm (hands _) (in_hand x)), (assoc (++) inn).
  by apply submseteq_skips_r.
Qed.
(** which does not fail *)
Lemma t_update_ok w x g inn out :
  worker_ok (g x) → out ++ in_hand (g x) ⊆+ inn ++ in_hand x →
  triple pool_pl (λ s, at_w w x s.1) inn (update_worker w g)
    (λ o s, match o with Ok _ => pool_ok s.1 | Raise _ => at_w w x s.1 end)
    (λ o, match o with Ok _ => out | Raise _ => [] end).
Proof.
  intros Hok Hout s o s' Hs Hrun. destruct (t_update w x g inn out Hok Hout s o s' Hs Hrun).
  destruct o; [done|]. unfold update_worker in Hrun. by run_cases.
Qed.
Lemma t_tick {A} (PC : Pool → Prop) inn (k : nat → M PS A) R out :
  (∀ n, triple pool_pl (λ s, PC s.1) inn (k n) R out) →
  triple pool_pl (λ s, PC s.1) inn (n <- pool_env tick ;; k n) R out.
Proof.
  intros Hk [p [d [q e]]] o s' HP Hrun. by apply (Hk (env_tick e) (p, (d, (q, next_tick e)))).
Qed.

(** The outcome of a failure handler. *)
Lemma t_log {inn out} PC (m : M PS unit) :
  triple pool_pl (λ s, PC s.1) inn m (λ _ s, PC s.1) (λ _, out) →
  triple pool_pl (λ s, PC s.1) inn (log_exceptions m) (λ _ s, PC s.1) (λ _, out).
Proof.
  intros Hm. eapply t_catch; [exact Hm|intros e|done|done]. simpl.
  destruct (isinstance e "Exception"); [by apply t_ret|apply t_raise].
Qed.
Lemma at_w_failed w x p : at_w w x p → at_w w x (add_failed p).
Proof. done. Qed.
Lemma t_add_failed w x inn :
  triple pool_pl (λ s, at_w w x s.1) inn (self (modify add_failed))
    (λ _ s, at_w w x s.1) (λ _, inn).
Proof. apply (t_selfP _ _ (at_w w x) _ _ (λ _, at_w w x)), t_modify. auto. Qed.

Lemma t_on_failed w x r e :
  wk_current x = Some r →
  triple pool_pl (λ s, at_w w x s.1) [r] (on_task_failed w e) (λ _ s, at_w w x s.1) (λ _, []).
Proof.
  intros Hr. unfold on_task_failed.
  apply t_read. intros p [Hok Hx]. rewrite Hx; simpl. rewrite Hr.
  apply (t_conseq _ (λ s, at_w w x s.1) _ _ _ (λ _ s, at_w w x s.1) _ (λ _, []));
    [|by intros ? ->|done|done].
  eapply t_bind; [apply t_add_failed|intros ?|done|intros; apply submseteq_nil_l].
  apply t_log, t_envP, t_failure.
Qed.

(** ** The pieces of a worker's thread *)
Abbreviation piece x w m :=
  (triple pool_pl (λ s, at_w w x s.1) [] m (λ _ s, pool_ok s.1) (λ _, [])).

(** Where a thread without a task goes. *)
Lemma without_task_ok x c n :
  wk_pc x = AtLoop ∨ wk_pc x = AtGet → worker_ok x → c = AtLoop ∨ c = AtGet →
  worker_ok (at_pc c x) ∧ worker_ok (at_pc c (on_job (wk_current x) (wk_task_start x) n x)) ∧
  (wk_stop x = true → worker_ok (in_state STOPPED (at_pc Exited x))).
Proof.
  intros Hpc Hx Hc. assert (wk_current x = None ∧ (wk_state x = IDLE ∨ wk_stop x = true)) as [Hcur Hs].
  { unfold worker_ok in Hx. destruct Hpc as [Hpc|Hpc]; rewrite Hpc in Hx; apply Hx. }
  assert (wk_state x ≠ STOPPED ∧ wk_state x ≠ FAILED) as Hl by (apply Hx; destruct Hpc as [->| ->]; done).
  split_and!; [by destruct Hc; subst; split..|]. intros Hstop. split; [left|done]. split; [done|by right].
Qed.
Lemma t_stop_test w x : wk_pc x = AtLoop → worker_ok x → piece x w (worker_loop w x).
Proof.
  intros Hpc Hx. destruct (without_task_ok x AtGet 0 (or_introl Hpc) Hx (or_intror eq_refl)) as (Hg & _ & Hs).
  apply t_update; destruct (wk_stop x) eqn:Hstop; try apply submseteq_nil_l; [by apply Hs|done].
Qed.
Lemma t_get_task w x : wk_pc x = AtGet → worker_ok x → piece x w (worker_get w x).
Proof.
  intros Hpc Hx. pose proof Hx as Hx'. unfold worker_ok in Hx. rewrite Hpc in Hx. destruct Hx as [[Hc Hs] Hl].
  unfold worker_get.
  apply t_read. intros p [Hok Hx]. destruct (pl_queue p) as [|r l] eqn:Hq.
  - apply (t_conseq _ (λ s, at_w w x s.1) _ _ _ (λ _ s, pool_ok s.1) _ (λ _, []));
      [|by intros ? ->|done|done].
    destruct (wk_stop x) eqn:Hstop; [|apply (t_tick (at_w w x)); intros n]; (apply t_update; [|by unfold in_hand; rewrite ?Hpc]);
      [destruct (without_task_ok x AtLoop 0)|destruct (without_task_ok x AtLoop n)]; naive_solver.
  - eapply (t_bind _ _ _ _ _ (λ _ s, at_w w x s.1) (λ _, [r])); [|intros ?|by intros ?? []|intros; apply submseteq_nil_l].
    + apply (t_selfP _ _ (λ q, q = p) _ _ (λ _, at_w w x)), t_modify. intros ? ->.
      split; [done|]. unfold pool_refs. by rewrite Hq.
    + apply t_update; [|unfold in_hand; by rewrite Hpc]. unfold worker_ok; simpl.
      split; [done|]. intros _. by apply Hl.
Qed.

Lemma t_mark w x r : wk_pc x = Got r → worker_ok x → piece x w (worker_mark w r).
Proof.
  intros Hpc Hx. unfold worker_mark.
  do 2 (apply (t_tick (at_w w x)); intros ?). apply t_update; [|by unfold in_hand; rewrite Hpc].
  split; [split; [done|by left]|done].
Qed.

Lemma t_announce w x r : wk_pc x = Marked r → worker_ok x → piece x w (worker_announce w x r).
Proof.
  intros Hpc Hx. unfold worker_ok in Hx. rewrite Hpc in Hx. destruct Hx as [Hc Hl].
  assert (∀ n, worker_ok (at_pc (Executing r n) x)) as Hex by (intros n; split; [done|by intros; apply Hl]).
  unfold worker_announce.
  eapply (t_catch _ _ _ _ _ (λ o s, match o with Ok _ => pool_ok s.1 | Raise _ => at_w w x s.1 end) (λ _, []));
    [|intros e; apply t_update; [by apply (crashed_ok e x r); apply Hc|rewrite crashed_hand; apply submseteq_nil_l]|done|done].
  do 5 (eapply t_bind; [apply t_pool_env|intros ?|by intros ??|done]).
  eapply t_drop; [apply t_update_ok; [apply Hex|unfold in_hand; by rewrite Hpc]|by intros []].
Qed.

Lemma t_execute w x r n f o :
  wk_pc x = Executing r n → worker_ok x → piece x w (worker_execute w r n f o).
Proof.
  intros Hpc Hx. unfold worker_ok in Hx. rewrite Hpc in Hx. destruct Hx as [Hc Hl].
  eapply t_bind; [apply t_pool_env|intros ?|by intros ?? []|done].
  apply t_update; [|unfold in_hand; by rewrite Hpc]. split; [done|]. intros _. by apply Hl.
Qed.

Lemma finally_ok c n x :
  (c = AtLoop ∧ is_Some (wk_current x) ∧ wk_state x ≠ STOPPED ∧ wk_state x ≠ FAILED) ∨ c = Exited →
  worker_ok (finally_block c n x) ∧ in_hand (finally_block c n x) = [].
Proof.
  unfold finally_block, worker_ok, in_hand.
  intros [(-> & _ & Hl)| ->]; destruct (wk_stop x) eqn:E; simpl; rewrite ?E; repeat split; auto; by apply Hl.
Qed.

Lemma t_abort w x :
  triple pool_pl (λ s, at_w w x s.1) [] (worker_abort w) (λ _ s, pool_ok s.1) (λ _, in_hand x).
Proof.
  apply (t_tick (at_w w x)). intros n. destruct (finally_ok Exited n x) as [Hok Hh]; [by right|].
  apply t_update; [done|]. by rewrite Hh, app_nil_r.
Qed.

Lemma t_finish w x : wk_pc x = Finishing → worker_ok x → piece x w (worker_finish w).
Proof.
  intros Hpc Hx. unfold worker_ok in Hx. rewrite Hpc in Hx. destruct Hx as [Hc Hl].
  apply (t_tick (at_w w x)). intros n. destruct (finally_ok AtLoop n x) as [Hok Hh]; [left; naive_solver|].
  apply t_update; [done|]. rewrite Hh. apply submseteq_nil_l.
Qed.

Lemma t_complete w x r n o :
  wk_pc x = Returned r n o → worker_ok x → piece x w (worker_complete w r n).
Proof.
  intros Hpc Hx. unfold worker_ok in Hx. rewrite Hpc in Hx. destruct Hx as [Hc Hl].
  unfold worker_complete. eapply t_bind; [apply t_pool_env|intros ?|by intros ?? []|done].
  eapply (t_catch _ _ _ _ _ (λ o s, match o with Ok _ => pool_ok s.1 | Raise _ => at_w w x s.1 end) (λ _, []));
    [|intros e; apply t_update; [split; [done|by intros; apply Hl]|unfold in_hand; by rewrite Hpc]|done|done].
  do 3 (eapply t_bind; [apply t_pool_env|intros ?|by intros ??|done]).
  eapply t_bind;
    [apply (t_selfP _ _ (at_w w x) _ _ (λ _, at_w w x) (λ _, [])), t_modify; by intros|intros ?|by intros ??|done].
  eapply t_drop; [apply (t_update_ok _ _ _ _ []); [|apply submseteq_nil_l]|by intros []].
  split; [naive_solver|]. intros _. by apply Hl.
Qed.

Lemma t_fail w x r n o e :
  wk_pc x = Returned r n o → worker_ok x → piece x w (worker_fail w r e).
Proof.
  intros Hpc Hx. unfold worker_ok in Hx. rewrite Hpc in Hx. destruct Hx as [Hc Hl].
  assert (Hh : in_hand x = [r]) by (unfold in_hand; by rewrite Hpc).
  apply (t_lend _ [r]). unfold worker_fail.
  eapply (t_catch _ _ _ _ _ (λ o s, match o with Ok _ => pool_ok s.1 | Raise _ => at_w w x s.1 end)
    (λ o, match o with Ok _ => [r] | Raise _ => [] end));
    [|intros ?; eapply t_drop; [apply (t_abort w x)|intros; by rewrite Hh]|done|done].
  eapply t_bind; [apply t_pool_env|intros ?|by intros ??|intros; apply submseteq_nil_l].
  eapply t_bind; [apply t_on_failed, Hc|intros ?|by intros ??|done].
  apply t_update_ok; [|by rewrite Hh]. split; [naive_solver|]. intros _. by apply Hl.
Qed.

(** Every piece of a worker's thread keeps the pool consistent and the
    references accounted for. *)
Lemma t_worker w f o :
  triple pool_pl (λ s, pool_ok s.1) [] (worker_step w f o) (λ _ s, pool_ok s.1) (λ _, []).
Proof.
  apply t_read. intros p Hp. destruct (dget (pl_workers p) w) as [x|] eqn:Hx.
  2:{ apply t_ret; [by intros ? ->|done]. }
  pose proof (pool_ok_get p w x Hp Hx) as Hok.
  apply (t_conseq _ (λ s, at_w w x s.1) _ _ _ (λ _ s, pool_ok s.1) _ (λ _, []));
    [|by intros ? ->|done|done].
  destruct (wk_pc x) eqn:Hpc.
  - by apply t_stop_test.
  - by apply t_get_task.
  - by apply t_mark.
  - by apply t_announce.
  - by apply t_execute.
  - destruct o0; [by eapply t_complete|]. destruct (isinstance e "Exception"); [by eapply t_fail|].
    eapply t_drop; [apply (t_abort w x)|intros; apply submseteq_nil_l].
  - by apply t_finish.
  - apply t_ret; [by intros ? []|done].
Qed.

(** The other operations on the pool. *)
Abbreviation safe m := (triple pool_pl (λ s, pool_ok s.1) [] m (λ _ s, pool_ok s.1) (λ _, [])).

Lemma t_supervise_worker w : safe (supervise_worker w).
Proof.
  apply t_read. intros p Hp. destruct (dget (pl_workers p) w) as [x|] eqn:Hx; simpl.
  2:{ apply t_ret; [by intros ? ->|done]. }
  destruct (wk_state x) eqn:Hs; try (apply t_ret; [by intros ? ->|done]).
  apply (t_conseq _ (λ s, at_w w x s.1) _ _ _ (λ _ s, pool_ok s.1) _ (λ _, []));
    [|by intros ? ->|done|done].
  do 2 (eapply t_bind; [apply t_pool_env|intros ?|by intros ?? []|done]).
  apply (t_tick (at_w w x)). intros n.
  apply (t_selfP _ _ (at_w w x) _ _ (λ _, pool_ok)), t_modify. intros q [Hq Hxq].
  split; [by apply pool_ok_dset, new_worker_ok|]. unfold pool_refs; simpl. apply submseteq_skips_l.
  pose proof (hands_dset (pl_workers q) w x (new_worker n) Hxq) as Hh. simpl in Hh.
  rewrite <-Hh. by apply submseteq_inserts_r.
Qed.
Lemma t_supervise : safe supervise.
Proof.
  apply t_read. intros p Hp.
  apply (t_conseq _ (λ s, pool_ok s.1) _ _ _ (λ _ s, pool_ok s.1) _ (λ _, [])); [|by intros ? ->|done|done].
  apply (t_for_each _ (λ s, pool_ok s.1)). apply t_supervise_worker.
Qed.

Lemma t_submit r :
  triple pool_pl (λ s, pool_ok s.1) [r] (submit_to_pool r) (λ _ s, pool_ok s.1) (λ _, []).
Proof.
  apply t_read. intros p Hp. destruct (pl_started p).
  - apply (t_selfP _ _ (λ q, q = p) _ _ (λ _, pool_ok)), t_modify. intros q ->. split; [done|].
    unfold pool_refs; simpl. rewrite <-(assoc_L (++)). simpl. by rewrite Permutation_middle.
  - apply (t_conseq _ (λ s, s.1 = p) _ _ _ (λ _ s, s.1 = p) _ (λ _, [r]));
      [apply t_raise|done|by intros ?? ->|intros; apply submseteq_nil_l].
Qed.

Lemma stop_worker_ok x : worker_ok x → worker_ok (stop_worker x).
Proof.
  intros Hx. assert (worker_ok (stopping x)) as Hs.
  { destruct Hx as [Hx _]. split; [|done]. simpl. destruct (wk_pc x); naive_solver. }
  unfold stop_worker. by destruct (wk_state x).
Qed.
Lemma t_stop_pool : safe stop_pool.
Proof.
  apply t_read. intros p Hp. destruct (pl_started p); [|apply t_ret; [by intros ? ->|done]].
  apply (t_selfP _ _ (λ q, q = p) _ _ (λ _, pool_ok)), t_modify. intros q ->. destruct Hp as [Hwf Hok].
  assert (∀ x, in_hand (stop_worker x) = in_hand x) as Hh
    by (intros x; unfold stop_worker; by destruct (wk_state x)).
  split; [split; simpl|].
  - unfold dwf. by rewrite dkeys_fmap.
  - rewrite Forall_fmap. eapply Forall_impl; [exact Hok|]. intros [k x]. apply stop_worker_ok.
  - unfold pool_refs, hands, dvals; simpl. rewrite <-!list_fmap_compose.
    apply submseteq_skips_l. apply Permutation_submseteq. f_equiv. apply reflexive_eq, list_fmap_ext.
    intros i [k x] _. apply Hh.
Qed.
End pool.
