(* ===== verification/System.v ===== *)
(** The threads of the scheduling runtime, composed: the dispatch loop of
    [scheduler/intelligent_scheduler.py], the delayed tracker, the time-out
    monitor, the pool's supervisor and its workers over the shared state of
    [WorkerPool] and [Scheduler].  One action runs one thread from one point
    where it holds no lock to the next; a run is any sequence of actions. *)
From S2P Require Import Prelude PyNum Heapq Values Decode Events EventStore Tasks Policy.
From S2P Require Import TaskQueue Admission Retry Delayed Scheduler WorkerPool Accounting.
Open Scope Z_scope.

(** * State *)

(** Where the scheduler's thread is in [_run_loop]. *)
Inductive loop_pc : Type :=
  | Polling                          (** at the [while] *)
  | SawIdle                          (** [idle_count > 0] *)
  | SawTask                          (** and the queue was not empty *)
  | Holding (r : nat)                (** dequeued, not yet submitted to the pool *)
  | LoopExited.

Record Threads : Type := {
  th_started : bool;                 (** [IntelligentScheduler._started] *)
  th_stop : bool;                    (** its [_stop_event] *)
  th_start_time : option nat;
  th_loop : loop_pc;
  th_due : list delayed_entry;       (** the tracker's [tasks_to_trigger] *)
  th_monitor : bool;                 (** [TimeoutManager._started] *)
  th_scan : list string;             (** the workers its scan has still to look at *)
  th_now : nat;                      (** the scan's [now] *)
  th_supervisor : bool               (** the supervisor's thread is alive *)
}.
Definition new_threads : Threads :=
  {| th_started := false; th_stop := false; th_start_time := None; th_loop := LoopExited; th_due := [];
     th_monitor := false; th_scan := []; th_now := 0; th_supervisor := false |}.

Definition with_loop (c : loop_pc) (h : Threads) : Threads :=
  {| th_started := th_started h; th_stop := th_stop h; th_start_time := th_start_time h; th_loop := c;
     th_due := th_due h; th_monitor := th_monitor h; th_scan := th_scan h; th_now := th_now h;
     th_supervisor := th_supervisor h |}.
Definition with_due (l : list delayed_entry) (h : Threads) : Threads :=
  {| th_started := th_started h; th_stop := th_stop h; th_start_time := th_start_time h; th_loop := th_loop h;
     th_due := l; th_monitor := th_monitor h; th_scan := th_scan h; th_now := th_now h;
     th_supervisor := th_supervisor h |}.
Definition with_scan (b : bool) (l : list string) (n : nat) (h : Threads) : Threads :=
  {| th_started := th_started h; th_stop := th_stop h; th_start_time := th_start_time h; th_loop := th_loop h;
     th_due := th_due h; th_monitor := b; th_scan := l; th_now := n; th_supervisor := th_supervisor h |}.
Definition with_flags (started stop : bool) (n : option nat) (h : Threads) : Threads :=
  {| th_started := started; th_stop := stop; th_start_time := n; th_loop := th_loop h;
     th_due := th_due h; th_monitor := th_monitor h; th_scan := th_scan h; th_now := th_now h;
     th_supervisor := th_supervisor h |}.
Definition with_supervisor (b : bool) (h : Threads) : Threads :=
  {| th_started := th_started h; th_stop := th_stop h; th_start_time := th_start_time h; th_loop := th_loop h;
     th_due := th_due h; th_monitor := th_monitor h; th_scan := th_scan h; th_now := th_now h;
     th_supervisor := b |}.

(** * The threads *)
Section threads.
Context `{!Oracle} {P : Type} `{!SchedulingPolicy P}.
Variable admission : option (list AdmissionPlugin).
Abbreviation Sched := (Tracker * (Queue P * Env))%type.
Abbreviation SM A := (M (Threads * (Pool * Sched)) A).

Definition sys_env {A} (m : M Env A) : SM A := env (env (on_env m)).
Definition sys_sched {A} (m : M Sched A) : SM A := env (env m).

(** [TimeoutManager.start], [TimeoutManager.stop] up to its join *)
Definition start_monitor : SM unit :=
  self (modify (λ h, if th_monitor h then h else with_scan true [] (th_now h) h)).
Definition stop_monitor : SM unit :=
  self (modify (λ h, if th_monitor h then with_scan false (th_scan h) (th_now h) h else h)).

(** [IntelligentScheduler.start] *)
Definition start_scheduler : SM unit :=
  h <- self get ;;
  if th_started h then ret tt
  else
    n <- sys_env tick ;;
    self (modify (with_flags true false (Some n))) ;;;
    sys_sched start_tracker ;;;
    start_monitor ;;;
    self (modify (with_loop Polling)) ;;;
    sys_env (emit SchedulerStarted).
(** [IntelligentScheduler.stop] up to the joins, and what follows them *)
Definition stop_scheduler : SM unit :=
  h <- self get ;;
  if th_started h then
    self (modify (λ h, with_flags false true (th_start_time h) h)) ;;;
    sys_sched stop_tracker ;;;
    stop_monitor
  else ret tt.
Definition scheduler_stopped : SM unit := sys_env (emit SchedulerStopped).

(** [Runtime.start] of a pool of [size] workers *)
Definition runtime_start (size : nat) : SM unit :=
  p <- env (self get) ;;
  env (start_pool size) ;;;
  (if pl_started p then ret tt else self (modify (with_supervisor true))) ;;;
  start_scheduler ;;;
  sys_env (emit RuntimeStarted).
(** the end of [WorkerPool.stop] and of [Runtime.stop], after the joins *)
Definition runtime_stopped : SM unit :=
  p <- env (self get) ;;
  for_each (dkeys (pl_workers p)) (λ w, sys_env (emit (WorkerStopped w))) ;;;
  sys_env (emit RuntimeStopped).

(** [_run_loop]: the three calls of an iteration are separate critical
    sections; an exception of [dequeue] or [submit] is logged *)
Definition scheduler_loop : SM unit :=
  h <- self get ;;
  match th_loop h with
  | Polling =>
      if th_stop h then self (modify (with_loop LoopExited))
      else
        l <- env idle_workers ;;
        match l with [] => ret tt | _ => self (modify (with_loop SawIdle)) end
  | SawIdle =>
      b <- sys_sched (env is_empty) ;;
      self (modify (with_loop (if (b : bool) then Polling else SawTask)))
  | SawTask =>
      catch (r <- sys_sched (env dequeue) ;; self (modify (with_loop (Holding r))))
            (λ _, self (modify (with_loop Polling)))
  | Holding r =>
      catch (env (submit_to_pool r)) (λ _, ret tt) ;;;
      self (modify (with_loop Polling))
  | LoopExited => ret tt
  end.

(** The tracker's thread: a round's collection, then a callback per item. *)
Definition tracker_thread : SM unit :=
  h <- self get ;;
  match th_due h with
  | x :: due => self (modify (with_due due)) ;;; sys_sched (release on_delayed_task_ready x)
  | [] =>
      d <- sys_sched (self get) ;;
      if dt_stop d || negb (dt_started d) then ret tt
      else l <- sys_sched (collect_due wall_clock) ;; self (modify (with_due l))
  end.

(** The time-out monitor's thread: a round's snapshot of the active workers,
    then one check per worker; an exception ends the round. *)
Definition timeout_thread : SM unit :=
  h <- self get ;;
  match th_scan h with
  | w :: scan =>
      catch (self (modify (with_scan (th_monitor h) scan (th_now h))) ;;;
             env (check_timeout (th_now h) w))
            (λ _, self (modify (λ h, with_scan (th_monitor h) [] (th_now h) h)))
  | [] =>
      if th_monitor h then
        l <- env active_workers ;;
        now <- sys_env tick ;;
        self (modify (λ h, with_scan (th_monitor h) l now h))
      else ret tt
  end.

(** The supervisor's thread; an exception kills it. *)
Definition supervisor_thread : SM unit :=
  h <- self get ;;
  p <- env (self get) ;;
  if th_supervisor h then
    if pl_started p then catch (env supervise) (λ _, self (modify (with_supervisor false)))
    else self (modify (with_supervisor false))
  else ret tt.

(** * Runs *)
Inductive action : Type :=
  | AWorker (w : string) (f : Task → Task) (o : outcome unit)
  | ALoop
  | ATracker
  | ATimeout
  | ASupervisor
  | ASchedule (r : nat) (delay_seconds : num)
  | AStopScheduler
  | AStopPool.

Definition perform (a : action) : SM unit :=
  match a with
  | AWorker w f o => env (worker_step w f o)
  | ALoop => scheduler_loop
  | ATracker => tracker_thread
  | ATimeout => timeout_thread
  | ASupervisor => supervisor_thread
  | ASchedule r delay => sys_sched (schedule admission r delay)
  | AStopScheduler => stop_scheduler
  | AStopPool => env stop_pool
  end.
(** What an action's exception does to its thread is in the state it leaves;
    that of a client's call goes to the client. *)
Definition run (l : list action) (s : Threads * (Pool * Sched)) : Threads * (Pool * Sched) :=
  foldl (λ s a, (perform a s).2) s l.
End threads.
#[local] Arguments run {_ _ _} _ _ _ : simpl never.
#[local] Arguments perform {_ _ _} _ _ : simpl never.

Lemma submseteq_NoDup {A} (l k : list A) : l ⊆+ k → NoDup k → NoDup l.
Proof. intros [k' ->]%submseteq_Permutation. by intros [? _]%NoDup_app. Qed.

(** * Where the tasks are *)
Section places.
Context `{!Oracle} {P : Type} `{!SchedulingPolicy P}.
Variable admission : option (list AdmissionPlugin).
Hypothesis Hadm : keeps_task admission.
Abbreviation Sys := (Threads * (Pool * (Tracker * (Queue P * Env))))%type.

Definition thread_refs (h : Threads) : list nat :=
  (th_due h).*2 ++ match th_loop h with Holding r => [r] | _ => [] end.
(** The references held: by the threads, the pool's queue, the workers in the
    middle of a task, the timer heap and the task queue. *)
Definition places : Sys → list nat := both thread_refs pool_pl.
Definition consistent (s : Sys) : Prop := pool_ok s.2.1.

(** The references an action brings in. *)
Definition requested (a : action) : list nat := match a with ASchedule r _ => [r] | _ => [] end.

Abbreviation safe inn m :=
  (triple places (λ s, pool_ok s.2.1) inn m (λ _ s, pool_ok s.2.1) (λ _, [])).

Lemma t_sys_sched {A} inn (m : M (Tracker * (Queue P * Env)) A) out :
  triple sched_pl (λ _, True) inn m (λ _ _, True) out →
  triple places (λ s, pool_ok s.2.1) inn (sys_sched m) (λ _ s, pool_ok s.2.1) out.
Proof.
  intros Hm. apply (t_envE _ _ (λ s, pool_ok s.1) _ _ (λ _ s, pool_ok s.1)). by apply t_envP.
Qed.
Lemma t_sys_env {A} inn (m : M Env A) :
  triple places (λ s, pool_ok s.2.1) inn (sys_env m) (λ _ s, pool_ok s.2.1) (λ _, inn).
Proof. apply t_sys_sched, t_on_env. Qed.
Lemma t_sys_pool {A} inn (m : M (Pool * (Tracker * (Queue P * Env))) A) out :
  triple pool_pl (λ s, pool_ok s.1) inn m (λ _ s, pool_ok s.1) out →
  triple places (λ s, pool_ok s.2.1) inn (env m) (λ _ s, pool_ok s.2.1) out.
Proof. apply (t_envE _ _ (λ s, pool_ok s.1) _ _ (λ _ s, pool_ok s.1)). Qed.
Lemma t_sys_threads inn f out :
  (∀ h, out ++ thread_refs (f h) ⊆+ inn ++ thread_refs h) →
  triple places (λ s, pool_ok s.2.1) inn (self (modify f)) (λ _ s, pool_ok s.2.1) (λ _, out).
Proof.
  intros Hf. apply (t_selfE _ _ (λ s, pool_ok s.1)), t_modify. auto.
Qed.
(** Reading the threads' state. *)
Lemma t_sys_read {A} inn (k : Threads → M Sys A) out :
  (∀ h, triple places (λ s, pool_ok s.2.1 ∧ s.1 = h) inn (k h) (λ _ s, pool_ok s.2.1) out) →
  triple places (λ s, pool_ok s.2.1) inn (bind (self get) k) (λ _ s, pool_ok s.2.1) out.
Proof. intros Hk [h s] o s' HP Hrun. by apply (Hk h (h, s)). Qed.
(** The same with the threads' state known. *)
Abbreviation known h := (λ s : Sys, pool_ok s.2.1 ∧ s.1 = h).
Lemma t_known h {A} inn (m : M (Pool * (Tracker * (Queue P * Env))) A) out :
  triple pool_pl (λ s, pool_ok s.1) inn m (λ _ s, pool_ok s.1) out →
  triple places (known h) inn (env m) (λ _ s, known h s) out.
Proof.
  intros Hm. eapply t_conseq;
    [apply (t_env _ _ (λ c, c = h) (λ s, pool_ok s.1) inn m (λ _ s, pool_ok s.1) out Hm)|naive_solver|naive_solver|done].
Qed.
Lemma t_known_sched h {A} inn (m : M (Tracker * (Queue P * Env)) A) out :
  triple sched_pl (λ _, True) inn m (λ _ _, True) out →
  triple places (known h) inn (sys_sched m) (λ _ s, known h s) out.
Proof. intros Hm. by apply t_known, t_envP. Qed.
Lemma t_take h f inn out :
  out ++ thread_refs (f h) ⊆+ inn ++ thread_refs h →
  triple places (known h) inn (self (modify f)) (λ _ s, pool_ok s.2.1) (λ _, out).
Proof.
  intros Hf. eapply t_conseq;
    [apply (t_self _ _ (λ c, c = h) (λ s, pool_ok s.1) inn _ (λ _ _, True) (λ _, out)), t_modify|naive_solver|naive_solver|done].
  by intros ? ->.
Qed.
Lemma t_known_ret h inn (a : unit) :
  triple places (known h) inn (ret a) (λ _ s, pool_ok s.2.1) (λ _, []).
Proof. apply t_ret; [naive_solver|apply submseteq_nil_l]. Qed.

(** ** Every action but the time-out monitor's *)
Lemma t_loop : safe [] scheduler_loop.
Proof.
  apply t_sys_read. intros h. destruct (th_loop h) as [| | |r|] eqn:Hl.
  - destruct (th_stop h); [apply t_take; by unfold thread_refs; rewrite Hl|].
    eapply t_bind; [apply (t_known h [] idle_workers (λ _, [])), (t_selfP _ _ pool_ok), t_get; by intros| |naive_solver|done].
    intros [|w l]; [apply t_known_ret|apply t_take; by unfold thread_refs; rewrite Hl].
  - eapply t_bind; [apply (t_known_sched h [] _ (λ _, [])), t_clock| |naive_solver|done].
    { apply t_neutral. by intros []. }
    intros []; apply t_take; by unfold thread_refs; rewrite Hl.
  - eapply (t_catch _ _ _ _ _ (λ _ s, pool_ok s.2.1) (λ _, [])); [| |done|done].
    + eapply t_bind; [apply t_known_sched, t_clock, t_dequeue| |naive_solver|done].
      intros r. apply t_take. unfold thread_refs; simpl. rewrite Hl, app_nil_r. apply Permutation_submseteq, Permutation_app_comm.
    + intros e. apply t_sys_threads. intros h'. unfold thread_refs; simpl. rewrite app_nil_r. by apply submseteq_inserts_r.
  - apply (t_lend _ [r]).
    eapply (t_bind _ _ _ _ _ (λ _ s, known h s) (λ o, match o with Ok _ => [] | Raise _ => [r] end));
      [|intros ?; apply (t_take h _ [] [r])|naive_solver|done].
    + eapply (t_catch _ _ _ _ _ (λ _ s, known h s) (λ _, [])); [apply t_known, t_submit|intros ?; by apply t_ret|done|done].
    + unfold thread_refs; simpl. rewrite Hl, app_nil_r. apply Permutation_submseteq, Permutation_cons_append.
  - apply t_known_ret.
Qed.

Lemma t_tracker : safe [] tracker_thread.
Proof.
  apply t_sys_read. intros h. destruct (th_due h) as [|x due] eqn:Hd.
  - eapply t_bind; [apply (t_known_sched h [] _ (λ _, [])), t_self', t_neutral; done|intros d|naive_solver|done].
    destruct (_ || _); [apply t_known_ret|].
    eapply t_bind; [apply (t_known_sched h), t_collect|intros l|naive_solver|done].
    apply t_take. unfold thread_refs; simpl. rewrite Hd. simpl. by rewrite (Permutation_app_comm l.*2).
  - eapply t_bind; [apply (t_take h _ [] [x.2])|intros ?|done|intros; apply submseteq_nil_l].
    + unfold thread_refs; simpl. by rewrite Hd.
    + apply t_sys_sched, t_release.
Qed.

Lemma t_supervisor : safe [] supervisor_thread.
Proof.
  apply t_sys_read. intros h.
  eapply t_bind; [apply (t_known h [] _ (λ _, [])), (t_selfP _ _ pool_ok); by intros ??? ? [= <- <-]|intros p|naive_solver|done].
  destruct (th_supervisor h); [|apply t_known_ret].
  destruct (pl_started p); [|by apply t_take].
  eapply (t_catch _ _ _ _ _ (λ _ s, pool_ok s.2.1) (λ _, [])); [| |done|done].
  { apply (t_conseq _ (λ s, pool_ok s.2.1) _ _ _ (λ _ s, pool_ok s.2.1) _ (λ _, []));
      [apply t_sys_pool, t_supervise|naive_solver|done|done]. }
  intros e. by apply t_sys_threads.
Qed.

Lemma t_stop_scheduler : safe [] stop_scheduler.
Proof.
  apply t_sys_read. intros h. destruct (th_started h); [|apply t_known_ret].
  eapply t_bind; [by apply (t_take h _ [] [])|intros ?|done|done].
  eapply (t_bind _ _ _ _ _ (λ _ s, pool_ok s.2.1) (λ _, [])); [|intros ?; apply t_sys_threads; intros h'; by destruct (th_monitor h')|done|done].
  apply t_sys_sched, t_neutral. intros [d s]. unfold stop_tracker. run_step. by destruct (dt_started d).
Qed.

Lemma t_perform a :
  a ≠ ATimeout → safe (requested a) (perform admission a).
Proof.
  unfold perform. destruct a; intros Ha; simpl; try done.
  - apply t_sys_pool, t_worker.
  - apply t_loop.
  - apply t_tracker.
  - apply t_supervisor.
  - by apply t_sys_sched, t_schedule.
  - apply t_stop_scheduler.
  - apply t_sys_pool, t_stop_pool.
Qed.
End places.

(** * The workers stay consistent, the time-out monitor included *)
Section consistency.
Context `{!Oracle} {P : Type} `{!SchedulingPolicy P}.
Abbreviation Sched := (Tracker * (Queue P * Env))%type.
Definition blind : Pool * Sched → list nat := both nowhere nowhere.
Abbreviation safe m := (triple blind (λ s, pool_ok s.1) [] m (λ _ s, pool_ok s.1) (λ _, [])).

Lemma t_blind_env {A} (m : M Sched A) :
  triple blind (λ s, pool_ok s.1) [] (env m) (λ _ s, pool_ok s.1) (λ _, []).
Proof. apply t_envP, t_nowhere. Qed.
Lemma t_blind_modify (f : Pool → Pool) : (∀ p, pool_ok p → pool_ok (f p)) → safe (self (modify f)).
Proof. intros Hf. apply (t_selfP _ _ pool_ok _ _ (λ _, pool_ok)), t_modify. naive_solver. Qed.
Lemma t_blind_log (m : M (Pool * Sched) unit) : safe m → safe (log_exceptions m).
Proof.
  intros Hm. eapply t_catch; [exact Hm|intros e|done|done]. simpl.
  destruct (isinstance e "Exception"); [by apply t_ret|apply t_raise].
Qed.
Lemma t_blind_timeout r : safe (handle_task_timeout r).
Proof.
  unfold handle_task_timeout. eapply t_bind; [by apply t_blind_modify|intros ?|done|done].
  do 3 (eapply t_bind; [apply t_blind_env|intros ?|done|done]). apply t_blind_env.
Qed.

Lemma update_ok w g p :
  (∀ x, worker_ok x → worker_ok (g x)) → pool_ok p →
  pool_ok (match dget (pl_workers p) w with Some x => with_workers (dset (pl_workers p) w (g x)) p | None => p end).
Proof.
  intros Hg Hp. destruct (dget (pl_workers p) w) as [x|] eqn:Hx; [|done].
  apply pool_ok_dset; [done|]. apply Hg. by eapply pool_ok_get.
Qed.

Lemma t_check now w : safe (check_timeout now w).
Proof.
  apply t_read. intros p Hp.
  apply (t_conseq _ (λ s, pool_ok s.1) _ _ _ (λ _ s, pool_ok s.1) _ (λ _, [])); [|by intros ? ->|done|done].
  destruct (_ ≫= _) as [[r start]|]; [|by apply t_ret].
  eapply t_bind; [apply t_blind_env|intros t|done|done].
  eapply t_bind; [apply t_of_outcome|intros []|done|done]; [|by apply t_ret].
  eapply t_bind; [apply t_blind_modify; intros q; by apply update_ok|intros ?|done|done].
  eapply t_bind; [apply t_blind_env|intros ?|done|done].
  apply t_blind_log, t_blind_timeout.
Qed.

Lemma timeout_thread_ok (s : Threads * (Pool * Sched)) :
  pool_ok s.2.1 → pool_ok (timeout_thread s).2.2.1.
Proof.
  intros Hs. destruct s as [h [p [d [q e]]]]. unfold timeout_thread. run_step.
  destruct (th_scan h) as [|w scan] eqn:Hscan; simpl.
  - by destruct (th_monitor h).
  - destruct (check_timeout (th_now h) w (p, (d, (q, e)))) as [o s'] eqn:E.
    destruct (t_check (th_now h) w _ _ _ Hs E) as [Hok _]. by destruct o.
Qed.
End consistency.

(** * Theorems *)
Section theorems.
Context `{!Oracle} {P : Type} `{!SchedulingPolicy P}.
Variable admission : option (list AdmissionPlugin).
Hypothesis Hadm : keeps_task admission.
Abbreviation Sys := (Threads * (Pool * (Tracker * (Queue P * Env))))%type.
Implicit Types (s : Sys).
Abbreviation run := (run (P:=P) admission).

Lemma perform_ok a s : pool_ok s.2.1 → pool_ok (perform admission a s).2.2.1.
Proof.
  intros Hs. assert (a = ATimeout ∨ a ≠ ATimeout) as [->|Ha] by (destruct a; auto).
  { by apply timeout_thread_ok. }
  destruct (perform admission a s) as [o s'] eqn:E. by destruct (t_perform admission Hadm a Ha s o s' Hs E).
Qed.

(** C13: In a pool whose workers agree with their threads ([worker_ok]), as in a new
    one, they still do whatever the threads do and in whatever order: a worker whose thread lives names just
    the task its thread recorded, until its [finally] block ends; one that is not
    being stopped is [IDLE] just while it names no task, and is [RUNNING] while
    its thread lives and it names one; one that is [FAILED] or [STOPPED] has no
    thread, so the supervisor never replaces a live one.  (A thread that an
    exception outside [Exception] ended stays [IDLE], or [RUNNING] with its task,
    and is never replaced.) *)
Theorem workers_consistent l s :
  pool_ok s.2.1 → ∀ w x, dget (pl_workers (run l s).2.1) w = Some x →
  worker_ok x ∧
  (wk_stop x = false → (wk_state x = IDLE ↔ wk_current x = None)) ∧
  (wk_stop x = false → wk_pc x ≠ Exited → is_Some (wk_current x) → wk_state x = RUNNING) ∧
  (wk_state x = FAILED ∨ wk_state x = STOPPED → wk_pc x = Exited).
Proof.
  intros Hs w x Hx. assert (worker_ok x) as Hok.
  { apply (pool_ok_get (run l s).2.1 w); [|done]. clear x Hx.
    revert s Hs. induction l as [|a l IH]; intros s Hs; [done|]. by apply IH, perform_ok. }
  split; [done|]. destruct Hok as [Hpc Hl]. split_and!.
  - intros Hns. rewrite Hns in Hpc. unfold is_Some in Hpc.
    destruct (wk_pc x), (wk_state x), (wk_current x); intuition (try congruence; try naive_solver).
  - intros Hns Hne [r Hr]. rewrite Hns, Hr in Hpc. unfold is_Some in Hpc.
    destruct (wk_pc x), (wk_state x); intuition (try congruence; try naive_solver).
  - intros Hst. clear Hpc. destruct (wk_pc x); [..|done]; destruct Hl; (done || tauto).
Qed.

(** The clients schedule each task object while no part of the runtime holds
    it, and no time-out fires. *)
Fixpoint clean (l : list action) s : Prop :=
  match l with
  | [] => True
  | a :: l => a ≠ ATimeout ∧ (∀ r, r ∈ requested a → r ∉ places s) ∧ clean l (perform admission a s).2
  end.

Lemma clean_places l s :
  pool_ok s.2.1 → NoDup (places s) → clean l s →
  pool_ok (run l s).2.1 ∧ NoDup (places (run l s)).
Proof.
  revert s. induction l as [|a l IH]; intros s Hs Hnd; [done|]. intros (Ha & Hr & Hc).
  apply IH; [by apply perform_ok| |done].
  destruct (perform admission a s) as [o s'] eqn:E. simpl.
  destruct (t_perform admission Hadm a Ha s o s' Hs E) as [_ Hsub]. simpl in Hsub.
  eapply submseteq_NoDup; [exact Hsub|]. destruct a; try exact Hnd. simpl in *.
  apply NoDup_cons. split; [|done]. apply Hr. by left.
Qed.

Lemma in_hand_disjoint (ws : odict Worker) w1 w2 x1 x2 r :
  NoDup (hands ws) → w1 ≠ w2 → dget ws w1 = Some x1 → dget ws w2 = Some x2 →
  r ∈ in_hand x1 → r ∉ in_hand x2.
Proof.
  intros Hnd Hne H1 H2 Hr1 Hr2. set (y := at_pc Exited x1).
  pose proof (hands_dset ws w1 x1 y H1) as Hp. simpl in Hp.
  rewrite <-Hp in Hnd. apply NoDup_app in Hnd as (_ & Hd & _).
  apply (Hd r); [|done]. pose proof (hands_dset (dset ws w1 y) w2 x2 (at_pc Exited x2)) as Hp2.
  simpl in Hp2. rewrite <-Hp2 by (by rewrite dget_dset_ne). apply elem_of_app. by right.
Qed.

(** As long as no time-out fires, a task object is in one place at a time:
    in the queue, the timer heap, a thread's hands or the pool's queue, once.
    No two workers ever execute the same task, and a task in execution is not
    scheduled again before its execution ends, retries included. *)
Theorem no_double_execution l s :
  pool_ok s.2.1 → NoDup (places s) → clean l s →
  let s' := run l s in
  NoDup (places s') ∧
  ∀ w x r, dget (pl_workers s'.2.1) w = Some x → r ∈ in_hand x →
    (∀ w' x', w' ≠ w → dget (pl_workers s'.2.1) w' = Some x' → r ∉ in_hand x') ∧
    (r ∉ pl_queue s'.2.1) ∧ (r ∉ heap_refs s'.2.2.1) ∧ (r ∉ queue_refs s'.2.2.2.1).
Proof.
  intros Hs Hnd Hc s'. destruct (clean_places l s Hs Hnd Hc) as [_ Hnd']. fold s' in Hnd'.
  split; [done|]. intros w x r Hx Hr. destruct s' as [h [p [d [q e]]]]; simpl in *.
  unfold places, both, pool_pl, sched_pl, queue_pl, both, nowhere, pool_refs in Hnd'; simpl in Hnd'.
  rewrite app_nil_r in Hnd'. apply NoDup_app in Hnd' as (_ & _ & Hnd').
  rewrite <-(assoc_L (++)) in Hnd'. apply NoDup_app in Hnd' as (_ & Hq & Hnd').
  apply NoDup_app in Hnd' as (Hh & Hd & _).
  assert (r ∈ hands (pl_workers p)) as Hin.
  { pose proof (hands_dset _ w x (at_pc Exited x) Hx) as Hp. simpl in Hp. rewrite <-Hp. apply elem_of_app. by right. }
  pose proof (Hd r Hin) as Hn. rewrite not_elem_of_app in Hn. split_and!; [|set_solver|naive_solver|naive_solver].
  intros w' x' Hne Hx'. by apply (in_hand_disjoint (pl_workers p) w w' x x').
Qed.
End theorems.


(** * From the queue to a worker and back *)
Section dispatch.
Context `{!Oracle} {P : Type} `{HP : PolicyLaws P}.
Variable admission : option (list AdmissionPlugin).
Abbreviation Sys := (Threads * (Pool * (Tracker * (Queue P * Env))))%type.
Implicit Types (h : Threads) (p : Pool) (d : Tracker) (q : Queue P) (e : Env).
Abbreviation run := (run (P:=P) admission).

(** A worker with nothing to do, waiting for the pool's queue. *)
Definition waiting (x : Worker) : Prop := wk_state x = IDLE ∧ wk_pc x = AtLoop ∧ wk_stop x = false.

Lemma run_cons a l s : run (a :: l) s = run l (perform admission a s).2.
Proof. done. Qed.
Lemma run_app l1 l2 s : run (l1 ++ l2) s = run l2 (run l1 s).
Proof. apply foldl_app. Qed.

Lemma workers_in_elem s p w x :
  dget (pl_workers p) w = Some x → wk_state x = s → w ∈ workers_in s p.
Proof.
  intros Hx Hs. unfold workers_in, dkeys. apply list_elem_of_fmap. exists (w, x). split; [done|].
  apply list_elem_of_filter. split; [done|]. by apply dget_Some_elem.
Qed.

Lemma dequeue_tasks q e : env_tasks (dequeue (q, e)).2.2 = env_tasks e.
Proof.
  unfold dequeue. run_step. destruct (pol_next _) as [[[i|]|x] p']; simpl; try done.
  destruct (q_storage q !! i) as [r|]; simpl; [|done].
  unfold deref; simpl. destruct (env_tasks e !! r) as [t|]; simpl; [|done].
  destruct (emit _ _) as [[[]|x] e'] eqn:Hem; simpl; by destruct (emit_facts _ _ _ _ _ Hem).
Qed.

(** Four steps of the loop move the queue's first task to the pool. *)
Lemma loop_dispatch h p d q e w x i l :
  th_loop h = Polling → th_stop h = false → pl_started p = true →
  dget (pl_workers p) w = Some x → wk_state x = IDLE →
  queue_inv (q, e) → env_store e = None → pol_live (q_policy q) = i :: l →
  ∃ q' e' r t, q_storage q !! i = Some r ∧ env_tasks e !! r = Some t ∧ task_id t = i ∧
    queue_inv (q', e') ∧ pol_live (q_policy q') = l ∧ env_tasks e' = env_tasks e ∧ env_store e' = None ∧
    run (replicate 4 ALoop) (h, (p, (d, (q, e)))) =
      (with_loop Polling h, (with_pool_queue (pl_queue p ++ [r]) p, (d, (q', e')))).
Proof.
  intros Hl Hstop Hst Hx Hidle Hinv He Hlive.
  pose proof (dequeue_spec q e Hinv) as Hd. rewrite Hlive in Hd.
  destruct Hd as (o & q' & e' & r & Hrun & Hinv' & Hl' & Hr & _ & _ & _ & Hem).
  pose proof (emitted_nostore _ _ _ _ _ Hem He) as ->.
  destruct Hem as (e1 & o' & He1 & _ & Hem & _). destruct (emit_facts _ _ _ _ _ Hem) as (_ & _ & Hnone).
  pose proof (dequeue_tasks q e) as Htk. rewrite Hrun in Htk; simpl in Htk.
  destruct (inv_ids _ Hinv i r Hr) as (t & Ht & Hid).
  pose proof (workers_in_elem IDLE p w x Hx Hidle) as Hin.
  assert ((qsize q =? 0) = false) as Hne.
  { apply Z.eqb_neq. intros E. apply (live_nil q e Hinv) in E. congruence. }
  exists q', e', r, t. split_and!; try done; [apply Hnone; congruence|].
  cbn [replicate]. rewrite run_cons. unfold perform at 1, scheduler_loop, idle_workers. run_step.
  rewrite Hl, Hstop; simpl.
  destruct (workers_in IDLE p) as [|u us]; [by apply not_elem_of_nil in Hin|]. simpl.
  rewrite run_cons. unfold perform at 1, scheduler_loop, is_empty, sys_sched. run_step. rewrite Hne; simpl.
  rewrite run_cons. unfold perform at 1, scheduler_loop, sys_sched. run_step. rewrite Hrun; simpl.
  rewrite run_cons. unfold perform at 1, scheduler_loop, submit_to_pool. run_step. by rewrite Hst; simpl.
Qed.

Lemma step_worker h p d q e w x f o :
  dget (pl_workers p) w = Some x →
  perform admission (AWorker w f o) (h, (p, (d, (q, e)))) =
    let '(r, s) := (match wk_pc x with
      | AtLoop => worker_loop w x
      | AtGet => worker_get w x
      | Got r => worker_mark w r
      | Marked r => worker_announce w x r
      | Executing r n => worker_execute w r n f o
      | Returned r n (Ok _) => worker_complete w r n
      | Returned r _ (Raise e) => if isinstance e "Exception" then worker_fail w r e else worker_abort w
      | Finishing => worker_finish w
      | Exited => ret tt
      end) (p, (d, (q, e))) in (r, (h, s)).
Proof. intros Hx. unfold perform, worker_step, zoom, bind, get; simpl. by rewrite Hx. Qed.

(** Four steps of a waiting worker start the pool's next task. *)
Lemma worker_takes h p d q e w x r t rs f o :
  dget (pl_workers p) w = Some x → waiting x → pl_queue p = r :: rs →
  env_tasks e !! r = Some t → env_store e = None →
  ∃ x' p' e' n, run (replicate 4 (AWorker w f o)) (h, (p, (d, (q, e)))) = (h, (p', (d, (q, e')))) ∧
    p' = with_workers (dset (pl_workers p) w x') (with_pool_queue rs p) ∧
    wk_pc x' = Executing r n ∧ wk_state x' = RUNNING ∧ wk_current x' = Some r ∧ wk_stop x' = false ∧
    wk_processed x' = wk_processed x ∧
    env_tasks e' = alter start r (env_tasks e) ∧ env_store e' = None.
Proof.
  intros Hx (Hs & Hpc & Hstop) Hq Ht He. cbn [replicate].
  rewrite run_cons, (step_worker _ _ _ _ _ _ _ _ _ Hx), Hpc. unfold worker_loop, update_worker. run_step.
  rewrite Hx, Hstop. rewrite run_cons. erewrite step_worker by apply dget_dset_eq. simpl.
  unfold worker_get, update_worker. run_step. rewrite Hq; simpl. rewrite dget_dset_eq.
  rewrite run_cons. erewrite step_worker by apply dget_dset_eq. simpl.
  unfold worker_mark, update_worker, pool_env, on_env. run_step. rewrite dget_dset_eq.
  rewrite run_cons. erewrite step_worker by apply dget_dset_eq. simpl.
  unfold worker_announce, update_worker, pool_env, on_env, emit, emit_meta, deref. run_step.
  rewrite Ht; simpl. rewrite He; simpl. rewrite He; simpl. rewrite dget_dset_eq; simpl.
  rewrite !dset_dset. eexists _, _, _, _. split; [done|]. split_and!; try done.
Qed.

(** With an idle worker, an empty pool queue and no store, eight steps (four
    of the scheduler's loop, four of the worker) bring the first task of the
    queue, in the policy's order, to execution: it leaves the queue, the
    others keep their order, and both the task and the worker are running. *)
Theorem dispatch_executes h p d q e w x i l f o :
  th_loop h = Polling → th_stop h = false → pl_started p = true → pl_queue p = [] →
  dget (pl_workers p) w = Some x → waiting x →
  queue_inv (q, e) → env_store e = None → pol_live (q_policy q) = i :: l →
  ∃ h' x' q' e' r t n, q_storage q !! i = Some r ∧ env_tasks e !! r = Some t ∧ task_id t = i ∧
    run (replicate 4 ALoop ++ replicate 4 (AWorker w f o)) (h, (p, (d, (q, e)))) =
      (h', (with_workers (dset (pl_workers p) w x') p, (d, (q', e')))) ∧
    queue_inv (q', e') ∧ pol_live (q_policy q') = l ∧
    wk_pc x' = Executing r n ∧ wk_state x' = RUNNING ∧ wk_current x' = Some r ∧
    env_tasks e' = alter start r (env_tasks e) ∧ env_store e' = None.
Proof.
  intros Hl Hstop Hst Hq Hx Hw Hinv He Hlive.
  destruct (loop_dispatch h p d q e w x i l) as (q' & e' & r & t & Hr & Ht & Hid & Hinv' & Hl' & Htk & He' & Hrun);
    try done; [by destruct Hw|].
  rewrite run_app, Hrun, Hq.
  destruct (worker_takes (with_loop Polling h) (with_pool_queue [r] p) d q' e' w x r t [] f o)
    as (x' & p' & e'' & n & Hrun' & -> & Hpc & Hs & Hc & _ & _ & Htk' & He''); try done; [by rewrite Htk|].
  simpl app. rewrite Hrun'. simpl. rewrite Htk in Htk'.
  eexists _, x', q', e'', r, t, n. split_and!; try done.
  - repeat f_equal. destruct p; simpl in *; by subst.
  - apply (queue_inv_env q' e'); [done|]. rewrite Htk', Htk. by apply ids_kept_alter.
Qed.

Lemma alter_alter_Some (m : gmap nat Task) r t f g :
  m !! r = Some t → alter g r (alter f r m) = <[r := g (f t)]> m.
Proof.
  intros Ht. apply map_eq. intros j. destruct (decide (r = j)) as [<-|Hj].
  - by rewrite !lookup_alter_eq, Ht, lookup_insert_eq.
  - by rewrite !lookup_alter_ne, lookup_insert_ne by done.
Qed.

(** The task as the worker leaves it after a normal return. *)
Definition finished (t : Task) : Task := match task_status t with Tasks.FAILED => t | _ => complete t end.
Definition failed (t : Task) : Task := match task_status t with Tasks.FAILED => t | _ => fail t end.

(** When the executor returns (no store), the task is completed, unless its
    status is already failed, the pool counts one completion, and the worker
    is idle again with no task; the queue and the timer heap are untouched. *)
Theorem execution_completes h p d q e w x r n t f :
  dget (pl_workers p) w = Some x → wk_pc x = Executing r n → wk_stop x = false →
  env_tasks e !! r = Some t → env_store e = None →
  ∃ x' e' duration,
    run (replicate 3 (AWorker w f (Ok tt))) (h, (p, (d, (q, e)))) =
      (h, (with_workers (dset (pl_workers p) w x') (add_completed duration p), (d, (q, e')))) ∧
    waiting x' ∧ wk_current x' = None ∧ wk_processed x' = wk_processed x + 1 ∧ wk_failures x' = wk_failures x ∧
    env_tasks e' = <[r := finished (f t)]> (env_tasks e) ∧ env_store e' = None.
Proof.
  intros Hx Hpc Hstop Ht He. cbn [replicate].
  rewrite run_cons, (step_worker _ _ _ _ _ _ _ _ _ Hx), Hpc. unfold worker_execute, update_worker, pool_env, on_env. run_step.
  rewrite Hx; simpl. rewrite run_cons. erewrite step_worker by apply dget_dset_eq. simpl.
  unfold worker_complete, update_worker, pool_env, on_env, emit, emit_meta, deref. run_step.
  rewrite lookup_alter_eq, lookup_alter_eq, Ht; simpl. rewrite He; simpl. rewrite dget_dset_eq; simpl.
  rewrite run_cons. erewrite step_worker by apply dget_dset_eq. simpl.
  unfold worker_finish, update_worker, pool_env, on_env. run_step. rewrite dget_dset_eq; simpl.
  rewrite !dset_dset. eexists _, _, _. split; [done|]. unfold finally_block, waiting; simpl. rewrite Hstop; simpl.
  split_and!; try done; [lia|]. by apply alter_alter_Some.
Qed.

(** C35: When the executor raises an [Exception] and the task may not be retried
    (no store), the task is failed, the pool and the worker count one failure,
    the worker is idle again, and nothing is scheduled. *)
Theorem execution_fails h p d q e w x r n t f error :
  dget (pl_workers p) w = Some x → wk_pc x = Executing r n → wk_stop x = false → wk_current x = Some r →
  env_tasks e !! r = Some t → env_store e = None →
  isinstance error "Exception" = true → should_retry (failed (f t)) error = Ok false →
  ∃ x' e',
    run (replicate 3 (AWorker w f (Raise error))) (h, (p, (d, (q, e)))) =
      (h, (with_workers (dset (pl_workers p) w x') (add_failed p), (d, (q, e')))) ∧
    waiting x' ∧ wk_current x' = None ∧ wk_processed x' = wk_processed x ∧ wk_failures x' = wk_failures x + 1 ∧
    env_tasks e' = <[r := failed (f t)]> (env_tasks e) ∧ env_store e' = None.
Proof.
  intros Hx Hpc Hstop Hc Ht He Hexc Hretry. cbn [replicate].
  rewrite run_cons, (step_worker _ _ _ _ _ _ _ _ _ Hx), Hpc. unfold worker_execute, update_worker, pool_env, on_env. run_step.
  rewrite Hx; simpl. rewrite run_cons. erewrite step_worker by apply dget_dset_eq. simpl. rewrite Hexc.
  unfold worker_fail, on_task_failed, log_exceptions, handle_task_failure, update_worker, pool_env, on_env, emit, emit_meta, deref.
  run_step. rewrite dget_dset_eq; simpl. rewrite Hc; simpl.
  rewrite lookup_alter_eq, lookup_alter_eq, Ht; simpl. fold (failed (f t)). rewrite Hretry; simpl. rewrite He; simpl.
  rewrite dget_dset_eq; simpl.
  rewrite run_cons. erewrite step_worker by apply dget_dset_eq. simpl.
  unfold worker_finish, update_worker, pool_env, on_env. run_step. rewrite dget_dset_eq; simpl.
  rewrite !dset_dset. eexists _, _. split; [done|]. unfold finally_block, waiting; simpl. rewrite Hstop; simpl.
  split_and!; try done; [lia|]. by apply alter_alter_Some.
Qed.

(** When the event store refuses the event of the start of a task, the
    worker's thread ends, with state [FAILED] if that is an [Exception], and the task is gone: no part of
    the runtime holds it, and its status is as it was. *)
Theorem crash_loses_task h p d q e w x r t tbl y f o :
  pool_ok p → dget (pl_workers p) w = Some x → wk_pc x = Marked r →
  env_tasks e !! r = Some t → env_store e = Some tbl → store_error (env_tick e) = Some y →
  NoDup (places (h, (p, (d, (q, e))))) →
  ∃ s', run [AWorker w f o] (h, (p, (d, (q, e)))) = (h, s') ∧ env_tasks s'.2.2.2 = env_tasks e ∧
    pl_workers s'.1 = dset (pl_workers p) w (crashed y x) ∧ r ∉ places (h, s').
Proof.
  intros Hp Hx Hpc Ht He Hy Hnd. rewrite run_cons, (step_worker _ _ _ _ _ _ _ _ _ Hx), Hpc.
  unfold worker_announce, pool_env, on_env, emit, emit_meta, deref. run_step. rewrite Ht; simpl. rewrite He.
  unfold append. rewrite Hy. unfold transaction; simpl. unfold update_worker. run_step. rewrite Hx.
  eexists. split; [done|]. simpl. split; [done|]. split; [done|]. intros Hin.
  pose proof (hands_dset (pl_workers p) w x (crashed y x) Hx) as Hh. rewrite crashed_hand in Hh. simpl in Hh.
  assert (in_hand x = [r]) as Hr by (unfold in_hand; by rewrite Hpc). rewrite Hr in Hh.
  revert Hnd Hin. unfold places, both, pool_pl, both, pool_refs; simpl. rewrite <-Hh.
  rewrite !NoDup_app, !elem_of_app. set_solver.
Qed.
End dispatch.

(** * Examples *)
Section examples.
#[local] Existing Instance sample_oracle.
#[local] Existing Instance FIFOPolicy.policy.
#[local] Existing Instance FIFOPolicy.laws.
Abbreviation FSys := (Threads * (Pool * (Tracker * (Queue FIFOPolicy.t * Env))))%type.

(** A runtime of [size] workers, started over the task objects [ts]. *)
Definition booted (size : nat) (ts : list (nat * Task)) : FSys :=
  (runtime_start size (new_threads, (new_pool, (new_tracker, (fifo None, sample_world None ts))))).2.
Definition dispatch : list action := replicate 4 ALoop.
Definition worker (w : string) (n : nat) (o : outcome unit) : list action := replicate n (AWorker w id o).
(** The workers in their executor, with their tasks. *)
Definition executing (s : FSys) : list (string * nat) :=
  omap (λ kx, match wk_pc kx.2 with Executing r _ => Some (kx.1, r) | _ => None end) (pl_workers s.2.1).

(** A task that may be retried once, at once, and times out immediately. *)
Definition timed_task : Task :=
  sample_task "t" [("retry_policy", VRetryPolicy (backoff_policy 1 0 2 None));
                   ("timeout_policy", VTimeoutPolicy {| timeout_seconds := PInt 0 |})].
Definition overtaken : list action :=
  [ASchedule 1 (PInt 0)] ++ dispatch ++ worker "W-001" 4 (Ok tt) ++ [ATimeout; ATimeout] ++
  dispatch ++ worker "W-002" 4 (Ok tt).

(** A time-out does not stop the thread that executes the task: retried, the
    same task object is executed by a second worker while the first is still
    in its executor.  Both then complete it: it is counted as completed twice
    and as failed once. *)
Theorem timeout_double_execution :
  let s := run None overtaken (booted 2 [(1%nat, timed_task)]) in
  let s' := run None (worker "W-001" 3 (Ok tt) ++ worker "W-002" 3 (Ok tt)) s in
  executing s = [("W-001", 1%nat); ("W-002", 1%nat)] ∧
  pl_completed s'.2.1 = 2 ∧ pl_failed s'.2.1 = 1 ∧
  task_status <$> env_tasks s'.2.2.2.2 !! 1%nat = Some COMPLETED.
Proof. vm_compute. auto. Qed.

Definition two_workers : FSys := booted 2 [(1%nat, sample_task "a" []); (2%nat, sample_task "b" [])].
Lemma two_workers_ok : pool_ok two_workers.2.1.
Proof.
  split; [apply (bool_decide_unpack _); vm_compute; exact I|].
  assert (∃ n m, pl_workers two_workers.2.1 = [("W-001", new_worker n); ("W-002", new_worker m)]) as (n & m & ->)
    by (by eexists _, _).
  do 2 (apply Forall_cons; split; [apply new_worker_ok|]). constructor.
Qed.

Lemma workers_consistent_witness :
  let l := [ASchedule 1 (PInt 0)] ++ dispatch ++ worker "W-001" 4 (Ok tt) in
  ∃ x, dget (pl_workers (run None l two_workers).2.1) "W-001" = Some x ∧ worker_ok x ∧
       wk_state x = RUNNING ∧ wk_current x = Some 1%nat.
Proof.
  intros l.
  assert (is_Some (dget (pl_workers (run None l two_workers).2.1) "W-001")) as [x Hx] by (vm_compute; eauto).
  exists x. split; [done|]. split; [exact (proj1 (workers_consistent None I l two_workers two_workers_ok "W-001" x Hx))|].
  assert ((wk_state <$> Some x, wk_current <$> Some x) = (Some RUNNING, Some (Some 1%nat))) as E
    by (rewrite <-Hx; vm_compute; reflexivity).
  injection E as E1 E2. split; [exact E1|exact E2].
Defined.

Definition two_tasks : list action :=
  [ASchedule 1 (PInt 0); ASchedule 2 (PInt 0)] ++ dispatch ++ dispatch ++
  worker "W-001" 4 (Ok tt) ++ worker "W-002" 4 (Ok tt).

Lemma no_double_execution_witness :
  let s := run None two_tasks two_workers in
  executing s = [("W-001", 1%nat); ("W-002", 2%nat)] ∧ NoDup (places s).
Proof.
  intros s. split; [vm_compute; reflexivity|].
  apply (no_double_execution None I two_tasks two_workers).
  - apply two_workers_ok.
  - apply (bool_decide_unpack _). vm_compute. exact I.
  - repeat split; try discriminate; intros r Hr; simpl in Hr; try (by apply elem_of_nil in Hr);
      apply list_elem_of_singleton in Hr as ->; apply (bool_decide_unpack _); vm_compute; exact I.
Defined.

(** A started pool whose only worker waits, with one queued task. *)
Definition one_task : list (nat * Task) := [(1%nat, sample_task "a" [])].
Definition one_worker : Pool := (booted 1 one_task).2.1.
Definition polling : Threads := (booted 1 one_task).1.

Lemma full_fifo_inv : queue_inv (full_fifo, sample_world None one_task).
Proof.
  constructor; simpl.
  - apply NoDup_singleton.
  - intros i. rewrite list_elem_of_singleton. split.
    + intros ->. by eexists.
    + intros [r [<- _]%lookup_singleton_Some]. done.
  - intros i r [<- <-]%lookup_singleton_Some. by eexists.
  - intros m [= <-]. vm_compute. done.
  - reflexivity.
Qed.

Lemma dispatch_executes_witness :
  let d := new_tracker in
  ∃ h' x' q' e' n,
    run None (replicate 4 ALoop ++ replicate 4 (AWorker "W-001" id (Ok tt)))
      (polling, (one_worker, (d, (full_fifo, sample_world None one_task)))) =
      (h', (with_workers (dset (pl_workers one_worker) "W-001" x') one_worker, (d, (q', e')))) ∧
    pol_live (q_policy q') = [] ∧ wk_pc x' = Executing 1 n ∧ wk_state x' = RUNNING.
Proof.
  intros d.
  assert (∃ x, dget (pl_workers one_worker) "W-001" = Some x ∧ waiting x) as (x & Hx & Hw)
    by (eexists; split; [vm_compute; reflexivity|repeat split]).
  destruct (dispatch_executes None polling one_worker d full_fifo (sample_world None one_task) "W-001" x
    "a" [] id (Ok tt) eq_refl eq_refl eq_refl eq_refl Hx Hw full_fifo_inv eq_refl eq_refl)
    as (h' & x' & q' & e' & r & t & n & Hr & _ & _ & Hrun & _ & Hl & Hpc & Hs & _ & _).
  assert (r = 1%nat) as -> by (vm_compute in Hr; by injection Hr as <-).
  exists h', x', q', e', n. repeat split; assumption.
Defined.

(** The same worker in its executor. *)
Definition busy (c : pc) : Pool :=
  with_workers [("W-001", in_state RUNNING (at_pc c (on_job (Some 1%nat) (Some 3%nat) 3 (new_worker 2))))] one_worker.

Lemma execution_completes_witness :
  ∃ x' e' duration,
    run None (replicate 3 (AWorker "W-001" id (Ok tt)))
      (polling, (busy (Executing 1 4), (new_tracker, (fifo None, sample_world None one_task)))) =
      (polling, (with_workers [("W-001", x')] (add_completed duration one_worker),
                 (new_tracker, (fifo None, e')))) ∧
    waiting x' ∧ wk_processed x' = 1 ∧ task_status <$> env_tasks e' !! 1%nat = Some COMPLETED.
Proof.
  destruct (execution_completes None polling (busy (Executing 1 4)) new_tracker (fifo None) (sample_world None one_task)
    "W-001" _ 1 4 (sample_task "a" []) id eq_refl eq_refl eq_refl eq_refl eq_refl)
    as (x' & e' & du & Hrun & Hw & _ & Hp & _ & Ht & _).
  exists x', e', du. split; [exact Hrun|]. split; [exact Hw|]. split; [exact Hp|].
  rewrite Ht, lookup_insert_eq. reflexivity.
Defined.

Lemma execution_fails_witness :
  ∃ x' e',
    run None (replicate 3 (AWorker "W-001" id (Raise IndexError)))
      (polling, (busy (Executing 1 4), (new_tracker, (fifo None, sample_world None one_task)))) =
      (polling, (with_workers [("W-001", x')] (add_failed one_worker), (new_tracker, (fifo None, e')))) ∧
    waiting x' ∧ wk_failures x' = 1 ∧ task_status <$> env_tasks e' !! 1%nat = Some Tasks.FAILED.
Proof.
  destruct (execution_fails None polling (busy (Executing 1 4)) new_tracker (fifo None) (sample_world None one_task)
    "W-001" _ 1 4 (sample_task "a" []) id IndexError eq_refl eq_refl eq_refl eq_refl eq_refl eq_refl eq_refl eq_refl)
    as (x' & e' & Hrun & Hw & _ & _ & Hf & Ht & _).
  exists x', e'. split; [exact Hrun|]. split; [exact Hw|]. split; [exact Hf|].
  rewrite Ht, lookup_insert_eq. reflexivity.
Defined.
End examples.

(** A store that is locked at the tenth reading. *)
Definition locked_oracle : Oracle := {|
  uuid4 := @uuid4 sample_oracle; now_iso := @now_iso sample_oracle; time_now := @time_now sample_oracle;
  now_us := @now_us sample_oracle; iso_timestamp := @iso_timestamp sample_oracle; fpow := @fpow sample_oracle;
  store_error n := if decide (n = 10%nat) then Some (UserExc ["OperationalError"; "Exception"] "database is locked") else None;
  commit_error n := None
|}.

Section locked.
#[local] Existing Instance locked_oracle.
#[local] Existing Instance FIFOPolicy.policy.
#[local] Existing Instance FIFOPolicy.laws.

Lemma busy_ok c : c = Marked 1 ∨ (∃ n, c = Executing 1 n) → pool_ok (busy c).
Proof.
  intros Hc. split; [apply NoDup_singleton|]. apply Forall_singleton.
  destruct Hc as [->|[n ->]]; (split; [split; [done|by left]|done]).
Qed.

Lemma crash_loses_task_witness :
  let e := sample_world (Some empty_table) one_task in
  let p := busy (Marked 1) in
  ∃ s', run (P:=FIFOPolicy.t) None [AWorker "W-001" id (Ok tt)] (polling, (p, (new_tracker, (fifo None, e)))) = (polling, s') ∧
    wk_state <$> dget (pl_workers s'.1) "W-001" = Some WorkerPool.FAILED ∧ 1%nat ∉ places (polling, s').
Proof.
  intros e p.
  destruct (crash_loses_task (P:=FIFOPolicy.t) None polling p new_tracker (fifo None) e "W-001"
    (in_state RUNNING (at_pc (Marked 1) (on_job (Some 1%nat) (Some 3%nat) 3 (new_worker 2)))) 1 (sample_task "a" []) empty_table
    (UserExc ["OperationalError"; "Exception"] "database is locked") id (Ok tt)) as (s' & Hrun & _ & Hw & Hn).
  - apply busy_ok. by left.
  - reflexivity.
  - reflexivity.
  - reflexivity.
  - reflexivity.
  - reflexivity.
  - apply (bool_decide_unpack _). vm_compute. exact I.
  - exists s'. split; [exact Hrun|]. split; [rewrite Hw; reflexivity|exact Hn].
Defined.
End locked.
