(* ===== verification/Timeline.v ===== *)
(** The shared environment only moves forward: the clock of the oracle's
    readings never goes back, and the event log, where there is one, is only
    appended to, under consecutive sequence numbers, with ids it does not hold
    yet, and with events that carry no metadata unless they report a
    submission.  A computation that respects this is [forward]; the rules follow
    the monad, the hint database [forward] holds the operations, and a thread's
    action is forward because its operations are. *)
From S2P Require Import Prelude PyNum Heapq Values Decode Events EventStore Tasks Policy.
From S2P Require Import TaskQueue Admission Retry Delayed Scheduler WorkerPool System.
Open Scope Z_scope.

(** * The order on environments *)

(** The rows of the log. *)
Definition history (e : Env) : list event_row :=
  match env_store e with Some tbl => rows tbl | None => [] end.
(** A log as the event store's schema keeps it: [sequence_number] counts from
    1, [event_id] is unique. *)
Definition log_ok (tbl : EventTable) : Prop :=
  sequence_number <$> rows tbl = seqZ 1 (Z.of_nat (length (rows tbl))) ∧
  next_sequence tbl = Z.of_nat (length (rows tbl)) + 1 ∧
  NoDup (row_event_id <$> rows tbl).

(** The events the runtime logs: only a submission has metadata, those of the
    task. *)
Definition bare (ev : RuntimeEvent) : Prop :=
  event_metadata ev = [] ∨ ∃ i title ty, data ev = TaskSubmitted i title ty.
Definition bare_row (r : event_row) : Prop := ∃ ev, event_to_row (sequence_number r) ev = Ok r ∧ bare ev.
Definition table_later (tbl tbl' : EventTable) : Prop :=
  (∃ new, rows tbl' = rows tbl ++ new ∧ Forall bare_row new) ∧ (log_ok tbl → log_ok tbl').
Definition store_later : relation (option EventTable) := option_Forall2 table_later.
Definition env_later (e e' : Env) : Prop :=
  (env_tick e ≤ env_tick e')%nat ∧ store_later (env_store e) (env_store e').

#[export] Instance table_later_po : PreOrder table_later.
Proof.
  split.
  - intros t. split; [|done]. exists []. by rewrite app_nil_r.
  - intros t1 t2 t3 [(n1 & H1 & B1) K1] [(n2 & H2 & B2) K2]. split; [|auto]. exists (n1 ++ n2).
    rewrite H2, H1, (assoc_L (++)). split; [done|]. by apply Forall_app.
Qed.
Lemma table_later_prefix tbl tbl' : table_later tbl tbl' → rows tbl `prefix_of` rows tbl'.
Proof. intros [(new & -> & _) _]. by apply prefix_app_r. Qed.
#[export] Instance store_later_po : PreOrder store_later.
Proof.
  split; [intros [t|]; by constructor|].
  intros ??? [t1 t2 H1|] H2; [|done]. inversion H2 as [? t3 H3|]; subst. constructor. by etrans.
Qed.

(** The same order on the states the environment is a part of. *)
Class Timeline (S : Type) : Type := {
  later : relation S;
  later_po : PreOrder later
}.
#[export] Existing Instance later_po.
#[export] Program Instance env_timeline : Timeline Env := {| later := env_later |}.
Next Obligation.
  split; [by intros e; split|]. intros e1 e2 e3 [??] [??]. split; [lia|by etrans].
Qed.
#[export] Program Instance pair_timeline {C E} `{!Timeline E} : Timeline (C * E) :=
  {| later s s' := later s.2 s'.2 |}.
Next Obligation. intros C E ?. split; [by intros s|]. intros s1 s2 s3 ??. by etrans. Qed.

Definition forward {S A} `{!Timeline S} (m : M S A) : Prop := ∀ s, later s (m s).2.

(** * Rules *)
Create HintDb forward.

Section rules.
Context {S : Type} `{!Timeline S}.

Lemma f_ret {A} (a : A) : forward (ret (S:=S) a).
Proof. by intros s. Qed.
Lemma f_raise {A} e : forward (raise (S:=S) (A:=A) e).
Proof. by intros s. Qed.
Lemma f_of_outcome {A} (o : outcome A) : forward (of_outcome (S:=S) o).
Proof. by intros s. Qed.
Lemma f_get : forward (get (S:=S)).
Proof. by intros s. Qed.
Lemma f_bind {A B} (m : M S A) (k : A → M S B) :
  forward m → (∀ a, forward (k a)) → forward (bind m k).
Proof.
  intros Hm Hk s. specialize (Hm s). unfold bind. destruct (m s) as [[a|e] s']; [|done].
  etrans; [exact Hm|apply Hk].
Qed.
Lemma f_catch {A} (m : M S A) h : forward m → (∀ e, forward (h e)) → forward (catch m h).
Proof.
  intros Hm Hh s. specialize (Hm s). unfold catch. destruct (m s) as [[a|e] s']; [done|].
  etrans; [exact Hm|apply Hh].
Qed.
Lemma f_for_each {A} (l : list A) (body : A → M S unit) :
  (∀ x, forward (body x)) → forward (for_each l body).
Proof. intros Hb. induction l as [|x l IH]; [apply f_ret|]. by apply f_bind. Qed.

Lemma f_self {C A} (m : M C A) : forward (S:=C * S) (self m).
Proof. intros [c s]. unfold zoom; simpl. by destruct (m c). Qed.
Lemma f_env {C A} (m : M S A) : forward m → forward (S:=C * S) (env m).
Proof. intros Hm [c s]. specialize (Hm s). unfold zoom; simpl in *. by destruct (m s). Qed.
End rules.
#[export] Hint Resolve f_ret f_raise f_of_outcome f_get f_self : forward.

(** Down the structure of a computation, with the operations of the database
    at the leaves. *)
Ltac forward :=
  repeat first
    [ solve [eauto 3 with forward nocore]
    | progress intros
    | apply f_bind
    | apply f_catch
    | apply f_for_each
    | apply f_env
    | match goal with
      | |- forward (match ?x with _ => _ end) => destruct x
      end ].

(** * The environment *)
Section environment.
Context `{!Oracle}.

Lemma insert_event_later ev tbl tbl' : bare ev → insert_event ev tbl = Ok tbl' → table_later tbl tbl'.
Proof.
  intros Hev. unfold insert_event. destruct (event_to_row _ ev) as [r|] eqn:Hr; simpl; [|done].
  case_decide as Hid; [done|]. intros [= <-]. pose proof Hr as (Hn & Hi & _)%event_to_row_inv.
  split; simpl.
  { exists [r]. split; [done|]. apply Forall_singleton. exists ev. by rewrite Hn. }
  intros (Hseq & Hnext & Hnd). split_and!; simpl.
  - rewrite fmap_app, Hseq, length_app; csimpl. rewrite Nat2Z.inj_add, seqZ_app by lia. f_equal.
    rewrite Hn, Hnext. unfold seqZ; simpl. f_equal. lia.
  - rewrite length_app; simpl. lia.
  - rewrite fmap_app; csimpl. apply NoDup_app. split_and!; [done| |apply NoDup_singleton].
    intros x Hx ->%list_elem_of_singleton. by rewrite Hi in Hx.
Qed.
Lemma append_later n ev tbl : bare ev → table_later tbl (append n ev tbl).2.
Proof.
  intros Hev. unfold append, transaction. destruct (store_error n); [done|].
  destruct (insert_event ev tbl) as [tbl'|] eqn:E; [|done]. by eapply insert_event_later.
Qed.

Lemma f_tick : forward tick.
Proof. intros e. split; simpl; [lia|done]. Qed.
Lemma f_deref r : forward (deref r).
Proof. intros e. unfold deref. by destruct (_ !! r). Qed.
Lemma f_update_task r f : forward (update_task r f).
Proof. by intros e. Qed.
Lemma f_on_task {A} r (m : M Task A) : forward (on_task r m).
Proof. intros e. unfold on_task. destruct (_ !! r) as [t|]; [|done]. by destruct (m t). Qed.
Lemma f_emit_meta d meta : meta = [] ∨ (∃ i title ty, d = TaskSubmitted i title ty) → forward (emit_meta d meta).
Proof.
  intros Hd e. unfold emit_meta. destruct (env_store e) as [tbl|] eqn:He; [|done].
  pose proof (append_later (env_tick e) {| event_id := uuid4 (env_tick e); runtime_id := "default-runtime";
    correlation_id := None; causation_id := None; timestamp := now_iso (env_tick e);
    event_type := class_name d; event_version := 1; event_metadata := meta; data := d |} tbl Hd) as Hl.
  destruct (append _ _ tbl) as [o tbl']. split; simpl; [lia|]. rewrite He. by constructor.
Qed.
Lemma f_emit d : forward (emit d).
Proof. apply f_emit_meta. by left. Qed.
Lemma f_emit_submitted i title ty meta : forward (emit_meta (TaskSubmitted i title ty) meta).
Proof. apply f_emit_meta. right. by exists i, title, ty. Qed.
Lemma f_new_task title ty md : forward (new_task title ty md).
Proof.
  intros e. rewrite new_task_run. destruct (str_truthy _); (split; simpl; [lia|done]).
Qed.
End environment.
#[export] Hint Resolve f_tick f_deref f_update_task f_on_task f_emit_submitted f_emit f_new_task : forward.

(** * The operations *)

(** The admission plugins are code of the client's: they move forward too. *)
Definition plugins_forward (admission : option (list AdmissionPlugin)) : Prop :=
  match admission with
  | Some plugins => Forall (λ p, ∀ r, forward (admits p r)) plugins
  | None => True
  end.

Section operations.
Context `{!Oracle} {P : Type} `{!SchedulingPolicy P}.

Lemma f_submit plugins r :
  Forall (λ p, ∀ r, forward (admits p r)) plugins → forward (submit plugins r).
Proof.
  intros Hp. revert r. induction Hp as [|p ps Hp _ IH]; intros r; simpl; forward.
Qed.

Lemma f_publish ev : forward (publish (P:=P) ev).
Proof. unfold publish. forward. Qed.
Lemma f_enqueue r : forward (enqueue (P:=P) r).
Proof. unfold enqueue, stamp_queued_at. forward. Qed.
Lemma f_dequeue : forward (dequeue (P:=P)).
Proof. unfold dequeue. forward. Qed.
Lemma f_is_empty : forward (is_empty (P:=P)).
Proof. unfold is_empty. forward. Qed.
Lemma f_on_env {A} (m : M Env A) : forward m → forward (on_env (P:=P) m).
Proof. intros Hm. by do 2 apply f_env. Qed.
Lemma f_ready r : forward (on_delayed_task_ready (P:=P) r).
Proof. unfold on_delayed_task_ready. forward. Qed.
Lemma f_delay_task r delay : forward (delay_task (P:=P) r delay).
Proof. unfold delay_task, add_delayed_task, wall_clock. forward. Qed.
#[local] Hint Resolve f_on_env f_delay_task f_enqueue f_ready : forward.
Lemma f_failure r error : forward (handle_task_failure (P:=P) r error).
Proof. unfold handle_task_failure, on_env. forward. Qed.
Lemma f_schedule admission r delay :
  plugins_forward admission → forward (schedule (P:=P) admission r delay).
Proof.
  intros Ha. unfold schedule. destruct admission as [plugins|]; forward; by apply f_submit.
Qed.
Lemma f_collect : forward (S:=Tracker * (Queue P * Env)) (collect_due wall_clock).
Proof. unfold collect_due, wall_clock. forward. Qed.
Lemma f_release x : forward (S:=Tracker * (Queue P * Env)) (release on_delayed_task_ready x).
Proof. unfold release. forward. Qed.

Lemma f_add_task r : forward (add_task r).
Proof. unfold add_task. forward. Qed.
End operations.
#[export] Hint Resolve f_publish f_enqueue f_dequeue f_is_empty f_ready f_delay_task f_failure f_schedule
  f_collect f_release f_add_task : forward.

(** * The threads *)
Section threads.
Context `{!Oracle} {P : Type} `{!SchedulingPolicy P}.
Abbreviation Sched := (Tracker * (Queue P * Env))%type.
Abbreviation PM A := (M (Pool * Sched) A).

Lemma f_pool_env {A} (m : M Env A) : forward m → forward (S:=Pool * Sched) (pool_env m).
Proof. intros Hm. by do 3 apply f_env. Qed.
Lemma f_update w g : forward (S:=Pool * Sched) (update_worker w g).
Proof. apply f_self. Qed.
Lemma f_log (m : PM unit) : forward m → forward (log_exceptions m).
Proof. intros Hm. unfold log_exceptions. by forward. Qed.
#[local] Hint Resolve f_pool_env f_update f_log : forward.

Lemma f_start_pool size : forward (S:=Pool * Sched) (start_pool size).
Proof. unfold start_pool. forward. Qed.
Lemma f_stop_pool : forward (S:=Pool * Sched) stop_pool.
Proof. unfold stop_pool. forward. Qed.
Lemma f_submit_to_pool r : forward (S:=Pool * Sched) (submit_to_pool r).
Proof. unfold submit_to_pool. forward. Qed.
Lemma f_supervise : forward (S:=Pool * Sched) supervise.
Proof. unfold supervise, supervise_worker. forward. Qed.
Lemma f_on_failed w error : forward (S:=Pool * Sched) (on_task_failed w error).
Proof. unfold on_task_failed. forward. Qed.
Lemma f_abort w : forward (S:=Pool * Sched) (worker_abort w).
Proof. unfold worker_abort. forward. Qed.
Lemma f_worker_step w f o : forward (S:=Pool * Sched) (worker_step w f o).
Proof.
  unfold worker_step. apply f_bind; [forward|intros p]. destruct (dget _ w) as [x|]; [|forward].
  destruct (wk_pc x) as [| |r|r|r n|r n [?|e]| |].
  - unfold worker_loop. forward.
  - unfold worker_get. forward.
  - unfold worker_mark. forward.
  - unfold worker_announce. forward.
  - unfold worker_execute. forward.
  - unfold worker_complete, on_task_completed. forward.
  - destruct (isinstance e "Exception"); [unfold worker_fail; forward; apply f_on_failed|apply f_abort].
  - unfold worker_finish. forward.
  - forward.
Qed.
Lemma f_check now w : forward (S:=Pool * Sched) (check_timeout now w).
Proof. unfold check_timeout, handle_task_timeout. forward. Qed.

Lemma f_sys_sched {A} (m : M Sched A) : forward m → forward (sys_sched m).
Proof. intros Hm. by do 2 apply f_env. Qed.
Lemma f_sys_env {A} (m : M Env A) : forward m → forward (sys_env (P:=P) m).
Proof. intros Hm. by do 4 apply f_env. Qed.
#[local] Hint Resolve f_start_pool f_stop_pool f_submit_to_pool f_supervise f_check f_sys_sched f_sys_env : forward.

Lemma f_start_scheduler : forward (start_scheduler (P:=P)).
Proof. unfold start_scheduler, start_tracker. forward. Qed.
Lemma f_runtime_start size : forward (runtime_start (P:=P) size).
Proof. unfold runtime_start. forward. Qed.

Lemma f_perform admission a : plugins_forward admission → forward (perform (P:=P) admission a).
Proof.
  intros Ha. destruct a; simpl.
  - apply f_env, f_worker_step.
  - unfold scheduler_loop, idle_workers. forward; apply f_sys_sched; forward.
  - unfold tracker_thread. forward.
  - unfold timeout_thread, active_workers. forward.
  - unfold supervisor_thread. forward.
  - apply f_sys_sched. forward.
  - unfold stop_scheduler, stop_tracker. forward.
  - apply f_env, f_stop_pool.
Qed.
End threads.
