(* ===== verification/Runtime.v ===== *)
(** [runtime.py]: the wiring of [Runtime.__init__] and a client's session with
    the runtime.  The state is the task manager next to the threads of
    [System]; a session is any sequence of submissions and of actions of the
    runtime's threads. *)
From S2P Require Import Prelude PyNum Heapq Values Decode Events EventStore Tasks Policy.
From S2P Require Import TaskQueue Admission Retry Delayed Scheduler WorkerPool Accounting System Timeline.
Open Scope Z_scope.

#[local] Arguments perform {_ _ _} _ _ : simpl never.
#[local] Arguments run {_ _ _} _ _ _ : simpl never.

(** * Operations *)
Section runtime.
Context `{!Oracle} {P : Type} `{!SchedulingPolicy P}.
Abbreviation Sched := (Tracker * (Queue P * Env))%type.
Abbreviation RT := (TaskManager * (Threads * (Pool * Sched)))%type.

(** [Runtime.__init__]: the queue, the pool and the scheduler it makes when it
    is given none *)
Definition new_runtime (task_manager : TaskManager) (e : Env) : RT :=
  (task_manager, (new_threads, (new_pool, (new_tracker, (new_queue None, e))))).
(** its chain when it is given no admission controller *)
Definition runtime_admission (admission_controller : option (list AdmissionPlugin)) : list AdmissionPlugin :=
  match admission_controller with
  | None => [MetadataMutatorPlugin 0; TaskValidatorPlugin 255]
  | Some plugins => plugins
  end.
Definition pool_size : nat := 4.

Definition runtime_sched : lens RT (TaskManager * Sched) :=
  Lens (λ s, (s.1, s.2.2.2)) (λ x s, (x.1, (s.2.1, (s.2.2.1, x.2)))).

Variable admission_controller : option (list AdmissionPlugin).
Abbreviation admission := (Some (runtime_admission admission_controller)).

Record submission : Type := {
  sb_title : string;
  sb_type : TaskType;
  sb_metadata : option (odict pyval);
  sb_delay : num
}.
Definition client_submit (b : submission) : M RT nat :=
  zoom runtime_sched (submit_task admission (sb_title b) (sb_type b) (sb_metadata b) (sb_delay b)).
Definition client_start : M RT unit := env (runtime_start pool_size).

Inductive call : Type :=
  | Submit (b : submission)
  | Thread (a : action).
(** The client learns how its call ended from the call; a thread's exception is
    in the state it leaves. *)
Definition answer (c : call) (s : RT) : RT :=
  match c with
  | Submit b => (client_submit b s).2
  | Thread a => (env (perform admission a) s).2
  end.
Definition session (l : list call) (s : RT) : RT := foldl (λ s c, answer c s) s l.

(** The state after submissions made before [start], the start, and whatever
    follows it. *)
Definition life (early : list submission) (late : list call) (s : RT) : RT :=
  session late (client_start (session (Submit <$> early) s)).2.
End runtime.
#[local] Arguments client_submit {_ _ _} _ _ : simpl never.
#[local] Arguments answer {_ _ _} _ _ : simpl never.
#[local] Arguments session {_ _ _} _ _ _ : simpl never.

(** * Sessions only move forward *)
Section sessions.
Context `{!Oracle} {P : Type} `{!SchedulingPolicy P}.
Variable admission_controller : option (list AdmissionPlugin).
Hypothesis Hfwd : plugins_forward (Some (runtime_admission admission_controller)).
Abbreviation RT := (TaskManager * (Threads * (Pool * (Tracker * (Queue P * Env)))))%type.
Abbreviation session := (session (P:=P) admission_controller).
Abbreviation answer := (answer (P:=P) admission_controller).
Implicit Types (s : RT).

Lemma f_manager {A} (m : M (TaskManager * Env) A) :
  forward m → forward (zoom (manager_env (P:=P)) m).
Proof.
  intros Hm [mgr [d [q e]]]. specialize (Hm (mgr, e)). unfold zoom; simpl in *.
  by destruct (m (mgr, e)) as [o [mgr' e']].
Qed.
Lemma f_runtime_sched {A} (m : M (TaskManager * (Tracker * (Queue P * Env))) A) :
  forward m → forward (zoom runtime_sched m).
Proof.
  intros Hm [mgr [h [p s]]]. specialize (Hm (mgr, s)). unfold zoom; simpl in *.
  by destruct (m (mgr, s)) as [o [mgr' s']].
Qed.
#[local] Hint Resolve f_on_env f_manager : forward.
Lemma f_submit_task title ty md delay :
  forward (submit_task (P:=P) (Some (runtime_admission admission_controller)) title ty md delay).
Proof. unfold submit_task. forward. Qed.
Lemma answer_later c s : later s (answer c s).
Proof.
  destruct c as [b|a].
  - apply f_runtime_sched, f_submit_task.
  - by apply (f_env (perform _ a) (f_perform _ a Hfwd)).
Qed.
Lemma session_later l s : later s (session l s).
Proof.
  revert s. induction l as [|c l IH]; intros s; [done|]. etrans; [apply (answer_later c)|apply IH].
Qed.
Lemma start_later s : later s (client_start s).2.
Proof. apply (f_env (runtime_start pool_size)), f_runtime_start. Qed.
Lemma life_later early late s : later s (life admission_controller early late s).
Proof.
  unfold life. etrans; [apply (session_later (Submit <$> early))|].
  etrans; [apply start_later|apply session_later].
Qed.
Lemma life_app early l1 l2 s :
  life admission_controller early (l1 ++ l2) s = session l2 (life admission_controller early l1 s).
Proof. unfold life, session. by rewrite foldl_app. Qed.
End sessions.

(** * Where the tasks of a session are *)
Section exclusion.
Context `{!Oracle} {P : Type} `{!SchedulingPolicy P}.
Variable admission_controller : option (list AdmissionPlugin).
Abbreviation admission := (Some (runtime_admission admission_controller)).
Hypothesis Hfwd : plugins_forward admission.
Hypothesis Hkeep : keeps_task admission.
Abbreviation Sys := (Threads * (Pool * (Tracker * (Queue P * Env))))%type.
Abbreviation RT := (TaskManager * Sys)%type.
Implicit Types (s : RT).

Definition environment (s : Sys) : Env := s.2.2.2.2.
(** Every task object is held once, and the next one to be made is held
    nowhere. *)
Record exclusive (s : Sys) : Prop := {
  ex_workers : pool_ok s.2.1;
  ex_once : NoDup (places s);
  ex_drawn : Forall (λ r, r < env_tick (environment s))%nat (places s)
}.

(** A step that brings in [inn], drawn between the two clocks. *)
Lemma exclusive_step (inn : list nat) (s s' : Sys) :
  exclusive s → pool_ok s'.2.1 → NoDup inn →
  Forall (λ r, env_tick (environment s) ≤ r < env_tick (environment s'))%nat inn →
  places s' ⊆+ inn ++ places s → (env_tick (environment s) ≤ env_tick (environment s'))%nat →
  exclusive s'.
Proof.
  intros [_ Hnd Hlt] Hok Hinn Hnew Hsub Hle. rewrite Forall_forall in Hlt, Hnew. split; [done| |].
  - eapply submseteq_NoDup; [exact Hsub|]. apply NoDup_app. split_and!; [done| |done].
    intros r Hr Hp. specialize (Hlt r Hp). specialize (Hnew r Hr). lia.
  - apply Forall_forall. intros r Hr. eapply elem_of_submseteq in Hr; [|exact Hsub].
    apply elem_of_app in Hr as [Hr|Hr]; [by apply Hnew|]. specialize (Hlt r Hr). lia.
Qed.

(** What the session may contain: any action of any thread, except a check of
    the time-out monitor and a call of [schedule] past the runtime. *)
Definition permitted (c : call) : Prop :=
  match c with Thread ATimeout | Thread (ASchedule _ _) => False | _ => True end.

Lemma exclusive_thread a (s : Sys) :
  permitted (Thread a) → exclusive s → exclusive (perform admission a s).2.
Proof.
  intros Ha Hs. pose proof (f_perform admission a Hfwd s) as [Hle _].
  destruct (perform admission a s) as [o s'] eqn:E. simpl in *.
  assert (a ≠ ATimeout) as Hne by (by intros ->).
  destruct (t_perform admission Hkeep a Hne s o s' (ex_workers s Hs) E) as [Hok Hsub].
  apply (exclusive_step [] s s'); [done|done|by apply NoDup_nil|done| |done].
  by destruct a; try apply Hsub.
Qed.

Lemma t_manager {A} (m : M (TaskManager * Env) A) inn :
  triple (both nowhere sched_pl) (λ _, True) inn (zoom (manager_env (P:=P)) m) (λ _ _, True) (λ _, inn).
Proof.
  apply t_neutral. intros [mgr [d [q e]]]. unfold zoom; simpl. by destruct (m (mgr, e)) as [o [mgr' e']].
Qed.

(** A submission: the new object, and what the scheduler does with it. *)
Lemma submit_places title ty md delay mgr (s s' : Tracker * (Queue P * Env)) mgr' o :
  submit_task admission title ty md delay (mgr, s) = (o, (mgr', s')) →
  (env_tick s.2.2 < env_tick s'.2.2)%nat ∧ sched_pl s' ⊆+ env_tick s.2.2 :: sched_pl s.
Proof.
  destruct s as [d [q e]]; simpl. intros Hrun.
  unfold submit_task in Hrun. revert Hrun. unfold bind at 1. unfold on_env at 1. unfold zoom at 1 2 3; simpl.
  rewrite new_task_run. destruct (str_truthy (strip title)); simpl.
  2:{ intros [= <- <- <-]. simpl. split; [lia|]. by apply submseteq_cons. }
  set (e1 := with_tasks _ _). set (rest := bind _ _). intros Hrun.
  assert (later (S:=TaskManager * (Tracker * (Queue P * Env))) (mgr, (d, (q, e1))) (mgr', s')) as [Hle _].
  { assert (forward rest) as Hr.
    { unfold rest. forward. by apply f_manager; forward. }
    specialize (Hr (mgr, (d, (q, e1)))). by rewrite Hrun in Hr. }
  simpl in Hle. split; [exact Hle|].
  assert (triple (both nowhere sched_pl) (λ _, True) [env_tick e] rest (λ _ _, True) (λ _, [])) as Ht.
  { unfold rest. t_seq @t_manager. t_seq @t_env'; [apply t_on_env|]. t_seq @t_env'; [apply t_on_env|].
    t_seq @t_env'; [by apply t_schedule|]. by apply t_ret. }
  by destruct (Ht _ _ _ I Hrun) as [_ Hsub].
Qed.

Lemma exclusive_submit b (s : RT) :
  exclusive s.2 →
  exclusive (client_submit admission_controller b s).2.2 ∧
  (client_submit admission_controller b s).2.2.2.1 = s.2.2.1.
Proof.
  destruct s as [mgr [h [p s]]]. intros Hs. unfold client_submit, zoom; simpl.
  destruct (submit_task _ _ _ _ _ (mgr, s)) as [o [mgr' s']] eqn:E; simpl. split; [|done].
  apply submit_places in E as [Hlt Hsub].
  apply (exclusive_step [env_tick s.2.2] (h, (p, s)));
    [done|apply Hs|apply NoDup_singleton| | |unfold environment; simpl; lia].
  - apply Forall_singleton. unfold environment; simpl. lia.
  - unfold places, pool_pl, both; simpl. rewrite !(assoc_L (++)).
    rewrite (submseteq_skips_l _ _ _ Hsub). by rewrite Permutation_middle.
Qed.

(** The start: fresh workers have no task in hand. *)
Definition idle_pool (p : Pool) : Prop := pool_ok p ∧ hands (pl_workers p) = [].
Lemma hands_dset_nil ws w n : hands ws = [] → hands (dset ws w (new_worker n)) = [].
Proof.
  unfold hands, dvals. induction ws as [|[k x] ws IH]; csimpl; [done|].
  intros [Hx Hws]%app_eq_nil. case_decide; csimpl; [done|]. by rewrite Hx, IH.
Qed.
Lemma t_idle f :
  (∀ p, idle_pool p → idle_pool (f p) ∧ pl_queue (f p) = pl_queue p) →
  triple (pool_pl (P:=P)) (λ z, idle_pool z.1) [] (self (modify f)) (λ _ z, idle_pool z.1) (λ _, []).
Proof.
  intros Hf. apply (t_selfP _ _ idle_pool _ _ (λ _, idle_pool)), t_modify. intros p Hp.
  destruct (Hf p Hp) as [Hp' Hq]. split; [done|]. unfold pool_refs. simpl.
  destruct Hp as [_ ->], Hp' as [_ ->]. by rewrite Hq.
Qed.
Lemma t_start_pool size :
  triple (pool_pl (P:=P)) (λ z, idle_pool z.1) [] (start_pool size) (λ _ z, idle_pool z.1) (λ _, []).
Proof.
  apply t_read. intros p Hp.
  apply (t_conseq _ (λ z, idle_pool z.1) _ _ _ (λ _ z, idle_pool z.1) _ (λ _, []));
    [|by intros ? ->|done|done].
  destruct (pl_started p); [by apply t_ret|]. apply (t_tick idle_pool). intros n.
  t_seq t_idle. t_seq (@t_for_each _ (pool_pl (P:=P)) nat (λ z, idle_pool z.1)).
  - intros i. apply (t_tick idle_pool). intros m. apply t_idle. intros q [Hok Hh]. split; [|done].
    split; [by apply pool_ok_dset, new_worker_ok|by apply hands_dset_nil].
  - apply t_read. intros q Hq. apply (t_conseq _ (λ z, idle_pool z.1) _ _ _ (λ _ z, idle_pool z.1) _ (λ _, []));
      [|by intros ? ->|done|done].
    apply (t_for_each _ (λ z, idle_pool z.1)). intros w. apply (t_pool_env idle_pool).
Qed.

Lemma t_start_scheduler :
  triple (places (P:=P)) (λ z, pool_ok z.2.1) [] start_scheduler (λ _ z, pool_ok z.2.1) (λ _, []).
Proof.
  apply t_sys_read. intros h. destruct (th_started h); [apply t_known_ret|].
  apply (t_conseq _ (λ z, pool_ok z.2.1) _ _ _ (λ _ z, pool_ok z.2.1) _ (λ _, []));
    [|naive_solver|done|done].
  t_seq @t_sys_env. t_seq @t_sys_threads. t_seq @t_sys_sched.
  { apply t_neutral. intros [d z]. unfold start_tracker. run_step. by destruct (dt_started d). }
  t_seq @t_sys_threads.
  { intros h'. by destruct (th_monitor h'). }
  eapply (t_bind _ _ _ _ _ (λ _ z, pool_ok z.2.1) (λ _, []));
    [apply t_sys_threads; intros h'|intros ?; apply t_sys_env|done|done].
  unfold thread_refs; simpl. rewrite app_nil_r. by apply submseteq_inserts_r.
Qed.
Lemma start_exclusive size (s : Sys) :
  hands (pl_workers s.2.1) = [] → exclusive s → exclusive (runtime_start size s).2.
Proof.
  intros Hh Hs. pose proof (f_runtime_start size s) as [Hle _].
  destruct (runtime_start size s) as [o s'] eqn:E.
  assert (triple places (λ z : Sys, idle_pool z.2.1) [] (runtime_start size) (λ _ z, pool_ok z.2.1) (λ _, [])) as Ht.
  { unfold runtime_start.
    t_seq (t_envE thread_refs (pool_pl (P:=P)) (λ z, idle_pool z.1) [] (self get) (λ _ z, idle_pool z.1) (λ _, [])).
    { by apply (t_selfP _ _ idle_pool _ _ (λ _, idle_pool) (λ _, [])), t_get. }
    2: by intros ?? [].
    eapply (t_bind _ _ _ _ _ (λ _ z, pool_ok z.2.1) (λ _, [])); [|intros ?|done|done].
    { apply (t_conseq _ (λ z, idle_pool z.2.1) _ _ _ (λ _ z, idle_pool z.2.1) _ (λ _, []));
        [by apply (t_envE _ _ (λ z, idle_pool z.1) _ _ (λ _ z, idle_pool z.1)), t_start_pool|done|by intros ?? []|done]. }
    eapply (t_bind _ _ _ _ _ (λ _ z, pool_ok z.2.1) (λ _, []));
      [destruct (pl_started _); [by apply t_ret|by apply t_sys_threads]|intros ?|done|done].
    t_seq t_start_scheduler. apply t_sys_env. }
  destruct (Ht s o s') as [Hok Hsub]; [split; [apply Hs|done]|done|].
  apply (exclusive_step [] s s'); try done. by apply NoDup_nil.
Qed.

Lemma exclusive_session l (s : RT) :
  Forall permitted l → exclusive s.2 → exclusive (session admission_controller l s).2.
Proof.
  intros Hl. revert s. induction Hl as [|c l Hc Hl IH]; intros [mgr s] Hs; [done|].
  apply IH. destruct c as [b|a]; simpl; [by apply exclusive_submit|].
  unfold answer, zoom; simpl. pose proof (exclusive_thread a s Hc Hs) as Ha.
  by destruct (perform admission a s).
Qed.
Lemma exclusive_early early (s : RT) :
  exclusive s.2 →
  exclusive (session admission_controller (Submit <$> early) s).2 ∧
  (session admission_controller (Submit <$> early) s).2.2.1 = s.2.2.1.
Proof.
  revert s. induction early as [|b early IH]; intros s Hs; csimpl; [done|].
  destruct (exclusive_submit b s Hs) as [Hb Hp]. rewrite <-Hp. by apply (IH (client_submit _ b s).2).
Qed.
Lemma new_runtime_exclusive mgr e : exclusive (new_runtime (P:=P) mgr e).2.
Proof.
  assert (places (new_runtime (P:=P) mgr e).2 = []) as Hp.
  { unfold places, pool_pl, sched_pl, queue_pl, both, queue_refs; simpl. by rewrite map_to_list_empty. }
  split; [|rewrite Hp; apply NoDup_nil; done|by rewrite Hp]. split; [apply NoDup_nil; done|constructor].
Qed.

Lemma exclusive_life early late mgr e :
  Forall permitted late →
  exclusive (life admission_controller early late (new_runtime (P:=P) mgr e)).2.
Proof.
  intros Hl. apply exclusive_session; [done|].
  destruct (exclusive_early early _ (new_runtime_exclusive mgr e)) as [Hs Hp]. revert Hs Hp.
  generalize (session admission_controller (Submit <$> early) (new_runtime (P:=P) mgr e)).
  intros [mgr' s] Hs Hp. pose proof (start_exclusive pool_size s) as Hst.
  unfold client_start, zoom. simpl in *. destruct (runtime_start pool_size s). apply Hst; [by rewrite Hp|done].
Qed.
End exclusion.

(** The standard chain is a chain of this kind. *)
Lemma standard_chain_forward `{!Oracle} : plugins_forward (Some (runtime_admission None)).
Proof.
  apply Forall_cons; split; [|apply Forall_singleton]; intros r; simpl; forward.
Qed.
Lemma standard_chain_keeps `{!Oracle} : keeps_task (Some (runtime_admission None)).
Proof.
  intros r e r' e'. destruct (env_tasks e !! r) as [t|] eqn:Ht.
  - unfold runtime_admission. rewrite (standard_chain_run 255 0 r t e Ht). by case_decide; intros [= <- <-].
  - simpl. unfold update_task, deref, bind, catch, modify, ret, raise; simpl.
    by rewrite lookup_alter_eq, Ht.
Qed.

(** * Theorems *)
Section theorems.
Context `{!Oracle} {P : Type} `{!SchedulingPolicy P}.
Abbreviation Sys := (Threads * (Pool * (Tracker * (Queue P * Env))))%type.

(** C2: From the construction of the runtime on, whatever its clients submit,
    before or after [start], and whatever its threads do, short of a time-out:
    every task object is held by one part of the runtime, once.  No two
    workers execute the same task, and a task in execution is neither queued
    nor delayed. *)
Theorem session_exclusive early late mgr e :
  Forall permitted late →
  let s := (life None early late (new_runtime (P:=P) mgr e)).2 in
  NoDup (places s) ∧
  ∀ w x r, dget (pl_workers s.2.1) w = Some x → r ∈ in_hand x →
    (∀ w' x', w' ≠ w → dget (pl_workers s.2.1) w' = Some x' → r ∉ in_hand x') ∧
    (r ∉ pl_queue s.2.1) ∧ (r ∉ heap_refs s.2.2.1) ∧ (r ∉ queue_refs s.2.2.2.1).
Proof.
  intros Hl s.
  destruct (exclusive_life None standard_chain_forward standard_chain_keeps early late mgr e Hl) as [Hok Hnd _].
  by apply (no_double_execution None I [] s).
Qed.

(** Whatever the clients and the threads of a runtime do, time-outs included,
    the event log only grows: what one part of the run has recorded, the rest
    of it keeps, in the same order, numbered from 1 without gaps, under ids
    that are all different. *)
Theorem log_append_only early l1 l2 mgr e tbl :
  env_store e = Some tbl → log_ok tbl →
  let s1 := (life None early l1 (new_runtime (P:=P) mgr e)).2 in
  let s2 := (life None early (l1 ++ l2) (new_runtime (P:=P) mgr e)).2 in
  rows tbl `prefix_of` history (environment s1) ∧
  history (environment s1) `prefix_of` history (environment s2) ∧
  ∃ tbl', env_store (environment s2) = Some tbl' ∧ log_ok tbl'.
Proof.
  intros He Hlog s1 s2.
  pose proof (life_later None standard_chain_forward early l1 (new_runtime (P:=P) mgr e)) as [_ H1].
  pose proof (session_later None standard_chain_forward l2 (life None early l1 (new_runtime (P:=P) mgr e))) as [_ H2].
  rewrite <-life_app in H2.
  change (store_later (env_store e) (env_store (environment s1))) in H1.
  change (store_later (env_store (environment s1)) (env_store (environment s2))) in H2.
  rewrite He in H1. unfold history.
  destruct (env_store (environment s1)) as [tbl1|]; [|by inversion H1].
  destruct (env_store (environment s2)) as [tbl2|]; [|by inversion H2].
  inversion H1 as [?? [Hp1 Hk1]|]; inversion H2 as [?? [Hp2 Hk2]|]; subst.
  split_and!; [by apply table_later_prefix..|]. exists tbl2. auto.
Qed.
End theorems.

(** * A submission from end to end *)
Section completion.
Context `{!Oracle} {P : Type} `{HP : PolicyLaws P}.
Abbreviation Sys := (Threads * (Pool * (Tracker * (Queue P * Env))))%type.
Abbreviation RT := (TaskManager * Sys)%type.

Lemma session_threads ac l mgr (s : Sys) :
  session ac (Thread <$> l) (mgr, s) = (mgr, run (Some (runtime_admission ac)) l s).
Proof.
  revert s. induction l as [|a l IH]; intros s; csimpl; [done|].
  rewrite run_cons, <-IH. unfold session at 1; simpl. f_equal.
  unfold answer, zoom; simpl. by destruct (perform _ a s).
Qed.

(** A runtime that has just been started, without a store: an oracle reading
    for the pool, each worker and the scheduler. *)
Definition create_worker (i : nat) : M (Pool * (Tracker * (Queue P * Env))) unit :=
  n <- pool_env tick ;;
  self (modify (λ p, with_workers (dset (pl_workers p) (worker_id i) (new_worker n)) p)).
Fixpoint created (l : list nat) (n : nat) (ws : odict Worker) : odict Worker :=
  match l with [] => ws | i :: l => created l (S n) (dset ws (worker_id i) (new_worker n)) end.
Definition ticked (k : nat) (e : Env) : Env :=
  {| env_tasks := env_tasks e; env_tick := k + env_tick e; env_store := env_store e |}.

Lemma create_run l p d q e :
  for_each l create_worker (p, (d, (q, e))) =
    (Ok tt, (with_workers (created l (env_tick e) (pl_workers p)) p, (d, (q, ticked (length l) e)))).
Proof.
  revert p e. induction l as [|i l IH]; intros p e; simpl.
  - unfold ret, ticked. by destruct p, e.
  - unfold bind at 1, create_worker at 1, bind, pool_env, on_env, zoom, modify, tick; simpl. rewrite IH.
    unfold ticked; simpl. by rewrite Nat.add_succ_r.
Qed.
Lemma emit_run d e : env_store e = None → emit d e = (Ok tt, e).
Proof. intros He. unfold emit, emit_meta. by rewrite He. Qed.
Lemma announce_run (l : list string) p d q e :
  env_store e = None →
  for_each l (λ w, pool_env (P:=P) (emit (WorkerStarted w))) (p, (d, (q, e))) = (Ok tt, (p, (d, (q, e)))).
Proof.
  intros He. induction l as [|w l IH]; simpl; [done|].
  unfold bind, pool_env, on_env, zoom; simpl. by rewrite (emit_run _ _ He).
Qed.
Lemma start_pool_run size d q e :
  env_store e = None →
  start_pool (P:=P) size (new_pool, (d, (q, e))) =
    (Ok tt, (with_workers (created (seq 0 size) (S (env_tick e)) []) (with_started true (Some (env_tick e)) new_pool),
             (d, (q, ticked (S size) e)))).
Proof.
  intros He. unfold start_pool. fold create_worker. set (mk := for_each (seq 0 size) _).
  unfold bind, pool_env at 1, on_env at 1, zoom, modify, tick, get; simpl.
  pose proof (create_run (seq 0 size) (with_started true (Some (env_tick e)) new_pool) d q (next_tick e)) as Hc.
  change (for_each (seq 0 size) create_worker) with mk in Hc. rewrite Hc; simpl.
  rewrite length_seq. unfold ticked; simpl. rewrite Nat.add_succ_r. by rewrite announce_run.
Qed.

(** The pool and the tracker after the start. *)
Definition started_pool (size n : nat) : Pool :=
  with_workers (created (seq 0 size) (S n) []) (with_started true (Some n) new_pool).
Definition started_tracker : Tracker :=
  {| dt_heap := []; dt_counter := 0; dt_started := true; dt_stop := false |}.
Lemma runtime_start_run size q e :
  env_store e = None →
  ∃ h, runtime_start (P:=P) size (new_threads, (new_pool, (new_tracker, (q, e)))) =
      (Ok tt, (h, (started_pool size (env_tick e), (started_tracker, (q, ticked (S (S size)) e))))) ∧
    th_loop h = Polling ∧ th_stop h = false ∧ th_due h = [].
Proof.
  intros He. unfold runtime_start. unfold bind at 1, zoom at 1 2, get; simpl. unfold bind at 1, zoom at 1; simpl.
  rewrite start_pool_run by done. unfold bind at 1, zoom at 1, modify; simpl.
  unfold start_scheduler, start_tracker, sys_env, sys_sched, on_env, tick, bind, zoom, modify, get; simpl.
  change {| env_tasks := env_tasks e; env_tick := _; env_store := env_store e |} with (ticked (S (S size)) e).
  assert (He' : env_store (ticked (S (S size)) e) = None) by done.
  rewrite !(emit_run _ _ He'). eexists. split; [reflexivity|]. by split_and!.
Qed.

Lemma started_run mgr e :
  env_store e = None →
  ∃ h p, client_start (new_runtime (P:=P) mgr e) =
      (Ok tt, (mgr, (h, (p, (started_tracker, (new_queue None, ticked 6 e)))))) ∧
    th_loop h = Polling ∧ th_stop h = false ∧ th_due h = [] ∧
    pl_started p = true ∧ pl_queue p = [] ∧ pl_completed p = 0 ∧
    hands (pl_workers p) = [] ∧ dget (pl_workers p) "W-001" = Some (new_worker (S (env_tick e))).
Proof.
  intros He. destruct (runtime_start_run pool_size (new_queue None) e He) as (h & Hrun & Hh).
  exists h, (started_pool pool_size (env_tick e)). split.
  - unfold client_start, new_runtime, zoom. cbn [lget env_lens fst snd]. by rewrite Hrun.
  - destruct Hh as (-> & -> & ->). do 7 (split; [reflexivity|]).
    split; vm_compute; reflexivity.
Qed.

Lemma places_idle h p d q e e' :
  th_due h = [] → th_loop h = Polling → pl_queue p = [] → hands (pl_workers p) = [] → dt_heap d = [] →
  pol_live (q_policy q) = [] → queue_inv (q, e) → places (P:=P) (h, (p, (d, (q, e')))) = [].
Proof.
  intros Hd Hl Hq Hh Hheap Hlive Hinv.
  assert (q_storage q = ∅) as Hs.
  { apply map_eq. intros i. rewrite lookup_empty. apply eq_None_not_Some.
    rewrite <-(inv_live _ Hinv i). simpl. rewrite Hlive. apply not_elem_of_nil. }
  unfold places, pool_pl, sched_pl, queue_pl, both, nowhere, thread_refs, pool_refs, heap_refs, queue_refs; simpl.
  by rewrite Hd, Hl, Hq, Hh, Hheap, Hs, map_to_list_empty.
Qed.

Lemma client_submit_run ac b mgr h p (s : Tracker * (Queue P * Env)) o mgr' s' :
  submit_task (Some (runtime_admission ac)) (sb_title b) (sb_type b) (sb_metadata b) (sb_delay b) (mgr, s) =
    (o, (mgr', s')) →
  client_submit ac b (mgr, (h, (p, s))) = (o, (mgr', (h, (p, s')))).
Proof. intros Hs. unfold client_submit, zoom; simpl. by rewrite Hs. Qed.

(** The seven steps that take an idle worker through a task whose executor
    returns. *)
Lemma worker_round h p d q e w x r t f :
  dget (pl_workers p) w = Some x → waiting x → pl_queue p = [r] →
  env_tasks e !! r = Some t → env_store e = None → hands (pl_workers p) = [] →
  ∃ x' p' e', run (P:=P) (Some (runtime_admission None)) (replicate 7 (AWorker w f (Ok tt))) (h, (p, (d, (q, e)))) =
      (h, (p', (d, (q, e')))) ∧
    env_tasks e' = <[r := finished (f (start t))]> (env_tasks e) ∧
    dget (pl_workers p') w = Some x' ∧ waiting x' ∧ wk_processed x' = wk_processed x + 1 ∧
    pl_completed p' = pl_completed p + 1 ∧ pl_queue p' = [] ∧ hands (pl_workers p') = [].
Proof.
  intros Hx Hw Hq Ht He Hh.
  destruct (worker_takes (Some (runtime_admission None)) h p d q e w x r t [] f (Ok tt))
    as (x1 & p1 & e1 & n & Hrun1 & -> & Hpc & Hs & Hc & Hstop & Hn & Htk1 & He1); try done.
  destruct (execution_completes (Some (runtime_admission None)) h
    (with_workers (dset (pl_workers p) w x1) (with_pool_queue [] p)) d q e1 w x1 r n (start t) f)
    as (x2 & e2 & du & Hrun2 & Hw2 & _ & Hp2 & _ & Htk2 & _); try done.
  { apply dget_dset_eq. }
  { by rewrite Htk1, lookup_alter_eq, Ht. }
  change (replicate 7 ?a) with (replicate 4 a ++ replicate 3 a). rewrite run_app, Hrun1, Hrun2.
  eexists x2, _, e2. split; [done|]. simpl. rewrite dset_dset. split_and!; try done.
  - rewrite Htk2, Htk1. apply map_eq. intros j. rewrite !lookup_insert. case_decide; [done|by rewrite lookup_alter_ne].
  - apply dget_dset_eq.
  - by rewrite Hp2, Hn.
  - pose proof (hands_dset (pl_workers p) w x x2 Hx) as Hp. destruct Hw2 as (_ & Hpc2 & _), Hw as (_ & Hpc0 & _).
    unfold in_hand in Hp. rewrite Hpc2, Hpc0, Hh in Hp. simpl in Hp. rewrite app_nil_r in Hp. by apply Permutation_nil_r in Hp.
Qed.

(** C33: A client starts a runtime without a store and submits a task, at once,
    that the standard chain admits: the manager lists the task last, and after
    four steps of the scheduler's loop and seven of a worker the task is
    completed, with what the chain, the queue and the executor made of it; the
    runtime holds no task any more and the worker waits for the next. *)
Theorem submission_completes title ty md delay mgr e f :
  let r := (6 + env_tick e)%nat in
  let t := fresh_task r title ty md in
  str_truthy (strip title) = true → admissible_task 255 t → num_lt (PInt 0) delay = false →
  env_wf e → env_store e = None → uuid4 r ∉ dkeys mgr → pol_addable (mutate 0 t) →
  let s0 := (client_start (new_runtime (P:=P) mgr e)).2 in
  ∃ s1, client_submit None {| sb_title := title; sb_type := ty; sb_metadata := md; sb_delay := delay |} s0 = (Ok r, s1) ∧
    let s2 := session None (Thread <$> (replicate 4 ALoop ++ replicate 7 (AWorker "W-001" f (Ok tt)))) s1 in
    s2.1 = mgr ++ [(uuid4 r, r)] ∧ places s2.2 = [] ∧ pl_completed s2.2.2.1 = 1 ∧
    env_tasks (environment s2.2) !! r =
      Some (finished (f (start (stamped (ticked 7 e) (mutate 0 t))))) ∧
    ∃ x, dget (pl_workers s2.2.2.1) "W-001" = Some x ∧ waiting x ∧ wk_processed x = 1.
Proof.
  intros r t Htitle Hadm Hdelay Hwf He Hmgr Hadd.
  destruct (started_run mgr e He) as (h & p & -> & Hl & Hstop & Hdue & Hst & Hq & Hcomp & Hh & Hx).
  cbn [snd]. generalize (eq_refl : dt_heap started_tracker = []). generalize started_tracker. intros d Hd.
  destruct pol_init_spec as (_ & Hlive0 & Htr0).
  destruct (submit_admitted 255 0 title ty md delay mgr d (new_queue (P:=P) None) (ticked 6 e))
    as (q1 & e1 & Hsub & Hinv1 & Hsto1 & Hin1 & Htk1 & He1); try done.
  { apply new_queue_inv. }
  { intros j Hj. specialize (Hwf j Hj). simpl. lia. }
  { simpl. rewrite Htr0. set_solver. }
  assert (env_tasks e1 !! r = Some (stamped (ticked 7 e) (mutate 0 t))) as Ht1 by by rewrite Htk1, lookup_insert_eq.
  exists (mgr ++ [(uuid4 r, r)], (h, (p, (d, (q1, e1))))). split; [by apply client_submit_run|].
  assert (pol_live (q_policy q1) = [uuid4 r]) as Hlive1.
  { apply Permutation_singleton_r, NoDup_Permutation; [apply pol_live_NoDup, Hinv1|apply NoDup_singleton|].
    intros i. rewrite (inv_live _ Hinv1 i). simpl. rewrite Hsto1. simpl. rewrite list_elem_of_singleton, lookup_insert_is_Some, lookup_empty.
    split; [intros [<-|[_ []%is_Some_None]]; done|auto]. }
  destruct (loop_dispatch (Some (runtime_admission None)) h p d q1 e1 "W-001" _ (uuid4 r) [] Hl Hstop Hst Hx)
    as (q2 & e2 & r' & t' & Hr' & _ & _ & Hinv2 & Hlive2 & Htk2 & He2 & Hrun2); try done.
  assert (r' = r) as ->.
  { rewrite Hsto1, lookup_insert_eq in Hr'. by injection Hr'. }
  rewrite session_threads, run_app, Hrun2, Hq.
  destruct (worker_round (with_loop Polling h) (with_pool_queue [r] p) d q2 e2 "W-001" _ r (stamped (ticked 7 e) (mutate 0 t)) f Hx)
    as (x3 & p3 & e3 & Hrun3 & Htk3 & Hx3 & Hw3 & Hn3 & Hc3 & Hq3 & Hh3); try done.
  { by rewrite Htk2. }
  simpl app. rewrite Hrun3. simpl. split_and!; try done.
  - by apply (places_idle _ _ _ _ e2).
  - rewrite Hc3. simpl. lia.
  - unfold environment; simpl. by rewrite Htk3, lookup_insert_eq.
  - exists x3. done.
Qed.
End completion.

(** * Examples *)
Section examples.
#[local] Existing Instance sample_oracle.
#[local] Existing Instance FIFOPolicy.policy.
#[local] Existing Instance FIFOPolicy.laws.

Definition job (title : string) : submission :=
  {| sb_title := title; sb_type := PYTHON; sb_metadata := None; sb_delay := PInt 0 |}.
Definition fresh (store : option EventTable) :=
  new_runtime (P:=FIFOPolicy.t) [] (sample_world store []).
(** A task from before the start and one from after it, on two workers. *)
Definition two_jobs : list call :=
  Submit (job "b") :: (Thread <$> (dispatch ++ dispatch ++ worker "W-001" 4 (Ok tt) ++ worker "W-002" 4 (Ok tt))).

Lemma session_exclusive_witness :
  let s := (life None [job "a"] two_jobs (fresh None)).2 in
  executing s = [("W-001", 10%nat); ("W-002", 19%nat)] ∧ NoDup (places s).
Proof.
  intros s. split; [vm_compute; reflexivity|].
  apply (session_exclusive [job "a"] two_jobs [] (sample_world None [])).
  repeat (apply Forall_cons; split; [exact I|]). constructor.
Defined.

Lemma empty_log_ok : log_ok empty_table.
Proof. split_and!; [done|done|apply NoDup_nil; done]. Qed.
Lemma log_append_only_witness :
  let s := (life None [job "a"] (two_jobs ++ [Thread ATimeout; Thread AStopPool]) (fresh (Some empty_table))).2 in
  ∃ tbl, env_store (environment s) = Some tbl ∧ log_ok tbl ∧ length (rows tbl) = 16%nat.
Proof.
  intros s.
  destruct (log_append_only (P:=FIFOPolicy.t) [job "a"] two_jobs [Thread ATimeout; Thread AStopPool] []
    (sample_world (Some empty_table) []) empty_table eq_refl empty_log_ok) as (_ & _ & tbl & Htbl & Hok).
  change (env_store (environment s) = Some tbl) in Htbl.
  exists tbl. split; [exact Htbl|]. split; [exact Hok|].
  assert (Some (length (rows tbl)) = Some 16%nat) as E; [|injection E as E; exact E].
  transitivity ((length ∘ rows) <$> env_store (environment s)); [rewrite Htbl; reflexivity|vm_compute; reflexivity].
Defined.

Lemma submission_completes_witness :
  ∃ s1, client_submit None (job "a") (client_start (fresh None)).2 = (Ok 16%nat, s1) ∧
    let s2 := session None (Thread <$> (dispatch ++ worker "W-001" 7 (Ok tt))) s1 in
    places s2.2 = [] ∧ task_status <$> env_tasks (environment s2.2) !! 16%nat = Some COMPLETED.
Proof.
  destruct (submission_completes (P:=FIFOPolicy.t) "a" PYTHON None (PInt 0) [] (sample_world None []) id)
    as (s1 & Hrun & _ & Hp & _ & Ht & _).
  - reflexivity.
  - apply (bool_decide_unpack _). vm_compute. exact I.
  - reflexivity.
  - intros r [t Ht]. simpl in Ht. by apply lookup_empty_Some in Ht.
  - reflexivity.
  - apply not_elem_of_nil.
  - exact I.
  - exists s1. split; [exact Hrun|]. split; [exact Hp|]. exact (eq_trans (f_equal (fmap task_status) Ht) eq_refl).
Defined.
End examples.
