(* ===== verification/Protocol.v ===== *)
(** The life of a task in the event log.  A monitor reads the events of one id
    and follows the task from its submission to its end ([phase_of]); a task's
    reference is a token that carries where the log has left it ([stage]).  A
    computation is described by the tokens it owns before and after, whatever
    tokens the rest of the system owns ([legal]), in the way of separation logic:
    an event moves the token it is about, and no computation makes a token up.
    The rules follow the monad; then the task queue, the tracker, the admission
    chain and the scheduler are shown to respect the protocol. *)
From S2P Require Import Prelude PyNum Heapq Values Decode Events EventStore RuntimeState Tasks Recovery Policy.
From S2P Require Import TaskQueue QueueSpec QueueRecovery Admission Retry Delayed Scheduler WorkerPool Accounting.
Open Scope Z_scope.

(** * The monitor *)
Inductive phase : Type :=
  | Unseen                    (** no event yet *)
  | Submitted
  | Waiting                   (** in the task queue *)
  | Taken                     (** dequeued, not started *)
  | Working                   (** started; a retry is queued from here *)
  | Closed.                   (** completed, failed for good or cancelled *)
#[export] Instance phase_eq_dec : EqDecision phase.
Proof. solve_decision. Defined.

(** The task whose life an event tells; the others ([TaskRetried],
    [RetryScheduled], [DelayedTaskReleased] and those of workers and scheduler)
    only report a decision. *)
Definition subject (d : event_data) : option string :=
  match d with
  | TaskSubmitted i _ _ | TaskQueued i | TaskDequeued i | TaskStarted i | TaskCompleted i
  | TaskFailed i _ | TaskCancelled i | TaskTimedOut i => Some i
  | _ => None
  end.
Definition moves (p : phase) (d : event_data) : option phase :=
  match d, p with
  | TaskSubmitted _ _ _, Unseen => Some Submitted
  | TaskQueued _, (Submitted | Working) => Some Waiting
  | TaskDequeued _, Waiting => Some Taken
  | TaskStarted _, Taken => Some Working
  | TaskCompleted _, Working | TaskFailed _ _, Working | TaskCancelled _, Waiting => Some Closed
  | TaskTimedOut _, Working => Some Working
  | _, _ => None
  end.
Definition phase_step (i : string) (p : phase) (d : event_data) : option phase :=
  if decide (subject d = Some i) then moves p d else Some p.
(** The phase after a log; [None]: the events of [i] are in no legal order. *)
Definition phase_of (i : string) (ds : list event_data) : option phase :=
  foldl (λ o d, p ← o; phase_step i p d) (Some Unseen) ds.

Lemma phase_snoc i ds d : phase_of i (ds ++ [d]) = p ← phase_of i ds; phase_step i p d.
Proof. unfold phase_of. by rewrite foldl_app. Qed.
Lemma phase_step_other i p d : subject d ≠ Some i → phase_step i p d = Some p.
Proof. intros Hd. unfold phase_step. by rewrite decide_False. Qed.
Lemma phase_other i ds d : subject d ≠ Some i → phase_of i (ds ++ [d]) = phase_of i ds.
Proof. intros Hd. rewrite phase_snoc. destruct (phase_of i ds); [|done]. simpl. by apply phase_step_other. Qed.

(** What is waiting can be read off the log. *)
Lemma phase_queued ds :
  (∀ i, is_Some (phase_of i ds)) →
  NoDup (foldl queue_event [] ds) ∧ ∀ i, i ∈ foldl queue_event [] ds ↔ phase_of i ds = Some Waiting.
Proof.
  induction ds as [|d ds IH] using rev_ind; intros Hlegal.
  { split; [by apply NoDup_nil|]. intros i. split; [by intros ?%not_elem_of_nil|done]. }
  destruct IH as [Hnd IH].
  { intros i. destruct (Hlegal i) as [p Hp]. rewrite phase_snoc in Hp. destruct (phase_of i ds); [eauto|done]. }
  rewrite foldl_app. simpl. revert Hnd IH. generalize (foldl queue_event [] ds). intros l Hnd IH.
  assert (∀ i, (∀ j, subject d ≠ Some j) → i ∈ l ↔ phase_of i (ds ++ [d]) = Some Waiting) as Hquiet.
  { intros i Hd. by rewrite phase_other. }
  assert (∀ i, subject d = Some i →
    (queue_event l d = add_if_absent i l ∧ phase_of i (ds ++ [d]) = Some Waiting) ∨
    (queue_event l d = remove_if_in i l ∧ phase_of i (ds ++ [d]) ≠ Some Waiting) ∨
    (queue_event l d = l ∧ phase_of i (ds ++ [d]) ≠ Some Waiting ∧ phase_of i ds ≠ Some Waiting)) as Hown.
  { intros i Hd. destruct (Hlegal i) as [p Hp]. pose proof Hp as Hp'. rewrite phase_snoc in Hp'.
    destruct (phase_of i ds) as [p0|]; [|done]. simpl in Hp'. unfold phase_step in Hp'.
    rewrite decide_True in Hp' by done. rewrite Hp.
    destruct d; try done; injection Hd as ->; destruct p0; simplify_eq/=; naive_solver. }
  destruct (subject d) as [j|] eqn:Hd.
  2:{ assert (queue_event l d = l) as -> by (by destruct d). split; [done|]. intros i. by apply Hquiet. }
  assert (∀ i, i ≠ j → i ∈ l ↔ phase_of i (ds ++ [d]) = Some Waiting) as Hrest.
  { intros i Hi. rewrite phase_other; [done|]. rewrite Hd. naive_solver. }
  destruct (Hown j eq_refl) as [[-> Hj]|[[-> Hj]|(-> & Hj & Hj')]].
  - unfold add_if_absent. case_decide as Hin.
    + split; [done|]. intros i. destruct (decide (i = j)) as [->|]; [done|by apply Hrest].
    + split; [apply NoDup_app; split_and!; [done|set_solver|apply NoDup_singleton]|].
      intros i. rewrite elem_of_app, list_elem_of_singleton.
      destruct (decide (i = j)) as [->|Hne]; [naive_solver|]. rewrite <-Hrest by done. naive_solver.
  - rewrite remove_if_in_filter by done. split; [by apply NoDup_filter|]. intros i.
    rewrite list_elem_of_filter. destruct (decide (i = j)) as [->|Hne]; [naive_solver|].
    rewrite <-Hrest by done. naive_solver.
  - split; [done|]. intros i. destruct (decide (i = j)) as [->|]; [|by apply Hrest]. by rewrite IH.
Qed.

(** * Tokens *)
Inductive stage : Type := Fresh | Ready | Queued | Handed | Busy | Over.
Definition at_stage (st : stage) (p : phase) : Prop :=
  match st with
  | Fresh => p = Unseen
  | Ready => p = Submitted ∨ p = Working
  | Queued => p = Waiting
  | Handed => p = Taken
  | Busy => p = Working
  | Over => p = Closed
  end.
Abbreviation token := (nat * stage)%type.

Lemma at_stage_waiting st : at_stage st Waiting → st = Queued.
Proof. destruct st; naive_solver. Qed.

Section tokens.
Context `{!Oracle} `{!ReliableStore}.
Implicit Types (L F : list token) (e : Env).

(** The log agrees with the tokens [L] of the whole system: every task is the
    object its id names, every token is at a stage its log allows, every id's
    log is legal, and what the log says is waiting is held as such. *)
Record agrees L e (es : list RuntimeEvent) : Prop := {
  ag_log : log_is e es;
  ag_tasks : ∀ r t, env_tasks e !! r = Some t → task_id t = uuid4 r ∧ (r < env_tick e)%nat;
  ag_once : NoDup L.*1;
  ag_tokens : Forall (λ x, is_Some (env_tasks e !! x.1) ∧
    ∃ p, phase_of (uuid4 x.1) (map data es) = Some p ∧ at_stage x.2 p) L;
  ag_legal : ∀ i, is_Some (phase_of i (map data es));
  ag_waiting : ∀ i, phase_of i (map data es) = Some Waiting → ∃ r, i = uuid4 r ∧ (r, Queued) ∈ L;
  ag_future : ∀ r, (env_tick e ≤ r)%nat → phase_of (uuid4 r) (map data es) = Some Unseen
}.
Definition good L e : Prop := ∃ es, agrees L e es.

Lemma good_tasks L e r t : good L e → env_tasks e !! r = Some t → task_id t = uuid4 r ∧ (r < env_tick e)%nat.
Proof. intros [es Ha]. apply (ag_tasks _ _ _ Ha). Qed.
Lemma good_alive L e r st : good L e → (r, st) ∈ L → ∃ t, env_tasks e !! r = Some t ∧ task_id t = uuid4 r.
Proof.
  intros Hg Hin. pose proof Hg as [es Ha]. pose proof (ag_tokens _ _ _ Ha) as Ht. rewrite Forall_forall in Ht.
  destruct (Ht _ Hin) as [[t Hr] _]. exists t. split; [done|]. by apply (good_tasks L e r t).
Qed.
Lemma good_once L e : good L e → NoDup L.*1.
Proof. intros [es Ha]. apply Ha. Qed.

(** Environments with the same log, later clocks and the same objects. *)
Definition same_objects (ts ts' : gmap nat Task) : Prop :=
  (∀ r t, ts' !! r = Some t → ∃ t0, ts !! r = Some t0 ∧ task_id t = task_id t0) ∧
  (∀ r, is_Some (ts !! r) → is_Some (ts' !! r)).
Lemma same_objects_alter ts r f : (∀ t, task_id (f t) = task_id t) → same_objects ts (alter f r ts).
Proof.
  intros Hf. split.
  - intros r' t. rewrite lookup_alter. case_decide as Hr; [subst|eauto].
    destruct (ts !! r') as [t0|]; [|done]. intros [= <-]. eauto.
  - intros r' [t Ht]. rewrite lookup_alter. case_decide; subst; rewrite Ht; by eexists.
Qed.
Lemma same_objects_insert ts r t t' : ts !! r = Some t → task_id t' = task_id t → same_objects ts (<[r := t']> ts).
Proof.
  intros Ht Hid. split.
  - intros r' u. rewrite lookup_insert. case_decide as Hr; [subst; intros [= <-]; eauto|eauto].
  - intros r' [u Hu]. rewrite lookup_insert. case_decide; by eexists.
Qed.
Lemma good_env L e e' :
  env_store e' = env_store e → (env_tick e ≤ env_tick e')%nat → same_objects (env_tasks e) (env_tasks e') →
  good L e → good L e'.
Proof.
  intros Hs Hle [Hids Hkeep] [es [H1 H2 H3 H4 H5 H6 H7]]. exists es. split; try done.
  - by apply (log_is_later e).
  - intros r t (t0 & Ht0 & ->)%Hids. destruct (H2 _ _ Ht0). split; [done|lia].
  - eapply Forall_impl; [exact H4|]. intros x [? ?]. auto.
  - intros r Hr. apply H7. lia.
Qed.
Lemma good_tick L e : good L e → good L (next_tick e).
Proof. apply good_env; simpl; [done|lia|split; eauto]. Qed.
Lemma good_update L e r f :
  (∀ t, task_id (f t) = task_id t) → good L e → good L (with_tasks (alter f r (env_tasks e)) e).
Proof. intros Hf. apply good_env; [done..|]. by apply same_objects_alter. Qed.

Lemma good_perm L L' e : L ≡ₚ L' → good L e → good L' e.
Proof.
  intros Hp [es [H1 H2 H3 H4 H5 H6 H7]]. exists es. split; try done.
  - by rewrite <-Hp.
  - by rewrite <-Hp.
  - intros i Hi. destruct (H6 i Hi) as (r & ? & Hin). exists r. by rewrite <-Hp.
Qed.
#[export] Instance good_proper : Proper ((≡ₚ) ==> (=) ==> iff) good.
Proof. intros L L' Hp e ? <-. split; by apply good_perm. Qed.
Lemma good_drop st r L e : st ≠ Queued → good ((r, st) :: L) e → good L e.
Proof.
  intros Hst [es [H1 H2 H3 H4 H5 H6 H7]]. csimpl in H3. apply NoDup_cons in H3 as [_ H3].
  apply Forall_cons in H4 as [_ H4]. exists es. split; try done. intros i Hi.
  destruct (H6 i Hi) as (r' & ? & [|?]%elem_of_cons); naive_solver.
Qed.
Lemma good_stage st st' r L e :
  st ≠ Queued → (∀ p, at_stage st p → at_stage st' p) → good ((r, st) :: L) e → good ((r, st') :: L) e.
Proof.
  intros Hq Hst [es [H1 H2 H3 H4 H5 H6 H7]].
  apply Forall_cons in H4 as [(Ha & p & Hp & Hsp) H4]. exists es. split; try done.
  - apply Forall_cons. split; [|done]. simpl in *. eauto.
  - intros i Hi. destruct (H6 i Hi) as (r' & ? & [|?]%elem_of_cons); [naive_solver|].
    exists r'. split; [done|by right].
Qed.

(** A token for a new object. *)
Lemma good_new L e t :
  task_id t = uuid4 (env_tick e) → good L e →
  good ((env_tick e, Fresh) :: L) (with_tasks (<[env_tick e := t]> (env_tasks e)) (next_tick e)).
Proof.
  intros Ht [es [H1 H2 H3 H4 H5 H6 H7]]. exists es. split; simpl; try done.
  - by apply (log_is_later e); [|done|simpl; lia].
  - intros r t'. rewrite lookup_insert. case_decide as Hr.
    + intros [= <-]. subst r. split; [done|lia].
    + intros [? ?]%H2. split; [done|lia].
  - apply NoDup_cons. split; [|done]. intros (x & Hx & Hin)%list_elem_of_fmap.
    rewrite Forall_forall in H4. destruct (H4 x Hin) as [[t' Ht'] _]. rewrite <-Hx in Ht'.
    apply H2 in Ht' as [_ ?]. lia.
  - apply Forall_cons. split; simpl.
    + rewrite lookup_insert_eq. split; [done|]. exists Unseen. split; [by apply H7|done].
    + eapply Forall_impl; [exact H4|]. intros x [[t' Ht'] ?]. split; [|done].
      rewrite lookup_insert. case_decide; by eexists.
  - intros i Hi. destruct (H6 i Hi) as (r & ? & ?). exists r. split; [done|by right].
  - intros r Hr. apply H7. lia.
Qed.

(** Events: one that is about no task of the log, and one that moves a token. *)
Definition silent (d : event_data) : Prop := subject d = None.
Definition advances (st : stage) (d : event_data) (st' : stage) : Prop :=
  ∀ p, at_stage st p → ∃ p', moves p d = Some p' ∧ at_stage st' p'.

Lemma emit_meta_tick d m e : (env_tick e ≤ env_tick (emit_meta d m e).2)%nat.
Proof. unfold emit_meta. destruct (env_store e); [|done]. destruct (append _ _ _). simpl. lia. Qed.
Lemma emit_meta_logs d m e es : log_is e es →
  if json_ok (VDict m) then ∃ ev e', emit_meta d m e = (Ok tt, e') ∧ data ev = d ∧ log_is e' (es ++ [ev])
  else ∃ x e', emit_meta d m e = (Raise x, e') ∧ log_is e' es.
Proof.
  intros (tbl & Hs & Hh & Hf). unfold emit_meta. rewrite Hs.
  set (ev := {| event_id := _ |}). unfold append, transaction. rewrite store_never_fails.
  assert (Forall (λ ev, ∃ n, (n < S (env_tick e))%nat ∧ event_id ev = uuid4 n) es) as Hf'.
  { eapply Forall_impl; [exact Hf|]. intros ev' (n & ? & ?). exists n. split; [lia|done]. }
  destruct (json_ok (VDict m)) eqn:Hm.
  - assert (Hid : event_id ev ∉ map event_id es).
    { intros (ev' & Heq & Hin)%list_elem_of_In%in_map_iff. rewrite Forall_forall in Hf.
      destruct (Hf ev') as (n & Hn & Hev'); [by apply list_elem_of_In|]. simpl in Heq.
      rewrite Hev' in Heq. apply uuid4_inj in Heq. lia. }
    destruct (insert_event_holds tbl es ev Hh) as (tbl' & -> & Hh'); [by split_and!|done|].
    exists ev. eexists. split; [done|]. split; [done|]. exists tbl'. split_and!; [done|done|].
    apply Forall_app. split; [done|]. constructor; [|done]. exists (env_tick e). simpl. split; [lia|done].
  - assert (∃ x, insert_event ev tbl = Raise x) as [x ->].
    { unfold insert_event, event_to_row, dumps. cbn -[json_ok]. rewrite Hm. by eexists. }
    eexists x, _. split; [done|]. by exists tbl.
Qed.

(** The environment after an event that moves at most the token of [r]. *)
Lemma agrees_event L e es ev e' :
  agrees L e es → env_tasks e' = env_tasks e → (env_tick e ≤ env_tick e')%nat → log_is e' (es ++ [ev]) →
  silent (data ev) → agrees L e' (es ++ [ev]).
Proof.
  intros [H1 H2 H3 H4 H5 H6 H7] Htk Hle Hlog Hd.
  assert (∀ i, phase_of i (map data (es ++ [ev])) = phase_of i (map data es)) as Hl.
  { intros i. rewrite map_app. simpl. apply phase_other. unfold silent in Hd. by rewrite Hd. }
  split; try done.
  - rewrite Htk. intros r t [? ?]%H2. split; [done|lia].
  - eapply Forall_impl; [exact H4|]. intros x Hx. cbv beta. rewrite Htk, Hl. exact Hx.
  - intros i. by rewrite Hl.
  - intros i. rewrite Hl. apply H6.
  - intros r Hr. rewrite Hl. apply H7. lia.
Qed.
Lemma agrees_move r st st' L e es ev e' :
  agrees ((r, st) :: L) e es → env_tasks e' = env_tasks e → (env_tick e ≤ env_tick e')%nat →
  log_is e' (es ++ [ev]) → subject (data ev) = Some (uuid4 r) → advances st (data ev) st' →
  agrees ((r, st') :: L) e' (es ++ [ev]).
Proof.
  intros [H1 H2 H3 H4 H5 H6 H7] Htk Hle Hlog Hd Hadv.
  apply Forall_cons in H4 as [(Ha & p & Hp & Hsp) H4]. simpl in *.
  destruct (Hadv p Hsp) as (p' & Hm & Hsp').
  assert (phase_of (uuid4 r) (map data (es ++ [ev])) = Some p') as Hr.
  { rewrite map_app. simpl. rewrite phase_snoc, Hp. simpl. unfold phase_step. by rewrite decide_True. }
  assert (∀ i, i ≠ uuid4 r → phase_of i (map data (es ++ [ev])) = phase_of i (map data es)) as Hl.
  { intros i Hi. rewrite map_app. simpl. apply phase_other. rewrite Hd. naive_solver. }
  assert (∀ r', r' ≠ r → uuid4 r' ≠ uuid4 r) as Hinj by (intros r' Hne ?%uuid4_inj; done).
  csimpl in H3. pose proof H3 as [Hni Hnd]%NoDup_cons. rewrite <-Htk in Ha.
  split; try done.
  - rewrite Htk. intros r' t [? ?]%H2. split; [done|lia].
  - apply Forall_cons. split; [simpl; eauto|]. rewrite Forall_forall in H4 |- *. intros x Hx.
    destruct (H4 x Hx) as [? (px & ? & ?)]. rewrite Htk, Hl; [eauto|]. apply Hinj. intros Hxr.
    apply Hni. apply list_elem_of_fmap. by exists x.
  - intros i. destruct (decide (i = uuid4 r)) as [->|Hi]; [by rewrite Hr|by rewrite Hl].
  - intros i. destruct (decide (i = uuid4 r)) as [->|Hi].
    + rewrite Hr. intros [= ->]. apply at_stage_waiting in Hsp' as ->. exists r. split; [done|by left].
    + rewrite Hl by done. intros Hw. destruct (H6 i Hw) as (r' & -> & [|]%elem_of_cons); [naive_solver|].
      exists r'. split; [done|by right].
  - intros r' Hr'. rewrite Hl; [apply H7; lia|]. apply Hinj. intros ->.
    destruct Ha as [t Ht]. rewrite Htk in Ht. apply H2 in Ht. lia.
Qed.

Lemma good_emit L e d :
  silent d → good L e → ∃ e', emit d e = (Ok tt, e') ∧ good L e'.
Proof.
  intros Hd [es Hg]. destruct (emit_logs d e es (ag_log _ _ _ Hg)) as (ev & e' & Hem & Hev & Hlog).
  exists e'. split; [done|]. exists (es ++ [ev]). destruct (emit_facts _ _ _ _ _ Hem) as (Htk & _ & _).
  apply (agrees_event L e); try done; [|by rewrite Hev].
  pose proof (emit_meta_tick d [] e) as Ht. unfold emit in Hem. by rewrite Hem in Ht.
Qed.
Lemma good_emit_meta L e d m r st st' :
  subject d = Some (uuid4 r) → advances st d st' → good ((r, st) :: L) e →
  ∃ o e', emit_meta d m e = (o, e') ∧ good ((r, match o with Ok _ => st' | Raise _ => st end) :: L) e' ∧
    (json_ok (VDict m) = true → o = Ok tt).
Proof.
  intros Hd Hadv [es Hg]. pose proof (emit_meta_tick d m e) as Hle.
  pose proof (emit_meta_logs d m e es (ag_log _ _ _ Hg)) as Hlogs.
  destruct (json_ok (VDict m));
    [destruct Hlogs as (ev & e' & Hem & Hev & Hlog)|destruct Hlogs as (x & e' & Hem & Hlog)];
    rewrite Hem in Hle; destruct (emit_facts _ _ _ _ _ Hem) as (Htk & _ & _); simpl in Hle.
  - exists (Ok tt), e'. split_and!; [done| |done]. exists (es ++ [ev]). rewrite <-Hev in Hd, Hadv. by eapply agrees_move.
  - exists (Raise x), e'. split_and!; [done| |done].
    exists es. destruct Hg as [H1 H2 H3 H4 H5 H6 H7]. split; try done.
    + rewrite Htk. intros r' t [? ?]%H2. split; [done|lia].
    + by rewrite Htk.
    + intros r' Hr'. apply H7. lia.
Qed.
Lemma good_emitted {A} L e e' d r st st' o (a : A) :
  good ((r, st) :: L) e → emitted d e e' o a → same_objects (env_tasks e) (env_tasks e') →
  subject d = Some (uuid4 r) → advances st d st' → o = Ok a ∧ good ((r, st') :: L) e'.
Proof.
  intros Hg (e1 & o1 & Hs1 & Ht1 & Hem & ->) Hsame Hd Hadv.
  destruct (emit_facts _ _ _ _ _ Hem) as (Htk & _ & _). rewrite Htk in Hsame.
  apply (good_env _ e e1 Hs1 Ht1 Hsame) in Hg.
  destruct (good_emit_meta L e1 d [] r st st' Hd Hadv Hg) as (o2 & e2 & Hem2 & Hg2 & Ho2).
  unfold emit in Hem. rewrite Hem in Hem2. injection Hem2 as <- <-. rewrite (Ho2 eq_refl) in Hg2 |- *. done.
Qed.
End tokens.

(** * The logic *)

(** The environment inside a state. *)
Class World (S : Type) : Type := world : S → Env.
#[export] Instance world_env : World Env := λ e, e.
#[export] Instance world_pair {C E} `{!World E} : World (C * E) := λ s, world s.2.

(** What is known of a state, and the tokens its parts hold. *)
Record view (S : Type) : Type := View { ok : S → Prop; owned : S → list token }.
Arguments View {S}. Arguments ok {S}. Arguments owned {S}.
Definition plus {S} (L : list token) (V : view S) : view S := View (ok V) (λ s, L ++ owned V s).
Definition given {S} (φ : Prop) (V : view S) : view S := View (λ s, φ ∧ ok V s) (owned V).
Definition beside {C E} (PC : C → Prop) (f : C → list token) (V : view E) : view (C * E) :=
  View (λ s, PC s.1 ∧ ok V s.2) (λ s, f s.1 ++ owned V s.2).

Section logic.
Context `{!Oracle} `{!ReliableStore}.

(** [L] can be turned into [L'], whatever the rest of the system holds. *)
Definition becomes (L L' : list token) : Prop := ∀ F e, good (L ++ F) e → good (L' ++ F) e.
#[export] Instance becomes_po : PreOrder becomes.
Proof. split; [by intros L F e|]. intros L1 L2 L3 H1 H2 F e Hg. by apply H2, H1. Qed.
#[export] Instance becomes_perm : Proper ((≡ₚ) ==> (≡ₚ) ==> iff) becomes.
Proof.
  assert (∀ L1 L2 L1' L2', L1 ≡ₚ L2 → L1' ≡ₚ L2' → becomes L1 L1' → becomes L2 L2') as Hmono.
  { intros L1 L2 L1' L2' Hp Hp' Hb F e Hg. rewrite <-Hp'. apply Hb. by rewrite Hp. }
  intros L1 L2 Hp L1' L2' Hp'. split; by apply Hmono.
Qed.
Lemma becomes_app X L L' : becomes L L' → becomes (X ++ L) (X ++ L').
Proof.
  intros Hb F e. rewrite <-!(assoc_L (++)), !(Permutation_app_swap_app X). apply Hb.
Qed.
Lemma becomes_app_r X L L' : becomes L L' → becomes (L ++ X) (L' ++ X).
Proof. intros Hb. rewrite !(Permutation_app_comm _ X). by apply becomes_app. Qed.
Lemma becomes_nil r st : st ≠ Queued → becomes [(r, st)] [].
Proof. intros Hst F e. by apply good_drop. Qed.
Lemma becomes_drop (L : list token) : Forall (λ x, x.2 ≠ Queued) L → becomes L [].
Proof.
  induction 1 as [|[r st] L Hst _ IH]; [done|]. etrans; [|exact IH].
  apply (becomes_app_r L [(r, st)] []). by apply becomes_nil.
Qed.
Lemma becomes_stage r st st' :
  st ≠ Queued → (∀ p, at_stage st p → at_stage st' p) → becomes [(r, st)] [(r, st')].
Proof. intros ?? F e. by apply good_stage. Qed.
Lemma becomes_ready r : becomes [(r, Busy)] [(r, Ready)].
Proof. apply becomes_stage; [done|]. simpl. auto. Qed.

Section rules.
Context {S : Type} `{!World S}.
Implicit Types (V : view S).

Definition satisfies V F (s : S) : Prop := ok V s ∧ good (owned V s ++ F) (world s).
Definition entails V V' : Prop := ∀ F s, satisfies V F s → satisfies V' F s.
Definition legal {A} V (m : M S A) (Q : outcome A → view S) : Prop :=
  ∀ F s o s', satisfies V F s → m s = (o, s') → satisfies (Q o) F s'.

Lemma entails_becomes V L L' : becomes L L' → entails (plus L V) (plus L' V).
Proof. intros Hb F s [Hok Hg]. split; [done|]. simpl in *. rewrite <-(assoc_L (++)) in *. by apply Hb. Qed.

Lemma l_conseq {A} V V' (m : M S A) Q Q' :
  legal V m Q → entails V' V → (∀ o, entails (Q o) (Q' o)) → legal V' m Q'.
Proof. intros Hm HV HQ F s o s' Hs Hrun. eapply HQ, Hm; [|done]. by apply HV. Qed.
Lemma l_ret {A} V (a : A) Q : entails V (Q (Ok a)) → legal V (ret a) Q.
Proof. intros HQ F s o s' Hs [= <- <-]. by apply HQ. Qed.
Lemma l_bind {A B} V (m : M S A) (k : A → M S B) Q R :
  legal V m Q → (∀ a, legal (Q (Ok a)) (k a) R) → (∀ e, entails (Q (Raise e)) (R (Raise e))) →
  legal V (bind m k) R.
Proof.
  intros Hm Hk HR F s o s' Hs. unfold bind. destruct (m s) as [[a|e] s1] eqn:E.
  - intros Hrun. eapply Hk; [|exact Hrun]. by apply (Hm _ _ _ _ Hs E).
  - intros [= <- <-]. apply HR. by apply (Hm _ _ _ _ Hs E).
Qed.
Lemma l_catch {A} V (m : M S A) h Q R :
  legal V m Q → (∀ e, legal (Q (Raise e)) (h e) R) → (∀ a, entails (Q (Ok a)) (R (Ok a))) →
  legal V (catch m h) R.
Proof.
  intros Hm Hh HR F s o s' Hs. unfold catch. destruct (m s) as [[a|e] s1] eqn:E.
  - intros [= <- <-]. apply HR. by apply (Hm _ _ _ _ Hs E).
  - intros Hrun. eapply Hh; [|exact Hrun]. by apply (Hm _ _ _ _ Hs E).
Qed.

(** A computation that keeps [V], turns the tokens [L] it is given into those
    of its outcome, and ends as [Φ] says. *)
Definition keeps {A} V L (m : M S A) (Φ : outcome A → Prop) (L' : outcome A → list token) : Prop :=
  legal (plus L V) m (λ o, given (Φ o) (plus (L' o) V)).
Definition any {A} (_ : outcome A) : Prop := True.

Lemma k_ret {A} V L (a : A) L' : becomes L (L' (Ok a)) → keeps V L (ret a) any L'.
Proof.
  intros Hb. apply l_ret. intros F s Hs. destruct (entails_becomes V L _ Hb F s Hs). by split.
Qed.
Lemma k_raise {A} V L e : keeps V L (raise (A:=A) e) any (λ _, L).
Proof. intros F s o s' Hs [= <- <-]. by destruct Hs. Qed.
Lemma k_of_outcome {A} V L (x : outcome A) : keeps V L (of_outcome x) any (λ _, L).
Proof. intros F s o s' Hs [= <- <-]. by destruct Hs. Qed.
Lemma k_bind {A B} V L (m : M S A) (k : A → M S B) Φ L1 Ψ L' :
  keeps V L m Φ L1 →
  (∀ a, Φ (Ok a) → keeps V (L1 (Ok a)) (k a) Ψ L') →
  (∀ e, Φ (Raise e) → Ψ (Raise e) ∧ becomes (L1 (Raise e)) (L' (Raise e))) →
  keeps V L (bind m k) Ψ L'.
Proof.
  intros Hm Hk Hr. eapply l_bind; [exact Hm| |].
  - intros a F s o s' [[Ha Hok] Hg] Hrun. eapply (Hk a Ha); [|exact Hrun]. by split.
  - intros e F s [[He Hok] Hg]. destruct (Hr e He) as [? Hb]. split; [done|].
    by destruct (entails_becomes V _ _ Hb F s (conj Hok Hg)).
Qed.
Lemma k_catch {A} V L (m : M S A) h Φ L1 Ψ L' :
  keeps V L m Φ L1 →
  (∀ e, Φ (Raise e) → keeps V (L1 (Raise e)) (h e) Ψ L') →
  (∀ a, Φ (Ok a) → Ψ (Ok a) ∧ becomes (L1 (Ok a)) (L' (Ok a))) →
  keeps V L (catch m h) Ψ L'.
Proof.
  intros Hm Hk Hr. eapply l_catch; [exact Hm| |].
  - intros a F s o s' [[Ha Hok] Hg] Hrun. eapply (Hk a Ha); [|exact Hrun]. by split.
  - intros e F s [[He Hok] Hg]. destruct (Hr e He) as [? Hb]. split; [done|].
    by destruct (entails_becomes V _ _ Hb F s (conj Hok Hg)).
Qed.
Lemma k_swallow V L (m : M S unit) L' :
  keeps V L m any (λ _, L') → keeps V L (catch m (λ _, ret tt)) (λ o, o = Ok tt) (λ _, L').
Proof.
  intros Hm F s o s' Hs. unfold catch. destruct (m s) as [[[]|e] s1] eqn:E; intros [= <- <-];
    destruct (Hm _ _ _ _ Hs E) as [[_ ?] ?]; by split.
Qed.
Lemma k_conseq {A} V L1 L2 (m : M S A) (Φ Ψ : outcome A → Prop) L1' L2' :
  keeps V L1 m Φ L1' → becomes L2 L1 → (∀ o, Φ o → Ψ o) → (∀ o, becomes (L1' o) (L2' o)) → keeps V L2 m Ψ L2'.
Proof.
  intros Hm HL HΦ HL'. eapply l_conseq; [exact Hm|by apply entails_becomes|].
  intros o F s [[Ho Hok] Hg]. destruct (entails_becomes V _ _ (HL' o) F s (conj Hok Hg)). split; [split; auto|done].
Qed.
Lemma k_frame {A} X V L (m : M S A) Φ L' :
  keeps V L m Φ L' → keeps V (X ++ L) m Φ (λ o, X ++ L' o).
Proof.
  intros Hm F s o s' [Hok Hg] Hrun.
  assert (∀ Y, (X ++ Y) ++ F ≡ₚ Y ++ X ++ F) as Hp.
  { intros Y. by rewrite <-(assoc_L (++)), (Permutation_app_swap_app X). }
  destruct (Hm (X ++ F) s o s') as [Hok' Hg']; [|done|].
  - split; [exact Hok|]. simpl in *. by rewrite <-Hp, (assoc_L (++) X).
  - split; [exact Hok'|]. simpl in *. by rewrite <-(assoc_L (++) X), Hp.
Qed.
Lemma k_for_each {A} V (l : list A) (body : A → M S unit) :
  (∀ x, keeps V [] (body x) any (λ _, [])) → keeps V [] (for_each l body) any (λ _, []).
Proof.
  intros Hb. induction l as [|x l IH]; simpl; [by apply k_ret|].
  eapply k_bind; [apply Hb|intros []; by intros|by intros].
Qed.
End rules.

Section pairs.
Context {C E : Type} `{!World E}.
Implicit Types (V : view E) (PC : C → Prop) (f : C → list token).

Lemma l_env {A} PC f V (m : M E A) Q :
  legal V m Q → legal (beside PC f V) (env m) (λ o, beside PC f (Q o)).
Proof.
  intros Hm F [c e] o s' [[Hc Hok] Hg] Hrun. unfold zoom in Hrun; simpl in *.
  destruct (m e) as [o' e'] eqn:E0. injection Hrun as <- <-.
  destruct (Hm (f c ++ F) e o' e') as [Hok' Hg']; [|done|].
  - split; [done|]. by rewrite Permutation_app_swap_app, (assoc_L (++)).
  - split; [done|]. simpl. by rewrite <-(assoc_L (++)), Permutation_app_swap_app.
Qed.
Lemma k_env {A} PC f V L (m : M E A) Φ L' :
  keeps V L m Φ L' → keeps (beside PC f V) L (env m) Φ L'.
Proof.
  intros Hm. eapply l_conseq; [exact (l_env PC f _ _ _ Hm)| |].
  - intros F s [Hok Hg]. split; [exact Hok|]. simpl in *. by rewrite Permutation_app_swap_app.
  - intros o F s [[Hc [? ?]] Hg]. split; [done|]. simpl in *. by rewrite Permutation_app_swap_app.
Qed.
Lemma l_modify PC f PC' f' V L L' g :
  (∀ c, PC c → PC' (g c) ∧ becomes (L ++ f c) (L' ++ f' (g c))) →
  legal (plus L (beside PC f V)) (self (modify g)) (λ _, plus L' (beside PC' f' V)).
Proof.
  intros Hg F [c e] o s' [[Hc Hok] Hgood] [= <- <-]. destruct (Hg c Hc) as [? Hb]. split; [done|].
  simpl in *. rewrite !(assoc_L (++)), <-(assoc_L (++)) in *. by apply Hb.
Qed.
Lemma k_modify PC f V L L' g :
  (∀ c, PC c → PC (g c) ∧ becomes (L ++ f c) (L' ++ f (g c))) →
  keeps (beside PC f V) L (self (modify g)) (λ o, o = Ok tt) (λ _, L').
Proof.
  intros Hg F s o s' Hs Hrun. destruct (l_modify PC f PC f V L L' g Hg F s o s' Hs Hrun) as [Hok Hgood].
  split; [|done]. split; [|done]. unfold zoom in Hrun. by injection Hrun as <- _.
Qed.
Lemma k_self {A} PC f V L (m : M C A) :
  (∀ c, PC c → PC (m c).2 ∧ f (m c).2 = f c) → keeps (beside PC f V) L (self m) any (λ _, L).
Proof.
  intros Hm F [c e] o s' [[Hc Hok] Hg] Hrun. specialize (Hm c Hc). unfold zoom in Hrun; simpl in *.
  destruct (m c) as [o' c']. injection Hrun as <- <-. simpl in *. destruct Hm as [? Hf]. split; [done|].
  simpl. by rewrite Hf.
Qed.
(** Reading the object. *)
Lemma k_read {A} PC f V L (k : C → M (C * E) A) Φ L' :
  (∀ c, PC c → legal (plus L (beside (λ c', c' = c) f V)) (k c) (λ o, given (Φ o) (plus (L' o) (beside PC f V)))) →
  keeps (beside PC f V) L (bind (self get) k) Φ L'.
Proof.
  intros Hk F [c e] o s' [[Hc Hok] Hg] Hrun. eapply (Hk c Hc F (c, e)); [|exact Hrun]. by split.
Qed.
End pairs.
End logic.
Arguments any {_} _ /.

(** The computations at the leaves; [k_step] steps through a sequence whose
    first computation they describe. *)
Create HintDb legal.
#[export] Hint Extern 1 (keeps _ _ (env _) _ _) => eapply k_env : legal.
#[export] Hint Extern 1 (keeps _ _ (ret _) _ _) => eapply k_ret : legal.
#[export] Hint Extern 1 (keeps _ _ (of_outcome _) _ _) => eapply k_of_outcome : legal.
Ltac k_leaf := solve [eauto 6 with legal nocore].
Ltac k_step := eapply k_bind; [k_leaf | intros ? ? | try (by intros)].

(** * The environment *)
Section environment.
Context `{!Oracle} `{!ReliableStore}.

Definition env_view : view Env := View (λ _, True) (λ _, []).

Lemma k_deref r L : keeps env_view L (deref r) (λ o, ∀ t, o = Ok t → task_id t = uuid4 r) (λ _, L).
Proof.
  intros F e o s' [_ Hg]. unfold deref. destruct (env_tasks e !! r) as [t|] eqn:Ht; intros [= <- <-].
  - split; [|done]. split; [|done]. intros ? [= <-]. by destruct (good_tasks _ _ _ _ Hg Ht).
  - by split.
Qed.
Lemma k_tick L : keeps env_view L tick (λ o, ∃ n, o = Ok n) (λ _, L).
Proof. intros F e o s' [_ Hg] [= <- <-]. split; [by split; [eexists|]|]. by apply good_tick. Qed.
Lemma k_update r f L :
  (∀ t, task_id (f t) = task_id t) → keeps env_view L (update_task r f) any (λ _, L).
Proof. intros Hf F e o s' [_ Hg] [= <- <-]. split; [done|]. by apply good_update. Qed.
Lemma k_emit d L : silent d → keeps env_view L (emit d) (λ o, o = Ok tt) (λ _, L).
Proof.
  intros Hd F e o s' [_ Hg] Hrun. destruct (good_emit _ e d Hd Hg) as (e' & Hem & Hg').
  rewrite Hrun in Hem. injection Hem as -> ->. by split.
Qed.
Lemma k_emit_meta r st d m st' :
  subject d = Some (uuid4 r) → advances st d st' →
  keeps env_view [(r, st)] (emit_meta d m) (λ o, json_ok (VDict m) = true → o = Ok tt)
    (λ o, [(r, match o with Ok _ => st' | Raise _ => st end)]).
Proof.
  intros Hd Hadv F e o s' [_ Hg] Hrun.
  destruct (good_emit_meta _ e d m r st st' Hd Hadv Hg) as (o' & e' & Hem & Hg' & Ho).
  rewrite Hrun in Hem. injection Hem as -> ->. by split.
Qed.
Lemma k_move r st d st' :
  subject d = Some (uuid4 r) → advances st d st' →
  keeps env_view [(r, st)] (emit d) (λ o, o = Ok tt) (λ _, [(r, st')]).
Proof.
  intros Hd Hadv F e o s' Hs Hrun. destruct (k_emit_meta r st d [] st' Hd Hadv F e o s' Hs Hrun) as [[Ho ?] Hg].
  rewrite (Ho eq_refl) in Hg |- *. by split.
Qed.
Lemma k_on_task {A} r (m : M Task A) L :
  (∀ t, task_id (m t).2 = task_id t) → keeps env_view L (on_task r m) any (λ _, L).
Proof.
  intros Hm F e o s' [_ Hg]. unfold on_task. destruct (env_tasks e !! r) as [t|] eqn:Ht.
  2:{ intros [= <- <-]. by split. }
  specialize (Hm t). destruct (m t) as [o' t']. simpl in Hm. intros [= <- <-]. split; [done|].
  revert Hg. apply good_env; [done..|]. by eapply same_objects_insert.
Qed.
Lemma k_new_task title ty md :
  keeps env_view [] (new_task title ty md) any
    (λ o, match o with Ok r => [(r, Fresh)] | Raise _ => [] end).
Proof.
  intros F e o s' [_ Hg]. rewrite new_task_run. destruct (str_truthy _); intros [= <- <-]; (split; [done|]).
  - by apply good_new.
  - by apply good_tick.
Qed.

Lemma prepare_retry_id t : task_id (prepare_retry t).2 = task_id t.
Proof.
  unfold prepare_retry. run_step. destruct (dget _ _) as [v|]; [|done]. destruct (retry_count t); [|done].
  simpl. by destruct v.
Qed.
End environment.
#[export] Hint Resolve k_deref k_tick k_new_task : legal.
#[export] Hint Extern 1 (keeps _ _ (emit _) _ _) => eapply k_emit; reflexivity : legal.
#[export] Hint Extern 1 (keeps _ _ (update_task _ _) _ _) => eapply k_update; reflexivity : legal.

(** * The task queue *)

(** A policy that takes every task and forgets an id once it is served. *)
Class PromptPolicy (P : Type) `{PolicyLaws P} : Prop := {
  addable_all (t : Task) : pol_addable (P:=P) t;
  tracked_live (p : P) i : pol_wf p → i ∈ pol_tracked p → i ∈ pol_live p
}.
#[export] Instance fifo_prompt : @PromptPolicy FIFOPolicy.t FIFOPolicy.policy FIFOPolicy.laws.
Proof. split; [done|]. intros p i _. simpl. by rewrite elem_of_list_to_set. Qed.

Section queue.
Context `{!Oracle} `{!ReliableStore} {P : Type} `{HP : PolicyLaws P} `{!PromptPolicy P}.
Implicit Types (q : Queue P) (e : Env).

(** The queue's own invariant, with the names of the objects for its keys. *)
Record queue_ok (q : Queue P) : Prop := {
  qo_policy : pol_wf (q_policy q);
  qo_live : ∀ i, i ∈ pol_live (q_policy q) ↔ is_Some (q_storage q !! i);
  qo_keys : ∀ i r, q_storage q !! i = Some r → i = uuid4 r;
  qo_capacity : ∀ m, q_max_size q = Some m → 0 < m ∧ qsize q ≤ m;
  qo_counts : q_enqueue_count q = q_dequeue_count q + q_cancel_count q + qsize q
}.
Definition queue_tokens (q : Queue P) : list token := (λ r, (r, Queued)) <$> queue_refs q.
Definition queue_view : view (Queue P * Env) := beside queue_ok queue_tokens env_view.

Lemma queue_tokens_elem q r : (r, Queued) ∈ queue_tokens q ↔ ∃ i, q_storage q !! i = Some r.
Proof.
  unfold queue_tokens, queue_refs. rewrite list_elem_of_fmap. split.
  - intros (r' & [= ->] & ([i r''] & -> & Hin)%list_elem_of_fmap). exists i. by apply elem_of_map_to_list.
  - intros [i Hi]. exists r. split; [done|]. apply list_elem_of_fmap. exists (i, r). split; [done|].
    by apply elem_of_map_to_list.
Qed.
Lemma queue_ok_inv q e L : queue_ok q → good (queue_tokens q ++ L) e → queue_inv (q, e).
Proof.
  intros Hq Hg. split; try apply Hq. intros i r Hr. rewrite (qo_keys q Hq i r Hr).
  apply (good_alive _ _ _ Queued Hg), elem_of_app. left. apply queue_tokens_elem. by exists i.
Qed.
Lemma queue_inv_ok q e : queue_inv (q, e) → (∀ i r, q_storage q !! i = Some r → i = uuid4 r) → queue_ok q.
Proof. by intros [] ?. Qed.
Lemma queue_stored q r : queue_ok q → is_Some (q_storage q !! uuid4 r) → (r, Queued) ∈ queue_tokens q.
Proof.
  intros Hq [r' Hr']. pose proof (qo_keys q Hq _ _ Hr') as ->%uuid4_inj. apply queue_tokens_elem. by exists (uuid4 r').
Qed.

Lemma enqueue_legal r : keeps queue_view [(r, Ready)] (enqueue r) any (λ _, []).
Proof.
  intros F [q e] o s' [[Hq _] Hg] Hrun. simpl in Hg, Hq. rewrite app_nil_r in Hg.
  destruct (good_alive _ _ r Ready Hg) as (t & Ht & Hid); [by left|]. destruct (is_full q) eqn:Hfull.
  { rewrite (enqueue_full q e r t Ht Hfull) in Hrun. injection Hrun as <- <-. split.
    - split; [done|]. by destruct Hq.
    - simpl. rewrite app_nil_r. by apply (good_drop Ready r); [|apply good_tick]. }
  assert (queue_inv (q, e)) as Hinv.
  { apply (queue_ok_inv q e ((r, Ready) :: F) Hq). by rewrite <-Permutation_middle. }
  assert (task_id t ∉ pol_tracked (q_policy q)) as Hnew.
  { intros Hin. apply tracked_live in Hin; [|apply Hq]. apply (qo_live q Hq) in Hin. rewrite Hid in Hin.
    pose proof (good_once _ _ Hg) as [Hni _]%NoDup_cons. apply Hni. apply list_elem_of_fmap. exists (r, Queued). split; [done|]. apply elem_of_app. left.
    by apply queue_stored. }
  destruct (enqueue_spec q e r t Hinv Ht Hfull (addable_all t) Hnew)
    as (o' & q' & e' & l1 & l2 & Hrun' & Hinv' & _ & _ & Hst & _ & _ & Htk & _ & _ & Hem).
  rewrite Hrun in Hrun'. injection Hrun' as -> ->. split; simpl; rewrite ?app_nil_r.
  - split; [done|]. split; [|done]. apply (queue_inv_ok q' e' Hinv'). rewrite Hst. intros i r'.
    rewrite lookup_insert. case_decide as Hi; [subst; by intros [= <-]|apply Hq].
  - rewrite Hid in Hem.
    destruct (good_emitted (queue_tokens q ++ F) e e' _ r Ready Queued o' tt Hg Hem) as [_ Hg2];
      [rewrite Htk; by apply same_objects_alter|done|intros p [->| ->]; by exists Waiting|].
    revert Hg2. rewrite app_comm_cons. apply good_perm. f_equiv.
    unfold queue_tokens, queue_refs. rewrite Hst, map_to_list_insert; [done|].
    apply eq_None_not_Some. intros Hs. apply Hnew, pol_live_tracked; [apply Hq|]. by apply (qo_live q Hq).
Qed.

Lemma dequeue_objects s : env_tasks (dequeue s).2.2 = env_tasks s.2.
Proof.
  destruct s as [q e]. unfold dequeue. run_step. destruct (pol_next _) as [[[i|]|x] p']; try done. simpl.
  destruct (q_storage q !! i) as [r|]; [|done]. simpl. unfold deref.
  destruct (env_tasks e !! r) as [t|]; [|done]. simpl.
  pose proof (emit_meta_tasks (TaskDequeued (task_id t)) [] (next_tick e)) as Htk. unfold emit.
  by destruct (emit_meta _ _ _) as [[]].
Qed.
Lemma no_tokens q e : queue_inv (q, e) → pol_live (q_policy q) = [] → queue_tokens q = [].
Proof.
  intros Hinv Hl. assert (q_storage q = ∅) as Hs.
  { apply map_eq. intros i. rewrite lookup_empty. apply eq_None_not_Some.
    rewrite <-(inv_live _ Hinv i). simpl. rewrite Hl. apply not_elem_of_nil. }
  unfold queue_tokens, queue_refs. by rewrite Hs, map_to_list_empty.
Qed.
Lemma dequeue_legal :
  keeps queue_view [] dequeue any (λ o, match o with Ok r => [(r, Handed)] | Raise _ => [] end).
Proof.
  intros F [q e] o s' [[Hq _] Hg] Hrun. simpl in Hg, Hq. rewrite app_nil_r in Hg.
  pose proof (queue_ok_inv q e F Hq Hg) as Hinv. pose proof (dequeue_spec q e Hinv) as Hspec.
  pose proof (dequeue_objects (q, e)) as Htk. rewrite Hrun in Htk.
  destruct (pol_live (q_policy q)) as [|i l] eqn:Hlive.
  - destruct Hspec as (q' & Hrun' & Hinv' & Hlive' & _). rewrite Hrun in Hrun'. injection Hrun' as -> ->.
    pose proof (no_tokens q' e Hinv' Hlive') as Htok. split; simpl.
    + split; [done|]. split; [|done]. apply (queue_inv_ok q' e Hinv'). intros i r Hr.
      assert ((r, Queued) ∈ queue_tokens q') as Hin by (apply queue_tokens_elem; eauto).
      rewrite Htok in Hin. by apply not_elem_of_nil in Hin.
    + rewrite Htok. by rewrite (no_tokens q e Hinv Hlive) in Hg.
  - destruct Hspec as (o' & q' & e' & r & Hrun' & Hinv' & _ & Hr & Hst & _ & _ & Hem).
    rewrite Hrun in Hrun'. injection Hrun' as -> ->. simpl in Htk.
    pose proof (qo_keys q Hq i r Hr) as Hi. subst i.
    destruct (good_emitted (queue_tokens q' ++ F) e e' (TaskDequeued (uuid4 r)) r Queued Handed o' r) as [-> Hg'];
      [|done|by rewrite Htk; split; eauto|done|intros p ->; by exists Taken|].
    + revert Hg. rewrite app_comm_cons. apply good_perm. f_equiv. unfold queue_tokens, queue_refs.
      by rewrite Hst, <-(map_refs_delete (q_storage q) (uuid4 r) r Hr).
    + split; simpl; [|by rewrite app_nil_r]. split; [done|]. split; [|done]. apply (queue_inv_ok q' e' Hinv').
      intros j r'. rewrite Hst. intros [_ Hj]%lookup_delete_Some. by apply Hq.
Qed.

Lemma is_empty_legal : keeps queue_view [] is_empty any (λ _, []).
Proof. intros F [q e] o s' [[? ?] ?] [= <- <-]. by split. Qed.
#[local] Hint Resolve enqueue_legal : legal.

(** ** The tracker's callback *)
Lemma ready_legal r : keeps queue_view [(r, Ready)] (on_delayed_task_ready r) any (λ _, []).
Proof.
  unfold on_delayed_task_ready. eapply (k_catch _ _ _ _ any (λ _, [])); [|intros x _|done].
  - k_step. k_step. eapply k_conseq; [k_leaf|done..].
  - destruct (isinstance x "Exception"); [by apply k_ret|apply k_raise].
Qed.
End queue.

(** * The scheduler *)

(** An admission chain that hands back the task it is given, changes no id and
    logs nothing about tasks. *)
Definition lawful `{!Oracle} (admission : option (list AdmissionPlugin)) : Prop :=
  match admission with
  | None => True
  | Some plugins => ∀ r L, keeps env_view L (submit plugins r) (λ o, ∀ r', o = Ok r' → r' = r) (λ _, L)
  end.

Section scheduler.
Context `{!Oracle} `{!ReliableStore} {P : Type} `{HP : PolicyLaws P} `{!PromptPolicy P}.

Definition readied (l : list nat) : list token := (λ r, (r, Ready)) <$> l.
Definition heap_tokens (d : Tracker) : list token := readied (heap_refs d).
Definition sched_view : view (Tracker * (Queue P * Env)) := beside (λ _, True) heap_tokens queue_view.
(** next to the task manager *)
Definition manager_view : view (TaskManager * (Tracker * (Queue P * Env))) :=
  beside (λ _, True) (λ _, []) sched_view.
#[local] Hint Resolve enqueue_legal ready_legal : legal.
#[local] Hint Extern 1 (keeps _ _ (on_env _) _ _) => unfold on_env : legal.

Lemma clock_legal L : keeps queue_view L wall_clock any (λ _, L).
Proof. unfold wall_clock. k_step. by apply k_ret. Qed.
#[local] Hint Resolve clock_legal : legal.

Lemma delay_legal r delay : keeps sched_view [(r, Ready)] (delay_task r delay) any (λ _, []).
Proof.
  unfold delay_task, add_delayed_task. destruct (num_le delay (PInt 0)); [k_leaf|].
  do 2 (k_step; [|intros; split; [done|by apply becomes_nil]]).
  eapply k_conseq; [apply (k_modify _ _ _ _ [])|done..]. intros d _. split; [done|]. unfold heap_tokens, heap_refs, readied; simpl.
  by rewrite heappush_perm.
Qed.
#[local] Hint Resolve delay_legal : legal.

Lemma failure_legal r error : keeps sched_view [(r, Busy)] (handle_task_failure r error) any (λ _, []).
Proof.
  assert (becomes [(r, Busy)] []) as Hdrop by (by apply becomes_nil).
  unfold handle_task_failure. eapply k_bind; [k_leaf|intros t Ht|done].
  k_step. destruct a.
  - eapply k_bind; [apply k_env, k_env, k_on_task, prepare_retry_id|intros delay _|done].
    eapply k_bind; [eapply k_conseq; [k_leaf|apply becomes_ready|done..]|intros ? _|done].
    k_step. k_step. k_step. eapply k_conseq; [k_leaf|done..].
  - eapply k_conseq; [apply k_env, k_env, (k_move r Busy _ Over)|done|done|].
    + simpl. by rewrite (Ht t).
    + intros p ->. by exists Closed.
    + intros. by apply becomes_nil.
Qed.

Lemma schedule_legal admission r delay :
  lawful admission → keeps sched_view [(r, Ready)] (schedule admission r delay) any (λ _, []).
Proof.
  intros Ha. unfold schedule.
  eapply (k_bind _ _ _ _ (λ o, ∀ r', o = Ok r' → r' = r) (λ _, [(r, Ready)]));
    [|intros r' Hr'|intros; split; [done|by apply becomes_nil]].
  - destruct admission as [plugins|]; [by apply k_env, k_env, Ha|].
    intros F s o s' Hs [= <- <-]. destruct Hs as [? ?]. split; [|done]. split; [|done]. by intros ? [= ->].
  - rewrite (Hr' r' eq_refl). destruct (num_lt _ _); [|k_leaf].
    k_step. k_step. eapply k_conseq; [k_leaf|done..].
Qed.

Lemma collect_legal :
  keeps sched_view [] (collect_due wall_clock) any
    (λ o, match o with Ok l => readied l.*2 | Raise _ => [] end).
Proof.
  intros F [d [q e]] o s' [Hok Hg]. unfold collect_due. run_step.
  pose proof (pop_due_perm (length (dt_heap d)) (PFloat (time_now (env_tick e))) (dt_heap d)) as Hp.
  destruct (pop_due _ _ _) as [due rest]. intros [= <- <-]. split; [done|]. simpl in *.
  apply good_tick. revert Hg. apply good_perm. unfold heap_tokens, heap_refs, readied; simpl.
  rewrite Hp, !fmap_app. by rewrite <-!(assoc_L (++)).
Qed.
Lemma release_legal x :
  keeps sched_view [(x.2, Ready)] (release on_delayed_task_ready x) any (λ _, []).
Proof.
  unfold release. eapply (k_catch _ _ _ _ any (λ _, [])); [k_leaf|intros y _|done].
  destruct (isinstance y "Exception"); [by apply k_ret|apply k_raise].
Qed.

(** ** [Runtime.submit_task] *)
Lemma add_task_legal r L : keeps manager_view L (zoom manager_env (add_task r)) any (λ _, L).
Proof.
  intros F [mgr [d [q e]]] o s' Hs Hrun.
  assert (s'.2 = (d, (q, e))) as Hs'.
  { revert Hrun. unfold add_task. run_step. unfold deref. destruct (env_tasks e !! r) as [t|]; simpl.
    - destruct (dhas _ _); by intros [= <- <-].
    - by intros [= <- <-]. }
  destruct s' as [mgr' s']. simpl in Hs'. subst s'. destruct Hs as [[_ Hok] Hg]. by split_and!.
Qed.
Lemma submit_legal admission title ty md delay :
  lawful admission → keeps manager_view [] (submit_task admission title ty md delay) any (λ _, []).
Proof.
  intros Ha. unfold submit_task. eapply k_bind; [k_leaf|intros r _|done].
  assert (becomes [(r, Fresh)] []) as Hdrop by (by apply becomes_nil).
  eapply k_bind; [apply add_task_legal|intros ? _|done].
  eapply k_bind; [k_leaf|intros t Ht|done].
  eapply k_bind; [apply k_env, k_env, k_env, (k_emit_meta r Fresh _ _ Ready)|intros ? _|done].
  - simpl. by rewrite (Ht t).
  - intros p ->. exists Submitted. split; [done|by left].
  - eapply k_bind; [by apply k_env, schedule_legal|intros ? _|done]. by apply k_ret.
Qed.
End scheduler.
