(* ===== verification/Lifecycle.v ===== *)
(** Every session of a runtime writes a legal log: the workers, the threads and
    the clients respect the protocol of [Protocol], so that at any moment each
    task's events are in order, and where a task is agrees with where its log
    has left it; and recovery from the log finds what waits in the queue. *)
From S2P Require Import Prelude PyNum Heapq Values Decode Events EventStore RuntimeState Tasks Recovery Policy.
From S2P Require Import TaskQueue QueueSpec QueueRecovery Admission Retry Delayed Scheduler WorkerPool Accounting.
From S2P Require Import System Timeline Runtime Protocol.
Open Scope Z_scope.

#[local] Arguments perform {_ _ _} _ _ : simpl never.
#[local] Arguments session {_ _ _} _ _ _ : simpl never.

(** * The worker pool *)
Definition handed (l : list nat) : list token := (λ r, (r, Handed)) <$> l.
Definition hand_tokens (x : Worker) : list token :=
  match wk_pc x with
  | Got r | Marked r => [(r, Handed)]
  | Executing r _ | Returned r _ _ => [(r, Busy)]
  | _ => []
  end.
Definition hands_tokens (ws : odict Worker) : list token := mjoin (hand_tokens <$> dvals ws).
Definition pool_tokens (p : Pool) : list token := handed (pl_queue p) ++ hands_tokens (pl_workers p).
(** all but those of the worker [w] *)
Definition tokens_but (w : string) (p : Pool) : list token :=
  handed (pl_queue p) ++ hands_tokens (ddel (pl_workers p) w).

Lemma hands_open ws w x :
  dget ws w = Some x → hands_tokens ws ≡ₚ hand_tokens x ++ hands_tokens (ddel ws w).
Proof.
  unfold hands_tokens, dvals. induction ws as [|[k z] ws IH]; csimpl; [done|]. case_decide.
  - by intros [= ->].
  - intros Hx. csimpl. rewrite (IH Hx). by rewrite Permutation_app_swap_app.
Qed.
Lemma ddel_dset (ws : odict Worker) w x y : dget ws w = Some x → ddel (dset ws w y) w = ddel ws w.
Proof.
  induction ws as [|[k z] ws IH]; simpl; [done|]. case_decide as Hk; simpl; [by rewrite decide_True|].
  intros Hx. rewrite decide_False by done. by rewrite IH.
Qed.
Lemma hand_droppable x : Forall (λ t : token, t.2 ≠ Queued) (hand_tokens x).
Proof. unfold hand_tokens. destruct (wk_pc x); by repeat constructor. Qed.

Section pool.
Context `{!Oracle} `{!ReliableStore} {P : Type} `{HP : PolicyLaws P} `{!PromptPolicy P}.
Abbreviation PS := (Pool * (Tracker * (Queue P * Env)))%type.

Definition pool_view : view PS := beside pool_ok pool_tokens sched_view.
(** The worker [w] is [x], and its token is out of the pool's hands. *)
Definition opened (w : string) (x : Worker) : view PS := beside (at_w w x) (tokens_but w) sched_view.
#[local] Hint Extern 1 (keeps _ _ (pool_env _) _ _) => unfold pool_env, on_env : legal.

Lemma entails_open w x p : at_w w x p →
  entails (beside (λ p', p' = p) pool_tokens sched_view) (plus (hand_tokens x) (opened w x)).
Proof.
  intros [Hp Hx] F [p' s] [[Heq Hok] Hg]. simpl in *. subst p'. split; [done|]. revert Hg. apply good_perm.
  unfold pool_tokens, tokens_but. rewrite (hands_open _ w x Hx).
  solve_Permutation.
Qed.
Lemma entails_close w x : entails (plus (hand_tokens x) (opened w x)) pool_view.
Proof.
  intros F [p s] [[[Hp Hx] Hok] Hg]. split; [done|]. simpl in *. revert Hg. apply good_perm.
  unfold pool_tokens, tokens_but. rewrite (hands_open _ w x Hx).
  solve_Permutation.
Qed.

(** What a piece of a worker's thread does, from the moment its worker is read:
    it gets the worker's tokens, and gives the pool back. *)
Definition piece {A} w x (L : list token) (m : M PS A) : Prop :=
  legal (plus L (opened w x)) m (λ _, pool_view).
Lemma piece_bind {A B} w x L (m : M PS A) (k : A → M PS B) Φ L' :
  keeps (opened w x) L m Φ L' → (∀ a, Φ (Ok a) → piece w x (L' (Ok a)) (k a)) →
  (∀ e, Φ (Raise e) → becomes (L' (Raise e)) (hand_tokens x)) → piece w x L (bind m k).
Proof.
  intros Hm Hk Hr. eapply l_bind; [exact Hm| |].
  - intros a F s o s' [[Ha Hok] Hg] Hrun. eapply (Hk a Ha); [|exact Hrun]. by split.
  - intros e F s [[He Hok] Hg]. apply (entails_close w x F s), (entails_becomes _ _ _ (Hr e He) F s). by split.
Qed.
(** The last step: the worker's new state takes the tokens. *)
Lemma update_legal w x g L :
  worker_ok (g x) → becomes L (hand_tokens (g x)) →
  legal (plus L (opened w x)) (update_worker w g) (λ o, given (o = Ok tt) pool_view).
Proof.
  intros Hg Hb F [p s] o s' [[[Hp Hx] Hok] Hgood] Hrun. unfold update_worker, zoom in Hrun. simpl in Hrun, Hx.
  rewrite Hx in Hrun. injection Hrun as <- <-. split; simpl in *.
  - split; [done|]. split; [by apply pool_ok_dset|done].
  - rewrite <-(assoc_L (++)) in Hgood. apply Hb in Hgood. revert Hgood. apply good_perm.
    unfold pool_tokens, tokens_but; simpl. rewrite (hands_open (dset _ w (g x)) w (g x)) by apply dget_dset_eq.
    rewrite (ddel_dset _ _ _ _ Hx). solve_Permutation.
Qed.
Lemma piece_update w x g L :
  worker_ok (g x) → becomes L (hand_tokens (g x)) → piece w x L (update_worker w g).
Proof.
  intros Hg Hb. eapply l_conseq; [by apply update_legal|by intros ??|]. by intros o F s [[_ ?] ?].
Qed.
Lemma opened_env {A} w x L (m : M Env A) Φ L' :
  keeps env_view L m Φ L' → keeps (opened w x) L (pool_env m) Φ L'.
Proof. intros Hm. by apply k_env, k_env, k_env. Qed.
Lemma piece_env {A B} w x L (m : M Env A) (k : A → M PS B) Φ :
  keeps env_view L m Φ (λ _, L) → becomes L (hand_tokens x) →
  (∀ a, Φ (Ok a) → piece w x L (k a)) → piece w x L (bind (pool_env m) k).
Proof. intros Hm Hb Hk. eapply piece_bind; [by apply opened_env|done|done]. Qed.
Lemma worker_drop x : becomes (hand_tokens x) [].
Proof. apply becomes_drop, hand_droppable. Qed.

(** The same for the body of a [try], whose exceptions leave the tokens [R]. *)
Definition attempt {A} w x (R L : list token) (m : M PS A) : Prop :=
  legal (plus L (opened w x)) m (λ o, match o with Ok _ => pool_view | Raise _ => plus R (opened w x) end).
Lemma attempt_bind {A B} w x R L (m : M PS A) (k : A → M PS B) Φ L' :
  keeps (opened w x) L m Φ L' → (∀ a, Φ (Ok a) → attempt w x R (L' (Ok a)) (k a)) →
  (∀ e, Φ (Raise e) → becomes (L' (Raise e)) R) → attempt w x R L (bind m k).
Proof.
  intros Hm Hk Hr. eapply l_bind; [exact Hm| |].
  - intros a F s o s' [[Ha Hok] Hg] Hrun. eapply (Hk a Ha); [|exact Hrun]. by split.
  - intros e F s [[He Hok] Hg]. apply (entails_becomes _ _ _ (Hr e He) F s). by split.
Qed.
Lemma attempt_update w x g R L :
  worker_ok (g x) → becomes L (hand_tokens (g x)) → attempt w x R L (update_worker w g).
Proof.
  intros Hg Hb. eapply l_conseq; [by apply update_legal|by intros ??|].
  intros [[]|e] F s [[He Hok] Hgood]; [by split|done].
Qed.
Lemma piece_catch w x R L (m : M PS unit) h :
  attempt w x R L m → (∀ e, piece w x R (h e)) → piece w x L (catch m h).
Proof. intros Hm Hh. eapply l_catch; [exact Hm|exact Hh|by intros ???]. Qed.

(** ** The pieces of a worker's thread *)
Ltac piece_env := eapply piece_env; [k_leaf|..|intros ? ?].

Lemma test_legal w x : wk_pc x = AtLoop → worker_ok x → piece w x [] (worker_loop w x).
Proof.
  intros Hpc Hx. destruct (without_task_ok x AtGet 0 (or_introl Hpc) Hx (or_intror eq_refl)) as (Hg & _ & Hs).
  apply piece_update; destruct (wk_stop x) eqn:Hstop; try done. by apply Hs.
Qed.
Lemma get_legal w x : wk_pc x = AtGet → worker_ok x → piece w x [] (worker_get w x).
Proof.
  intros Hpc Hx. assert (hand_tokens x = []) as Hh by (unfold hand_tokens; by rewrite Hpc).
  pose proof (λ n, without_task_ok x AtLoop n (or_intror Hpc) Hx (or_introl eq_refl)) as Hw.
  unfold worker_ok in Hx. rewrite Hpc in Hx. destruct Hx as [[Hc Hs] Hl]. unfold worker_get.
  intros F [p s] o s' Hsat Hrun. pose proof Hsat as [[[Hp Hx] Hok] Hg]. simpl in *.
  destruct (pl_queue p) as [|r l] eqn:Hq.
  - revert Hrun. unfold bind at 1, zoom at 1, get; simpl. rewrite Hq. destruct (wk_stop x); intros Hrun.
    { eapply (piece_update w x (at_pc AtLoop) []); [apply (Hw 0%nat)|done|exact Hsat|exact Hrun]. }
    eapply (piece_env w x [] _ _ _ (k_tick [])); [by rewrite Hh| |exact Hsat|exact Hrun].
    intros n _. apply piece_update; [apply Hw|done].
  - revert Hrun. unfold bind at 1, zoom at 1, get; simpl. rewrite Hq. unfold bind at 1, zoom at 1, modify; simpl.
    intros Hrun. eapply (piece_update w x (at_pc (Got r)) [(r, Handed)]); [..|exact Hrun]; [|done|].
    + unfold worker_ok; simpl. split; [done|]. intros _. by apply Hl.
    + split; [done|]. simpl in *. unfold tokens_but, handed in *. rewrite Hq in Hg. exact Hg.
Qed.

Lemma mark_legal w x r : wk_pc x = Got r → piece w x [(r, Handed)] (worker_mark w r).
Proof.
  intros Hpc. assert (hand_tokens x = [(r, Handed)]) as Hh by (unfold hand_tokens; by rewrite Hpc).
  unfold worker_mark. do 2 (piece_env; [by rewrite Hh|]).
  apply piece_update; [|done]. split; [split; [done|by left]|done].
Qed.

Lemma announce_legal w x r :
  wk_pc x = Marked r → worker_ok x → piece w x [(r, Handed)] (worker_announce w x r).
Proof.
  intros Hpc Hx. unfold worker_ok in Hx. rewrite Hpc in Hx. destruct Hx as [Hc Hl].
  assert (∀ st, st ≠ Queued → becomes [(r, st)] []) as Hdrop by (intros; by apply becomes_nil).
  unfold worker_announce.
  apply (piece_catch w x []); [|intros e; apply (piece_update w x (crashed e) []); [apply (crashed_ok e x r); apply Hc|]].
  2:{ unfold crashed. by destruct (isinstance e "Exception"). }
  eapply attempt_bind; [by apply opened_env, k_deref|intros t Ht|by intros; apply Hdrop].
  eapply attempt_bind; [apply opened_env, (k_move r Handed _ Busy)|intros ? _|by intros ? [=]].
  { simpl. by rewrite (Ht t). }
  { intros p ->. by exists Working. }
  do 3 (eapply attempt_bind; [apply opened_env; k_leaf|intros ? _|by intros; apply Hdrop]).
  apply attempt_update; [|done]. split; [done|]. intros _. by apply Hl.
Qed.

Lemma execute_legal w x r n f o :
  wk_pc x = Executing r n → worker_ok x → (∀ t, task_id (f t) = task_id t) →
  piece w x [(r, Busy)] (worker_execute w r n f o).
Proof.
  intros Hpc Hx Hf. assert (hand_tokens x = [(r, Busy)]) as Hh by (unfold hand_tokens; by rewrite Hpc).
  unfold worker_ok in Hx. rewrite Hpc in Hx. destruct Hx as [Hc Hl].
  eapply piece_env; [by apply k_update|by rewrite Hh|intros ? _].
  apply piece_update; [|done]. split; [done|]. intros _. by apply Hl.
Qed.

Lemma finally_tokens c n x : c = AtLoop ∨ c = Exited → hand_tokens (finally_block c n x) = [].
Proof. unfold finally_block, hand_tokens. destruct (wk_stop x); by intros [-> | ->]. Qed.
Lemma abort_legal w x L : becomes L [] → piece w x L (worker_abort w).
Proof.
  intros Hb. unfold worker_abort. eapply piece_bind; [by apply opened_env, k_tick|intros n _|by intros ? [? [=]]].
  apply piece_update; [|rewrite finally_tokens by auto; done]. apply finally_ok. by right.
Qed.
Lemma finish_legal w x : wk_pc x = Finishing → worker_ok x → piece w x [] (worker_finish w).
Proof.
  intros Hpc Hx. unfold worker_ok in Hx. rewrite Hpc in Hx. destruct Hx as [Hc Hl].
  unfold worker_finish. eapply piece_bind; [by apply opened_env, k_tick|intros n _|by intros ? [? [=]]].
  apply piece_update; [|rewrite finally_tokens by auto; done]. apply finally_ok. left. naive_solver.
Qed.

Lemma complete_legal w x r n o :
  wk_pc x = Returned r n o → worker_ok x → piece w x [(r, Busy)] (worker_complete w r n).
Proof.
  intros Hpc Hx. assert (hand_tokens x = [(r, Busy)]) as Hh by (unfold hand_tokens; by rewrite Hpc).
  unfold worker_ok in Hx. rewrite Hpc in Hx. destruct Hx as [Hc Hl].
  unfold worker_complete. eapply piece_env; [apply k_update; intros t; by destruct (task_status t)|by rewrite Hh|intros ? _].
  apply (piece_catch w x [(r, Busy)]).
  2:{ intros e. apply piece_update; [|done]. split; [done|by intros; apply Hl]. }
  eapply attempt_bind; [by apply opened_env, k_deref|intros t Ht|done].
  eapply attempt_bind; [apply opened_env, (k_move r Busy _ Over)|intros ? _|by intros ? [=]].
  { simpl. by rewrite (Ht t). }
  { intros p ->. by exists Closed. }
  eapply attempt_bind; [by apply opened_env, k_tick|intros now _|by intros ? [? [=]]].
  eapply attempt_bind; [apply (k_modify _ _ _ [(r, Over)] [(r, Over)]); by intros|intros ? _|by intros ? [=]].
  apply attempt_update; [|by apply becomes_nil]. split; [naive_solver|]. intros _. by apply Hl.
Qed.

Lemma on_failed_legal w x r e :
  wk_current x = Some r → keeps (opened w x) [(r, Busy)] (on_task_failed w e) any (λ _, []).
Proof.
  intros Hr. unfold on_task_failed. apply k_read. intros p [Hok Hx]. rewrite Hx; simpl. rewrite Hr.
  apply (l_conseq (plus [(r, Busy)] (opened w x)) _ _ (λ o, given (any o) (plus [] (opened w x))));
    [|intros F s [[Heq ?] ?]; simpl in Heq; split; [split; [by rewrite Heq|done]|done]|by intros ???].
  eapply k_bind; [apply (k_modify _ _ _ [(r, Busy)] [(r, Busy)]); by intros|intros ? _|by intros ? [=]].
  unfold log_exceptions. eapply (k_catch _ _ _ _ any (λ _, [])); [by apply k_env, failure_legal|intros x' _|done].
  destruct (isinstance x' "Exception"); [by apply k_ret|apply k_raise].
Qed.

Lemma fail_legal w x r n o e :
  wk_pc x = Returned r n o → worker_ok x → piece w x [(r, Busy)] (worker_fail w r e).
Proof.
  intros Hpc Hx. unfold worker_ok in Hx. rewrite Hpc in Hx. destruct Hx as [Hc Hl].
  unfold worker_fail. apply (piece_catch w x []); [|intros e'; by apply abort_legal].
  eapply attempt_bind; [apply opened_env, k_update; intros t; by destruct (task_status t)|intros ? _|by intros; apply becomes_nil].
  eapply attempt_bind; [apply on_failed_legal, Hc|intros ? _|done].
  apply attempt_update; [|done]. split; [naive_solver|]. intros _. by apply Hl.
Qed.

Lemma k_known {A} p (m : M PS A) L Φ L' :
  pool_ok p → keeps pool_view L m Φ L' →
  legal (plus L (beside (λ p', p' = p) pool_tokens sched_view)) m (λ o, given (Φ o) (plus (L' o) pool_view)).
Proof.
  intros Hp Hm. eapply l_conseq; [exact Hm| |by intros ???].
  intros F s [[Heq ?] ?]. simpl in Heq. split; [split; [by rewrite Heq|done]|done].
Qed.
Lemma piece_done {A} w x p (m : M PS A) :
  at_w w x p → piece w x (hand_tokens x) m →
  legal (plus [] (beside (λ p', p' = p) pool_tokens sched_view)) m (λ o, given (any o) (plus [] pool_view)).
Proof.
  intros Hat Hm. eapply l_conseq; [exact Hm| |].
  - intros F s Hs. by apply (entails_open w x p Hat F s).
  - intros o F s [? ?]. by split.
Qed.

(** Every piece of a worker's thread is legal. *)
Lemma worker_legal w f o :
  (∀ t, task_id (f t) = task_id t) → keeps pool_view [] (worker_step w f o) any (λ _, []).
Proof.
  intros Hf. unfold worker_step. apply k_read. intros p Hp.
  destruct (dget (pl_workers p) w) as [x|] eqn:Hx; [|by apply k_known, k_ret].
  pose proof (pool_ok_get p w x Hp Hx) as Hok.
  assert (∀ r st, hand_tokens x = [(r, st)] → becomes [(r, st)] []) as Hdrop.
  { intros r st Hh. rewrite <-Hh. apply worker_drop. }
  destruct (wk_pc x) as [| |r|r|r n|r n o'| |] eqn:Hpc; try (apply (piece_done w x); [by split|]);
    unfold hand_tokens in *; rewrite ?Hpc in *.
  - by apply test_legal.
  - by apply get_legal.
  - by apply mark_legal.
  - by apply announce_legal.
  - by apply execute_legal.
  - destruct o' as [[]|e]; [by eapply complete_legal|].
    destruct (isinstance e "Exception"); [by eapply fail_legal|]. by apply abort_legal, Hdrop.
  - by apply finish_legal.
  - apply l_ret. intros F s Hs. apply (entails_close w x F s). unfold hand_tokens. by rewrite Hpc.
Qed.

(** ** The other operations on the pool *)
Lemma replace_worker w y p :
  hand_tokens y = [] → becomes (pool_tokens p) (pool_tokens (with_workers (dset (pl_workers p) w y) p)).
Proof.
  intros Hy. unfold pool_tokens; simpl. apply becomes_app.
  destruct (dget (pl_workers p) w) as [x|] eqn:Hx.
  - rewrite (hands_open _ w x Hx), (hands_open (dset _ w y) w y) by apply dget_dset_eq.
    rewrite (ddel_dset _ _ _ _ Hx), Hy. apply (becomes_app_r _ _ []), worker_drop.
  - rewrite dset_fresh by by apply dget_None. unfold hands_tokens, dvals. rewrite !fmap_app, join_app. csimpl.
    by rewrite Hy, !app_nil_r.
Qed.
Lemma new_worker_legal w n :
  keeps pool_view [] (self (modify (λ p, with_workers (dset (pl_workers p) w (new_worker n)) p)))
    (λ o, o = Ok tt) (λ _, []).
Proof.
  apply k_modify. intros p Hp. split; [by apply pool_ok_dset, new_worker_ok|]. by apply replace_worker.
Qed.
Lemma pool_env_legal {A} (m : M Env A) Φ :
  keeps env_view [] m Φ (λ _, []) → keeps pool_view [] (pool_env m) Φ (λ _, []).
Proof. intros Hm. by apply k_env, k_env, k_env. Qed.

Lemma supervise_legal : keeps pool_view [] supervise any (λ _, []).
Proof.
  unfold supervise. apply k_read. intros p Hp. apply k_known; [done|]. apply k_for_each. intros w.
  unfold supervise_worker. apply k_read. intros p' Hp'.
  destruct (wk_state <$> dget (pl_workers p') w) as [[]|]; try (by apply k_known, k_ret).
  apply k_known; [done|].
  eapply k_bind; [apply pool_env_legal; k_leaf|intros ? _|done].
  eapply k_bind; [apply pool_env_legal; k_leaf|intros ? _|done].
  eapply k_bind; [apply pool_env_legal, k_tick|intros n _|done].
  eapply k_conseq; [apply new_worker_legal|done..].
Qed.

Lemma submit_pool_legal r : keeps pool_view [(r, Handed)] (submit_to_pool r) any (λ _, []).
Proof.
  unfold submit_to_pool. apply k_read. intros p Hp. apply k_known; [done|]. destruct (pl_started p).
  - eapply k_conseq; [apply (k_modify _ _ _ [(r, Handed)] [])|done..]. intros q Hq. split; [done|].
    unfold pool_tokens, handed; simpl. rewrite fmap_app. csimpl. rewrite <-(assoc_L (++)). simpl.
    by rewrite Permutation_middle.
  - eapply k_conseq; [apply k_raise|done..|]. intros. by apply becomes_nil.
Qed.

Lemma stop_pool_legal : keeps pool_view [] stop_pool any (λ _, []).
Proof.
  unfold stop_pool. apply k_read. intros p Hp. apply k_known; [done|].
  destruct (pl_started p); [|by apply k_ret].
  eapply k_conseq; [apply (k_modify _ _ _ [] [])|done..]. intros q [Hwf Hok].
  assert (∀ x, hand_tokens (stop_worker x) = hand_tokens x) as Hh
    by (intros x; unfold stop_worker; by destruct (wk_state x)).
  split; [split; simpl|].
  - unfold dwf. by rewrite dkeys_fmap.
  - rewrite Forall_fmap. eapply Forall_impl; [exact Hok|]. intros [k x]. apply stop_worker_ok.
  - simpl. unfold pool_tokens, hands_tokens, dvals; simpl. rewrite <-!list_fmap_compose.
    assert (∀ ws : odict Worker, hand_tokens ∘ snd ∘ prod_map id stop_worker <$> ws = hand_tokens ∘ snd <$> ws) as ->; [|done].
    intros ws. apply list_fmap_ext. intros i [k x] _. apply Hh.
Qed.

Lemma start_pool_legal size : keeps pool_view [] (start_pool size) any (λ _, []).
Proof.
  unfold start_pool. apply k_read. intros p Hp. apply k_known; [done|].
  destruct (pl_started p); [by apply k_ret|].
  eapply k_bind; [apply pool_env_legal, k_tick|intros n _|done].
  eapply k_bind; [apply (k_modify _ _ _ [] []); by intros|intros ? _|done].
  eapply k_bind; [apply k_for_each; intros i|intros ? _|done].
  - eapply k_bind; [apply pool_env_legal, k_tick|intros m _|done].
    eapply k_conseq; [apply new_worker_legal|done..].
  - apply k_read. intros q Hq. apply k_known; [done|]. apply k_for_each. intros w.
    eapply k_conseq; [apply pool_env_legal; k_leaf|done..].
Qed.
End pool.

(** * The threads *)
Definition thread_tokens (h : Threads) : list token :=
  readied (th_due h).*2 ++ match th_loop h with Holding r => [(r, Handed)] | _ => [] end.

Lemma held_dropped `{!Oracle} `{!ReliableStore} h : becomes (thread_tokens h) (readied (th_due h).*2).
Proof.
  unfold thread_tokens. destruct (th_loop h) as [| | |r|]; rewrite ?app_nil_r; try done.
  rewrite <-(app_nil_r (readied _)) at 2. by apply becomes_app, becomes_nil.
Qed.

Section threads.
Context `{!Oracle} `{!ReliableStore} {P : Type} `{HP : PolicyLaws P} `{!PromptPolicy P}.
Abbreviation Sys := (Threads * (Pool * (Tracker * (Queue P * Env))))%type.

Definition sys_view : view Sys := beside (λ _, True) thread_tokens pool_view.
(** The threads' state is [h], and they hold the tokens [f h]. *)
Definition known (h : Threads) (f : Threads → list token) : view Sys := beside (λ h', h' = h) f pool_view.
(** A computation that starts there and gives the whole system back. *)
Definition finishes h f (L : list token) (m : M Sys unit) : Prop :=
  legal (plus L (known h f)) m (λ o, given (any o) (plus [] sys_view)).

Lemma finishes_read k :
  (∀ h, finishes h thread_tokens [] (k h)) → keeps sys_view [] (bind (self get) k) any (λ _, []).
Proof. intros Hk. apply k_read. intros h _. apply Hk. Qed.
Lemma finishes_bind {A} h f L (m : M Sys A) (k : A → M Sys unit) Φ L' :
  keeps (known h f) L m Φ L' → (∀ a, Φ (Ok a) → finishes h f (L' (Ok a)) (k a)) →
  (∀ e, Φ (Raise e) → becomes (L' (Raise e) ++ f h) (thread_tokens h)) → finishes h f L (bind m k).
Proof.
  intros Hm Hk Hr. eapply l_bind; [exact Hm| |].
  - intros a F s o s' [[Ha Hok] Hg] Hrun. eapply (Hk a Ha); [|exact Hrun]. by split.
  - intros e F [h' s] [[He [Heq Hok]] Hg]. simpl in Heq. subst h'. split; [done|].
    change (good ((L' (Raise e) ++ f h ++ owned pool_view s) ++ F) (world s)) in Hg.
    rewrite (assoc_L (++)), <-(assoc_L (++)) in Hg. apply (Hr e He) in Hg. by rewrite (assoc_L (++)) in Hg.
Qed.
Lemma finishes_set h f L g :
  becomes (L ++ f h) (thread_tokens (g h)) → finishes h f L (self (modify g)).
Proof.
  intros Hb. eapply l_conseq; [apply (l_modify (λ h', h' = h) f (λ _, True) thread_tokens pool_view L [])|by intros ??|].
  - by intros ? ->.
  - intros o F s [? ?]. by split.
Qed.
Lemma finishes_ret h : finishes h thread_tokens [] (ret tt).
Proof. apply l_ret. by intros F s [[_ ?] ?]. Qed.
Lemma finishes_keeps h m : keeps sys_view [] m any (λ _, []) → finishes h thread_tokens [] m.
Proof. intros Hm. eapply l_conseq; [exact Hm|by intros F s [[_ ?] ?]|by intros ???]. Qed.

Lemma sched_legal {A} V L (m : M (Tracker * (Queue P * Env)) A) (Φ : outcome A → Prop) L' PC f :
  V = beside PC f (pool_view (P:=P)) → keeps sched_view L m Φ L' → keeps V L (sys_sched m) Φ L'.
Proof. intros ->. by intros; apply k_env, k_env. Qed.
Lemma sys_env_legal (m : M Env unit) Φ :
  keeps env_view [] m Φ (λ _, []) → keeps sys_view [] (sys_env m) Φ (λ _, []).
Proof. intros Hm. by apply k_env, k_env, k_env, k_env. Qed.
Lemma threads_legal g :
  (∀ h, becomes (thread_tokens h) (thread_tokens (g h))) →
  keeps sys_view [] (self (modify g)) (λ o, o = Ok tt) (λ _, []).
Proof. intros Hg. apply k_modify. intros h _. split; [done|apply Hg]. Qed.

Lemma flags_legal (m : M (Tracker * (Queue P * Env)) unit) :
  (∀ s, (m s).2.2 = s.2 ∧ dt_heap (m s).2.1 = dt_heap s.1) → keeps sched_view [] m any (λ _, []).
Proof.
  intros Hm F [d s] o [d' s'] [Hok Hg] Hrun. specialize (Hm (d, s)). rewrite Hrun in Hm. simpl in Hm.
  destruct Hm as [-> Hd]. split; [by split|]. simpl in *. unfold heap_tokens, heap_refs in *. by rewrite Hd.
Qed.
Lemma start_tracker_legal : keeps sched_view [] start_tracker any (λ _, []).
Proof. apply flags_legal. intros [d s]. unfold start_tracker. run_step. by destruct (dt_started d). Qed.
Lemma stop_tracker_legal : keeps sched_view [] stop_tracker any (λ _, []).
Proof. apply flags_legal. intros [d s]. unfold stop_tracker. run_step. by destruct (dt_started d). Qed.

Lemma loop_legal : keeps sys_view [] scheduler_loop any (λ _, []).
Proof.
  apply finishes_read. intros h. destruct (th_loop h) as [| | |r|] eqn:Hl.
  - destruct (th_stop h); [apply finishes_set; unfold thread_tokens; by rewrite Hl|].
    eapply finishes_bind; [apply k_env, (k_self _ _ _ []); by intros|intros l _|done].
    destruct l; [apply finishes_ret|apply finishes_set; unfold thread_tokens; by rewrite Hl].
  - eapply finishes_bind; [eapply sched_legal; [done|]; apply k_env, is_empty_legal|intros b _|done].
    destruct b; apply finishes_set; unfold thread_tokens; by rewrite Hl.
  - eapply (l_catch _ _ _ (λ o, match o with Ok _ => sys_view | Raise _ => known h thread_tokens end));
      [|intros e; apply (finishes_set h _ []); unfold thread_tokens; simpl; by rewrite Hl|by intros a F s [? ?]].
    eapply l_bind; [eapply sched_legal; [done|]; apply k_env, dequeue_legal| |by intros e F s [[_ ?] ?]].
    intros r F s o s' [[_ Hok] Hg] Hrun. unfold zoom in Hrun. destruct s as [h' s]. injection Hrun as <- <-.
    destruct Hok as [Heq Hok]. simpl in Heq. subst h'. split; [done|]. simpl in *. revert Hg. apply good_perm.
    unfold thread_tokens; simpl. rewrite Hl. solve_Permutation.
  - assert (finishes h (λ h, readied (th_due h).*2) [(r, Handed)]
      (catch (env (submit_to_pool r)) (λ _, ret tt) ;;; self (modify (with_loop Polling)))) as Hm.
    { eapply finishes_bind.
      - apply k_swallow, k_env, submit_pool_legal.
      - intros ? _. apply finishes_set. unfold thread_tokens. simpl. by rewrite app_nil_r.
      - by intros ? [=]. }
    eapply l_conseq; [exact Hm| |by intros ???].
    intros F [h' s] [[Heq Hok] Hg]. simpl in Heq. subst h'. split; [done|]. simpl in *. revert Hg. apply good_perm.
    unfold thread_tokens. rewrite Hl. solve_Permutation.
  - apply finishes_ret.
Qed.

Lemma tracker_legal : keeps sys_view [] tracker_thread any (λ _, []).
Proof.
  apply finishes_read. intros h. destruct (th_due h) as [|x due] eqn:Hd.
  - eapply finishes_bind; [eapply sched_legal; [done|]; apply (k_self _ _ _ []); by intros|intros d _|done].
    destruct (_ || _); [apply finishes_ret|].
    eapply finishes_bind; [eapply sched_legal; [done|]; apply collect_legal|intros l _|done].
    apply finishes_set. unfold thread_tokens; simpl. rewrite Hd. done.
  - eapply (l_bind _ _ _ (λ _, plus [(x.2, Ready)] sys_view)).
    + eapply l_conseq; [apply (l_modify (λ h', h' = h) thread_tokens (λ _, True) thread_tokens pool_view [] [(x.2, Ready)])|by intros ??|by intros ???].
      intros ? ->. split; [done|]. unfold thread_tokens; simpl. by rewrite Hd.
    + intros ?. eapply l_conseq; [eapply (sched_legal sys_view [(x.2, Ready)]); [done|apply release_legal]|by intros ??|by intros ???].
    + intros e F s [Hok Hg]. split; [done|]. simpl in *. by apply (good_drop Ready x.2).
Qed.

Lemma supervisor_legal : keeps sys_view [] supervisor_thread any (λ _, []).
Proof.
  apply finishes_read. intros h.
  eapply finishes_bind; [apply k_env, (k_self _ _ _ []); by intros|intros p _|done].
  destruct (th_supervisor h); [|apply finishes_ret].
  destruct (pl_started p); [|by apply finishes_set].
  apply finishes_keeps. eapply (k_catch _ _ _ _ any (λ _, [])); [apply k_env, supervise_legal|intros e _|done].
  eapply k_conseq; [by apply threads_legal|done..].
Qed.

Lemma stop_scheduler_legal : keeps sys_view [] stop_scheduler any (λ _, []).
Proof.
  apply finishes_read. intros h. destruct (th_started h); [|apply finishes_ret]. apply finishes_keeps.
  eapply k_bind; [by apply threads_legal|intros ? _|done].
  eapply k_bind; [eapply sched_legal; [done|]; apply stop_tracker_legal|intros ? _|done].
  eapply k_conseq; [apply threads_legal; intros h'; by destruct (th_monitor h')|done..].
Qed.

(** Any action of any thread but the time-out monitor's. *)
Lemma perform_legal admission a :
  a ≠ ATimeout → (∀ r d, a ≠ ASchedule r d) →
  (∀ w f o, a = AWorker w f o → ∀ t, task_id (f t) = task_id t) →
  keeps sys_view [] (perform admission a) any (λ _, []).
Proof.
  intros Ht Hs Hf. unfold perform. destruct a as [w f o| | | | |r d| |]; try done.
  - by apply k_env, worker_legal, (Hf w f o).
  - apply loop_legal.
  - apply tracker_legal.
  - apply supervisor_legal.
  - by destruct (Hs r d).
  - apply stop_scheduler_legal.
  - apply k_env, stop_pool_legal.
Qed.

(** [Runtime.start] *)
Lemma start_legal size : keeps sys_view [] (runtime_start size) any (λ _, []).
Proof.
  unfold runtime_start. eapply k_bind; [apply k_env, (k_self _ _ _ []); by intros|intros p _|done].
  eapply k_bind; [apply k_env, start_pool_legal|intros ? _|done].
  eapply (k_bind _ _ _ _ any (λ _, [])); [destruct (pl_started p); [by apply k_ret|]; eapply k_conseq; [by apply threads_legal|done..]|intros ? _|done].
  eapply (k_bind _ _ _ _ any (λ _, [])); [|intros ? _; eapply k_conseq; [apply sys_env_legal; k_leaf|done..]|done].
  apply finishes_read. intros h. destruct (th_started h); [apply finishes_ret|]. apply finishes_keeps.
  eapply k_bind; [by apply k_env, k_env, k_env, k_env, k_tick|intros n _|done].
  eapply k_bind; [by apply threads_legal|intros ? _|done].
  eapply k_bind; [eapply sched_legal; [done|]; apply start_tracker_legal|intros ? _|done].
  eapply k_bind; [apply threads_legal; intros h'; by destruct (th_monitor h')|intros ? _|done].
  eapply k_bind; [apply threads_legal; intros h'|intros ? _|done].
  - unfold thread_tokens at 2; simpl. rewrite app_nil_r. apply held_dropped.
  - eapply k_conseq; [apply sys_env_legal; k_leaf|done..].
Qed.
End threads.

(** * Sessions *)
Section sessions.
Context `{!Oracle} `{!ReliableStore} {P : Type} `{HP : PolicyLaws P} `{!PromptPolicy P}.
Variable admission_controller : option (list AdmissionPlugin).
Hypothesis Hlaw : lawful (Some (runtime_admission admission_controller)).
Abbreviation RT := (TaskManager * (Threads * (Pool * (Tracker * (Queue P * Env)))))%type.
Implicit Types (s : RT).

(** Nobody holds a token that is not among those of the system. *)
Definition in_order s : Prop := satisfies sys_view [] s.2.

(** What a session may contain: any action of any thread except a check of the
    time-out monitor, no call of [schedule] past the runtime, and executors that
    do not change the id of their task. *)
Definition orderly (c : call) : Prop :=
  match c with
  | Thread ATimeout | Thread (ASchedule _ _) => False
  | Thread (AWorker _ f _) => ∀ t, task_id (f t) = task_id t
  | _ => True
  end.

Lemma in_order_submit b s : in_order s → in_order (client_submit admission_controller b s).2.
Proof.
  destruct s as [mgr [h [p s]]]. intros [(_ & Hp & Hok) Hg]. unfold client_submit, zoom; simpl in *.
  destruct (submit_task _ _ _ _ _ (mgr, s)) as [o [mgr' s']] eqn:E. simpl.
  destruct (submit_legal (Some (runtime_admission admission_controller)) (sb_title b) (sb_type b) (sb_metadata b)
    (sb_delay b) Hlaw (thread_tokens h ++ pool_tokens p) (mgr, s) o (mgr', s')) as [[_ [_ Hok']] Hg'];
    [|exact E|].
  - split; [done|]. simpl. revert Hg. apply good_perm. solve_Permutation.
  - split; [done|]. simpl in *. revert Hg'. apply good_perm. solve_Permutation.
Qed.
Lemma in_order_thread a s :
  orderly (Thread a) → in_order s →
  in_order (answer admission_controller (Thread a) s).
Proof.
  destruct s as [mgr s]. intros Ha Hs. unfold in_order, answer, zoom in *; simpl in *.
  destruct (perform _ a s) as [o s'] eqn:E. simpl.
  assert (keeps sys_view [] (perform (Some (runtime_admission admission_controller)) a) any (λ _, [])) as Hlegal.
  { apply perform_legal; [by intros ->|by intros r d ->|by intros w f o' ->]. }
  destruct (Hlegal [] s o s' Hs E) as [[_ ?] ?]. by split.
Qed.
Lemma in_order_session l s : Forall orderly l → in_order s → in_order (session admission_controller l s).
Proof.
  intros Hl. revert s. induction Hl as [|c l Hc Hl IH]; intros s Hs; [done|]. apply IH.
  destruct c as [b|a]; [by apply in_order_submit|by apply in_order_thread].
Qed.
Lemma in_order_start s : in_order s → in_order (client_start s).2.
Proof.
  destruct s as [mgr s]. intros Hs. unfold client_start, zoom; simpl.
  destruct (runtime_start pool_size s) as [o s'] eqn:E. simpl.
  destruct (start_legal pool_size [] s o s') as [[_ ?] ?]; [exact Hs|done|by split].
Qed.

(** From the construction on, with a store that is still empty. *)
Lemma in_order_new mgr e : env_tasks e = ∅ → log_is e [] → in_order (new_runtime (P:=P) mgr e).
Proof.
  intros Ht Hl. destruct (pol_init_spec (P:=P)) as (Hwf & Hlive & _).
  assert (queue_tokens (new_queue (P:=P) None) = []) as Htok.
  { unfold queue_tokens, queue_refs. simpl. by rewrite map_to_list_empty. }
  split; simpl.
  - split; [done|]. split; [split; [by apply NoDup_nil|constructor]|]. split; [done|]. split; [|done].
    apply (queue_inv_ok _ e); [apply new_queue_inv|]. intros i r Hr. simpl in Hr. by rewrite lookup_empty in Hr.
  - rewrite Htok. exists []. split; simpl; try done.
    + intros r t Hr. change (env_tasks e !! r = Some t) in Hr. by rewrite Ht, lookup_empty in Hr.
    + by apply NoDup_nil.
Qed.
Lemma in_order_life early late mgr e :
  env_tasks e = ∅ → log_is e [] → Forall orderly late →
  in_order (Runtime.life admission_controller early late (new_runtime (P:=P) mgr e)).
Proof.
  intros Ht Hl Ho. apply in_order_session, in_order_start, in_order_session, in_order_new; try done.
  apply Forall_fmap, Forall_true. by intros b.
Qed.
End sessions.

(** The standard chain is lawful. *)
Lemma plugins_lawful `{!Oracle} `{!ReliableStore} plugins :
  Forall (λ p, ∀ r L, keeps env_view L (admits p r) (λ o, ∀ r', o = Ok r' → r' = r) (λ _, L)) plugins →
  lawful (Some plugins).
Proof.
  induction 1 as [|p plugins Hp _ IH]; intros r L; simpl.
  { intros F s o s' [? ?] [= <- <-]. split; [split; [by intros ? [=]|done]|done]. }
  eapply (k_bind _ _ _ _ (λ o, ∀ r', o = Ok r' → r' = r) (λ _, L)); [|intros r' Hr'; rewrite (Hr' r' eq_refl); apply IH|by intros].
  eapply k_catch; [apply Hp|intros e _|by intros].
  intros F s o s' [? ?] [= <- <-]. split; [split; [by intros ? [=]|done]|done].
Qed.
Lemma standard_chain_lawful `{!Oracle} `{!ReliableStore} : lawful (Some (runtime_admission None)).
Proof.
  apply plugins_lawful. apply Forall_cons; split; [|apply Forall_singleton]; intros r L; simpl.
  - eapply k_bind; [k_leaf|intros ? _|by intros].
    intros F s o s' [? ?] [= <- <-]. split; [split; [by intros ? [=]|done]|done].
  - eapply k_bind; [k_leaf|intros t _|by intros].
    eapply k_bind; [k_leaf|intros ? _|by intros].
    intros F s o s' [? ?] [= <- <-]. split; [split; [by intros ? [=]|done]|done].
Qed.

(** * Theorems *)
Section theorems.
Context `{!Oracle} `{!ReliableStore} {P : Type} `{HP : PolicyLaws P} `{!PromptPolicy P}.
Abbreviation Sys := (Threads * (Pool * (Tracker * (Queue P * Env))))%type.
Implicit Types (s : Sys).

(** The tokens are those of the places of [System]. *)
Lemma owned_places s : (owned sys_view s).*1 = places s.
Proof.
  destruct s as [h [p [d [q e]]]].
  assert (∀ (st : stage) (l : list nat), ((λ r, (r, st)) <$> l).*1 = l) as Hst.
  { intros st l. rewrite <-list_fmap_compose. by rewrite list_fmap_id. }
  assert (∀ ws, (hands_tokens ws).*1 = hands ws) as Hh.
  { intros ws. unfold hands_tokens, hands. induction (dvals ws) as [|x xs IH]; csimpl; [done|].
    rewrite fmap_app, IH. f_equal. unfold hand_tokens, in_hand. by destruct (wk_pc x). }
  unfold places, pool_pl, sched_pl, queue_pl, both, nowhere, thread_refs, pool_refs; simpl.
  unfold thread_tokens, pool_tokens, heap_tokens, queue_tokens, readied, handed.
  rewrite !fmap_app, !Hst, Hh. do 2 f_equal. by destruct (th_loop h).
Qed.

(** What the log says of a token's task. *)
Lemma token_phase s es r st :
  agrees (owned sys_view s ++ []) (environment s) es → (r, st) ∈ owned sys_view s →
  ∃ t p, env_tasks (environment s) !! r = Some t ∧ task_id t = uuid4 r ∧
    phase_of (task_id t) (map data es) = Some p ∧ at_stage st p.
Proof.
  intros Ha Hin. rewrite app_nil_r in Ha. pose proof (ag_tokens _ _ _ Ha) as Ht. rewrite Forall_forall in Ht.
  destruct (Ht _ Hin) as [[t Hr] (p & Hp & Hst)]. simpl in *. destruct (ag_tasks _ _ _ Ha _ _ Hr) as [Hid _].
  exists t, p. rewrite Hid. done.
Qed.
(** The stages there are: the queue holds what is [Queued], and nothing is
    [Over]. *)
Lemma hand_stages x r st : (r, st) ∈ hand_tokens x → st = Handed ∨ st = Busy.
Proof. unfold hand_tokens. destruct (wk_pc x); intros ?; set_solver. Qed.
Lemma owned_stages s r st : (r, st) ∈ owned sys_view s →
  match st with Queued => ∃ i, q_storage s.2.2.2.1 !! i = Some r | Over | Fresh => False | _ => True end.
Proof.
  destruct s as [h [p [d [q e]]]]. simpl. unfold thread_tokens, pool_tokens, heap_tokens, readied, handed.
  rewrite !elem_of_app, !list_elem_of_fmap.
  intros [[(?&[= _ ->]&_)|Hin]|[[(?&[= _ ->]&_)|Hin]|[(?&[= _ ->]&_)|[Hin|?%not_elem_of_nil]]]]; try done.
  - destruct (th_loop h); try by apply not_elem_of_nil in Hin. apply list_elem_of_singleton in Hin. by injection Hin as -> ->.
  - unfold hands_tokens in Hin. apply list_elem_of_join in Hin as (l & Hin & Hl).
    apply list_elem_of_fmap in Hl as (x & -> & _). by apply hand_stages in Hin as [-> | ->].
  - pose proof Hin as (?&[= _ ->]&_)%list_elem_of_fmap. by apply queue_tokens_elem.
Qed.
Lemma waiting_stored s es i :
  agrees (owned sys_view s ++ []) (environment s) es → queue_ok s.2.2.2.1 →
  phase_of i (map data es) = Some Waiting ↔ is_Some (q_storage s.2.2.2.1 !! i).
Proof.
  intros Ha Hq. pose proof Ha as Ha'. rewrite app_nil_r in Ha'. destruct s as [h [p [d [q e]]]]; simpl in *. split.
  - intros Hw. destruct (ag_waiting _ _ _ Ha' i Hw) as (r & -> & Hin).
    apply (owned_stages (h, (p, (d, (q, e))))) in Hin as [i Hi]. simpl in Hi.
    rewrite <-(qo_keys q Hq i r Hi). by eexists.
  - intros [r Hr]. rewrite (qo_keys q Hq i r Hr).
    destruct (token_phase (h, (p, (d, (q, e)))) es r Queued Ha) as (t & ph & _ & Hid & Hp & Hst).
    { simpl. rewrite !elem_of_app. right. right. right. left. apply queue_tokens_elem. by exists i. }
    rewrite <-Hid, Hp. simpl in Hst. by subst ph.
Qed.

(** C3: In every session of a runtime with a working, at first empty store, short of
    time-outs, every task's events are in a legal order, and the log agrees with
    the system: an id waits in the queue just when the log says so, a task in
    execution was started and has not ended, a delayed task was submitted or is
    to be retried, and a task that ended is in no part of the runtime. *)
Theorem session_follows_protocol early late mgr e :
  env_tasks e = ∅ → log_is e [] → Forall orderly late →
  let s := (Runtime.life None early late (new_runtime (P:=P) mgr e)).2 in
  ∃ es, log_is (environment s) es ∧
    (∀ i, is_Some (phase_of i (map data es))) ∧
    (∀ i, phase_of i (map data es) = Some Waiting ↔ is_Some (q_storage s.2.2.2.1 !! i)) ∧
    (∀ w x r n, dget (pl_workers s.2.1) w = Some x → wk_pc x = Executing r n →
       ∃ t, env_tasks (environment s) !! r = Some t ∧ phase_of (task_id t) (map data es) = Some Working) ∧
    (∀ r, r ∈ heap_refs s.2.2.1 → ∃ t p, env_tasks (environment s) !! r = Some t ∧
       phase_of (task_id t) (map data es) = Some p ∧ (p = Submitted ∨ p = Working)) ∧
    (∀ r t, env_tasks (environment s) !! r = Some t → phase_of (task_id t) (map data es) = Some Closed →
       r ∉ places s).
Proof.
  intros Ht Hl Ho s.
  destruct (in_order_life None standard_chain_lawful early late mgr e Ht Hl Ho) as [(_ & _ & _ & Hq & _) [es Ha]].
  fold s in Hq, Ha. change (agrees (owned sys_view s ++ []) (environment s) es) in Ha.
  exists es. split_and!.
  - apply Ha.
  - apply Ha.
  - intros i. by apply waiting_stored.
  - intros w x r n Hx Hpc. destruct (token_phase s es r Busy Ha) as (t & p & Hr & _ & Hp & ->); [|by exists t].
    destruct s as [h [p s]]. simpl in *. unfold pool_tokens. rewrite !elem_of_app. right. left. right.
    rewrite (hands_open _ w x Hx). unfold hand_tokens. rewrite Hpc. by left.
  - intros r Hr. destruct (token_phase s es r Ready Ha) as (t & p & ? & _ & ? & ?); [|by exists t, p].
    destruct s as [h [p [d [q e']]]]. simpl in *. rewrite !elem_of_app. right. right. left.
    apply list_elem_of_fmap. by exists r.
  - intros r t Hr Hc Hin. rewrite <-owned_places in Hin. apply list_elem_of_fmap in Hin as ([r' st] & -> & Hin).
    destruct (token_phase s es r' st Ha Hin) as (t' & p & Hr' & _ & Hp & Hst). simpl in Hr.
    rewrite Hr in Hr'. injection Hr' as <-. rewrite Hc in Hp. injection Hp as <-.
    apply owned_stages in Hin. destruct st; simpl in Hst; naive_solver.
Qed.

(** C19: Whatever happens in a session on a store that never fails and is empty at
    the start, with UUIDs that do not repeat - any submissions, retries, delays
    and schedule of the threads, as long as the time-out monitor does not check
    (no task times out), nobody calls [schedule] past the runtime and no executor
    changes the id of its task - recovery from the store's log alone (of at most
    100000 events) finds the queue of the runtime that wrote it: the ids waiting
    in it, each once, and their number. *)
Theorem session_recovery early late mgr e tables :
  env_tasks e = ∅ → log_is e [] → Forall orderly late →
  let s := (Runtime.life None early late (new_runtime (P:=P) mgr e)).2 in
  (∀ tbl, env_store (environment s) = Some tbl → count tbl ≤ genesis_limit) →
  ∃ st rep e', recover FROM_GENESIS (tables, environment s) = (Ok (st, rep), (tables, e')) ∧
    qs_queued_task_ids (rs_queue st) ≡ₚ (map_to_list (q_storage s.2.2.2.1)).*1 ∧
    qs_size (rs_queue st) = qsize s.2.2.2.1.
Proof.
  intros Ht Hl Ho s Hlen.
  destruct (in_order_life None standard_chain_lawful early late mgr e Ht Hl Ho) as [(_ & _ & _ & Hq & _) [es Ha]].
  fold s in Hq, Ha. change (agrees (owned sys_view s ++ []) (environment s) es) in Ha.
  pose proof (ag_log _ _ _ Ha) as (tbl & Hst & Hh & Hf).
  destruct (recover_run FROM_GENESIS tables (environment s) tbl es None Hst Hh ltac:(done) ltac:(done) ltac:(done))
    as (now0 & now & rep & e' & Hr & _). cbn [default from_option id] in Hr.
  rewrite (genesis_replays_all tbl es (Hlen tbl Hst) Hh) in Hr.
  eexists _, rep, e'. split; [exact Hr|]. cbn.
  pose proof (replay_log_ok _ es (genesis_ok now0)) as Hok.
  destruct (phase_queued (map data es) (ag_legal _ _ _ Ha)) as [Hnd Hin].
  assert (rp_queued (replay_log (unpack (genesis now0)) es) ≡ₚ (map_to_list (q_storage s.2.2.2.1)).*1) as Hp.
  { rewrite replay_queued by apply genesis_ok. apply NoDup_Permutation; [done|apply NoDup_fst_map_to_list|].
    intros i. rewrite (Hin i), (waiting_stored s es i Ha Hq). unfold is_Some. rewrite list_elem_of_fmap. split.
    - intros [r Hr']. exists (i, r). split; [done|]. by apply elem_of_map_to_list.
    - intros ([j r] & -> & Hj). exists r. by apply elem_of_map_to_list in Hj. }
  split; [exact Hp|]. rewrite (ro_size _ Hok), Hp. unfold qsize. by rewrite length_fmap, length_map_to_list.
Qed.
End theorems.

(** * Examples *)
Section examples.
#[local] Existing Instance sample_oracle.
#[local] Existing Instance sample_reliable.
#[local] Existing Instance FIFOPolicy.policy.
#[local] Existing Instance FIFOPolicy.laws.

(** Two tasks in execution and one that waits. *)
Definition three_jobs : list call := two_jobs ++ [Submit (job "c")].
Abbreviation three_jobs_end :=
  (Runtime.life None [job "a"] three_jobs (new_runtime (P:=FIFOPolicy.t) [] (sample_world (Some empty_table) []))).2.
Lemma three_jobs_orderly : Forall orderly three_jobs.
Proof. repeat (apply Forall_cons; split; [by try intros|]). constructor. Qed.
Lemma fresh_log : log_is (sample_world (Some empty_table) []) [].
Proof. exists empty_table. split; [reflexivity|]. split; [exact holds_empty|constructor]. Qed.

Lemma session_follows_protocol_witness :
  executing three_jobs_end = [("W-001", 10%nat); ("W-002", 27%nat)] ∧
  ∃ es, log_is (environment three_jobs_end) es ∧ phase_of "id-46" (map data es) = Some Waiting.
Proof.
  split; [vm_compute; reflexivity|].
  destruct (session_follows_protocol (P:=FIFOPolicy.t) [job "a"] three_jobs [] (sample_world (Some empty_table) [])
    eq_refl fresh_log three_jobs_orderly) as (es & Hlog & _ & Hq & _).
  exists es. split; [exact Hlog|]. apply Hq. vm_compute. exists 46%nat. reflexivity.
Defined.

Lemma session_recovery_witness :
  ∃ st rep e', recover FROM_GENESIS (new_conn, environment three_jobs_end) = (Ok (st, rep), (new_conn, e')) ∧
    qs_queued_task_ids (rs_queue st) ≡ₚ ["id-46"] ∧ qs_size (rs_queue st) = 1.
Proof.
  destruct (session_recovery (P:=FIFOPolicy.t) [job "a"] three_jobs [] (sample_world (Some empty_table) []) new_conn
    eq_refl fresh_log three_jobs_orderly) as (st & rep & e' & Hr & Hq & Hs).
  - assert (from_option count 0 (env_store (environment three_jobs_end)) ≤ genesis_limit) as Hc.
    { vm_compute. discriminate. }
    intros tbl Htbl. rewrite Htbl in Hc. exact Hc.
  - exists st, rep, e'. split; [exact Hr|]. split.
    + etrans; [exact Hq|]. vm_compute. reflexivity.
    + etrans; [exact Hs|]. vm_compute. reflexivity.
Defined.
End examples.
