(* ===== verification/WorkflowModels.v ===== *)
(** [workflow/domain/models.py]: workflow definitions, plans and instances, and
    their dictionary form ([to_dict], [from_dict]). *)
From S2P Require Import Prelude PyNum Values Decode Events.
Open Scope Z_scope.

(** * Enumerations *)
Module WorkflowStatus.
Inductive t : Type := PENDING | RUNNING | PAUSED | SUCCEEDED | FAILED | CANCELLED.
#[export] Instance t_eq_dec : EqDecision t.
Proof. solve_decision. Defined.
Definition value (s : t) : string :=
  match s with
  | PENDING => "Pending" | RUNNING => "Running" | PAUSED => "Paused"
  | SUCCEEDED => "Succeeded" | FAILED => "Failed" | CANCELLED => "Cancelled"
  end.
Definition all : list t := [PENDING; RUNNING; PAUSED; SUCCEEDED; FAILED; CANCELLED].
End WorkflowStatus.
Module NodeState.
Inductive t : Type :=
  PENDING | PREPARING | RUNNING | SUCCEEDED | FAILED | SKIPPED | CANCELLED | WAITING_APPROVAL.
#[export] Instance t_eq_dec : EqDecision t.
Proof. solve_decision. Defined.
Definition value (s : t) : string :=
  match s with
  | PENDING => "Pending" | PREPARING => "Preparing" | RUNNING => "Running"
  | SUCCEEDED => "Succeeded" | FAILED => "Failed" | SKIPPED => "Skipped"
  | CANCELLED => "Cancelled" | WAITING_APPROVAL => "WaitingApproval"
  end.
Definition all : list t :=
  [PENDING; PREPARING; RUNNING; SUCCEEDED; FAILED; SKIPPED; CANCELLED; WAITING_APPROVAL].
End NodeState.
Module FailurePolicy.
Inductive t : Type := FAIL | IGNORE | COMPENSATE.
#[export] Instance t_eq_dec : EqDecision t.
Proof. solve_decision. Defined.
Definition value (s : t) : string :=
  match s with FAIL => "Fail" | IGNORE => "Ignore" | COMPENSATE => "Compensate" end.
Definition all : list t := [FAIL; IGNORE; COMPENSATE].
(** A member of the enumeration as a value: an object JSON cannot encode. *)
Definition obj (s : t) : pyval :=
  VObj "FailurePolicy" (match s with FAIL => 0 | IGNORE => 1 | COMPENSATE => 2 end)%nat.
End FailurePolicy.
Export (hints) WorkflowStatus NodeState FailurePolicy.

(** [E(v)] on a string: the member of that value, or [ValueError]. *)
Definition enum_of {T} (cls : string) (value : T → string) (all : list T) (s : string) : outcome T :=
  match List.find (λ x, value x =s? s) all with
  | Some x => Ok x
  | None => Raise (ValueError ("'" +:+ s +:+ "' is not a valid " +:+ cls))
  end.
Definition status_of : string → outcome WorkflowStatus.t :=
  enum_of "WorkflowStatus" WorkflowStatus.value WorkflowStatus.all.
Definition node_state_of : string → outcome NodeState.t :=
  enum_of "NodeState" NodeState.value NodeState.all.
(** [FailurePolicy(v)]: a member is itself. *)
Definition failure_policy_of (v : pyval) : outcome FailurePolicy.t :=
  match v with
  | VStr s => enum_of "FailurePolicy" FailurePolicy.value FailurePolicy.all s
  | VObj "FailurePolicy" n =>
      match FailurePolicy.all !! n with Some x => Ok x | None => Raise bad_field end
  | _ => Raise (ValueError "not a valid FailurePolicy")
  end.

Lemma status_of_value s : status_of (WorkflowStatus.value s) = Ok s.
Proof. by destruct s. Qed.
Lemma node_state_of_value s : node_state_of (NodeState.value s) = Ok s.
Proof. by destruct s. Qed.
Lemma failure_policy_of_value s : failure_policy_of (VStr (FailurePolicy.value s)) = Ok s.
Proof. by destruct s. Qed.
Lemma failure_policy_of_obj s : failure_policy_of (FailurePolicy.obj s) = Ok s.
Proof. by destruct s. Qed.

(** * Data *)
Module Wf.
Record RetryPolicy : Type := { max_attempts : Z; delay_seconds : num; backoff_rate : num }.
Record TimeoutPolicy : Type := { timeout_seconds : option num }.
Record CompensationPolicy : Type := { compensation_node_id : option string }.
Record WorkflowPolicy : Type := {
  retry : RetryPolicy;
  timeout : TimeoutPolicy;
  failure_handling : FailurePolicy.t;
  compensation : CompensationPolicy
}.
Record NodePolicy : Type := {
  node_retry : option RetryPolicy;
  node_timeout : option TimeoutPolicy;
  node_failure_handling : option FailurePolicy.t;
  node_compensation : option CompensationPolicy
}.
End Wf.

Record NodeInput : Type := {
  source_node_id : option string;
  output_key : option string;
  default_value : pyval
}.
Record DataMapping : Type := {
  input_mappings : odict NodeInput;
  output_mappings : list string
}.
Record GraphNode : Type := {
  node_id : string;
  executor_type : string;
  payload : odict pyval;
  policy : Wf.NodePolicy;
  capabilities : list string;
  data_mapping : DataMapping;
  is_checkpoint : bool;
  is_approval : bool;
  node_version : string
}.
Record GraphEdge : Type := {
  from_node_id : string;
  to_node_id : string;
  condition_expression : option string;
  edge_version : string
}.
Record ExecutionGraph : Type := {
  nodes : odict GraphNode;
  edges : list GraphEdge;
  graph_version : string
}.
Record WorkflowMetadata : Type := {
  created_by : string;
  tags : list string;
  extra : odict pyval
}.
Record WorkflowDefinition : Type := {
  wf_name : string;
  graph : ExecutionGraph;
  wf_version : string;
  wf_policy : Wf.WorkflowPolicy;
  wf_metadata : WorkflowMetadata
}.
Record ExecutionPhase : Type := { node_ids : list string; phase_index : Z }.
Record ExecutionPlan : Type := {
  phases : list ExecutionPhase;
  critical_path : list string;
  plan_version : string
}.
Record WorkflowInstance : Type := {
  instance_id : string;
  workflow_name : string;
  definition : WorkflowDefinition;
  status : WorkflowStatus.t;
  node_states : odict NodeState.t;
  node_outputs : odict (odict pyval);
  execution_plan : ExecutionPlan;
  started_at : string;
  completed_at : option string;
  instance_version : string
}.

(** The defaults of the fields. *)
Definition one : num := PFloat (round_to_float 1 0).
Definition default_retry : Wf.RetryPolicy :=
  {| Wf.max_attempts := 0; Wf.delay_seconds := one; Wf.backoff_rate := one |}.
Definition default_workflow_policy : Wf.WorkflowPolicy :=
  {| Wf.retry := default_retry; Wf.timeout := {| Wf.timeout_seconds := None |};
     Wf.failure_handling := FailurePolicy.FAIL;
     Wf.compensation := {| Wf.compensation_node_id := None |} |}.
Definition default_node_policy : Wf.NodePolicy :=
  {| Wf.node_retry := None; Wf.node_timeout := None; Wf.node_failure_handling := None;
     Wf.node_compensation := None |}.
Definition default_data_mapping : DataMapping := {| input_mappings := []; output_mappings := [] |}.
Definition default_metadata : WorkflowMetadata :=
  {| created_by := "system"; tags := []; extra := [] |}.

(** * To dictionaries *)
Definition retry_to_dict (p : Wf.RetryPolicy) : odict pyval :=
  [("max_attempts", VInt (Wf.max_attempts p)); ("delay_seconds", VNum (Wf.delay_seconds p));
   ("backoff_rate", VNum (Wf.backoff_rate p))].
Definition timeout_to_dict (p : Wf.TimeoutPolicy) : odict pyval :=
  [("timeout_seconds", opt_num (Wf.timeout_seconds p))].
Definition compensation_to_dict (p : Wf.CompensationPolicy) : odict pyval :=
  [("compensation_node_id", opt_str (Wf.compensation_node_id p))].
(** [asdict(self.policy)]: the enumeration member is copied as it is. *)
Definition node_policy_to_dict (p : Wf.NodePolicy) : odict pyval :=
  let opt {A} (f : A → pyval) o := match o with Some x => f x | None => VNone end in
  [("retry", opt (λ r, VDict (retry_to_dict r)) (Wf.node_retry p));
   ("timeout", opt (λ r, VDict (timeout_to_dict r)) (Wf.node_timeout p));
   ("failure_handling", opt FailurePolicy.obj (Wf.node_failure_handling p));
   ("compensation", opt (λ r, VDict (compensation_to_dict r)) (Wf.node_compensation p))].
Definition node_input_to_dict (n : NodeInput) : odict pyval :=
  [("source_node_id", opt_str (source_node_id n)); ("output_key", opt_str (output_key n));
   ("default_value", asdict (default_value n))].

(** [GraphNode.to_dict] *)
Definition node_to_dict (n : GraphNode) : odict pyval :=
  [("id", VStr (node_id n)); ("executor_type", VStr (executor_type n));
   ("payload", VDict (payload n)); ("policy", VDict (node_policy_to_dict (policy n)));
   ("capabilities", strs (capabilities n));
   ("data_mapping", VDict
     [("input_mappings", VDict (map (λ kv, (kv.1, VDict (node_input_to_dict kv.2)))
                                    (input_mappings (data_mapping n))));
      ("output_mappings", strs (output_mappings (data_mapping n)))]);
   ("is_checkpoint", VBool (is_checkpoint n)); ("is_approval", VBool (is_approval n));
   ("version", VStr (node_version n))].
(** [GraphEdge.to_dict] *)
Definition edge_to_dict (e : GraphEdge) : odict pyval :=
  [("from_node_id", VStr (from_node_id e)); ("to_node_id", VStr (to_node_id e));
   ("condition_expression", opt_str (condition_expression e)); ("version", VStr (edge_version e))].
(** [ExecutionGraph.to_dict] *)
Definition graph_to_dict (g : ExecutionGraph) : odict pyval :=
  [("nodes", VDict (map (λ kv, (kv.1, VDict (node_to_dict kv.2))) (nodes g)));
   ("edges", VList (map (λ e, VDict (edge_to_dict e)) (edges g)));
   ("version", VStr (graph_version g))].
(** [WorkflowDefinition.to_dict] *)
Definition definition_to_dict (d : WorkflowDefinition) : odict pyval :=
  [("name", VStr (wf_name d)); ("graph", VDict (graph_to_dict (graph d)));
   ("version", VStr (wf_version d));
   ("policy", VDict
     [("retry", VDict (retry_to_dict (Wf.retry (wf_policy d))));
      ("timeout", VDict (timeout_to_dict (Wf.timeout (wf_policy d))));
      ("failure_handling", VStr (FailurePolicy.value (Wf.failure_handling (wf_policy d))));
      ("compensation", VDict (compensation_to_dict (Wf.compensation (wf_policy d))))]);
   ("metadata", VDict
     [("created_by", VStr (created_by (wf_metadata d))); ("tags", strs (tags (wf_metadata d)));
      ("extra", asdict (VDict (extra (wf_metadata d))))])].
(** [ExecutionPlan.to_dict] *)
Definition phase_to_dict (p : ExecutionPhase) : odict pyval :=
  [("node_ids", strs (node_ids p)); ("phase_index", VInt (phase_index p))].
Definition plan_to_dict (p : ExecutionPlan) : odict pyval :=
  [("phases", VList (map (λ x, VDict (phase_to_dict x)) (phases p)));
   ("critical_path", strs (critical_path p)); ("version", VStr (plan_version p))].
(** [WorkflowInstance.to_dict] *)
Definition instance_to_dict (i : WorkflowInstance) : odict pyval :=
  [("instance_id", VStr (instance_id i)); ("workflow_name", VStr (workflow_name i));
   ("definition", VDict (definition_to_dict (definition i)));
   ("status", VStr (WorkflowStatus.value (status i)));
   ("node_states", VDict (map (λ kv, (kv.1, VStr (NodeState.value kv.2))) (node_states i)));
   ("node_outputs", VDict (map (λ kv, (kv.1, VDict kv.2)) (node_outputs i)));
   ("execution_plan", VDict (plan_to_dict (execution_plan i)));
   ("started_at", VStr (started_at i)); ("completed_at", opt_str (completed_at i));
   ("version", VStr (instance_version i))].

(** * From dictionaries *)
Definition retry_of_dict (d : odict pyval) : outcome Wf.RetryPolicy :=
  let? d := kwargs ["max_attempts"; "delay_seconds"; "backoff_rate"] d in
  let? a := as_int (get_or d "max_attempts" (VInt 0)) in
  let? b := as_number (get_or d "delay_seconds" (VNum one)) in
  let? c := as_number (get_or d "backoff_rate" (VNum one)) in
  Ok {| Wf.max_attempts := a; Wf.delay_seconds := b; Wf.backoff_rate := c |}.
Definition timeout_of_dict (d : odict pyval) : outcome Wf.TimeoutPolicy :=
  let? d := kwargs ["timeout_seconds"] d in
  let? a := as_opt_num (get_or d "timeout_seconds" VNone) in Ok {| Wf.timeout_seconds := a |}.
Definition compensation_of_dict (d : odict pyval) : outcome Wf.CompensationPolicy :=
  let? d := kwargs ["compensation_node_id"] d in
  let? a := as_opt_str (get_or d "compensation_node_id" VNone) in
  Ok {| Wf.compensation_node_id := a |}.
Definition node_input_of_dict (v : pyval) : outcome NodeInput :=
  let? d := as_dict v in
  let? d := kwargs ["source_node_id"; "output_key"; "default_value"] d in
  let? a := as_opt_str (get_or d "source_node_id" VNone) in
  let? b := as_opt_str (get_or d "output_key" VNone) in
  Ok {| source_node_id := a; output_key := b; default_value := get_or d "default_value" VNone |}.
(** [C( **v ) if v else None] *)
Definition if_truthy {A} (f : odict pyval → outcome A) (v : pyval) : outcome (option A) :=
  if truthy v then let? d := as_dict v in let? a := f d in Ok (Some a) else Ok None.

(** [GraphNode.from_dict] *)
Definition node_of_dict (v : pyval) : outcome GraphNode :=
  let? data := as_dict v in
  let? pd := as_dict (get_or data "policy" (VDict [])) in
  let? r := if_truthy retry_of_dict (get_or pd "retry" VNone) in
  let? t := if_truthy timeout_of_dict (get_or pd "timeout" VNone) in
  let? c := if_truthy compensation_of_dict (get_or pd "compensation" VNone) in
  let fh_str := get_or pd "failure_handling" VNone in
  let? fh := if truthy fh_str then let? f := failure_policy_of fh_str in Ok (Some f) else Ok None in
  let? dm := as_dict (get_or data "data_mapping" (VDict [])) in
  let? ims := as_dict (get_or dm "input_mappings" (VDict [])) in
  let? in_maps := map_items node_input_of_dict ims in
  let? outs := as_strs (get_or dm "output_mappings" (VList [])) in
  let? i := req_str data "id" in
  let? ex := req_str data "executor_type" in
  let? pl := (let? p := req data "payload" in as_dict p) in
  let? caps := as_strs (get_or data "capabilities" (VList [])) in
  let? chk := as_bool (get_or data "is_checkpoint" (VBool false)) in
  let? app := as_bool (get_or data "is_approval" (VBool false)) in
  let? ver := as_str (get_or data "version" (VStr "1.0.0")) in
  Ok {| node_id := i; executor_type := ex; payload := pl;
        policy := {| Wf.node_retry := r; Wf.node_timeout := t; Wf.node_failure_handling := fh;
                     Wf.node_compensation := c |};
        capabilities := caps; data_mapping := {| input_mappings := in_maps; output_mappings := outs |};
        is_checkpoint := chk; is_approval := app; node_version := ver |}.
(** [GraphEdge.from_dict] *)
Definition edge_of_dict (v : pyval) : outcome GraphEdge :=
  let? data := as_dict v in
  let? f := req_str data "from_node_id" in
  let? t := req_str data "to_node_id" in
  let? c := as_opt_str (get_or data "condition_expression" VNone) in
  let? ver := as_str (get_or data "version" (VStr "1.0.0")) in
  Ok {| from_node_id := f; to_node_id := t; condition_expression := c; edge_version := ver |}.
(** [ExecutionGraph.from_dict] *)
Definition graph_of_dict (data : odict pyval) : outcome ExecutionGraph :=
  let? nd := as_dict (get_or data "nodes" (VDict [])) in
  let? ns := map_items node_of_dict nd in
  let? es := match get_or data "edges" (VList []) with
             | VList l => omapM edge_of_dict l | _ => Raise bad_field end in
  let? ver := as_str (get_or data "version" (VStr "1.0.0")) in
  Ok {| nodes := ns; edges := es; graph_version := ver |}.
(** [WorkflowDefinition.from_dict] *)
Definition definition_of_dict (data : odict pyval) : outcome WorkflowDefinition :=
  let? pd := as_dict (get_or data "policy" (VDict [])) in
  let? r := (let? d := as_dict (get_or pd "retry" (VDict [])) in retry_of_dict d) in
  let? t := (let? d := as_dict (get_or pd "timeout" (VDict [])) in timeout_of_dict d) in
  let? fh := failure_policy_of (get_or pd "failure_handling" (VStr "Fail")) in
  let? c := (let? d := as_dict (get_or pd "compensation" (VDict [])) in compensation_of_dict d) in
  let? md := as_dict (get_or data "metadata" (VDict [])) in
  let? md := kwargs ["created_by"; "tags"; "extra"] md in
  let? cb := as_str (get_or md "created_by" (VStr "system")) in
  let? tg := as_strs (get_or md "tags" (VList [])) in
  let? ex := as_dict (get_or md "extra" (VDict [])) in
  let? nm := req_str data "name" in
  let? gd := (let? g := req data "graph" in as_dict g) in
  let? g := graph_of_dict gd in
  let? ver := as_str (get_or data "version" (VStr "1.0.0")) in
  Ok {| wf_name := nm; graph := g; wf_version := ver;
        wf_policy := {| Wf.retry := r; Wf.timeout := t; Wf.failure_handling := fh;
                        Wf.compensation := c |};
        wf_metadata := {| created_by := cb; tags := tg; extra := ex |} |}.
(** [ExecutionPlan.from_dict] *)
Definition phase_of_dict (v : pyval) : outcome ExecutionPhase :=
  let? d := as_dict v in
  let? d := kwargs ["node_ids"; "phase_index"] d in
  let? l := (let? x := req d "node_ids" in as_strs x) in
  let? n := (let? x := req d "phase_index" in as_int x) in
  Ok {| node_ids := l; phase_index := n |}.
Definition plan_of_dict (data : odict pyval) : outcome ExecutionPlan :=
  let? ps := match get_or data "phases" (VList []) with
             | VList l => omapM phase_of_dict l | _ => Raise bad_field end in
  let? cp := as_strs (get_or data "critical_path" (VList [])) in
  let? ver := as_str (get_or data "version" (VStr "1.0.0")) in
  Ok {| phases := ps; critical_path := cp; plan_version := ver |}.
(** [WorkflowInstance.from_dict] *)
Definition instance_of_dict (data : odict pyval) : outcome WorkflowInstance :=
  let? d := (let? x := req data "definition" in let? x := as_dict x in definition_of_dict x) in
  let? s := (let? x := req_str data "status" in status_of x) in
  let? ns := (let? x := as_dict (get_or data "node_states" (VDict [])) in
              map_items (λ v, let? s := as_str v in node_state_of s) x) in
  let? pl := (let? x := req data "execution_plan" in let? x := as_dict x in plan_of_dict x) in
  let? i := req_str data "instance_id" in
  let? wn := req_str data "workflow_name" in
  let? outs := (let? x := as_dict (get_or data "node_outputs" (VDict [])) in map_items as_dict x) in
  let? st := req_str data "started_at" in
  let? co := as_opt_str (get_or data "completed_at" VNone) in
  let? ver := as_str (get_or data "version" (VStr "1.0.0")) in
  Ok {| instance_id := i; workflow_name := wn; definition := d; status := s; node_states := ns;
        node_outputs := outs; execution_plan := pl; started_at := st; completed_at := co;
        instance_version := ver |}.

(** * Round trips *)

(** Run a reader on a literal dictionary, up to the next opaque reader. *)
Lemma retry_roundtrip p : retry_of_dict (retry_to_dict p) = Ok p.
Proof. by destruct p. Qed.
Lemma timeout_roundtrip p : timeout_of_dict (timeout_to_dict p) = Ok p.
Proof. destruct p as [[]]; done. Qed.
Lemma compensation_roundtrip p : compensation_of_dict (compensation_to_dict p) = Ok p.
Proof. destruct p as [[]]; done. Qed.

Lemma if_truthy_opt {A} (f : odict pyval → outcome A) (g : A → odict pyval) o :
  (∀ x, f (g x) = Ok x) → (∀ x, g x ≠ []) →
  if_truthy f (match o with Some x => VDict (g x) | None => VNone end) = Ok o.
Proof.
  intros Hf Hg. unfold if_truthy. destruct o as [x|]; [|done]. simpl.
  rewrite bool_decide_false by (intros E; by apply nil_length_inv, Hg in E). simpl. by rewrite Hf.
Qed.
Lemma failure_policy_opt o :
  let v := match o with Some x => FailurePolicy.obj x | None => VNone end in
  (if truthy v then let? f := failure_policy_of v in Ok (Some f) else Ok None) = Ok o.
Proof. by destruct o as [[]|]. Qed.

(** What the copies made by [asdict] must leave alone: default values of
    inputs and the metadata's extras hold no dataclass instance. *)
Definition input_plain (n : NodeInput) : Prop := asdict (default_value n) = default_value n.
Definition node_plain (n : GraphNode) : Prop :=
  Forall (λ kv, input_plain kv.2) (input_mappings (data_mapping n)).
Definition definition_plain (d : WorkflowDefinition) : Prop :=
  Forall (λ kv, node_plain kv.2) (nodes (graph d)) ∧
  asdict (VDict (extra (wf_metadata d))) = VDict (extra (wf_metadata d)).

Lemma node_input_roundtrip n :
  input_plain n → node_input_of_dict (VDict (node_input_to_dict n)) = Ok n.
Proof.
  destruct n as [s o v]. unfold input_plain; simpl. intros Hv.
  unfold node_input_to_dict; cbn [source_node_id output_key default_value]. rewrite Hv.
  by destruct s, o.
Qed.

Lemma node_roundtrip n : node_plain n → node_of_dict (VDict (node_to_dict n)) = Ok n.
Proof.
  destruct n as [i ex pl [r t f c] caps [im om] chk app ver]. unfold node_plain; simpl. intros Hp.
  assert (Hi : map_items node_input_of_dict
    (map (λ kv, (kv.1, VDict (node_input_to_dict kv.2))) im) = Ok im).
  { apply (map_items_Ok _ (λ x, VDict (node_input_to_dict x))).
    eapply Forall_impl; [exact Hp|]. intros kv. apply node_input_roundtrip. }
  unfold node_of_dict, node_to_dict, node_policy_to_dict.
  cbn [node_id executor_type payload policy capabilities data_mapping is_checkpoint
       is_approval node_version input_mappings output_mappings Wf.node_retry Wf.node_timeout
       Wf.node_failure_handling Wf.node_compensation].
  read_dict. rewrite Hi. cbn [obind]. rewrite !as_strs_strs.
  rewrite (if_truthy_opt _ _ r retry_roundtrip), (if_truthy_opt _ _ t timeout_roundtrip),
    (if_truthy_opt _ _ c compensation_roundtrip), failure_policy_opt by done.
  done.
Qed.

Lemma edge_roundtrip e : edge_of_dict (VDict (edge_to_dict e)) = Ok e.
Proof.
  destruct e as [f t c v]. unfold edge_of_dict, edge_to_dict.
  cbn [from_node_id to_node_id condition_expression edge_version]. read_dict. by destruct c.
Qed.

Lemma graph_roundtrip g :
  Forall (λ kv, node_plain kv.2) (nodes g) → graph_of_dict (graph_to_dict g) = Ok g.
Proof.
  destruct g as [ns es v]; simpl. intros Hp. unfold graph_of_dict, graph_to_dict.
  cbn [nodes edges graph_version]. read_dict.
  rewrite (map_items_Ok node_of_dict (λ n, VDict (node_to_dict n))).
  2:{ eapply Forall_impl; [exact Hp|]. intros kv. apply node_roundtrip. }
  cbn [obind]. rewrite (omapM_Ok edge_of_dict (λ e, VDict (edge_to_dict e))); [done|].
  apply Forall_true. apply edge_roundtrip.
Qed.

Lemma definition_roundtrip d :
  definition_plain d → definition_of_dict (definition_to_dict d) = Ok d.
Proof.
  destruct d as [nm g v [r t f c] [cb tg ex]]. unfold definition_plain; cbn [graph wf_metadata extra].
  intros [Hg Hx]. unfold definition_of_dict, definition_to_dict.
  cbn [wf_name graph wf_version wf_policy wf_metadata Wf.retry Wf.timeout Wf.failure_handling
       Wf.compensation created_by tags extra]. rewrite Hx. read_dict.
  rewrite retry_roundtrip, timeout_roundtrip, failure_policy_of_value, compensation_roundtrip.
  cbn [obind]. unfold kwargs. cbn [dkeys fmap list_fmap fst]. vm_compute (forallb _ _).
  cbn [obind]. read_dict. rewrite as_strs_strs. cbn [obind]. by rewrite (graph_roundtrip g Hg).
Qed.

Lemma plan_roundtrip p : plan_of_dict (plan_to_dict p) = Ok p.
Proof.
  destruct p as [ps cp v]. unfold plan_of_dict, plan_to_dict.
  cbn [phases critical_path plan_version]. read_dict.
  rewrite (omapM_Ok phase_of_dict (λ x, VDict (phase_to_dict x))).
  - cbn [obind]. by rewrite as_strs_strs.
  - apply Forall_true. intros [l n]. unfold phase_of_dict, phase_to_dict, kwargs.
    cbn [as_dict obind dkeys fmap list_fmap fst node_ids phase_index].
    vm_compute (forallb _ _). read_dict. by rewrite as_strs_strs.
Qed.

Lemma instance_of_to_dict i :
  definition_plain (definition i) → instance_of_dict (instance_to_dict i) = Ok i.
Proof.
  destruct i as [i wn d s ns outs pl st co v]. cbn [definition]. intros Hd.
  unfold instance_of_dict, instance_to_dict.
  cbn [instance_id workflow_name definition status node_states node_outputs execution_plan started_at
       completed_at instance_version]. read_dict.
  rewrite (definition_roundtrip d Hd), status_of_value. cbn [obind].
  rewrite (map_items_Ok _ (λ x, VStr (NodeState.value x)))
    by (apply Forall_true; intros kv; apply node_state_of_value).
  rewrite plan_roundtrip. cbn [obind].
  rewrite (map_items_Ok as_dict VDict) by by apply Forall_true.
  cbn [obind]. by rewrite as_opt_str_opt.
Qed.

(** ** What a checkpoint can store *)
Definition values_ok (d : odict pyval) : bool := forallb (λ kv, json_ok kv.2) d.

(** No node-level failure policy, and JSON values where the user supplies them. *)
Definition node_storable (n : GraphNode) : bool :=
  match Wf.node_failure_handling (policy n) with None => true | Some _ => false end &&
  values_ok (payload n) &&
  forallb (λ kv, json_ok (default_value kv.2)) (input_mappings (data_mapping n)).
Definition definition_storable (d : WorkflowDefinition) : bool :=
  forallb (λ kv, node_storable kv.2) (nodes (graph d)) && values_ok (extra (wf_metadata d)).
Definition instance_storable (i : WorkflowInstance) : bool :=
  definition_storable (definition i) && forallb (λ kv, values_ok kv.2) (node_outputs i).

Lemma node_storable_plain n : node_storable n = true → node_plain n.
Proof.
  unfold node_storable, node_plain, input_plain. rewrite !andb_true_iff. intros [_ Hd].
  apply forallb_Forall_true in Hd. eapply Forall_impl; [exact Hd|]. intros kv. apply asdict_json_ok.
Qed.

Lemma definition_storable_plain d : definition_storable d = true → definition_plain d.
Proof.
  unfold definition_storable, definition_plain. rewrite andb_true_iff. intros [Hn Hx]. split.
  - apply forallb_Forall_true in Hn. eapply Forall_impl; [exact Hn|]. intros kv. apply node_storable_plain.
  - by apply asdict_json_ok.
Qed.

Lemma node_json n : node_storable n = true → json_ok (VDict (node_to_dict n)) = true.
Proof.
  intros Hn. pose proof (node_storable_plain n Hn) as Hp. unfold node_storable in Hn.
  rewrite !andb_true_iff in Hn. destruct Hn as [[Hf Hpl] Hd].
  destruct n as [i ex pl [r t f c] caps [im om] chk app ver]; cbn in Hf, Hpl, Hd, Hp.
  destruct f; [done|]. cbn -[strs]. rewrite !json_strs. unfold values_ok in Hpl. rewrite Hpl.
  rewrite (forallb_map_pair json_ok (λ x, VDict (node_input_to_dict x))).
  assert (forallb (λ kv, json_ok (VDict (node_input_to_dict kv.2))) im = true) as ->.
  - apply forallb_Forall_true. rewrite forallb_Forall_true in Hd. unfold node_plain in Hp. cbn in Hp.
    rewrite Forall_forall in *. intros kv Hkv. specialize (Hp kv Hkv). specialize (Hd kv Hkv).
    unfold input_plain in Hp. cbn. by rewrite !json_opt_str, Hp, Hd.
  - by destruct r, t as [[[]]|], c as [[[]]|].
Qed.

Lemma definition_json d : definition_storable d = true → json_ok (VDict (definition_to_dict d)) = true.
Proof.
  intros Hd. pose proof (definition_storable_plain d Hd) as [_ Hx]. unfold definition_storable in Hd.
  apply andb_true_iff in Hd as [Hn Hex].
  destruct d as [nm g v [r t f c] [cb tg ex]]; cbn [graph wf_metadata extra] in *.
  cbn -[strs asdict]. rewrite Hx, json_strs. change (json_ok (VDict ex)) with (values_ok ex). rewrite Hex.
  rewrite (forallb_map_pair json_ok (λ x, VDict (node_to_dict x))).
  assert (forallb (λ kv, json_ok (VDict (node_to_dict kv.2))) (nodes g) = true) as ->.
  { apply forallb_Forall_true. rewrite forallb_Forall_true in Hn. eapply Forall_impl; [exact Hn|].
    intros kv. apply node_json. }
  assert (forallb json_ok (map (λ e, VDict (edge_to_dict e)) (edges g)) = true) as ->.
  { apply forallb_Forall_true. apply Forall_map, Forall_true. intros e. cbn. by rewrite json_opt_str. }
  by destruct t as [[]], c as [[]].
Qed.

Lemma instance_json i : instance_storable i = true → json_ok (VDict (instance_to_dict i)) = true.
Proof.
  unfold instance_storable. rewrite andb_true_iff. intros [Hd Ho].
  pose proof (definition_json _ Hd) as Hj.
  destruct i as [i wn d s ns outs [ps cp pv] st co v]; cbn [definition node_outputs] in *.
  unfold instance_to_dict, plan_to_dict.
  cbn [instance_id workflow_name definition status node_states node_outputs execution_plan started_at
       completed_at instance_version phases critical_path plan_version].
  rewrite !json_dict_cons, json_dict_nil, Hj, (json_dict_map VDict),
    (json_dict_map (λ x, VStr (NodeState.value x))), json_strs, json_opt_str.
  rewrite (proj2 (forallb_Forall_true (λ kv, json_ok (VStr (NodeState.value kv.2))) ns))
    by (by apply Forall_true).
  rewrite (proj2 (forallb_Forall_true (λ kv, json_ok (VDict kv.2)) outs))
    by (apply forallb_Forall_true; exact Ho).
  cbn [json_ok]. rewrite (proj2 (forallb_Forall_true json_ok _)); [done|].
  apply Forall_map, Forall_true. intros x. cbn -[strs]. by rewrite json_strs.
Qed.

(** C21: A checkpoint round trip: an instance without node-level failure policies,
    whose payloads, input defaults, outputs and extras are JSON values, is
    written as JSON and read back as the same instance. *)
Theorem instance_checkpoint_roundtrip i :
  instance_storable i = true →
  ∃ j d, dumps (VDict (instance_to_dict i)) = Ok j ∧ loads j = VDict d ∧ instance_of_dict d = Ok i.
Proof.
  intros Hi. unfold dumps. rewrite (instance_json i Hi). eexists _, _. split_and!; [done|done|].
  apply instance_of_to_dict, definition_storable_plain.
  unfold instance_storable in Hi. by apply andb_true_iff in Hi as [? _].
Qed.

(** A node-level failure policy makes the checkpoint fail: [asdict] keeps the
    enumeration member, which [json.dumps] rejects. *)
Theorem node_policy_not_storable i k n f :
  (k, n) ∈ nodes (graph (definition i)) → Wf.node_failure_handling (policy n) = Some f →
  dumps (VDict (instance_to_dict i)) = Raise (TypeError "not JSON serializable").
Proof.
  intros Hn Hf. unfold dumps.
  assert (json_ok (VDict (instance_to_dict i)) = false) as ->; [|done].
  apply not_true_iff_false. unfold instance_to_dict, definition_to_dict, graph_to_dict.
  rewrite !json_dict_cons, !andb_true_iff. intros (_ & _ & (_ & Hg & _) & _).
  destruct Hg as [Hg _]. rewrite (json_dict_map (λ n, VDict (node_to_dict n))) in Hg. apply forallb_Forall_true in Hg. rewrite Forall_forall in Hg.
  specialize (Hg _ Hn). cbn [snd] in Hg. unfold node_to_dict, node_policy_to_dict in Hg.
  rewrite !json_dict_cons, !andb_true_iff, Hf in Hg. destruct Hg as (_ & _ & _ & (_ & _ & Hc & _) & _).
  by destruct f.
Qed.

(** * Examples *)
Definition sample_node (i : string) (p : Wf.NodePolicy) : GraphNode :=
  {| node_id := i; executor_type := "python"; payload := [("cmd", VStr "x")]; policy := p;
     capabilities := ["gpu"];
     data_mapping := {| input_mappings := [("in", {| source_node_id := Some "workflow_inputs";
                          output_key := Some "k"; default_value := VInt 3 |})];
                        output_mappings := ["out"] |};
     is_checkpoint := false; is_approval := true; node_version := "1.0.0" |}.
Definition sample_instance (p : Wf.NodePolicy) : WorkflowInstance :=
  {| instance_id := "i"; workflow_name := "w";
     definition := {| wf_name := "w";
       graph := {| nodes := [("a", sample_node "a" p)];
                   edges := [{| from_node_id := "a"; to_node_id := "b"; condition_expression := None;
                                edge_version := "1.0.0" |}];
                   graph_version := "1.0.0" |};
       wf_version := "1.0.0"; wf_policy := default_workflow_policy; wf_metadata := default_metadata |};
     status := WorkflowStatus.RUNNING; node_states := [("a", NodeState.PENDING)];
     node_outputs := [("workflow_inputs", [("k", VStr "v")])];
     execution_plan := {| phases := [{| node_ids := ["a"]; phase_index := 0 |}];
                          critical_path := ["a"]; plan_version := "1.0.0" |};
     started_at := "t"; completed_at := None; instance_version := "1.0.0" |}.

Lemma instance_checkpoint_roundtrip_witness :
  ∃ j d, dumps (VDict (instance_to_dict (sample_instance default_node_policy))) = Ok j ∧
    loads j = VDict d ∧ instance_of_dict d = Ok (sample_instance default_node_policy).
Proof. apply instance_checkpoint_roundtrip. vm_compute. reflexivity. Defined.

Lemma node_policy_not_storable_witness :
  let p := {| Wf.node_retry := None; Wf.node_timeout := None;
              Wf.node_failure_handling := Some FailurePolicy.IGNORE; Wf.node_compensation := None |} in
  dumps (VDict (instance_to_dict (sample_instance p))) = Raise (TypeError "not JSON serializable").
Proof.
  intros p. apply (node_policy_not_storable _ "a" (sample_node "a" p) FailurePolicy.IGNORE);
    [left|reflexivity].
Defined.
