(* ===== verification/Dag.v ===== *)
(** Directed graphs as edge lists: acyclicity, in-degrees and topological
    orders; what the proofs about [workflow/builder.py] and
    [workflow/planner.py] share. *)
From S2P Require Import Prelude.

Section dag.
Context (E : list (string * string)).
Implicit Types (u v : string) (l S : list string).

Definition edge u v : Prop := (u, v) ∈ E.
Definition acyclic : Prop := ∀ v, ¬ tc edge v v.

#[global] Instance edge_dec u v : Decision (edge u v).
Proof. unfold edge. apply _. Defined.

(** The targets of [u], one per edge, and the edges into [v] from outside [S]. *)
Definition targets u : list string := (filter (λ e, e.1 = u) E).*2.
Definition sources v : list string := (filter (λ e, e.2 = v) E).*1.
Definition indeg S v : nat := length (filter (λ e, e.2 = v ∧ e.1 ∉ S) E).
Definition count v l : nat := length (filter (λ x, x = v) l).

Lemma elem_of_targets u v : v ∈ targets u ↔ edge u v.
Proof.
  unfold targets, edge. rewrite list_elem_of_fmap. split.
  - intros ([a b] & -> & [<- ?]%list_elem_of_filter). done.
  - intros He. exists (u, v). rewrite list_elem_of_filter. done.
Qed.
Lemma elem_of_sources u v : u ∈ sources v ↔ edge u v.
Proof.
  unfold sources, edge. rewrite list_elem_of_fmap. split.
  - intros ([a b] & -> & [<- ?]%list_elem_of_filter). done.
  - intros He. exists (u, v). rewrite list_elem_of_filter. done.
Qed.

Lemma indeg_0 S v : indeg S v = 0 ↔ ∀ u, edge u v → u ∈ S.
Proof.
  unfold indeg, edge. split.
  - intros Hf u Hu. apply length_zero_iff_nil in Hf. apply dec_stable. intros Hn.
    by apply (filter_nil_not_elem_of _ _ (u, v) Hf).
  - intros Hs. rewrite filter_none; [done|]. apply Forall_forall.
    intros [a b] He [Hb Ha]; simpl in *; subst. auto.
Qed.

(** Adding [u] to the done nodes removes its edges from the in-degrees. *)
Lemma indeg_done S u v :
  u ∉ S → indeg S v = indeg (S ++ [u]) v + count v (targets u).
Proof.
  intros Hu. unfold indeg, targets, count. induction E as [|[a b] es IH]; [done|].
  rewrite !filter_cons; simpl. destruct (decide (a = u)) as [->|Hne]; csimpl.
  - rewrite (decide_False (P:=b = v ∧ u ∉ S ++ [u])) by set_solver.
    rewrite filter_cons. destruct (decide (b = v)).
    + rewrite decide_True by done. simpl. lia.
    + rewrite decide_False by tauto. lia.
  - destruct (decide (b = v ∧ a ∉ S)) as [[??]|Hn].
    + rewrite decide_True by set_solver. simpl. lia.
    + rewrite decide_False by set_solver. lia.
Qed.

Lemma count_cons x v l : count v (x :: l) = (if decide (x = v) then 1 else 0) + count v l.
Proof. unfold count. rewrite filter_cons. by case_decide. Qed.

(** Topological order: the predecessors of every item precede it. *)
Definition topo l : Prop :=
  ∀ l1 v l2, l = l1 ++ v :: l2 → ∀ u, edge u v → u ∈ l1.

Lemma topo_nil : topo [].
Proof. by intros [] ???. Qed.

Lemma topo_snoc l v : topo l → (∀ u, edge u v → u ∈ l) → topo (l ++ [v]).
Proof.
  intros Hl Hv l1 w l2 Heq u He. destruct l2 as [|x l2 _] using rev_ind.
  - apply app_inj_tail in Heq as [-> ->]. auto.
  - rewrite app_comm_cons, app_assoc in Heq. apply app_inj_tail in Heq as [-> _].
    by eapply Hl.
Qed.

Lemma topo_before l i j u v :
  NoDup l → topo l → edge u v → l !! i = Some u → l !! j = Some v → i < j.
Proof.
  intros Hnd Ht He Hi Hj. pose proof (take_drop_middle l j v Hj) as Hs. symmetry in Hs.
  pose proof (Ht _ _ _ Hs u He) as Hin. apply list_elem_of_lookup in Hin as [k Hk].
  apply lookup_take_Some in Hk as [Hk ?].
  by rewrite (NoDup_lookup l i k u Hnd Hi Hk).
Qed.

(** A graph whose edges all end in a topologically ordered list is acyclic. *)
Lemma topo_acyclic l : NoDup l → topo l → (∀ u v, edge u v → v ∈ l) → acyclic.
Proof.
  intros Hnd Ht Hin.
  assert (Hlt : ∀ u v, tc edge u v → ∃ i j, l !! i = Some u ∧ l !! j = Some v ∧ i < j).
  { induction 1 as [u v He|u w v He _ IH].
    - pose proof (Hin u v He) as Hv. apply list_elem_of_lookup in Hv as [j Hj].
      pose proof (take_drop_middle l j v Hj) as Hs. symmetry in Hs.
      pose proof (Ht _ _ _ Hs u He) as Hu. apply list_elem_of_lookup in Hu as [i Hi].
      apply lookup_take_Some in Hi as [Hi ?]. eauto.
    - destruct IH as (k & j & Hk & Hj & ?).
      pose proof (take_drop_middle l k w Hk) as Hs. symmetry in Hs.
      pose proof (Ht _ _ _ Hs u He) as Hu. apply list_elem_of_lookup in Hu as [i Hi].
      apply lookup_take_Some in Hi as [Hi ?]. exists i, j. split_and!; [done..|lia]. }
  intros v Hv. destruct (Hlt v v Hv) as (i & j & Hi & Hj & ?).
  pose proof (NoDup_lookup l i j v Hnd Hi Hj). lia.
Qed.

(** In an acyclic graph, a set that contains every node whose predecessors it
    contains, contains every node. *)
Lemma acyclic_ind (P : string → Prop) :
  acyclic → (∀ v, (∀ u, edge u v → P u) → P v) → ∀ v, P v.
Proof.
  intros Hac Hstep v.
  assert (Hsn : sn (flip edge) v).
  { apply tc_finite_sn.
    - intros w Hw. apply (Hac w). clear -Hw.
      assert (∀ a b, tc (flip edge) a b → tc edge b a) as Hflip; [|auto].
      induction 1 as [a b Hab|a b c Hab _ IH]; [by apply tc_once|].
      eapply tc_r; [exact IH|exact Hab].
    - exists (E.*1). intros y Hy.
      assert (∀ a b, tc (flip edge) a b → b ∈ E.*1) as Hin; [|eauto].
      induction 1 as [a b Hab|]; [|done]. apply list_elem_of_fmap. by exists (b, a). }
  induction Hsn as [v _ IH]. apply Hstep. intros u Hu. by apply IH.
Qed.
End dag.

(** One more edge. *)
Lemma targets_snoc E a b u :
  targets (E ++ [(a, b)]) u = targets E u ++ (if decide (a = u) then [b] else []).
Proof.
  unfold targets. rewrite filter_app, fmap_app, filter_cons; simpl. by case_decide.
Qed.
Lemma indeg_snoc E a b v :
  indeg (E ++ [(a, b)]) [] v = indeg E [] v + (if decide (b = v) then 1 else 0).
Proof.
  unfold indeg. rewrite filter_app, length_app, filter_cons; simpl. f_equal.
  destruct (decide (b = v)).
  - rewrite decide_True by (split; [done|apply not_elem_of_nil]). done.
  - rewrite decide_False by tauto. done.
Qed.
