(* ===== verification/Builder.v ===== *)
(** [workflow/builder.py]: the fluent workflow builder, and the validation of
    its graph by Kahn's algorithm. *)
From S2P Require Import Prelude PyNum Values Decode Events WorkflowModels Dag.
Open Scope Z_scope.

(** * The builder *)
Record WorkflowBuilder : Type := {
  b_name : string;
  b_nodes : odict GraphNode;
  b_edges : list GraphEdge;
  b_policy : Wf.WorkflowPolicy
}.
Definition new_builder (name : string) : WorkflowBuilder :=
  {| b_name := name; b_nodes := []; b_edges := []; b_policy := default_workflow_policy |}.

Definition with_nodes (ns : odict GraphNode) (b : WorkflowBuilder) : WorkflowBuilder :=
  {| b_name := b_name b; b_nodes := ns; b_edges := b_edges b; b_policy := b_policy b |}.

(** [add_node] *)
Definition add_node (id executor : string) (pl : option (odict pyval)) (p : option Wf.NodePolicy)
    (caps : option (list string)) (dm : option DataMapping) (chk app : bool) :
    M WorkflowBuilder unit :=
  b <- get ;;
  if dhas (b_nodes b) id then
    raise (ValueError ("Node with ID '" +:+ id +:+ "' already exists in workflow builder."))
  else
    let node := {| node_id := id; executor_type := executor; payload := default [] pl;
                   policy := default default_node_policy p; capabilities := default [] caps;
                   data_mapping := default default_data_mapping dm; is_checkpoint := chk;
                   is_approval := app; node_version := "1.0.0" |} in
    modify (λ b, with_nodes (dset (b_nodes b) id node) b).

(** [connect], [parallel] *)
Definition connect (from to : string) (condition : option string) : M WorkflowBuilder unit :=
  modify (λ b, {| b_name := b_name b; b_nodes := b_nodes b;
                  b_edges := b_edges b ++
                    [{| from_node_id := from; to_node_id := to; condition_expression := condition;
                        edge_version := "1.0.0" |}];
                  b_policy := b_policy b |}).
Definition parallel (from : string) (to_node_ids : list string) : M WorkflowBuilder unit :=
  for_each to_node_ids (λ target, connect from target None).

(** [retry], [timeout], [checkpoint], [approval]: replace a node *)
Definition update_node (id : string) (f : GraphNode → GraphNode) : M WorkflowBuilder unit :=
  b <- get ;;
  match dget (b_nodes b) id with
  | None => raise (ValueError ("Node '" +:+ id +:+ "' not found."))
  | Some old_node => modify (λ b, with_nodes (dset (b_nodes b) id (f old_node)) b)
  end.
Definition set_policy (f : Wf.NodePolicy → Wf.NodePolicy) (n : GraphNode) : GraphNode :=
  {| node_id := node_id n; executor_type := executor_type n; payload := payload n;
     policy := f (policy n); capabilities := capabilities n; data_mapping := data_mapping n;
     is_checkpoint := is_checkpoint n; is_approval := is_approval n; node_version := node_version n |}.
Definition set_flags (chk app : bool) (n : GraphNode) : GraphNode :=
  {| node_id := node_id n; executor_type := executor_type n; payload := payload n;
     policy := policy n; capabilities := capabilities n; data_mapping := data_mapping n;
     is_checkpoint := chk; is_approval := app; node_version := node_version n |}.
Definition retry (id : string) (max_attempts : Z) (delay_seconds : num) : M WorkflowBuilder unit :=
  update_node id (set_policy (λ p,
    {| Wf.node_retry := Some {| Wf.max_attempts := max_attempts; Wf.delay_seconds := delay_seconds;
                                Wf.backoff_rate := one |};
       Wf.node_timeout := Wf.node_timeout p; Wf.node_failure_handling := Wf.node_failure_handling p;
       Wf.node_compensation := Wf.node_compensation p |})).
Definition timeout (id : string) (seconds : num) : M WorkflowBuilder unit :=
  update_node id (set_policy (λ p,
    {| Wf.node_retry := Wf.node_retry p; Wf.node_timeout := Some {| Wf.timeout_seconds := Some seconds |};
       Wf.node_failure_handling := Wf.node_failure_handling p;
       Wf.node_compensation := Wf.node_compensation p |})).
Definition checkpoint (id : string) : M WorkflowBuilder unit :=
  update_node id (λ n, set_flags true (is_approval n) n).
Definition approval (id : string) : M WorkflowBuilder unit :=
  update_node id (λ n, set_flags (is_checkpoint n) true n).
Definition configure_workflow_policy (p : Wf.WorkflowPolicy) : M WorkflowBuilder unit :=
  modify (λ b, {| b_name := b_name b; b_nodes := b_nodes b; b_edges := b_edges b; b_policy := p |}).

(** * Kahn's algorithm *)

(** The adjacency lists and in-degrees: [adj[from].append(to); in_degree[to] += 1] *)
Definition count_edge (acc : outcome (odict (list string) * odict Z)) (e : GraphEdge) :
    outcome (odict (list string) * odict Z) :=
  obind acc (λ '(adj, deg),
    match dget adj (from_node_id e) with
    | None => Raise (KeyError (from_node_id e))
    | Some l =>
        match dget deg (to_node_id e) with
        | None => Raise (KeyError (to_node_id e))
        | Some n => Ok (dset adj (from_node_id e) (l ++ [to_node_id e]), dset deg (to_node_id e) (n + 1))
        end
    end).
Definition build_degrees (ns : list string) (es : list GraphEdge) :
    outcome (odict (list string) * odict Z) :=
  foldl count_edge (Ok (map (λ n, (n, [])) ns, map (λ n, (n, 0)) ns)) es.

(** [for v in adj[u]: in_degree[v] -= 1; if in_degree[v] == 0: queue.append(v)] *)
Fixpoint relax (vs : list string) (deg : odict Z) (queue : list string) :
    outcome (odict Z * list string) :=
  match vs with
  | [] => Ok (deg, queue)
  | v :: vs' =>
      match dget deg v with
      | None => Raise (KeyError v)
      | Some n => relax vs' (dset deg v (n - 1)) (if n - 1 =? 0 then queue ++ [v] else queue)
      end
  end.

(** The loop; a node enters the queue at most once, so the number of nodes is
    enough fuel ([kahn_spec]). *)
Fixpoint kahn (fuel : nat) (adj : odict (list string)) (deg : odict Z) (queue topo_order : list string) :
    outcome (list string) :=
  match queue, fuel with
  | [], _ => Ok topo_order
  | _, O => Ok topo_order
  | u :: queue', S fuel' =>
      match dget adj u with
      | None => Raise (KeyError u)
      | Some vs => obind (relax vs deg queue') (λ '(deg', queue''),
          kahn fuel' adj deg' queue'' (topo_order ++ [u]))
      end
  end.

Definition roots (deg : odict Z) : list string := dkeys (filter (λ x, x.2 = 0) deg).

(** [_validate_dag] *)
Definition cyclic_error : exn :=
  ValueError "Cyclic dependency detected! The execution graph must be a Directed Acyclic Graph (DAG).".
Definition validate_dag (g : ExecutionGraph) : outcome (list string) :=
  obind (build_degrees (dkeys (nodes g)) (edges g)) (λ '(adj, deg),
    let? topo_order := kahn (length (nodes g)) adj deg (roots deg) [] in
    if decide (length topo_order = length (nodes g)) then Ok topo_order else Raise cyclic_error).

(** [build] *)
Fixpoint check_edges (ns : odict GraphNode) (es : list GraphEdge) : outcome unit :=
  match es with
  | [] => Ok tt
  | e :: es' =>
      if negb (dhas ns (from_node_id e)) then
        Raise (ValueError ("Edge from invalid node ID '" +:+ from_node_id e +:+ "'."))
      else if negb (dhas ns (to_node_id e)) then
        Raise (ValueError ("Edge to invalid node ID '" +:+ to_node_id e +:+ "'."))
      else check_edges ns es'
  end.
Definition build (b : WorkflowBuilder) : outcome WorkflowDefinition :=
  let? _ := check_edges (b_nodes b) (b_edges b) in
  let g := {| nodes := b_nodes b; edges := b_edges b; graph_version := "1.0.0" |} in
  let? _ := validate_dag g in
  Ok {| wf_name := b_name b; graph := g; wf_version := "1.0.0"; wf_policy := b_policy b;
        wf_metadata := default_metadata |}.

(** * Correctness of the algorithm *)
Definition pairs (es : list GraphEdge) : list (string * string) :=
  map (λ e, (from_node_id e, to_node_id e)) es.

(** A graph whose edges connect its nodes. *)
Definition graph_ok (ns : list string) (es : list GraphEdge) : Prop :=
  NoDup ns ∧ ∀ u v, edge (pairs es) u v → u ∈ ns ∧ v ∈ ns.

Lemma dget_map_const {A} (a : A) (ns : list string) v :
  dget (map (λ n, (n, a)) ns) v = if decide (v ∈ ns) then Some a else None.
Proof.
  induction ns as [|n ns IH]; simpl; [done|]. rewrite IH.
  repeat case_decide; set_solver.
Qed.

Section kahn_correct.
Context (V : list string) (es : list GraphEdge).
Abbreviation E := (pairs es).
Hypothesis Hok : graph_ok V es.

(** The tables hold the targets and the in-degrees. *)
Definition adj_ok (adj : odict (list string)) : Prop :=
  ∀ u, u ∈ V → dget adj u = Some (targets E u).

Lemma build_degrees_spec :
  ∃ adj deg, build_degrees V es = Ok (adj, deg) ∧ adj_ok adj ∧ dkeys deg = V ∧
    ∀ v, v ∈ V → dget deg v = Some (Z.of_nat (indeg E [] v)).
Proof.
  destruct Hok as [_ Hends]. unfold adj_ok. clear Hok. revert Hends.
  induction es as [|e es' IH] using rev_ind; intros Hends.
  - eexists _, _. split; [done|]. split; [|split].
    + intros u Hu. by rewrite dget_map_const, decide_True.
    + unfold dkeys. clear. induction V; csimpl; congruence.
    + intros u Hu. by rewrite dget_map_const, decide_True.
  - unfold pairs in Hends. rewrite map_app in Hends. fold (pairs es') in Hends.
    destruct IH as (adj & deg & Hb & Ha & Hk & Hd).
    { intros u v He. apply Hends. unfold edge. set_solver. }
    destruct (Hends (from_node_id e) (to_node_id e)) as [Hf Ht].
    { unfold edge. apply elem_of_app. right. by left. }
    unfold build_degrees in *. rewrite foldl_app, Hb. simpl.
    rewrite (Ha _ Hf), (Hd _ Ht). eexists _, _. split; [done|]. split; [|split].
    + intros u Hu. unfold pairs. rewrite map_app; cbn [map]. rewrite targets_snoc, dget_dset.
      case_decide; [by subst|]. rewrite app_nil_r. auto.
    + rewrite dkeys_dset, Hk, decide_True by done. done.
    + intros v Hv. unfold pairs. rewrite map_app; cbn [map]. rewrite indeg_snoc, dget_dset.
      case_decide as Hc; [subst; f_equal; rewrite Nat2Z.inj_add; done|].
      rewrite Nat.add_0_r. auto.
Qed.

(** The state of the loop: what was output and what is queued are the nodes
    whose remaining in-degree is zero. *)
Definition loop_inv (rest : string → nat) (deg : odict Z) (queue order : list string) : Prop :=
  NoDup (order ++ queue) ∧ (∀ v, v ∈ order ++ queue → v ∈ V) ∧
  (∀ v, v ∈ V → dget deg v = Some (Z.of_nat (indeg E order v + rest v)%nat)) ∧
  (∀ v, v ∈ V → v ∈ order ++ queue ↔ (indeg E order v + rest v)%nat = 0%nat).
Definition kahn_inv : odict Z → list string → list string → Prop := loop_inv (λ _, 0%nat).

Lemma relax_spec vs deg queue order :
  (∀ v, v ∈ vs → v ∈ V) → loop_inv (λ v, count v vs) deg queue order →
  ∃ deg' queue', relax vs deg queue = Ok (deg', queue') ∧ kahn_inv deg' queue' order.
Proof.
  revert deg queue. induction vs as [|v vs IH]; intros deg queue Hvs Hinv; [by eexists _, _|].
  destruct Hinv as (Hnd & Hin & Hdeg & Hz). pose proof (Hvs v ltac:(by left)) as Hv.
  cbn [relax]. rewrite (Hdeg v Hv), count_cons, decide_True by done.
  apply IH; [intros; apply Hvs; by right|].
  assert (Hnew : v ∉ order ++ queue).
  { rewrite (Hz v Hv), count_cons, decide_True by done. lia. }
  assert (Hother : ∀ w, w ≠ v → count w (v :: vs) = count w vs).
  { intros w Hw. rewrite count_cons, decide_False by done. done. }
  set (n := Z.of_nat _ - 1). assert (Hn : n = Z.of_nat (indeg E order v + count v vs)) by lia.
  assert (Hq : ∀ w, w ∈ V → w ≠ v →
    w ∈ order ++ (if n =? 0 then queue ++ [v] else queue) ↔ w ∈ order ++ queue)
    by (intros w _ Hw; destruct (n =? 0); set_solver).
  split; [|split; [|split]].
  - destruct (n =? 0); [|done]. rewrite app_assoc. apply NoDup_app.
    split_and!; [done| |apply NoDup_singleton]. set_solver.
  - intros w. destruct (n =? 0); [|by apply Hin]. rewrite app_assoc, elem_of_app.
    intros [Hw| ->%list_elem_of_singleton]; [by apply Hin|done].
  - intros w Hw. rewrite dget_dset. case_decide as Hc; [by subst; rewrite Hn|].
    rewrite Hdeg by done. by rewrite Hother by done.
  - intros w Hw. destruct (decide (w = v)) as [->|Hne].
    + destruct (Z.eqb_spec n 0); [|split; [tauto|lia]]. split; [lia|]. set_solver.
    + rewrite Hq, Hz, Hother by done. done.
Qed.

Lemma kahn_step deg u queue order adj :
  adj_ok adj → kahn_inv deg (u :: queue) order → topo E order →
  ∃ deg' queue', dget adj u = Some (targets E u) ∧
    relax (targets E u) deg queue = Ok (deg', queue') ∧
    kahn_inv deg' queue' (order ++ [u]) ∧ topo E (order ++ [u]).
Proof.
  intros Hadj Hinv Ht. destruct Hinv as (Hnd & Hin & Hdeg & Hz).
  assert (Hu : u ∈ V) by (apply Hin; set_solver).
  assert (Hnu : u ∉ order).
  { apply NoDup_app in Hnd as (_ & Hd & _). intros Ho. apply (Hd u Ho). by left. }
  assert (Happ : order ++ u :: queue = (order ++ [u]) ++ queue) by by rewrite <-app_assoc.
  destruct (relax_spec (targets E u) deg queue (order ++ [u])) as (deg' & queue' & Hr & Hk).
  - intros v Hv%elem_of_targets. by apply Hok in Hv as [_ ?].
  - rewrite Happ in *. split; [done|]. split; [done|]. split.
    + intros v Hv. rewrite (Hdeg v Hv), (indeg_done _ order u v) by done. do 2 f_equal. lia.
    + intros v Hv. rewrite (Hz v Hv), (indeg_done _ order u v) by done. lia.
  - exists deg', queue'. split_and!; [by apply Hadj|done|apply Hk..|].
    apply topo_snoc; [done|]. apply indeg_0. specialize (Hz u Hu).
    assert (u ∈ order ++ u :: queue) as Hin' by set_solver. apply Hz in Hin'. lia.
Qed.

Lemma kahn_spec fuel adj deg queue order :
  adj_ok adj → kahn_inv deg queue order → topo E order →
  (length V ≤ fuel + length order)%nat →
  ∃ order' deg', kahn fuel adj deg queue order = Ok order' ∧ kahn_inv deg' [] order' ∧ topo E order'.
Proof.
  intros Hadj. revert deg queue order. induction fuel as [|fuel IH]; intros deg queue order Hinv Ht Hf.
  - destruct queue as [|u queue]; [by eexists _, _|]. exfalso.
    destruct Hinv as (Hnd & Hin & _).
    assert (length (order ++ u :: queue) ≤ length V)%nat as Hl.
    { apply submseteq_length, NoDup_submseteq; [done|]. intros v. apply Hin. }
    rewrite length_app in Hl; simpl in *. lia.
  - destruct queue as [|u queue]; [by eexists _, _|]. cbn [kahn].
    destruct (kahn_step deg u queue order adj Hadj Hinv Ht) as (deg' & queue' & -> & -> & Hinv' & Ht').
    simpl. apply IH; [done..|]. rewrite length_app; simpl. lia.
Qed.
End kahn_correct.

Lemma roots_spec V E (deg : odict Z) :
  NoDup V → dkeys deg = V → (∀ v, v ∈ V → dget deg v = Some (Z.of_nat (indeg E [] v))) →
  NoDup (roots deg) ∧ ∀ v, v ∈ roots deg ↔ v ∈ V ∧ indeg E [] v = 0%nat.
Proof.
  intros Hnd Hk Hd. unfold roots, dkeys.
  assert (Hsub : (filter (λ x : string * Z, x.2 = 0) deg).*1 `sublist_of` deg.*1)
    by apply fmap_sublist, sublist_filter.
  split; [eapply sublist_NoDup; [|exact Hsub]; unfold dkeys in Hk; by rewrite Hk|].
  intros v. split.
  - intros ([k z] & -> & [Hz Hin]%list_elem_of_filter)%list_elem_of_fmap. simpl in *. subst z.
    assert (k ∈ V) as HkV by (rewrite <-Hk; apply list_elem_of_fmap; by exists (k, 0)).
    split; [done|]. specialize (Hd k HkV). apply dget_elem in Hin; [|by unfold dwf; rewrite Hk].
    rewrite Hin in Hd. injection Hd. lia.
  - intros [Hv Hz]. specialize (Hd v Hv). rewrite Hz in Hd. apply dget_Some_elem in Hd.
    apply list_elem_of_fmap. exists (v, 0). split; [done|]. by apply list_elem_of_filter.
Qed.

(** The first state of the loop satisfies its invariant. *)
Lemma kahn_start V es (deg : odict Z) :
  graph_ok V es → dkeys deg = V →
  (∀ v, v ∈ V → dget deg v = Some (Z.of_nat (indeg (pairs es) [] v))) →
  kahn_inv V es deg (roots deg) [].
Proof.
  intros [Hnd _] Hk Hd. destruct (roots_spec V (pairs es) deg Hnd Hk Hd) as [Hr1 Hr2].
  split; [done|]. split; [intros v [? _]%Hr2; done|]. split.
  - intros v Hv. by rewrite Hd, Nat.add_0_r.
  - intros v Hv. rewrite Nat.add_0_r. simpl. rewrite Hr2. tauto.
Qed.

(** What the loop leaves when the queue is empty: a node is missing from the
    order exactly when a predecessor is, so none is in an acyclic graph. *)
Lemma kahn_end V es deg order :
  graph_ok V es → kahn_inv V es deg [] order → topo (pairs es) order →
  (length order = length V ↔ acyclic (pairs es)) ∧
  (length order = length V → order ≡ₚ V).
Proof.
  intros [Hnd Hends] (Hndo & Hin & _ & Hz) Ht. rewrite app_nil_r in Hndo, Hin.
  assert (Hperm : length order = length V → order ≡ₚ V).
  { intros Hl. apply submseteq_length_Permutation; [|lia]. apply NoDup_submseteq; [done|].
    intros v. apply Hin. }
  split; [|done]. split.
  - intros Hl. specialize (Hperm Hl). apply (topo_acyclic _ order); [done|done|].
    intros u v He. rewrite Hperm. by apply Hends in He as [_ ?].
  - intros Hac. apply Permutation_length, NoDup_Permutation; [done..|].
    intros v. split; [apply Hin|]. apply (acyclic_ind (pairs es) (λ v, v ∈ V → v ∈ order) Hac). clear v.
    intros v IH Hv. specialize (Hz v Hv). rewrite app_nil_r in Hz. apply Hz.
    rewrite Nat.add_0_r. apply indeg_0. intros u Hu. apply IH; [done|]. by apply Hends in Hu as [? _].
Qed.

Lemma validate_dag_run g :
  graph_ok (dkeys (nodes g)) (edges g) →
  (acyclic (pairs (edges g)) ∧ ∃ order, validate_dag g = Ok order ∧ order ≡ₚ dkeys (nodes g) ∧
     topo (pairs (edges g)) order) ∨
  (¬ acyclic (pairs (edges g)) ∧ validate_dag g = Raise cyclic_error).
Proof.
  intros Hok. unfold validate_dag.
  destruct (build_degrees_spec _ _ Hok) as (adj & deg & -> & Hadj & Hk & Hd). simpl.
  assert (Hlen : length (nodes g) = length (dkeys (nodes g))) by (unfold dkeys; by rewrite length_fmap).
  destruct (kahn_spec _ _ Hok (length (nodes g)) adj deg (roots deg) [] Hadj
    (kahn_start _ _ _ Hok Hk Hd) (topo_nil _)) as (order & deg' & -> & Hinv & Ht); [simpl; lia|].
  simpl. rewrite Hlen. destruct (kahn_end _ _ _ _ Hok Hinv Ht) as [Hiff Hperm].
  case_decide as Hl; [left|right].
  - split; [by apply Hiff|]. exists order. by split_and!; [|apply Hperm|].
  - split; [|done]. by intros Hac%Hiff.
Qed.

(** ** The builder *)
Lemma check_edges_spec ns es :
  match check_edges ns es with
  | Ok _ => ∀ u v, edge (pairs es) u v → u ∈ dkeys ns ∧ v ∈ dkeys ns
  | Raise x => isinstance x "ValueError" = true ∧
               ∃ u v, edge (pairs es) u v ∧ (u ∉ dkeys ns ∨ v ∉ dkeys ns)
  end.
Proof.
  induction es as [|e es IH]; simpl.
  - intros u v He. by apply not_elem_of_nil in He.
  - assert (He : edge (pairs (e :: es)) (from_node_id e) (to_node_id e)) by by left.
    destruct (dhas ns (from_node_id e)) eqn:Hf; simpl.
    2:{ apply dhas_false in Hf. split; [done|]. eauto 10. }
    destruct (dhas ns (to_node_id e)) eqn:Ht; simpl.
    2:{ apply dhas_false in Ht. split; [done|]. eauto 10. }
    apply dhas_true in Hf, Ht. destruct (check_edges ns es).
    + intros u v [?|?]%elem_of_cons; [by simplify_eq|by apply IH].
    + destruct IH as (? & u & v & ? & ?). split; [done|]. exists u, v. split; [by right|done].
Qed.

(** The calls of the fluent interface, and the builders they construct. *)
Inductive call : M WorkflowBuilder unit → Prop :=
  | call_add_node i ex pl p caps dm chk app : call (add_node i ex pl p caps dm chk app)
  | call_connect f t c : call (connect f t c)
  | call_parallel f ts : call (parallel f ts)
  | call_retry i n s : call (retry i n s)
  | call_timeout i s : call (timeout i s)
  | call_checkpoint i : call (checkpoint i)
  | call_approval i : call (approval i)
  | call_configure p : call (configure_workflow_policy p).
Inductive built : WorkflowBuilder → Prop :=
  | built_new name : built (new_builder name)
  | built_call b m : built b → call m → built (m b).2.

(** Every node is stored once, under its own id. *)
Definition builder_inv (b : WorkflowBuilder) : Prop :=
  dwf (b_nodes b) ∧ ∀ k n, dget (b_nodes b) k = Some n → node_id n = k.

Lemma builder_inv_dset b k n :
  builder_inv b → node_id n = k → builder_inv (with_nodes (dset (b_nodes b) k n) b).
Proof.
  intros [Hwf Hid] Hn. split; simpl; [by apply dset_wf|]. intros k' n'. rewrite dget_dset.
  case_decide; [intros [= <-]; congruence|apply Hid].
Qed.

Lemma update_node_inv b k f :
  (∀ n, node_id (f n) = node_id n) → builder_inv b → builder_inv (update_node k f b).2.
Proof.
  intros Hf Hb. unfold update_node. run_step. destruct (dget (b_nodes b) k) as [n|] eqn:Hn; [|done].
  apply builder_inv_dset; [done|]. rewrite Hf. by apply Hb.
Qed.

Lemma call_inv m b : call m → builder_inv b → builder_inv (m b).2.
Proof.
  destruct 1; intros Hb; try by apply update_node_inv.
  - unfold add_node. run_step. destruct (dhas _ _); [done|]. by apply builder_inv_dset.
  - done.
  - unfold parallel. revert b Hb. induction ts as [|t ts IH]; intros b Hb; [done|]. by apply IH.
  - done.
Qed.

Lemma built_inv b : built b → builder_inv b.
Proof.
  induction 1 as [name|b m _ IH Hm]; [|by apply call_inv].
  split; [apply NoDup_nil_2|done].
Qed.

(** A graph that [build] returns can be planned and run. *)
Lemma built_graph b d : built b → build b = Ok d →
  dwf (nodes (graph d)) ∧ graph_ok (dkeys (nodes (graph d))) (edges (graph d)) ∧ acyclic (pairs (edges (graph d))).
Proof.
  intros [Hwf _]%built_inv. unfold build. pose proof (check_edges_spec (b_nodes b) (b_edges b)) as Hc.
  destruct (check_edges _ _) as [[]|x]; simpl; [|done].
  destruct (validate_dag_run {| nodes := b_nodes b; edges := b_edges b; graph_version := "1.0.0" |})
    as [(Hac & order & -> & _)|(Hac & ->)]; simpl; [by split|by intros [= <-]|done].
Qed.

(** C14: Whatever calls made the builder, [build] succeeds exactly when every edge
    connects declared nodes and the graph has no cycle, and raises a
    [ValueError] otherwise; the definition it returns has the builder's graph,
    each node once and under its own id. *)
Theorem build_correct b :
  built b →
  let es := pairs (b_edges b) in
  match build b with
  | Ok d => acyclic es ∧ (∀ u v, edge es u v → u ∈ dkeys (b_nodes b) ∧ v ∈ dkeys (b_nodes b)) ∧
            nodes (graph d) = b_nodes b ∧ edges (graph d) = b_edges b ∧
            wf_name d = b_name b ∧ wf_policy d = b_policy b ∧ dwf (nodes (graph d)) ∧
            ∀ k n, dget (nodes (graph d)) k = Some n → node_id n = k
  | Raise x => isinstance x "ValueError" = true ∧
               ((∃ u v, edge es u v ∧ (u ∉ dkeys (b_nodes b) ∨ v ∉ dkeys (b_nodes b))) ∨ ¬ acyclic es)
  end.
Proof.
  intros [Hwf Hid]%built_inv es. unfold build.
  pose proof (check_edges_spec (b_nodes b) (b_edges b)) as Hc.
  destruct (check_edges _ _) as [[]|x]; simpl; [|destruct Hc; by split; [|left]].
  destruct (validate_dag_run {| nodes := b_nodes b; edges := b_edges b; graph_version := "1.0.0" |})
    as [(Hac & order & -> & _)|(Hac & ->)]; simpl; [by split| |].
  - by split_and!.
  - split; [done|]. by right.
Qed.

(** C23: A validated order lists every node once, each after all its
    predecessors; an order is returned exactly for acyclic graphs. *)
Theorem validate_dag_topological g :
  graph_ok (dkeys (nodes g)) (edges g) →
  (acyclic (pairs (edges g)) ↔ ∃ order, validate_dag g = Ok order) ∧
  (∀ order, validate_dag g = Ok order → order ≡ₚ dkeys (nodes g) ∧
     ∀ i j u v, edge (pairs (edges g)) u v → order !! i = Some u → order !! j = Some v → (i < j)%nat).
Proof.
  intros Hok. destruct (validate_dag_run g Hok) as [(Hac & order & Hv & Hp & Ht)|[Hac Hv]]; rewrite Hv.
  - split; [split; eauto|]. intros order' [= <-]. split; [done|]. intros i j u v He Hi Hj.
    apply (topo_before (pairs (edges g)) order i j u v); try done. rewrite Hp. apply Hok.
  - split; [|done]. split; [done|]. by intros [? ?].
Qed.

(** * Examples: a diamond, and a cycle *)
Definition simple_node (i : string) : M WorkflowBuilder unit :=
  add_node i "python" None None None None false false.
Definition diamond_calls : list (M WorkflowBuilder unit) :=
  [simple_node "a"; simple_node "b"; simple_node "c"; simple_node "d";
   parallel "a" ["b"; "c"]; connect "b" "d" None; connect "c" "d" (Some "x > 1")].
Definition run_calls (cs : list (M WorkflowBuilder unit)) : WorkflowBuilder :=
  foldl (λ b m, (m b).2) (new_builder "w") cs.
Definition diamond : WorkflowBuilder := run_calls diamond_calls.

Lemma diamond_built : built diamond.
Proof. unfold diamond, run_calls, diamond_calls. cbn [foldl]. repeat (apply built_call; [|constructor]). constructor. Qed.

Definition diamond_graph : ExecutionGraph :=
  {| nodes := b_nodes diamond; edges := b_edges diamond; graph_version := "1.0.0" |}.

Lemma build_correct_witness :
  (∃ d, build diamond = Ok d) ∧ acyclic (pairs (b_edges diamond)).
Proof.
  pose proof (build_correct diamond diamond_built) as H. cbv zeta in H.
  destruct (build diamond) as [d|x] eqn:E.
  - split; [exists d; reflexivity|apply H].
  - exfalso. vm_compute in E. discriminate E.
Defined.

Lemma diamond_graph_ok : graph_ok (dkeys (nodes diamond_graph)) (edges diamond_graph).
Proof.
  split; [by apply (bool_decide_unpack _); vm_compute|].
  intros u v He. unfold edge in He. cbn in He.
  repeat (apply elem_of_cons in He as [He|He]; [simplify_eq; split; vm_compute; set_solver|]).
  by apply not_elem_of_nil in He.
Qed.

Lemma validate_dag_topological_witness :
  validate_dag diamond_graph = Ok ["a"; "b"; "c"; "d"] ∧
  ["a"; "b"; "c"; "d"] ≡ₚ dkeys (nodes diamond_graph) ∧ acyclic (pairs (edges diamond_graph)).
Proof.
  destruct (validate_dag_topological diamond_graph diamond_graph_ok) as [Hac Hord].
  assert (validate_dag diamond_graph = Ok ["a"; "b"; "c"; "d"]) as Hv by (vm_compute; reflexivity).
  split; [exact Hv|]. split; [apply (Hord _ Hv)|]. apply Hac. exists ["a"; "b"; "c"; "d"]. exact Hv.
Defined.
