(* ===== verification/Sdk.v ===== *)
(** [workflow/sdk.py]: the [task] and [workflow] decorators, which record the
    calls a Python function makes as the nodes and edges of a graph. *)
From S2P Require Import Prelude PyNum Values Decode Events WorkflowModels Dag Builder.
Open Scope Z_scope.

(** What task functions take and return: a [TaskReference], any other value, or
    a list that may hold either. *)
Inductive sdk_val : Type :=
  | TaskReference (node_id : string)
  | Value (v : pyval)
  | Items (l : list sdk_val).

Section sdk.
(** [W] is the world the decorated functions act on when they really run. *)
Context {W : Type}.

(** The module's global [_current_builder], and the builders made so far: it and
    [compile_workflow]'s local variable refer to the same object. *)
Record Sdk : Type := { sd_builders : list WorkflowBuilder; sd_current : option nat }.
Definition with_current (c : option nat) (s : Sdk) : Sdk :=
  {| sd_builders := sd_builders s; sd_current := c |}.
Definition with_builder (n : nat) (b : WorkflowBuilder) (s : Sdk) : Sdk :=
  {| sd_builders := <[n := b]> (sd_builders s); sd_current := sd_current s |}.

Abbreviation SdkM A := (M (Sdk * W) A).

Definition on_builder {A} (n : nat) (m : M WorkflowBuilder A) : SdkM A := self (λ s,
  match sd_builders s !! n with
  | Some b => let '(o, b') := m b in (o, with_builder n b' s)
  | None => (Raise (AttributeError "dangling reference"), s)
  end).

(** ** [task] *)

(** A decorated function: the function, its [__name__] and the decorator's
    arguments. *)
Record TaskDecl : Type := {
  td_name : string;
  td_func : list sdk_val → odict sdk_val → SdkM sdk_val;
  td_executor_type : string;
  td_policy : option Wf.NodePolicy;
  td_capabilities : option (list string);
  td_is_checkpoint : bool;
  td_is_approval : bool
}.

Definition reference (v : sdk_val) : option string :=
  match v with TaskReference i => Some i | _ => None end.
Definition parents (args : list sdk_val) (kwargs : odict sdk_val) : list string :=
  omap reference args ++ omap reference (dvals kwargs).

(** [wrapper] *)
Definition task_call (t : TaskDecl) (args : list sdk_val) (kwargs : odict sdk_val) : SdkM sdk_val :=
  current <- self (gets sd_current) ;;
  match current with
  | Some b =>
      on_builder b (add_node (td_name t) (td_executor_type t) (Some [("callable_name", VStr (td_name t))])
                      (td_policy t) (td_capabilities t) None (td_is_checkpoint t) (td_is_approval t)) ;;;
      for_each (parents args kwargs) (λ p, on_builder b (connect p (td_name t) None)) ;;;
      ret (TaskReference (td_name t))
  | None => td_func t args kwargs
  end.

(** ** [workflow] *)
Definition open_builder (name : string) : SdkM nat := self (λ s,
  let b := length (sd_builders s) in
  (Ok b, {| sd_builders := sd_builders s ++ [new_builder name]; sd_current := Some b |})).

(** [compile_workflow]; [func] is the decorated function with
    its arguments *)
Definition compile_workflow {A} (name : string) (func : SdkM A) : SdkM WorkflowDefinition :=
  b <- open_builder name ;;
  finally (func ;;; ret tt) (self (modify (with_current None))) ;;;
  s <- self get ;;
  match sd_builders s !! b with
  | Some builder => of_outcome (build builder)
  | None => raise (AttributeError "dangling reference")
  end.

(** * Straight-line workflow functions

    A function body that binds the result of each call to a variable of its own:
    [x0 = f(...); x1 = g(x0, 3); x2 = h(x1, limit=x0); ...].  [Ref i] is the
    [i]-th variable. *)
Inductive arg : Type :=
  | Ref (i : nat)
  | Lit (v : pyval)
  | Pack (l : list arg).
Record stmt : Type := { st_task : TaskDecl; st_args : list arg; st_kwargs : odict arg }.
Definition stmt_name (c : stmt) : string := td_name (st_task c).
Definition names (p : list stmt) : list string := stmt_name <$> p.
Definition all_args (c : stmt) : list arg := st_args c ++ dvals (st_kwargs c).

Definition name_error : exn := UserExc ["NameError"; "Exception"] "name is not defined".
Fixpoint eval_arg (vars : list sdk_val) (a : arg) : outcome sdk_val :=
  match a with
  | Ref i => match vars !! i with Some v => Ok v | None => Raise name_error end
  | Lit v => Ok (Value v)
  | Pack l =>
      omap_ok Items ((fix go l := match l with
                                  | [] => Ok []
                                  | a :: l' => let? v := eval_arg vars a in let? vs := go l' in Ok (v :: vs)
                                  end) l)
  end.
Definition eval_kwarg (vars : list sdk_val) (kv : string * arg) : outcome (string * sdk_val) :=
  let? v := eval_arg vars kv.2 in Ok (kv.1, v).

Fixpoint run_body (p : list stmt) (vars : list sdk_val) : SdkM (list sdk_val) :=
  match p with
  | [] => ret vars
  | c :: p' =>
      args <- of_outcome (omapM (eval_arg vars) (st_args c)) ;;
      kwargs <- of_outcome (omapM (eval_kwarg vars) (st_kwargs c)) ;;
      v <- task_call (st_task c) args kwargs ;;
      run_body p' (vars ++ [v])
  end.

(** Only variables that are bound, anywhere in the arguments. *)
Fixpoint bound (n : nat) (a : arg) : Prop :=
  match a with
  | Ref i => (i < n)%nat
  | Lit _ => True
  | Pack l => (fix go l := match l with [] => True | a :: l' => bound n a ∧ go l' end) l
  end.
Definition well_scoped (p : list stmt) : Prop :=
  ∀ k c, p !! k = Some c → Forall (bound k) (all_args c).

(** [v] takes the result of [u] as one of its arguments. *)
Definition depends (p : list stmt) (u v : string) : Prop :=
  ∃ k c i, p !! k = Some c ∧ stmt_name c = v ∧ Ref i ∈ all_args c ∧ names p !! i = Some u.

Definition node_of (c : stmt) : GraphNode := {|
  node_id := stmt_name c; executor_type := td_executor_type (st_task c);
  payload := [("callable_name", VStr (stmt_name c))];
  policy := default default_node_policy (td_policy (st_task c));
  capabilities := default [] (td_capabilities (st_task c));
  data_mapping := default_data_mapping;
  is_checkpoint := td_is_checkpoint (st_task c); is_approval := td_is_approval (st_task c);
  node_version := "1.0.0" |}.

(** * Correctness *)

Section arg_ind.
Variable P : arg → Prop.
Hypothesis Href : ∀ i, P (Ref i).
Hypothesis Hlit : ∀ v, P (Lit v).
Hypothesis Hpack : ∀ l, Forall P l → P (Pack l).
Fixpoint arg_nested_ind (a : arg) : P a :=
  match a with
  | Ref i => Href i
  | Lit v => Hlit v
  | Pack l => Hpack l ((fix go l : Forall P l :=
      match l with [] => Forall_nil_2 _ | x :: l' => Forall_cons_2 _ _ _ (arg_nested_ind x) (go l') end) l)
  end.
End arg_ind.

(** ** Arguments *)
Definition arg_ref (ns : list string) (a : arg) : option string :=
  match a with Ref i => ns !! i | _ => None end.

Lemma eval_arg_ok ns a :
  bound (length ns) a → ∃ v, eval_arg (TaskReference <$> ns) a = Ok v ∧ reference v = arg_ref ns a.
Proof.
  induction a as [i|v|l IH] using arg_nested_ind; simpl; intros Hb.
  - apply lookup_lt_is_Some in Hb as [u Hu]. rewrite list_lookup_fmap, Hu. by eexists.
  - by eexists.
  - assert (∃ vs, (fix go l := match l with
      | [] => Ok []
      | a :: l' => let? v := eval_arg (TaskReference <$> ns) a in let? vs := go l' in Ok (v :: vs)
      end) l = Ok vs) as [vs ->]; [|by eexists].
    induction IH as [|a l Ha _ IH]; [by eexists|]. destruct Hb as [Hb Hl].
    destruct (Ha Hb) as (v & -> & _), (IH Hl) as [vs ->]. simpl. by eexists.
Qed.

Lemma eval_args_ok ns l :
  Forall (bound (length ns)) l →
  ∃ vs, omapM (eval_arg (TaskReference <$> ns)) l = Ok vs ∧ omap reference vs = omap (arg_ref ns) l.
Proof.
  induction 1 as [|a l Ha _ (vs & Hvs & Hr)]; [by exists []|].
  destruct (eval_arg_ok ns a Ha) as (v & Hv & Hra). exists (v :: vs).
  simpl. rewrite Hv; simpl. rewrite Hvs. csimpl. by rewrite Hra, Hr.
Qed.

Lemma eval_kwargs_ok ns (d : odict arg) :
  Forall (bound (length ns)) (dvals d) →
  ∃ kw, omapM (eval_kwarg (TaskReference <$> ns)) d = Ok kw ∧
        omap reference (dvals kw) = omap (arg_ref ns) (dvals d).
Proof.
  unfold dvals. induction d as [|[k a] d IH]; csimpl; [by exists []|].
  intros [Ha Hd]%Forall_cons. destruct (eval_arg_ok ns a Ha) as (v & Hv & Hra), (IH Hd) as (kw & Hkw & Hr).
  exists ((k, v) :: kw). unfold eval_kwarg at 1. simpl. rewrite Hv; simpl. rewrite Hkw. csimpl.
  by rewrite Hra, Hr.
Qed.

(** ** Recording *)
Definition edge_to (v u : string) : GraphEdge :=
  {| from_node_id := u; to_node_id := v; condition_expression := None; edge_version := "1.0.0" |}.
Definition record_call (t : TaskDecl) (ps : list string) (b : WorkflowBuilder) : WorkflowBuilder := {|
  b_name := b_name b;
  b_nodes := b_nodes b ++ [(td_name t, node_of {| st_task := t; st_args := []; st_kwargs := [] |})];
  b_edges := b_edges b ++ map (edge_to (td_name t)) ps; b_policy := b_policy b |}.

Lemma on_builder_run {A} n (m : M WorkflowBuilder A) b s w :
  sd_builders s !! n = Some b →
  on_builder n m (s, w) = ((m b).1, (with_builder n (m b).2 s, w)).
Proof. intros Hb. unfold on_builder, zoom. simpl. rewrite Hb. by destruct (m b). Qed.

Lemma with_builder_lookup n b b' s :
  sd_builders s !! n = Some b → sd_builders (with_builder n b' s) !! n = Some b'.
Proof. intros Hb. simpl. apply list_lookup_insert_eq. by apply lookup_lt_Some in Hb. Qed.
Lemma with_builder_twice n b b' s : with_builder n b' (with_builder n b s) = with_builder n b' s.
Proof. unfold with_builder. simpl. by rewrite list_insert_insert_eq. Qed.
Lemma with_builder_same n b s : sd_builders s !! n = Some b → with_builder n b s = s.
Proof. intros Hb. unfold with_builder. rewrite list_insert_id by done. by destruct s. Qed.

Lemma connect_all n t ps b s w :
  sd_builders s !! n = Some b →
  for_each ps (λ p, on_builder n (connect p t None)) (s, w) =
    (Ok tt, (with_builder n {| b_name := b_name b; b_nodes := b_nodes b;
                               b_edges := b_edges b ++ map (edge_to t) ps; b_policy := b_policy b |} s, w)).
Proof.
  revert b s. induction ps as [|p ps IH]; simpl; intros b s Hb.
  - rewrite app_nil_r. destruct b; simpl in *. by rewrite with_builder_same.
  - unfold bind. rewrite (on_builder_run _ _ b) by done. simpl.
    erewrite IH by (by eapply with_builder_lookup). simpl. by rewrite with_builder_twice, <-app_assoc.
Qed.

(** A call made while a workflow function is traced. *)
Lemma task_call_recording t args kw n b s w :
  sd_current s = Some n → sd_builders s !! n = Some b →
  task_call t args kw (s, w) =
    if dhas (b_nodes b) (td_name t)
    then (Raise (ValueError ("Node with ID '" +:+ td_name t +:+ "' already exists in workflow builder.")), (s, w))
    else (Ok (TaskReference (td_name t)), (with_builder n (record_call t (parents args kw) b) s, w)).
Proof.
  intros Hc Hb. unfold task_call. unfold bind at 1. unfold zoom, gets. simpl. rewrite Hc.
  replace (lset self_lens s (s, w)) with (s, w) by done.
  unfold bind. rewrite (on_builder_run _ _ b) by done. unfold add_node. run_step.
  destruct (dhas _ _) eqn:Hd; simpl; [by rewrite with_builder_same|].
  rewrite (connect_all _ _ _ _ _ _ (with_builder_lookup n b _ s Hb)). simpl.
  rewrite with_builder_twice, dset_fresh by (by apply dhas_false). done.
Qed.

Fixpoint recorded (ns : list string) (p : list stmt) : list GraphEdge :=
  match p with
  | [] => []
  | c :: p' => map (edge_to (stmt_name c)) (omap (arg_ref ns) (all_args c)) ++
               recorded (ns ++ [stmt_name c]) p'
  end.
Definition scoped_from (n : nat) (p : list stmt) : Prop :=
  ∀ k c, p !! k = Some c → Forall (bound (n + k)) (all_args c).
Definition entry_of_stmt (c : stmt) : string * GraphNode := (stmt_name c, node_of c).
Definition refs (ns : list string) : list sdk_val := TaskReference <$> ns.

Lemma scoped_cons n c p :
  scoped_from n (c :: p) → Forall (bound n) (all_args c) ∧ scoped_from (S n) p.
Proof.
  intros Hs. split; [specialize (Hs 0%nat c eq_refl); by rewrite Nat.add_0_r in Hs|].
  intros k d Hk. specialize (Hs (S k) d Hk). by rewrite <-Nat.add_succ_comm in Hs.
Qed.

Lemma names_dup (ns : list string) c p : ¬ NoDup (ns ++ [c]) → ¬ NoDup (ns ++ c :: p).
Proof.
  intros Hn Hd. apply Hn. change (c :: p) with ([c] ++ p) in Hd. rewrite app_assoc in Hd.
  by apply NoDup_app in Hd as [? _].
Qed.

(** Tracing a function whose first calls have made the nodes [ns]. *)
Lemma run_body_recording p ns n b s w :
  sd_current s = Some n → sd_builders s !! n = Some b → dkeys (b_nodes b) = ns → NoDup ns →
  scoped_from (length ns) p →
  ∃ o b', run_body p (refs ns) (s, w) = (o, (with_builder n b' s, w)) ∧
  match o with
  | Ok vs => vs = refs (ns ++ names p) ∧ NoDup (ns ++ names p) ∧
             b' = {| b_name := b_name b; b_nodes := b_nodes b ++ map entry_of_stmt p;
                     b_edges := b_edges b ++ recorded ns p; b_policy := b_policy b |}
  | Raise x => isinstance x "ValueError" = true ∧ ¬ NoDup (ns ++ names p)
  end.
Proof.
  revert ns b s. induction p as [|c p IH]; intros ns b s Hc Hb Hk Hnd Hs.
  { exists (Ok (refs ns)), b. simpl. rewrite with_builder_same by done. split; [done|].
    simpl. rewrite !app_nil_r. split_and!; [done..|]. by destruct b. }
  apply scoped_cons in Hs as [Ha Hs]. apply Forall_app in Ha as [Ha Hkw].
  destruct (eval_args_ok ns _ Ha) as (args & Hargs & Hra), (eval_kwargs_ok ns _ Hkw) as (kw & Hkws & Hrk).
  assert (parents args kw = omap (arg_ref ns) (all_args c)) as Hpar.
  { unfold parents, all_args. by rewrite omap_app, Hra, Hrk. }
  simpl. unfold bind at 1 2 3, of_outcome. unfold refs. rewrite Hargs, Hkws.
  rewrite (task_call_recording _ _ _ n b) by done. rewrite Hpar.
  change (td_name (st_task c)) with (stmt_name c).
  destruct (dhas (b_nodes b) (stmt_name c)) eqn:Hd.
  - eexists _, b. rewrite with_builder_same by done. split; [done|]. simpl. split; [done|].
    apply names_dup. apply dhas_true in Hd. rewrite Hk in Hd. rewrite NoDup_app. set_solver.
  - apply dhas_false in Hd. rewrite Hk in Hd.
    set (b1 := record_call _ _ b).
    destruct (IH (ns ++ [stmt_name c]) b1 (with_builder n b1 s)) as (o & b' & Hrun & Hpost).
    + done.
    + by eapply with_builder_lookup.
    + unfold b1, record_call, dkeys. simpl. rewrite fmap_app. by f_equal.
    + apply NoDup_app. split_and!; [done| |apply NoDup_singleton]. set_solver.
    + rewrite length_app, Nat.add_1_r. done.
    + exists o, b'. unfold refs in Hrun. rewrite fmap_app in Hrun. simpl in Hrun. rewrite Hrun.
      rewrite with_builder_twice. split; [done|]. rewrite <-app_assoc in Hpost. destruct o; [|done].
      destruct Hpost as (? & ? & ->). split_and!; [done..|]. unfold b1. simpl.
      by rewrite <-!app_assoc.
Qed.

(** The edges recorded are the data dependencies. *)
Lemma edge_recorded p ns u v :
  scoped_from (length ns) p →
  edge (pairs (recorded ns p)) u v ↔
  ∃ k c i, p !! k = Some c ∧ stmt_name c = v ∧ Ref i ∈ all_args c ∧ (i < length ns + k)%nat ∧
           (ns ++ names p) !! i = Some u.
Proof.
  revert ns. induction p as [|c p IH]; intros ns Hs; simpl.
  { split; [by intros ?%not_elem_of_nil|]. by intros (k & c & i & ? & _). }
  apply scoped_cons in Hs as [Ha Hs].
  unfold edge, pairs in *. rewrite map_app, elem_of_app.
  rewrite (IH (ns ++ [stmt_name c])) by (by rewrite length_app, Nat.add_1_r).
  rewrite map_map, length_app; simpl. split.
  - intros [Hin|(k & c' & i & Hk & Hv & Hi & Hlt & Hu)].
    + apply list_elem_of_fmap in Hin as (u' & [= -> ->] & Hin).
      apply list_elem_of_omap in Hin as (a & Hin & Hu). destruct a as [i| |]; simplify_eq/=.
      pose proof (lookup_lt_Some _ _ _ Hu). exists 0%nat, c, i. split_and!; [done..|lia|].
      by apply lookup_app_l_Some.
    + exists (S k), c', i. split_and!; [done..|lia|]. by rewrite <-app_assoc in Hu.
  - intros ([|k] & c' & i & Hk & Hv & Hi & Hlt & Hu); simplify_eq/=.
    + left. apply list_elem_of_fmap. exists u. split; [done|]. apply list_elem_of_omap. exists (Ref i).
      split; [done|]. simpl. by rewrite lookup_app_l in Hu by lia.
    + right. exists k, c', i. split_and!; [done..|lia|]. by rewrite <-app_assoc.
Qed.

Lemma edge_depends p u v : well_scoped p → edge (pairs (recorded [] p)) u v ↔ depends p u v.
Proof.
  intros Hs. rewrite (edge_recorded p [] u v) by done. unfold depends. simpl.
  split; intros (k & c & i & Hk & Hv & Hi & H); exists k, c, i; split_and!; try done; try apply H.
  pose proof (Hs k c Hk) as Hb. rewrite Forall_forall in Hb. apply (Hb _ Hi).
Qed.

Lemma depends_order p u v :
  well_scoped p → depends p u v → ∃ i k, names p !! i = Some u ∧ names p !! k = Some v ∧ (i < k)%nat.
Proof.
  intros Hs (k & c & i & Hk & <- & Hi & Hu). exists i, k. split; [done|].
  unfold names. rewrite list_lookup_fmap, Hk. split; [done|].
  pose proof (Hs k c Hk) as Hb. rewrite Forall_forall in Hb. apply (Hb _ Hi).
Qed.

Lemma depends_acyclic p : well_scoped p → NoDup (names p) → acyclic (pairs (recorded [] p)).
Proof.
  intros Hs Hnd. apply (topo_acyclic _ (names p) Hnd).
  - intros l1 v l2 Hl u (i & k & Hi & Hk & Hlt)%edge_depends%depends_order; [|done..].
    assert (k = length l1) as ->.
    { eapply NoDup_lookup; [exact Hnd|done|]. rewrite Hl. by apply list_lookup_middle. }
    rewrite Hl, lookup_app_l in Hi by done. by eapply list_elem_of_lookup_2.
  - intros u v (i & k & Hi & Hk & Hlt)%edge_depends%depends_order; [|done..].
    by eapply list_elem_of_lookup_2.
Qed.

Lemma build_run b :
  NoDup (dkeys (b_nodes b)) → acyclic (pairs (b_edges b)) →
  (∀ u v, edge (pairs (b_edges b)) u v → u ∈ dkeys (b_nodes b) ∧ v ∈ dkeys (b_nodes b)) →
  build b = Ok {| wf_name := b_name b;
                  graph := {| nodes := b_nodes b; edges := b_edges b; graph_version := "1.0.0" |};
                  wf_version := "1.0.0"; wf_policy := b_policy b; wf_metadata := default_metadata |}.
Proof.
  intros Hnd Hac Hends. unfold build. pose proof (check_edges_spec (b_nodes b) (b_edges b)) as Hc.
  destruct (check_edges _ _) as [[]|x]; simpl.
  2:{ destruct Hc as (_ & u & v & He & Hn). apply Hends in He. tauto. }
  by destruct (validate_dag_run {| nodes := b_nodes b; edges := b_edges b; graph_version := "1.0.0" |})
    as [(_ & order & -> & _)|(Hn & _)]; [split; [done|]|simpl|].
Qed.

Lemma compile_workflow_run {A} name (func : SdkM A) s w :
  compile_workflow name func (s, w) =
  let n := length (sd_builders s) in
  let '(o, (s1, w1)) :=
    func ({| sd_builders := sd_builders s ++ [new_builder name]; sd_current := Some n |}, w) in
  (match o with
   | Ok _ => match sd_builders s1 !! n with
             | Some b => build b
             | None => Raise (AttributeError "dangling reference")
             end
   | Raise x => Raise x
   end, (with_current None s1, w1)).
Proof.
  unfold compile_workflow, open_builder, finally. run_step.
  destruct (func _) as [[a|x] [s1 w1]]; simpl; [|done]. by destruct (_ !! _).
Qed.

Definition recorded_graph (p : list stmt) : ExecutionGraph :=
  {| nodes := map entry_of_stmt p; edges := recorded [] p; graph_version := "1.0.0" |}.
Definition recorded_workflow (name : string) (p : list stmt) : WorkflowDefinition :=
  {| wf_name := name; graph := recorded_graph p; wf_version := "1.0.0";
     wf_policy := default_workflow_policy; wf_metadata := default_metadata |}.

Lemma dkeys_entries p : dkeys (map entry_of_stmt p) = names p.
Proof. unfold dkeys, names. rewrite <-list_fmap_compose. done. Qed.

Lemma build_recorded p name :
  well_scoped p → NoDup (names p) →
  build {| b_name := name; b_nodes := map entry_of_stmt p; b_edges := recorded [] p;
           b_policy := default_workflow_policy |} = Ok (recorded_workflow name p).
Proof.
  intros Hs Hnd. rewrite build_run; simpl; rewrite ?dkeys_entries; [done|done|by apply depends_acyclic|].
  intros u v (i & k & Hi & Hk & _)%edge_depends%depends_order; [|done..].
  by split; eapply list_elem_of_lookup_2.
Qed.

(** Tracing a function from the start, with a builder of its own. *)
Lemma trace_run p name bs w :
  well_scoped p →
  let s0 := {| sd_builders := bs ++ [new_builder name]; sd_current := Some (length bs) |} in
  ∃ o b', run_body p [] (s0, w) = (o, ({| sd_builders := bs ++ [b']; sd_current := Some (length bs) |}, w)) ∧
  match o with
  | Ok vs => vs = refs (names p) ∧ NoDup (names p) ∧ build b' = Ok (recorded_workflow name p)
  | Raise x => isinstance x "ValueError" = true ∧ ¬ NoDup (names p)
  end.
Proof.
  intros Hs s0.
  destruct (run_body_recording p [] (length bs) (new_builder name) s0 w) as (o & b' & Hrun & Hpost);
    [done|by apply list_lookup_middle|done|apply NoDup_nil_2|done|].
  exists o, b'. simpl in Hrun. unfold refs in Hrun. simpl in Hrun. rewrite Hrun. split.
  - unfold with_builder. simpl. rewrite insert_app_r_alt, Nat.sub_diag by lia. done.
  - destruct o; [|done]. destruct Hpost as (-> & ? & ->). simpl. split_and!; [done..|].
    by apply build_recorded.
Qed.

(** C25: Tracing a straight-line workflow function runs none of its tasks.  When no
    task is called twice it yields one node per call, in order, with the
    decorator's options, and an edge from [u] to [v] just when the result of [u]
    is itself an argument of [v] (inside a list it is not noticed); the graph is
    acyclic.  When a task is called twice it raises a [ValueError].  In both
    cases nothing is being traced afterwards. *)
Theorem sdk_records_the_graph name p s w :
  well_scoped p →
  ∃ o s', compile_workflow name (run_body p []) (s, w) = (o, (s', w)) ∧ sd_current s' = None ∧
  match o with
  | Ok d => NoDup (names p) ∧ wf_name d = name ∧
            nodes (graph d) = map (λ c, (stmt_name c, node_of c)) p ∧
            (∀ u v, edge (pairs (edges (graph d))) u v ↔ depends p u v) ∧ acyclic (pairs (edges (graph d)))
  | Raise x => isinstance x "ValueError" = true ∧ ¬ NoDup (names p)
  end.
Proof.
  intros Hs. rewrite compile_workflow_run. simpl.
  destruct (trace_run p name (sd_builders s) w Hs) as (o & b' & -> & Hpost). simpl.
  destruct o as [vs|x]; [|by eexists _, _].
  destruct Hpost as (_ & Hnd & Hb). rewrite list_lookup_middle, Hb by done.
  eexists _, _. split; [done|]. split; [done|]. split_and!; [done..| |by apply depends_acyclic].
  intros u v. by apply edge_depends.
Qed.

(** ** A workflow inside a workflow *)

(** The tasks' functions use no decorated workflow themselves. *)
Definition quiet (p : list stmt) : Prop :=
  ∀ c, c ∈ p → ∀ args kw s w, (td_func (st_task c) args kw (s, w)).2.1 = s.

Lemma run_body_direct p vars s w :
  quiet p → sd_current s = None → (run_body p vars (s, w)).2.1 = s.
Proof.
  revert vars w. induction p as [|c p IH]; intros vars w Hq Hc; [done|]. simpl.
  unfold bind, of_outcome. destruct (omapM _ (st_args c)) as [args|]; [|done].
  destruct (omapM _ (st_kwargs c)) as [kw|]; [|done].
  assert (task_call (st_task c) args kw (s, w) = td_func (st_task c) args kw (s, w)) as ->.
  { unfold task_call, bind, zoom, gets. simpl. by rewrite Hc. }
  pose proof (Hq c ltac:(by left) args kw s w) as Hf.
  destruct (td_func _ _ _ _) as [[v|x] [s1 w1]]; simpl in *; subst; [|done].
  apply IH; [|done]. intros d Hd. apply Hq. by right.
Qed.

(** Compiling a workflow inside the function of another one ends the tracing of
    the outer one: the calls before it are recorded, the tasks called after it
    are really run, with references for arguments, and their results and nodes
    are missing from the definition. *)
Theorem nested_workflow_stops_recording name1 name2 pre inner post s w :
  well_scoped pre → NoDup (names pre) → well_scoped inner → NoDup (names inner) → quiet post →
  let outer := vars <- run_body pre [] ;;
               _ <- compile_workflow name2 (run_body inner []) ;;
               run_body post vars in
  ∃ s1 s2, sd_current s1 = None ∧
    compile_workflow name1 outer (s, w) =
      (omap_ok (λ _, recorded_workflow name1 pre) (run_body post (TaskReference <$> names pre) (s1, w)).1,
       (s2, (run_body post (TaskReference <$> names pre) (s1, w)).2.2)).
Proof.
  intros Hpre Hndp Hin Hndi Hq outer. rewrite compile_workflow_run. simpl. unfold outer.
  destruct (trace_run pre name1 (sd_builders s) w Hpre) as (o & b1 & Hrun & Hpost).
  unfold bind at 1. rewrite Hrun. destruct o as [vs|x]; [|by destruct Hpost].
  destruct Hpost as (-> & _ & Hb1). unfold bind at 1. rewrite compile_workflow_run. simpl.
  destruct (trace_run inner name2 (sd_builders s ++ [b1]) w Hin) as (o & b2 & Hrun2 & Hpost2).
  rewrite Hrun2. simpl. destruct o as [vs|x]; [|by destruct Hpost2].
  destruct Hpost2 as (_ & _ & Hb2). rewrite list_lookup_middle, Hb2 by done.
  set (s1 := with_current None _). exists s1. unfold refs.
  pose proof (run_body_direct post (TaskReference <$> names pre) s1 w Hq eq_refl) as Hs1.
  destruct (run_body post _ (s1, w)) as [o [s2 w2]]. simpl in *. subst s2.
  eexists. split; [done|]. destruct o; simpl; [|done].
  rewrite <-app_assoc. simpl. by rewrite list_lookup_middle, Hb1.
Qed.
End sdk.

(** * Examples: a world that lists the tasks which really ran *)
Section examples.
Definition logging_task (name : string) : TaskDecl (W := list string) := {|
  td_name := name; td_func := λ _ _ s, (Ok (Value (VStr name)), (s.1, s.2 ++ [name]));
  td_executor_type := "python"; td_policy := None; td_capabilities := None;
  td_is_checkpoint := false; td_is_approval := false |}.
Definition step (name : string) (args : list arg) (kw : odict arg) : stmt (W := list string) :=
  {| st_task := logging_task name; st_args := args; st_kwargs := kw |}.
(** [raw = load(); data = clean(raw); model = train(data, 3, base=raw);
    report([model])] *)
Definition pipeline : list (stmt (W := list string)) :=
  [step "load" [] []; step "clean" [Ref 0] []; step "train" [Ref 1; Lit (VInt 3)] [("base", Ref 0)];
   step "report" [Pack [Ref 2]] []].
Definition no_sdk : Sdk := {| sd_builders := []; sd_current := None |}.

Lemma pipeline_scoped : well_scoped pipeline.
Proof.
  intros k c Hk. destruct k as [|[|[|[|k]]]]; simplify_eq/=;
    unfold all_args; simpl; repeat constructor; lia.
Qed.

Lemma sdk_records_the_graph_witness :
  ∃ d s', compile_workflow "w" (run_body pipeline []) (no_sdk, []) = (Ok d, (s', [])) ∧
    edge (pairs (edges (graph d))) "load" "train" ∧ ¬ edge (pairs (edges (graph d))) "train" "report".
Proof.
  destruct (sdk_records_the_graph "w" pipeline no_sdk [] pipeline_scoped) as (o & s' & Hrun & _ & Hpost).
  destruct o as [d|x].
  - exists d, s'. split; [exact Hrun|]. destruct Hpost as (_ & _ & _ & Hedges & _). rewrite !Hedges. split.
    + exists 2%nat, (step "train" [Ref 1; Lit (VInt 3)] [("base", Ref 0)]), 0%nat.
      split_and!; [reflexivity|reflexivity| |reflexivity]. unfold all_args. simpl. set_solver.
    + intros (k & c & i & Hk & Hn & Hin & Hi).
      destruct k as [|[|[|[|k]]]]; simplify_eq/=.
      unfold all_args in Hin. simpl in Hin. set_solver.
  - exfalso. destruct Hpost as [_ Hn]. apply Hn. apply (bool_decide_unpack _); vm_compute; exact I.
Defined.

Lemma nested_workflow_stops_recording_witness :
  let outer := vars <- run_body [step "load" [] []] [] ;;
               _ <- compile_workflow "inner" (run_body [step "a" [] []] []) ;;
               run_body [step "clean" [Ref 0] []] vars in
  ∃ s2, compile_workflow "outer" outer (no_sdk, []) =
          (Ok (recorded_workflow "outer" [step "load" [] []]), (s2, ["clean"])).
Proof.
  assert (Hs : ∀ n, well_scoped [step n [] []]).
  { intros n [|k] c Hk; simplify_eq/=. constructor. }
  assert (Hnd : ∀ n, NoDup (names [step n [] []])) by (intros n; apply NoDup_singleton).
  assert (Hq : quiet [step "clean" [Ref 0] []]).
  { intros c ->%list_elem_of_singleton args kw s w. reflexivity. }
  destruct (nested_workflow_stops_recording "outer" "inner" _ _ _ no_sdk []
    (Hs "load") (Hnd "load") (Hs "a") (Hnd "a") Hq) as (s1 & s2 & Hc & Hrun).
  exists s2. destruct s1 as [bs c]. simpl in Hc. subst c. exact Hrun.
Defined.
End examples.
