(* ===== verification/Planner.v ===== *)
(** [workflow/planner.py]: execution levels, parallel phases and the critical
    path of a workflow graph. *)
From S2P Require Import Prelude PyNum Values Decode Events WorkflowModels Dag Builder.
Open Scope Z_scope.

(** * Levels *)

(** [levels[v] = max(levels[v], levels[u] + 1)], the in-degree and the queue *)
Fixpoint relax_levels (u : string) (vs : list string) (deg levels : odict Z) (queue : list string) :
    outcome (odict Z * odict Z * list string) :=
  match vs with
  | [] => Ok (deg, levels, queue)
  | v :: vs' =>
      match dget levels v, dget levels u with
      | Some lv, Some lu =>
          let levels' := dset levels v (Z.max lv (lu + 1)) in
          match dget deg v with
          | None => Raise (KeyError v)
          | Some n => relax_levels u vs' (dset deg v (n - 1)) levels'
                                   (if n - 1 =? 0 then queue ++ [v] else queue)
          end
      | None, _ => Raise (KeyError v)
      | _, None => Raise (KeyError u)
      end
  end.

Fixpoint levels_loop (fuel : nat) (adj : odict (list string)) (deg levels : odict Z)
    (queue : list string) : outcome (odict Z) :=
  match queue, fuel with
  | [], _ => Ok levels
  | _, O => Ok levels
  | u :: queue', S fuel' =>
      match dget adj u with
      | None => Raise (KeyError u)
      | Some vs => obind (relax_levels u vs deg levels queue') (λ '(deg', levels', queue''),
          levels_loop fuel' adj deg' levels' queue'')
      end
  end.

(** [_resolve_levels] *)
Definition resolve_levels (g : ExecutionGraph) : outcome (odict Z) :=
  obind (build_degrees (dkeys (nodes g)) (edges g)) (λ '(adj, deg),
    levels_loop (length (nodes g)) adj deg (map (λ n, (n, 0)) (dkeys (nodes g))) (roots deg)).

(** * Critical path *)

(** [max(levels.values())] of a non-empty dictionary *)
Definition max_level (levels : odict Z) : Z := foldl Z.max 0 (dvals levels).

(** [parents[edge.to_node_id].append(edge.from_node_id)] *)
Definition add_parent (acc : outcome (odict (list string))) (e : GraphEdge) :
    outcome (odict (list string)) :=
  let? parents := acc in
  match dget parents (to_node_id e) with
  | None => Raise (KeyError (to_node_id e))
  | Some l => Ok (dset parents (to_node_id e) (l ++ [from_node_id e]))
  end.
Definition build_parents (ns : list string) (es : list GraphEdge) : outcome (odict (list string)) :=
  foldl add_parent (Ok (map (λ n, (n, [])) ns)) es.

(** [max(ps, key=lambda p: levels[p])]: the first parent of the highest level *)
Fixpoint best_parent (levels : odict Z) (best : string * Z) (ps : list string) : outcome string :=
  match ps with
  | [] => Ok best.1
  | p :: ps' =>
      match dget levels p with
      | None => Raise (KeyError p)
      | Some l => best_parent levels (if best.2 <? l then (p, l) else best) ps'
      end
  end.

(** The walk back from [current]; [None] when the fuel runs out, which it never
    does on an acyclic graph ([plan_critical_path]) and always does on a cycle
    of parents ([plan_diverges]). *)
Fixpoint crit_loop (fuel : nat) (parents : odict (list string)) (levels : odict Z) (current : string) :
    option (outcome (list string)) :=
  if str_truthy current then
    match fuel with
    | O => None
    | S fuel' =>
        match default [] (dget parents current) with
        | [] => Some (Ok [current])
        | p :: ps =>
            match dget levels p with
            | None => Some (Raise (KeyError p))
            | Some l =>
                match best_parent levels (p, l) ps with
                | Raise x => Some (Raise x)
                | Ok b =>
                    match crit_loop fuel' parents levels b with
                    | Some (Ok path) => Some (Ok (current :: path))
                    | r => r
                    end
                end
            end
        end
    end
  else Some (Ok []).

(** [_calculate_critical_path] *)
Definition calculate_critical_path (fuel : nat) (g : ExecutionGraph) (levels : odict Z) :
    option (outcome (list string)) :=
  match dkeys (filter (λ x, x.2 = max_level levels) levels) with
  | [] => Some (Ok [])
  | current :: _ =>
      match build_parents (dkeys (nodes g)) (edges g) with
      | Raise x => Some (Raise x)
      | Ok parents =>
          match crit_loop fuel parents levels current with
          | Some (Ok path) => Some (Ok (reverse path))
          | r => r
          end
      end
  end.

(** [plan] *)
Definition plan_phases (levels : odict Z) : list ExecutionPhase :=
  map (λ i, {| node_ids := dkeys (filter (λ x, x.2 = Z.of_nat i) levels); phase_index := Z.of_nat i |})
      (seq 0 (Z.to_nat (max_level levels + 1))).
Definition plan (fuel : nat) (d : WorkflowDefinition) : option (outcome ExecutionPlan) :=
  match nodes (graph d) with
  | [] => Some (Ok {| phases := []; critical_path := []; plan_version := "1.0.0" |})
  | _ =>
      match resolve_levels (graph d) with
      | Raise x => Some (Raise x)
      | Ok levels =>
          match calculate_critical_path fuel (graph d) levels with
          | Some (Ok cp) =>
              Some (Ok {| phases := plan_phases levels; critical_path := cp; plan_version := "1.0.0" |})
          | Some (Raise x) => Some (Raise x)
          | None => None
          end
      end
  end.

(** * Correctness of the levels *)
Definition lev (levels : odict Z) (v : string) : Z := default 0 (dget levels v).

Lemma lev_dset levels k x v : lev (dset levels k x) v = if decide (k = v) then x else lev levels v.
Proof. unfold lev. rewrite dget_dset. by case_decide. Qed.

(** A list of nodes joined by edges. *)
Definition walk (E : list (string * string)) (l : list string) : Prop :=
  ∀ i u v, l !! i = Some u → l !! S i = Some v → edge E u v.

Section levels.
Context (V : list string) (es : list GraphEdge).
Abbreviation E := (pairs es).
Hypothesis Hok : graph_ok V es.

(** The loop on levels follows the loop of Kahn's algorithm. *)
Definition raise_levels (u : string) (vs : list string) (levels : odict Z) : odict Z :=
  foldl (λ lv v, dset lv v (Z.max (lev lv v) (lev lv u + 1))) levels vs.

Lemma relax_levels_split u vs deg levels queue :
  u ∈ dkeys levels → (∀ v, v ∈ vs → v ∈ dkeys levels) →
  relax_levels u vs deg levels queue =
    obind (relax vs deg queue) (λ '(deg', queue'), Ok (deg', raise_levels u vs levels, queue')).
Proof.
  revert deg levels queue. induction vs as [|v vs IH]; intros deg levels queue Hu Hvs; [done|].
  assert (Hv : v ∈ dkeys levels) by (apply Hvs; by left). simpl.
  pose proof (proj2 (dget_is_Some levels v) Hv) as [lv Elv].
  pose proof (proj2 (dget_is_Some levels u) Hu) as [lu Elu].
  unfold lev. rewrite Elv, Elu; simpl. destruct (dget deg v); [|done].
  rewrite IH; [done|by apply elem_of_dkeys_dset; right|].
  intros w Hw. apply elem_of_dkeys_dset. right. apply Hvs. by right.
Qed.

Lemma raise_levels_spec u vs levels :
  u ∉ vs →
  (∀ v, lev (raise_levels u vs levels) v =
    if decide (v ∈ vs) then Z.max (lev levels v) (lev levels u + 1) else lev levels v).
Proof.
  intros Hu. unfold raise_levels. revert levels Hu. induction vs as [|w vs IH]; intros levels Hu v; simpl.
  - done.
  - rewrite IH by set_solver. rewrite !lev_dset, (decide_False (P:=w = u)) by set_solver.
    destruct (decide (w = v)) as [->|Hne].
    + rewrite (decide_True (P:=v ∈ v :: vs)) by by left. case_decide; lia.
    + destruct (decide (v ∈ vs)).
      * by rewrite decide_True by by right.
      * by rewrite decide_False by set_solver.
Qed.

Lemma raise_levels_keys u vs levels :
  (∀ v, v ∈ vs → v ∈ dkeys levels) → dkeys (raise_levels u vs levels) = dkeys levels.
Proof.
  unfold raise_levels. revert levels. induction vs as [|w vs IH]; intros levels Hvs; simpl; [done|].
  rewrite IH; rewrite dkeys_dset_in by (apply Hvs; by left); [done|].
  intros v Hv. apply Hvs. by right.
Qed.

(** Levels seen from the nodes output so far. *)
Definition levels_inv (levels : odict Z) (order : list string) : Prop :=
  dkeys levels = V ∧ (∀ v, 0 ≤ lev levels v) ∧
  (∀ u v, edge E u v → u ∈ order → lev levels u + 1 ≤ lev levels v) ∧
  (∀ v, lev levels v = 0 ∨ ∃ u, u ∈ order ∧ edge E u v ∧ lev levels v = lev levels u + 1).

Lemma levels_step levels u queue deg order :
  levels_inv levels order → kahn_inv V es deg (u :: queue) order → topo E order →
  levels_inv (raise_levels u (targets E u) levels) (order ++ [u]).
Proof.
  intros (Hk & Hpos & Hle & Hex) (Hnd & Hin & _ & Hz) Ht.
  assert (Hdone : ∀ v, v ∈ order ++ u :: queue → ¬ edge E u v).
  { intros v Hv He. specialize (Hz v (Hin v Hv)). apply Hz in Hv as Hv0.
    assert (Hi : indeg E order v = 0%nat) by lia. rewrite indeg_0 in Hi. specialize (Hi u He).
    apply NoDup_app in Hnd as (_ & Hd & _). apply (Hd u Hi). by left. }
  assert (Hself : u ∉ targets E u) by (rewrite elem_of_targets; apply Hdone; set_solver).
  assert (Hlev : ∀ v, lev (raise_levels u (targets E u) levels) v =
    if decide (edge E u v) then Z.max (lev levels v) (lev levels u + 1) else lev levels v).
  { intros v. rewrite raise_levels_spec by done.
    destruct (decide (v ∈ targets E u)) as [Hv|Hv]; rewrite elem_of_targets in Hv;
      [by rewrite decide_True|by rewrite decide_False]. }
  assert (Hold : ∀ w, w ∈ order ++ [u] → lev (raise_levels u (targets E u) levels) w = lev levels w).
  { intros w Hw. rewrite Hlev, decide_False; [done|]. apply Hdone. set_solver. }
  split; [|split; [|split]].
  - rewrite raise_levels_keys; [done|]. intros v Hv%elem_of_targets. rewrite Hk. by apply Hok in Hv as [_ ?].
  - intros v. rewrite Hlev. specialize (Hpos v). case_decide; lia.
  - intros w v He Hw. rewrite Hold by done. rewrite Hlev.
    apply elem_of_app in Hw as [Hw| ->%list_elem_of_singleton].
    + specialize (Hle w v He Hw). case_decide; lia.
    + rewrite decide_True by done. lia.
  - intros v. rewrite Hlev. case_decide as He.
    + destruct (Z.max_spec (lev levels v) (lev levels u + 1)) as [[_ ->]|[_ ->]].
      * right. exists u. rewrite Hold by set_solver. split_and!; [set_solver|done|done].
      * destruct (Hex v) as [?|(w & Hw & Hew & ?)]; [by left|right].
        exists w. rewrite Hold by set_solver. split_and!; [set_solver|done|done].
    + destruct (Hex v) as [?|(w & Hw & Hew & ?)]; [by left|right].
      exists w. rewrite Hold by set_solver. split_and!; [set_solver|done|done].
Qed.

Lemma levels_loop_spec fuel adj deg levels queue order :
  adj_ok V es adj → kahn_inv V es deg queue order → topo E order → levels_inv levels order →
  (length V ≤ fuel + length order)%nat →
  ∃ levels' order' deg', levels_loop fuel adj deg levels queue = Ok levels' ∧
    kahn_inv V es deg' [] order' ∧ topo E order' ∧ levels_inv levels' order'.
Proof.
  intros Hadj. revert deg levels queue order.
  induction fuel as [|fuel IH]; intros deg levels queue order Hinv Ht Hl Hf.
  - destruct queue as [|u queue]; [by eexists _, _, _|]. exfalso.
    destruct Hinv as (Hnd & Hin & _).
    assert (length (order ++ u :: queue) ≤ length V)%nat as Hlen.
    { apply submseteq_length, NoDup_submseteq; [done|]. intros v. apply Hin. }
    rewrite length_app in Hlen; simpl in *. lia.
  - destruct queue as [|u queue]; [by eexists _, _, _|]. cbn [levels_loop].
    destruct (kahn_step V es Hok deg u queue order adj Hadj Hinv Ht) as (deg' & queue' & -> & Hr & Hinv' & Ht').
    pose proof (levels_step levels u queue deg order Hl Hinv Ht) as Hl'.
    destruct Hl as (Hk & _). destruct Hinv as (_ & Hin & _).
    rewrite relax_levels_split, Hr.
    + simpl. apply (IH _ _ _ (order ++ [u])); [done..|]. rewrite length_app; simpl. lia.
    + rewrite Hk. apply Hin. set_solver.
    + intros v Hv%elem_of_targets. rewrite Hk. by apply Hok in Hv as [_ ?].
Qed.
End levels.

(** ** Walks and levels *)
Lemma walk_snoc E l b v : walk E l → last l = Some b → edge E b v → walk E (l ++ [v]).
Proof.
  intros Hw Hb He i x y Hx Hy.
  apply lookup_snoc_Some in Hy as [[Hi Hy]|[Hi <-]].
  - rewrite lookup_app_l in Hx by lia. by eapply Hw.
  - rewrite last_lookup in Hb. rewrite <-Hi in Hb. simpl in Hb.
    rewrite lookup_app_l in Hx by lia. congruence.
Qed.

(** What the levels of an acyclic graph satisfy: one more than the highest
    predecessor, zero without predecessor. *)
Record levels_ok (V : list string) (E : list (string * string)) (levels : odict Z) : Prop := {
  lv_keys : dkeys levels = V;
  lv_pos : ∀ v, 0 ≤ lev levels v;
  lv_edge : ∀ u v, edge E u v → lev levels u + 1 ≤ lev levels v;
  lv_pred : ∀ v, lev levels v = 0 ∨ ∃ u, edge E u v ∧ lev levels v = lev levels u + 1
}.

Lemma resolve_levels_ok g :
  graph_ok (dkeys (nodes g)) (edges g) → acyclic (pairs (edges g)) →
  ∃ levels, resolve_levels g = Ok levels ∧ levels_ok (dkeys (nodes g)) (pairs (edges g)) levels.
Proof.
  intros Hok Hac. unfold resolve_levels.
  destruct (build_degrees_spec _ _ Hok) as (adj & deg & -> & Hadj & Hk & Hd). simpl.
  set (V := dkeys (nodes g)) in *.
  assert (Hlen : length (nodes g) = length V) by (unfold V, dkeys; by rewrite length_fmap).
  destruct (levels_loop_spec _ _ Hok (length (nodes g)) adj deg (map (λ n, (n, 0)) V) (roots deg) []
    Hadj (kahn_start _ _ _ Hok Hk Hd) (topo_nil _)) as (levels & order & deg' & -> & Hinv & Ht & Hl);
    [|simpl; lia|].
  - split; [|split; [|split]].
    + unfold dkeys. clear. induction V; csimpl; congruence.
    + intros v. unfold lev. rewrite dget_map_const. by case_decide.
    + intros u v _ Hu. by apply not_elem_of_nil in Hu.
    + intros v. left. unfold lev. rewrite dget_map_const. by case_decide.
  - exists levels. split; [done|]. destruct Hl as (Hkeys & Hpos & Hle & Hex).
    destruct (kahn_end _ _ _ _ Hok Hinv Ht) as [Hiff Hperm]. apply Hiff, Hperm in Hac.
    constructor; [done|done| |].
    + intros u v He. apply Hle; [done|]. rewrite Hac. by apply Hok in He as [? _].
    + intros v. destruct (Hex v) as [?|(u & _ & ? & ?)]; eauto.
Qed.

Section walks.
Context (V : list string) (E : list (string * string)) (levels : odict Z).
Hypothesis Hl : levels_ok V E levels.

Lemma walk_levels l i j u v :
  walk E l → (i ≤ j)%nat → l !! i = Some u → l !! j = Some v →
  lev levels u + Z.of_nat (j - i) ≤ lev levels v.
Proof.
  intros Hw Hij. revert v. induction Hij as [|j Hij IH]; intros v Hu Hv.
  - rewrite Nat.sub_diag. simplify_eq. lia.
  - destruct (lookup_lt_is_Some_2 l j) as [w Hw']; [apply lookup_lt_Some in Hv; lia|].
    specialize (IH w Hu Hw'). pose proof (lv_edge _ _ _ Hl w v (Hw j w v Hw' Hv)). lia.
Qed.

(** A walk is no longer than the level of its last node allows, and repeats no node. *)
Lemma walk_length l v : walk E l → last l = Some v → Z.of_nat (length l) ≤ lev levels v + 1.
Proof.
  intros Hw Hv. rewrite last_lookup in Hv. destruct l as [|u l]; [done|]. simpl in Hv.
  pose proof (walk_levels (u :: l) 0 (length l) u v Hw ltac:(lia) eq_refl Hv).
  pose proof (lv_pos _ _ _ Hl u). simpl. lia.
Qed.

Lemma walk_NoDup l : walk E l → NoDup l.
Proof.
  intros Hw. apply NoDup_alt. intros i j v Hi Hj.
  destruct (decide (i ≤ j)%nat).
  - pose proof (walk_levels l i j v v Hw ltac:(lia) Hi Hj). lia.
  - pose proof (walk_levels l j i v v Hw ltac:(lia) Hj Hi). lia.
Qed.

Lemma foldl_max l a : foldl Z.max a l = Z.max a (foldl Z.max 0 l) ∨ a < 0.
Proof.
  destruct (decide (a < 0)); [by right|left]. revert a n. induction l as [|x l IH]; intros a Ha; simpl; [lia|].
  destruct (decide (x < 0)) as [Hx|Hx].
  - rewrite (Z.max_l a x), (Z.max_l 0 x) by lia. by apply IH.
  - rewrite (IH (Z.max a x)) by lia. rewrite (IH (Z.max 0 x)) by lia. lia.
Qed.

Lemma max_level_ge v : v ∈ V → lev levels v ≤ max_level levels.
Proof.
  rewrite <-(lv_keys _ _ _ Hl). unfold max_level, lev. clear Hl.
  induction levels as [|[k x] ls IH]; csimpl; [by intros ?%not_elem_of_nil|].
  unfold dkeys in *; csimpl. rewrite elem_of_cons. unfold dvals in *. csimpl.
  destruct (foldl_max (ls.*2) (Z.max 0 x)) as [->|?]; [|lia].
  case_decide; simpl; [lia|]. intros [?|Hv]; [done|]. specialize (IH Hv). lia.
Qed.

Lemma foldl_max_elem l : foldl Z.max 0 l = 0 ∨ foldl Z.max 0 l ∈ l.
Proof.
  induction l as [|x l IH]; simpl; [by left|].
  destruct (foldl_max l (Z.max 0 x)) as [->|?]; [|lia].
  destruct (Z.max_spec (Z.max 0 x) (foldl Z.max 0 l)) as [[_ ->]|[_ ->]].
  - destruct IH as [?|?]; [by left|]. right. by right.
  - destruct (Z.max_spec 0 x) as [[_ ->]|[_ ->]]; [right; by left|by left].
Qed.

Lemma max_level_attained : NoDup V → V ≠ [] → ∃ v, v ∈ V ∧ lev levels v = max_level levels.
Proof.
  intros Hnd Hne. destruct (foldl_max_elem (dvals levels)) as [H0|Hin].
  - destruct (head V) as [v|] eqn:HV; [|by apply head_None in HV].
    apply head_Some_elem_of in HV. exists v. split; [done|].
    pose proof (max_level_ge v HV). pose proof (lv_pos _ _ _ Hl v).
    unfold max_level in *. lia.
  - apply list_elem_of_fmap in Hin as ([k m] & Hm & Hin). simpl in Hm.
    assert (Hk : k ∈ V).
    { rewrite <-(lv_keys _ _ _ Hl). apply list_elem_of_fmap. by exists (k, m). }
    exists k. split; [done|]. apply dget_elem in Hin.
    + unfold lev, max_level. by rewrite Hin, Hm.
    + unfold dwf. by rewrite (lv_keys _ _ _ Hl).
Qed.
End walks.

(** ** The critical path *)
Lemma build_parents_spec V es : graph_ok V es →
  ∃ parents, build_parents V es = Ok parents ∧
    ∀ v, v ∈ V → dget parents v = Some (sources (pairs es) v).
Proof.
  intros [_ Hends]. induction es as [|e es IH] using rev_ind.
  - eexists. split; [done|]. intros u Hu. by rewrite dget_map_const, decide_True.
  - unfold pairs in Hends. rewrite map_app in Hends. cbn [map] in Hends.
    destruct IH as (parents & Hb & Hp).
    { intros u v He. apply Hends. unfold edge. apply elem_of_app. by left. }
    destruct (Hends (from_node_id e) (to_node_id e)) as [Hf Ht].
    { unfold edge. apply elem_of_app. right. by left. }
    unfold build_parents in *. rewrite foldl_app, Hb. simpl. rewrite (Hp _ Ht).
    eexists. split; [done|]. intros v Hv. unfold pairs. rewrite map_app. cbn [map].
    unfold sources. rewrite filter_app, fmap_app, filter_cons, dget_dset. cbn [snd].
    case_decide; [by subst|]. csimpl. rewrite app_nil_r. by apply Hp.
Qed.

Lemma best_parent_spec levels best l ps :
  lev levels best = l → Forall (λ p, p ∈ dkeys levels) (best :: ps) →
  ∃ b, best_parent levels (best, l) ps = Ok b ∧ b ∈ best :: ps ∧
    ∀ p, p ∈ best :: ps → lev levels p ≤ lev levels b.
Proof.
  revert best l. induction ps as [|p ps IH]; intros best l Hl Hin; simpl.
  - exists best. split_and!; [done|by left|]. intros p ->%list_elem_of_singleton. lia.
  - apply Forall_cons in Hin as [Hb Hin]. apply Forall_cons in Hin as [Hp Hin].
    pose proof (proj2 (dget_is_Some levels p) Hp) as [lp Elp]. rewrite Elp.
    assert (Hlp : lev levels p = lp) by (unfold lev; by rewrite Elp).
    destruct (Z.ltb_spec l lp).
    + destruct (IH p lp Hlp) as (b & Hr & Hin' & Hmax); [by constructor|].
      exists b. split; [done|]. split; [set_solver|]. intros q.
      rewrite elem_of_cons. intros [->|Hq]; [|by apply Hmax].
      etrans; [|apply (Hmax p); by left]. lia.
    + destruct (IH best l Hl) as (b & Hr & Hin' & Hmax); [by constructor|].
      exists b. split; [done|]. split; [set_solver|]. intros q.
      rewrite !elem_of_cons. intros [->|[->|Hq]].
      * apply Hmax. by left.
      * etrans; [|apply (Hmax best); by left]. lia.
      * apply Hmax. by right.
Qed.

Section critical.
Context (V : list string) (es : list GraphEdge) (levels : odict Z) (parents : odict (list string)).
Abbreviation E := (pairs es).
Hypothesis Hok : graph_ok V es.
Hypothesis Hl : levels_ok V E levels.
Hypothesis Hne : "" ∉ V.
Hypothesis Hpar : ∀ v, v ∈ V → dget parents v = Some (sources E v).

(** The walk back from a node climbs down one level at a time. *)
Lemma crit_loop_spec n fuel v :
  v ∈ V → lev levels v = Z.of_nat n → (n < fuel)%nat →
  ∃ path, crit_loop fuel parents levels v = Some (Ok path) ∧ head path = Some v ∧
    walk E (reverse path) ∧ length path = S n ∧ Forall (λ u, u ∈ V) path.
Proof.
  revert fuel v. induction n as [|n IH]; intros [|fuel] v Hv Hlev Hf; try lia; cbn [crit_loop];
    unfold str_truthy; rewrite (proj2 (String.eqb_neq v "")) by (by intros ->); cbn [negb];
    rewrite (Hpar v Hv); cbn [default from_option id].
  - destruct (sources E v) as [|p ps] eqn:Hs.
    + exists [v]. split_and!; [done..| |done|by repeat constructor].
      intros i a b Ha Hb. destruct i; simpl in Hb; done.
    + assert (He : edge E p v) by (rewrite <-elem_of_sources, Hs; by left).
      pose proof (lv_edge _ _ _ Hl p v He). pose proof (lv_pos _ _ _ Hl p). lia.
  - destruct (lv_pred _ _ _ Hl v) as [?|(u & Heu & Hlu)]; [lia|].
    pose proof (proj2 (elem_of_sources E u v) Heu) as Hu.
    destruct (sources E v) as [|p ps] eqn:Hs; [by apply not_elem_of_nil in Hu|].
    assert (Hin : ∀ q, q ∈ p :: ps → edge E q v ∧ q ∈ V).
    { intros q Hq. rewrite <-Hs in Hq. apply elem_of_sources in Hq as Hq'. split; [done|].
      by apply Hok in Hq' as [? _]. }
    assert (Hkeys : Forall (λ q, q ∈ dkeys levels) (p :: ps)).
    { apply Forall_forall. intros q Hq. rewrite (lv_keys _ _ _ Hl). by apply Hin. }
    pose proof (Forall_inv Hkeys) as Hp. apply dget_is_Some in Hp as [lp Elp]. rewrite Elp.
    destruct (best_parent_spec levels p lp ps) as (b & -> & Hb & Hmax);
      [unfold lev; by rewrite Elp|done|].
    destruct (Hin b Hb) as [Heb HbV]. specialize (Hmax u Hu).
    pose proof (lv_edge _ _ _ Hl b v Heb).
    destruct (IH fuel b HbV) as (path & -> & Hhd & Hw & Hlen & Hall); [lia|lia|].
    exists (v :: path). split_and!; [done..| |simpl; lia|by constructor].
    rewrite reverse_cons. apply (walk_snoc _ _ b); [done| |done].
    by rewrite last_reverse.
Qed.

Lemma crit_loop_mono fuel fuel' v o :
  crit_loop fuel parents levels v = Some o → (fuel ≤ fuel')%nat →
  crit_loop fuel' parents levels v = Some o.
Proof.
  revert fuel' v o. induction fuel as [|fuel IH]; intros [|fuel'] v o Hr Hf; try lia; [done| |];
    cbn [crit_loop] in *; destruct (str_truthy v); try done.
  destruct (default [] (dget parents v)) as [|p ps]; [done|]. destruct (dget levels p) as [lp|]; [|done].
  destruct (best_parent levels (p, lp) ps) as [b|]; [|done].
  destruct (crit_loop fuel parents levels b) as [o'|] eqn:E'; [|done].
  by rewrite (IH fuel' b o' E') by lia.
Qed.

(** The number of nodes bounds the levels, hence is enough fuel. *)
Lemma level_lt v : v ∈ V → lev levels v < Z.of_nat (length V).
Proof.
  intros Hv. pose proof (lv_pos _ _ _ Hl v).
  destruct (crit_loop_spec (Z.to_nat (lev levels v)) (S (Z.to_nat (lev levels v))) v Hv)
    as (path & _ & _ & Hw & Hlen & Hall); [lia|lia|].
  assert (length (reverse path) ≤ length V)%nat as Hle; [|rewrite length_reverse in Hle; lia].
  apply submseteq_length, NoDup_submseteq; [by apply (walk_NoDup V E levels Hl)|].
  intros u Hu. rewrite elem_of_reverse in Hu. rewrite Forall_forall in Hall. auto.
Qed.
End critical.

(** ** The phases *)
Lemma filter_lt_split (l : list (string * Z)) n :
  (filter (λ x, x.2 < Z.of_nat n) l).*1 ++ (filter (λ x, x.2 = Z.of_nat n) l).*1 ≡ₚ
  (filter (λ x, x.2 < Z.of_nat (S n)) l).*1.
Proof.
  rewrite <-fmap_app. f_equiv.
  rewrite <-(filter_app_complement (λ x, x.2 < Z.of_nat n) (filter (λ x, x.2 < Z.of_nat (S n)) l)).
  rewrite !list_filter_filter. apply reflexive_eq.
  f_equal; apply list_filter_iff; intros [k z]; simpl; lia.
Qed.

Lemma phases_concat (l : list (string * Z)) n :
  Forall (λ x, 0 ≤ x.2) l →
  concat (map (λ i, (filter (λ x, x.2 = Z.of_nat i) l).*1) (seq 0 n)) ≡ₚ
  (filter (λ x, x.2 < Z.of_nat n) l).*1.
Proof.
  intros Hpos. induction n as [|n IH].
  - simpl. rewrite filter_none; [done|]. eapply Forall_impl; [exact Hpos|]. intros [k z]; simpl; lia.
  - rewrite seq_S, map_app, concat_app, IH. simpl. rewrite app_nil_r. apply filter_lt_split.
Qed.

Section phases.
Context (V : list string) (E : list (string * string)) (levels : odict Z).
Hypothesis Hl : levels_ok V E levels.
Hypothesis Hnd : NoDup V.

Lemma levels_elem v z : (v, z) ∈ levels ↔ v ∈ V ∧ lev levels v = z.
Proof.
  split.
  - intros Hin. assert (v ∈ V) as Hv.
    { rewrite <-(lv_keys _ _ _ Hl). apply list_elem_of_fmap. by exists (v, z). }
    split; [done|]. apply dget_elem in Hin; [|unfold dwf; by rewrite (lv_keys _ _ _ Hl)].
    unfold lev. by rewrite Hin.
  - rewrite <-(lv_keys _ _ _ Hl). intros [Hv <-]. apply dget_is_Some in Hv as [z Hz].
    unfold lev. rewrite Hz. by apply dget_Some_elem.
Qed.

Lemma phase_elem i v : v ∈ ((filter (λ x, x.2 = Z.of_nat i) levels).*1) ↔
  v ∈ V ∧ lev levels v = Z.of_nat i.
Proof.
  rewrite <-levels_elem, list_elem_of_fmap. split.
  - intros ([k z] & -> & [Hz Hin]%list_elem_of_filter). simpl in *. by subst.
  - intros Hin. exists (v, Z.of_nat i). split; [done|]. by apply list_elem_of_filter.
Qed.

Lemma phases_lookup i ph : plan_phases levels !! i = Some ph ↔
  ph = {| node_ids := (filter (λ x, x.2 = Z.of_nat i) levels).*1; phase_index := Z.of_nat i |} ∧
  Z.of_nat i ≤ max_level levels.
Proof.
  unfold plan_phases. rewrite list_lookup_fmap.
  destruct (decide (Z.of_nat i ≤ max_level levels)).
  - rewrite lookup_seq_lt by lia. simpl. split; [intros [= <-]; done|]. by intros [-> _].
  - rewrite lookup_seq_ge by lia. simpl. split; [done|]. lia.
Qed.

Lemma phases_nodes : concat (map node_ids (plan_phases levels)) ≡ₚ V.
Proof.
  unfold plan_phases. rewrite map_map. cbn [node_ids].
  rewrite (phases_concat levels).
  - rewrite filter_all; [by apply reflexive_eq, (lv_keys _ _ _ Hl)|].
    apply Forall_forall. intros [v z] [Hv Hz]%levels_elem. simpl.
    pose proof (max_level_ge V E levels Hl v Hv). pose proof (lv_pos _ _ _ Hl v). lia.
  - apply Forall_forall. intros [v z] [Hv Hz]%levels_elem. simpl.
    pose proof (lv_pos _ _ _ Hl v). lia.
Qed.

(** Every level up to the highest is inhabited. *)
Lemma level_inhabited v i : (Z.of_nat i ≤ lev levels v) → v ∈ V →
  (∀ a b, edge E a b → a ∈ V) → ∃ u, u ∈ V ∧ lev levels u = Z.of_nat i.
Proof.
  intros Hi Hv Hends. remember (Z.to_nat (lev levels v)) as n eqn:Hn.
  revert v Hv Hi Hn. induction n as [|n IH]; intros v Hv Hi Hn.
  - exists v. pose proof (lv_pos _ _ _ Hl v). split; [done|lia].
  - destruct (decide (lev levels v = Z.of_nat i)); [by exists v|].
    destruct (lv_pred _ _ _ Hl v) as [?|(u & He & Hu)]; [lia|].
    apply (IH u); [by eapply Hends|lia|lia].
Qed.
End phases.

(** * The plan *)

(** A workflow graph as the builder makes them: declared endpoints, no cycle,
    at least one node and none with an empty name (which Python takes for the
    end of the critical path). *)
Record plannable (g : ExecutionGraph) : Prop := {
  pl_graph : graph_ok (dkeys (nodes g)) (edges g);
  pl_acyclic : acyclic (pairs (edges g));
  pl_nonempty : nodes g ≠ [];
  pl_names : "" ∉ dkeys (nodes g)
}.

(** The plan and the levels behind it. *)
Lemma plan_run fuel d :
  let g := graph d in let V := dkeys (nodes g) in let E := pairs (edges g) in
  plannable g → (length (nodes g) ≤ fuel)%nat →
  ∃ levels path, levels_ok V E levels ∧
    plan fuel d = Some (Ok {| phases := plan_phases levels; critical_path := path;
                              plan_version := "1.0.0" |}) ∧
    walk E path ∧ Forall (λ u, u ∈ V) path ∧ Z.of_nat (length path) = max_level levels + 1 ∧
    0 ≤ max_level levels.
Proof.
  intros g V E [Hok Hac Hne Hnames] Hfuel.
  destruct (resolve_levels_ok g Hok Hac) as (levels & Hres & Hl). fold V E in Hl.
  assert (HV : V ≠ []) by (unfold V, dkeys; by destruct (nodes g)).
  destruct (max_level_attained V E levels Hl (proj1 Hok) HV) as (top & Htop & Hmax).
  pose proof (lv_pos _ _ _ Hl top) as Hpos. rewrite Hmax in Hpos.
  destruct (build_parents_spec V (edges g) Hok) as (parents & Hb & Hpar).
  unfold plan. fold g. rewrite Hres. unfold calculate_critical_path. fold V. rewrite Hb.
  destruct (dkeys (filter (λ x, x.2 = max_level levels) levels)) as [|v vs] eqn:Hend.
  { assert (top ∈ dkeys (filter (λ x, x.2 = max_level levels) levels)) as Hin.
    { apply list_elem_of_fmap. exists (top, max_level levels). split; [done|].
      apply list_elem_of_filter. split; [done|]. by apply (levels_elem V E levels Hl (proj1 Hok)). }
    rewrite Hend in Hin. by apply not_elem_of_nil in Hin. }
  assert (Hv : v ∈ V ∧ lev levels v = max_level levels).
  { assert (v ∈ dkeys (filter (λ x, x.2 = max_level levels) levels)) as Hin by (rewrite Hend; by left).
    apply list_elem_of_fmap in Hin as ([k z] & -> & [Hz Hin]%list_elem_of_filter). simpl in *. subst z.
    by apply (levels_elem V E levels Hl (proj1 Hok)). }
  destruct Hv as [HvV Hlv].
  pose proof (level_lt V (edges g) levels parents Hok Hl Hnames Hpar v HvV) as Hlt.
  assert (length V = length (nodes g)) as HlenV by (unfold V, dkeys; by rewrite length_fmap).
  destruct (crit_loop_spec V (edges g) levels parents Hok Hl Hnames Hpar
    (Z.to_nat (max_level levels)) fuel v HvV) as (path & -> & _ & Hw & Hlen & Hall); [lia|lia|].
  exists levels, (reverse path). destruct (nodes g) eqn:Hn; [done|].
  split_and!; [done|done|done| | |done].
  - apply Forall_forall. intros u Hu. rewrite elem_of_reverse in Hu. rewrite Forall_forall in Hall. auto.
  - rewrite length_reverse, Hlen. lia.
Qed.

(** C15: The phases of a plan list every node once; an edge always leads to a
    later phase; no phase is empty, and every node is in the earliest phase its
    predecessors allow.  As fuel, the number of nodes is enough. *)
Theorem plan_phases_spec fuel d :
  let g := graph d in let E := pairs (edges g) in
  plannable g → (length (nodes g) ≤ fuel)%nat →
  ∃ p, plan fuel d = Some (Ok p) ∧
    concat (map node_ids (phases p)) ≡ₚ dkeys (nodes g) ∧
    (∀ i j phi phj u v, edge E u v → phases p !! i = Some phi → phases p !! j = Some phj →
       u ∈ node_ids phi → v ∈ node_ids phj → (i < j)%nat) ∧
    (∀ i ph, phases p !! i = Some ph → phase_index ph = Z.of_nat i ∧ node_ids ph ≠ [] ∧
       ∀ v, v ∈ node_ids ph → i = 0%nat ∨
         ∃ u phu, edge E u v ∧ phases p !! pred i = Some phu ∧ u ∈ node_ids phu).
Proof.
  intros g E Hg Hfuel. destruct (plan_run fuel d Hg Hfuel) as (levels & path & Hl & Hrun & _ & _ & _ & Hpos).
  pose proof (pl_graph _ Hg) as Hok. pose proof (proj1 Hok) as Hnd. fold g in Hok, Hnd.
  eexists. split; [exact Hrun|]. cbn [phases]. split; [by apply (phases_nodes _ E levels)|]. split.
  - intros i j phi phj u v He Hi Hj Hu Hv. apply phases_lookup in Hi as [-> _], Hj as [-> _].
    cbn [node_ids] in *. apply (phase_elem _ E levels Hl Hnd) in Hu as [_ Hu].
    apply (phase_elem _ E levels Hl Hnd) in Hv as [_ Hv].
    pose proof (lv_edge _ _ _ Hl u v He). lia.
  - intros i ph Hi. pose proof Hi as [-> Hle]%phases_lookup. cbn [phase_index node_ids]. split; [done|].
    assert (Hends : ∀ a b, edge E a b → a ∈ dkeys (nodes g)) by (intros a b He; by apply Hok in He as [? _]).
    split.
    + assert (HV : dkeys (nodes g) ≠ []).
      { pose proof (pl_nonempty _ Hg). unfold dkeys. fold g in H. by destruct (nodes g). }
      destruct (max_level_attained _ E levels Hl Hnd HV) as (top & Htop & Hmax).
      destruct (level_inhabited _ E levels Hl top i) as (u & Hu & Hlu); [lia|done|done|].
      pose proof (proj2 (phase_elem _ E levels Hl Hnd i u) (conj Hu Hlu)) as Hin.
      intros E0. rewrite E0 in Hin. by apply not_elem_of_nil in Hin.
    + intros v Hv. apply (phase_elem _ E levels Hl Hnd) in Hv as [HvV Hv].
      destruct i as [|i]; [by left|right]. destruct (lv_pred _ _ _ Hl v) as [?|(u & He & Hu)]; [lia|].
      exists u, {| node_ids := (filter (λ x, x.2 = Z.of_nat i) levels).*1; phase_index := Z.of_nat i |}.
      split; [done|]. split; [apply phases_lookup; split; [done|lia]|].
      apply (phase_elem _ E levels Hl Hnd). split; [by eapply Hends|lia].
Qed.

(** C22: The critical path of a well-formed acyclic graph with at least one node, in
    which no node has the empty name, is a longest walk of the graph: its nodes
    are joined by edges, there is one per phase, and no walk has more nodes.
    ([empty_name_cuts_path]: an empty name, which the builder accepts, ends the
    walk back.) *)
Theorem critical_path_longest fuel d :
  let g := graph d in let E := pairs (edges g) in
  plannable g → (length (nodes g) ≤ fuel)%nat →
  ∃ p, plan fuel d = Some (Ok p) ∧
    walk E (critical_path p) ∧ Forall (λ u, u ∈ dkeys (nodes g)) (critical_path p) ∧
    length (critical_path p) = length (phases p) ∧
    ∀ l, walk E l → Forall (λ u, u ∈ dkeys (nodes g)) l →
      (length l ≤ length (critical_path p))%nat.
Proof.
  intros g E Hg Hfuel.
  destruct (plan_run fuel d Hg Hfuel) as (levels & path & Hl & Hrun & Hw & Hall & Hlen & Hpos).
  eexists. split; [exact Hrun|]. cbn [phases critical_path]. split_and!; [done|done| |].
  - unfold plan_phases. rewrite length_map, length_seq. lia.
  - intros l Hwl Hl'. destruct (last l) as [v|] eqn:Hlast; [|apply last_None in Hlast; subst; simpl; lia].
    pose proof (walk_length _ E levels Hl l v Hwl Hlast) as Hlv.
    assert (v ∈ dkeys (nodes g)) as Hv.
    { rewrite Forall_forall in Hl'. apply Hl'. apply last_Some in Hlast as [l' ->]. set_solver. }
    pose proof (max_level_ge _ E levels Hl v Hv). lia.
Qed.

(** * Examples *)
Definition diamond_definition : WorkflowDefinition :=
  {| wf_name := "w"; graph := diamond_graph; wf_version := "1.0.0";
     wf_policy := default_workflow_policy; wf_metadata := default_metadata |}.

Lemma diamond_plannable : plannable diamond_graph.
Proof.
  constructor.
  - apply diamond_graph_ok.
  - destruct (validate_dag_run diamond_graph diamond_graph_ok) as [[H _]|[_ H]]; [exact H|].
    vm_compute in H. discriminate H.
  - vm_compute. discriminate.
  - apply (bool_decide_unpack _). vm_compute. exact I.
Qed.

Lemma plan_phases_spec_witness :
  ∃ p, plan 4 diamond_definition = Some (Ok p) ∧
    map node_ids (phases p) = [["a"]; ["b"; "c"]; ["d"]] ∧
    concat (map node_ids (phases p)) ≡ₚ dkeys (nodes diamond_graph).
Proof.
  destruct (plan_phases_spec 4 diamond_definition diamond_plannable) as (p & Hp & Hc & _);
    [vm_compute; lia|].
  exists p. split; [exact Hp|]. split; [|exact Hc]. vm_compute in Hp. injection Hp as <-. reflexivity.
Defined.

Lemma critical_path_longest_witness :
  ∃ p, plan 4 diamond_definition = Some (Ok p) ∧ critical_path p = ["a"; "b"; "d"] ∧
    walk (pairs (edges diamond_graph)) (critical_path p).
Proof.
  destruct (critical_path_longest 4 diamond_definition diamond_plannable) as (p & Hp & Hw & _);
    [vm_compute; lia|].
  exists p. split; [exact Hp|]. split; [|exact Hw]. vm_compute in Hp. injection Hp as <-. reflexivity.
Defined.

(** A definition that did not go through [build], with an edge from a node to
    itself. *)
Definition loop_definition : WorkflowDefinition :=
  {| wf_name := "w";
     graph := {| nodes := [("a", sample_node "a" default_node_policy)];
                 edges := [{| from_node_id := "a"; to_node_id := "a"; condition_expression := None;
                              edge_version := "1.0.0" |}]; graph_version := "1.0.0" |};
     wf_version := "1.0.0"; wf_policy := default_workflow_policy; wf_metadata := default_metadata |}.

(** Planning a definition with a cycle (which [from_dict] accepts, and only
    [build] refuses) does not return: the search for the critical path goes
    round for ever, whatever the fuel. *)
Theorem plan_diverges fuel : plan fuel loop_definition = None ∧
  definition_of_dict (definition_to_dict loop_definition) = Ok loop_definition.
Proof.
  split; [|by vm_compute].
  assert (∀ f, crit_loop f [("a", ["a"])] [("a", 0)] "a" = None) as Hc.
  { intros f. induction f as [|f IH]; [done|].
    change (crit_loop (S f) [("a", ["a"])] [("a", 0)] "a") with
      (match crit_loop f [("a", ["a"])] [("a", 0)] "a" with
       | Some (Ok path) => Some (Ok ("a" :: path)) | r => r end).
    by rewrite IH. }
  assert (calculate_critical_path fuel (graph loop_definition) [("a", 0)] = None) as Hp.
  { transitivity (match crit_loop fuel [("a", ["a"])] [("a", 0)] "a" with
                  | Some (Ok path) => Some (Ok (reverse path)) | r => r end); [reflexivity|].
    by rewrite Hc. }
  assert (resolve_levels (graph loop_definition) = Ok [("a", 0)]) as Hr by (by vm_compute).
  unfold plan. rewrite Hr, Hp. done.
Qed.

(** The builder accepts a node whose name is empty; the walk back stops there,
    and the critical path of the chain a, "", b is b alone. *)
Definition unnamed_chain : WorkflowBuilder :=
  run_calls [simple_node "a"; simple_node ""; simple_node "b"; connect "a" "" None; connect "" "b" None].
Theorem empty_name_cuts_path :
  built unnamed_chain ∧ ∃ d p, build unnamed_chain = Ok d ∧ plan 3 d = Some (Ok p) ∧
    map node_ids (phases p) = [["a"]; [""]; ["b"]] ∧ critical_path p = ["b"].
Proof.
  split.
  - unfold unnamed_chain, run_calls. cbn [foldl]. repeat (apply built_call; [|constructor]). constructor.
  - eexists _, _. split; [vm_compute; reflexivity|]. split; [vm_compute; reflexivity|]. split; vm_compute; reflexivity.
Qed.
