(* ===== verification/Orchestrator.v ===== *)
(** [workflow/orchestrator.py]: workflow instances, their checkpoints in the
    store, and their progress on runtime events.  The scheduler is an interface
    ([SchedulerPort]); [IntelligentScheduler] implements it.  Every public
    method holds the orchestrator's lock.  The database may refuse a read or a
    write; the COMMIT of a checkpoint is taken to succeed. *)
From S2P Require Import Prelude PyNum Heapq Values Decode Events EventStore Tasks Policy.
From S2P Require Import TaskQueue QueuePort Admission Retry Delayed Scheduler WorkflowModels Dag Builder.
From S2P Require Import Planner.
Open Scope Z_scope.

(** * What the orchestrator uses of a scheduler *)
Class SchedulerPort (W : Type) : Type := {
  port_schedule : nat → M (W * Env) unit;
  port_has_queue : bool;
  port_contains : string → M (W * Env) bool;
  port_cancel : string → M (W * Env) nat
}.

(** A scheduler that keeps its tasks in a [_queue]. *)
Definition queue_lens {D Q : Type} : lens ((D * Q) * Env) (Q * Env) :=
  Lens (λ s, (s.1.2, s.2)) (λ x s, ((s.1.1, x.1), x.2)).
Definition queue_backed {D Q : Type} `{!BaseTaskQueue Q} (schedule : nat → M ((D * Q) * Env) unit) :
    SchedulerPort (D * Q) := {|
  port_schedule := schedule;
  port_has_queue := true;
  port_contains i := zoom queue_lens (bq_contains i);
  port_cancel i := zoom queue_lens (bq_cancel i)
|}.

(** [IntelligentScheduler]: [schedule(task)] without delay, and its queue. *)
Section intelligent.
Context `{!Oracle} {P : Type} `{!SchedulingPolicy P}.
Definition sched_lens : lens ((Tracker * Queue P) * Env) (Tracker * (Queue P * Env)) :=
  Lens (λ s, (s.1.1, (s.1.2, s.2))) (λ x _, ((x.1, x.2.1), x.2.2)).
Definition intelligent_scheduler (admission : option (list AdmissionPlugin)) :
    SchedulerPort (Tracker * Queue P) :=
  queue_backed (λ r, zoom sched_lens (schedule admission r (PFloat f_zero))).
End intelligent.

(** * State: the two workflow tables of the store *)
Record WfTables : Type := {
  definition_rows : gmap string json;
  instance_rows : gmap string json
}.

Definition with_status (s : WorkflowStatus.t) (i : WorkflowInstance) : WorkflowInstance :=
  {| instance_id := instance_id i; workflow_name := workflow_name i; definition := definition i;
     status := s; node_states := node_states i; node_outputs := node_outputs i;
     execution_plan := execution_plan i; started_at := started_at i;
     completed_at := completed_at i; instance_version := instance_version i |}.
Definition with_completed (c : string) (i : WorkflowInstance) : WorkflowInstance :=
  {| instance_id := instance_id i; workflow_name := workflow_name i; definition := definition i;
     status := status i; node_states := node_states i; node_outputs := node_outputs i;
     execution_plan := execution_plan i; started_at := started_at i;
     completed_at := Some c; instance_version := instance_version i |}.
Definition with_states (ns : odict NodeState.t) (i : WorkflowInstance) : WorkflowInstance :=
  {| instance_id := instance_id i; workflow_name := workflow_name i; definition := definition i;
     status := status i; node_states := ns; node_outputs := node_outputs i;
     execution_plan := execution_plan i; started_at := started_at i;
     completed_at := completed_at i; instance_version := instance_version i |}.
Definition with_outputs (os : odict (odict pyval)) (i : WorkflowInstance) : WorkflowInstance :=
  {| instance_id := instance_id i; workflow_name := workflow_name i; definition := definition i;
     status := status i; node_states := node_states i; node_outputs := os;
     execution_plan := execution_plan i; started_at := started_at i;
     completed_at := completed_at i; instance_version := instance_version i |}.

(** [_resolve_node_inputs] *)
Definition resolve_input (outputs : odict (odict pyval)) (n : NodeInput) : pyval :=
  let val :=
    match source_node_id n with
    | Some src =>
        if str_truthy src then
          match dget outputs src, output_key n with
          | Some out, Some key => default VNone (dget out key)
          | _, _ => VNone
          end
        else VNone
    | None => VNone
    end in
  match val with VNone => default_value n | v => v end.
Definition resolve_node_inputs (node : GraphNode) (outputs : odict (odict pyval)) : odict pyval :=
  foldl (λ resolved kv, dset resolved kv.1 (resolve_input outputs kv.2))
        (payload node) (input_mappings (data_mapping node)).

(** The task of a node: its type by the executor's name, its metadata, and the
    composite id given to it afterwards. *)
Definition node_task_type (n : GraphNode) : TaskType :=
  default PYTHON (type_of_value (lower (executor_type n))).
Definition node_task_metadata (i : WorkflowInstance) (nid : string) (n : GraphNode) : odict pyval :=
  dupdate [("workflow_instance_id", VStr (instance_id i)); ("node_id", VStr nid);
           ("payload", VDict (resolve_node_inputs n (node_outputs i)))] (payload n).
Definition node_task_id (i : WorkflowInstance) (nid : string) : string :=
  instance_id i +:+ "_" +:+ nid.

(** [if instance.node_states[p] not in [SUCCEEDED, SKIPPED]: ...; break] *)
Definition settled (s : NodeState.t) : bool :=
  match s with NodeState.SUCCEEDED | NodeState.SKIPPED => true | _ => false end.
Fixpoint parents_ready (states : odict NodeState.t) (parents : list string) : outcome bool :=
  match parents with
  | [] => Ok true
  | p :: ps =>
      match dget states p with
      | None => Raise (KeyError p)
      | Some s => if settled s then parents_ready states ps else Ok false
      end
  end.

(** Node states that keep a workflow from being complete. *)
Definition outstanding (s : NodeState.t) : bool :=
  match s with NodeState.PENDING | NodeState.RUNNING | NodeState.WAITING_APPROVAL => true
             | _ => false end.

(** What [on_runtime_event] and [_apply_event_to_instance] make of an event. *)
Inductive outcome_kind : Type := Completed | Failed | Other.
Definition event_kind (e : RuntimeEvent) : outcome_kind :=
  match data e with
  | TaskCompleted _ => Completed
  | TaskFailed _ _ | TaskTimedOut _ | TaskCancelled _ => Failed
  | _ => Other
  end.
Definition event_result (e : RuntimeEvent) : odict pyval :=
  [("result", default VNone (dget (event_metadata e) "result"))].
(** [node_policy.failure_handling or definition.policy.failure_handling] *)
Definition failure_policy (i : WorkflowInstance) (n : GraphNode) : FailurePolicy.t :=
  default (Wf.failure_handling (wf_policy (definition i))) (Wf.node_failure_handling (policy n)).

Section orchestrator.
Context `{!Oracle} {W : Type} `{!SchedulerPort W}.
(** The planner is an argument of the constructor. *)
Variable planner : WorkflowDefinition → outcome ExecutionPlan.

Abbreviation OM A := (M (WfTables * (W * Env)) A).

Definition on_env {A} (m : M Env A) : OM A := env (env m).
(** [datetime.now().isoformat()] *)
Definition now : OM string := n <- on_env tick ;; ret (now_iso n).

(** [checkpoint_workflow]: both rows, or none when encoding or writing fails
    (its COMMIT is taken to succeed; [Transactions] has the other case) *)
Definition checkpoint_workflow (i : WorkflowInstance) : OM unit :=
  n <- on_env tick ;;
  self (transaction (λ t,
    match store_error n with
    | Some x => Raise x
    | None =>
        let? dj := dumps (VDict (definition_to_dict (definition i))) in
        let? ij := dumps (VDict (instance_to_dict i)) in
        Ok {| definition_rows := <[wf_name (definition i) := dj]> (definition_rows t);
              instance_rows := <[instance_id i := ij]> (instance_rows t) |}
    end)).

(** [_load_instance]; the database may refuse the read *)
Definition load_instance (iid : string) : OM WorkflowInstance :=
  n <- on_env tick ;;
  t <- self get ;;
  match store_error n with
  | Some x => raise x
  | None =>
      match instance_rows t !! iid with
      | None => raise (ValueError ("No WorkflowInstance checkpoint found for: " +:+ iid))
      | Some j => match loads j with
                  | VDict d => of_outcome (instance_of_dict d)
                  | _ => raise bad_field
                  end
      end
  end.

(** The body of the dispatch loop once a node is eligible *)
Definition submit_node (i : WorkflowInstance) (nid : string) (n : GraphNode) : OM unit :=
  r <- on_env (new_task (workflow_name i +:+ ":" +:+ nid) (node_task_type n)
                        (Some (node_task_metadata i nid n))) ;;
  on_env (update_task r (set_id (node_task_id i nid))) ;;;
  env (port_schedule r).

Fixpoint dispatch_loop (parents : odict (list string)) (keys : list string)
    (i : WorkflowInstance) : OM WorkflowInstance :=
  match keys with
  | [] => ret i
  | nid :: keys' =>
      match dget (node_states i) nid with
      | Some NodeState.PENDING =>
          match dget parents nid with
          | None => raise (KeyError nid)
          | Some ps =>
              ready <- of_outcome (parents_ready (node_states i) ps) ;;
              if (ready : bool) then
                let i' := with_states (dset (node_states i) nid NodeState.RUNNING) i in
                match dget (nodes (graph (definition i))) nid with
                | None => raise (KeyError nid)
                | Some n => submit_node i' nid n ;;; dispatch_loop parents keys' i'
                end
              else dispatch_loop parents keys' i
          end
      | _ => dispatch_loop parents keys' i
      end
  end.

(** [_dispatch_eligible_nodes]; the answer is the instance, whose states the
    code updates in place *)
Definition dispatch_eligible_nodes (i : WorkflowInstance) : OM WorkflowInstance :=
  if decide (status i = WorkflowStatus.RUNNING) then
    parents <- of_outcome (build_parents (dkeys (nodes (graph (definition i))))
                                         (edges (graph (definition i)))) ;;
    i' <- dispatch_loop parents (dkeys (node_states i)) i ;;
    checkpoint_workflow i' ;;;
    ret i'
  else ret i.

(** [start_workflow] *)
Definition new_instance (d : WorkflowDefinition) (inputs : option (odict pyval)) (plan : ExecutionPlan)
    (iid started : string) : WorkflowInstance :=
  {| instance_id := iid; workflow_name := wf_name d; definition := d;
     status := WorkflowStatus.RUNNING;
     node_states := map (λ nid, (nid, NodeState.PENDING)) (dkeys (nodes (graph d)));
     node_outputs := match default [] inputs with
                     | [] => [] | ins => [("workflow_inputs", ins)] end;
     execution_plan := plan; started_at := started; completed_at := None;
     instance_version := "1.0.0" |}.
Definition start_workflow (d : WorkflowDefinition) (inputs : option (odict pyval)) :
    OM WorkflowInstance :=
  plan <- of_outcome (planner d) ;;
  n <- on_env tick ;;
  t <- now ;;
  let i := new_instance d inputs plan (uuid4 n) t in
  checkpoint_workflow i ;;;
  dispatch_eligible_nodes i.

(** [pause_workflow] *)
Definition pause_workflow (iid : string) : OM WorkflowInstance :=
  i <- load_instance iid ;;
  if decide (status i = WorkflowStatus.RUNNING) then
    let i' := with_status WorkflowStatus.PAUSED i in
    checkpoint_workflow i' ;;; ret i'
  else ret i.

(** [resume_workflow] *)
Definition resume_workflow (iid : string) : OM WorkflowInstance :=
  i <- load_instance iid ;;
  if decide (status i = WorkflowStatus.PAUSED) then
    let i' := with_status WorkflowStatus.RUNNING i in
    checkpoint_workflow i' ;;;
    dispatch_eligible_nodes i'
  else ret i.

(** [cancel_workflow] *)
Definition cancellable (s : NodeState.t) : bool :=
  match s with NodeState.PENDING | NodeState.RUNNING => true | _ => false end.
Definition cancel_task (tid : string) : OM unit :=
  catch
    (if port_has_queue then
       b <- env (port_contains tid) ;;
       if (b : bool) then env (port_cancel tid) ;;; ret tt else ret tt
     else ret tt)
    (λ x, if isinstance x "Exception" then ret tt else raise x).
Fixpoint cancel_loop (i : WorkflowInstance) (items : odict NodeState.t) : OM (odict NodeState.t) :=
  match items with
  | [] => ret []
  | (nid, s) :: items' =>
      if cancellable s then
        cancel_task (node_task_id i nid) ;;;
        rest <- cancel_loop i items' ;;
        ret ((nid, NodeState.CANCELLED) :: rest)
      else rest <- cancel_loop i items' ;; ret ((nid, s) :: rest)
  end.
Definition cancel_workflow (iid : string) : OM WorkflowInstance :=
  i <- load_instance iid ;;
  if decide (status i = WorkflowStatus.RUNNING ∨ status i = WorkflowStatus.PAUSED) then
    states <- cancel_loop i (node_states i) ;;
    t <- now ;;
    let i' := with_completed t (with_states states (with_status WorkflowStatus.CANCELLED i)) in
    checkpoint_workflow i' ;;; ret i'
  else ret i.

(** The effect of an event on a node of a running instance
    ([on_runtime_event], up to the completion test) *)
Definition apply_event (e : RuntimeEvent) (nid : string) (i : WorkflowInstance) : OM WorkflowInstance :=
  match event_kind e with
  | Completed =>
      ret (with_outputs (dset (node_outputs i) nid (event_result e))
            (with_states (dset (node_states i) nid NodeState.SUCCEEDED) i))
  | Failed =>
      match dget (nodes (graph (definition i))) nid with
      | None => raise (KeyError nid)
      | Some n =>
          if decide (failure_policy i n = FailurePolicy.IGNORE) then
            ret (with_states (dset (node_states i) nid NodeState.SKIPPED) i)
          else
            t <- now ;;
            ret (with_states (dset (node_states i) nid NodeState.FAILED)
                  (with_completed t (with_status WorkflowStatus.FAILED i)))
      end
  | Other => ret i
  end.
(** [if all_completed and instance.status == RUNNING] *)
Definition complete_workflow (i : WorkflowInstance) : OM WorkflowInstance :=
  if negb (existsb (λ x, outstanding x.2) (node_states i)) &&
     bool_decide (status i = WorkflowStatus.RUNNING) then
    t <- now ;; ret (with_completed t (with_status WorkflowStatus.SUCCEEDED i))
  else ret i.

(** [on_runtime_event]; identifiers in the metadata that are not text, which
    no part of the runtime writes, are reported as [bad_field] *)
Definition on_runtime_event (e : RuntimeEvent) : OM unit :=
  let iid := default VNone (dget (event_metadata e) "workflow_instance_id") in
  let nid := default VNone (dget (event_metadata e) "node_id") in
  if negb (truthy iid) || negb (truthy nid) then ret tt
  else
    match iid, nid with
    | VStr iid, VStr nid =>
        i <- load_instance iid ;;
        if decide (status i = WorkflowStatus.RUNNING) then
          i1 <- apply_event e nid i ;;
          i2 <- complete_workflow i1 ;;
          checkpoint_workflow i2 ;;;
          (if decide (status i2 = WorkflowStatus.RUNNING) then
             dispatch_eligible_nodes i2 ;;; ret tt
           else ret tt)
        else ret tt
    | _, _ => raise bad_field
    end.

(** [_apply_event_to_instance]: the states are updated in place; the new
    status of a failed instance is bound to a local name and lost *)
Definition apply_event_to_instance (i : WorkflowInstance) (e : RuntimeEvent) : outcome WorkflowInstance :=
  match default VNone (dget (event_metadata e) "node_id") with
  | VStr nid =>
      if str_truthy nid && dhas (node_states i) nid then
        match event_kind e with
        | Completed =>
            Ok (with_outputs (dset (node_outputs i) nid (event_result e))
                 (with_states (dset (node_states i) nid NodeState.SUCCEEDED) i))
        | Failed =>
            match dget (nodes (graph (definition i))) nid with
            | None => Raise (KeyError nid)
            | Some n =>
                Ok (with_states (dset (node_states i) nid
                     (if decide (failure_policy i n = FailurePolicy.IGNORE)
                      then NodeState.SKIPPED else NodeState.FAILED)) i)
            end
        | Other => Ok i
        end
      else Ok i
  | _ => Ok i
  end.

(** [recover_workflow] *)
Definition replay_events (i : WorkflowInstance) (es : list RuntimeEvent) : outcome WorkflowInstance :=
  foldl (λ acc e, let? i := acc in apply_event_to_instance i e) (Ok i) es.
Definition recover_workflow (iid : string) : OM WorkflowInstance :=
  i <- load_instance iid ;;
  store <- on_env (gets env_store) ;;
  i' <- match store with
        | None => ret i
        | Some tbl =>
            events <- of_outcome (stream_from (started_at i) default_limit 0 tbl) ;;
            of_outcome (replay_events i events)
        end ;;
  dispatch_eligible_nodes i'.
End orchestrator.
