(* ===== verification/WorkflowMachine.v ===== *)
(** The abstract state machine of a workflow instance, and the refinement: each
    method of the orchestrator, whatever the scheduler and the store do, moves
    the stored instance along the machine. *)
From S2P Require Import Prelude PyNum Heapq Values Decode Events EventStore Tasks Policy.
From S2P Require Import TaskQueue Admission Retry Delayed Scheduler WorkflowModels Dag Builder.
From S2P Require Import Planner Orchestrator.
Open Scope Z_scope.

(** * Dispatch as a function of the instance *)
Definition wf_edges (i : WorkflowInstance) : list (string * string) :=
  pairs (edges (graph (definition i))).
Definition wf_nodes (i : WorkflowInstance) : odict GraphNode := nodes (graph (definition i)).
Definition state_of (i : WorkflowInstance) (v : string) : option NodeState.t := dget (node_states i) v.

Definition is_settled (i : WorkflowInstance) (p : string) : bool :=
  match state_of i p with Some s => settled s | None => false end.
(** A pending node all of whose predecessors are settled. *)
Definition is_ready (i : WorkflowInstance) (nid : string) : bool :=
  bool_decide (state_of i nid = Some NodeState.PENDING) &&
  forallb (is_settled i) (sources (wf_edges i) nid).
Definition eligible (i : WorkflowInstance) : list string :=
  filter (λ nid, is_ready i nid = true) (dkeys (node_states i)).
Definition mark_running (ks : list string) (i : WorkflowInstance) : WorkflowInstance :=
  foldl (λ i nid, with_states (dset (node_states i) nid NodeState.RUNNING) i) i ks.

(** A graph with declared endpoints, a state for every node, and pending states
    for nodes only. *)
Record instance_ok (i : WorkflowInstance) : Prop := {
  io_graph : graph_ok (dkeys (wf_nodes i)) (edges (graph (definition i)));
  io_states : ∀ v, v ∈ dkeys (wf_nodes i) → is_Some (state_of i v);
  io_pending : ∀ v, state_of i v = Some NodeState.PENDING → v ∈ dkeys (wf_nodes i);
  io_wf : dwf (node_states i)
}.

Section dispatch.
Context `{!Oracle} {W : Type} `{!SchedulerPort W}.

Definition submit_named (i : WorkflowInstance) (nid : string) : M (WfTables * (W * Env)) unit :=
  match dget (wf_nodes i) nid with
  | Some n => submit_node i nid n
  | None => raise (KeyError nid)
  end.

Lemma parents_ready_spec i ps :
  (∀ p, p ∈ ps → is_Some (state_of i p)) →
  parents_ready (node_states i) ps = Ok (forallb (is_settled i) ps).
Proof.
  induction ps as [|p ps IH]; intros Hp; simpl; [done|].
  destruct (Hp p) as [s Hs]; [by left|]. unfold state_of in Hs. unfold is_settled at 1, state_of.
  rewrite Hs.
  destruct (settled s); simpl; [|done]. apply IH. intros q Hq. apply Hp. by right.
Qed.

(** Marking a pending node leaves the readiness of the others. *)
Lemma is_ready_mark i nid k :
  state_of i nid = Some NodeState.PENDING → k ≠ nid →
  is_ready (with_states (dset (node_states i) nid NodeState.RUNNING) i) k = is_ready i k.
Proof.
  intros Hn Hk. unfold is_ready, is_settled, wf_edges. unfold state_of in *; simpl.
  rewrite dget_dset_ne by done. f_equal. apply forallb_ext. intros p. unfold state_of; simpl. rewrite dget_dset. case_decide; subst; [by rewrite Hn|done].
Qed.

Lemma submit_node_mark i nid n ns : submit_node (with_states ns i) nid n = submit_node i nid n.
Proof. done. Qed.

(** The loop of the code: submit the ready nodes in order, and mark them. *)
Lemma dispatch_loop_run parents keys i s :
  instance_ok i → NoDup keys → (∀ k, k ∈ keys → k ∈ dkeys (node_states i)) →
  (∀ v, v ∈ dkeys (wf_nodes i) → dget parents v = Some (sources (wf_edges i) v)) →
  dispatch_loop parents keys i s =
    (for_each (filter (λ k, is_ready i k = true) keys) (submit_named i) ;;;
     ret (mark_running (filter (λ k, is_ready i k = true) keys) i)) s.
Proof.
  intros Hok Hnd Hkeys Hpar. revert i s Hok Hkeys Hpar.
  induction keys as [|nid keys IH]; intros i s Hok Hkeys Hpar; [done|].
  apply NoDup_cons in Hnd as [Hni Hnd]. cbn [dispatch_loop]. rewrite filter_cons.
  assert (Hrest : ∀ s, dispatch_loop parents keys i s =
    (for_each (filter (λ k, is_ready i k = true) keys) (submit_named i) ;;;
     ret (mark_running (filter (λ k, is_ready i k = true) keys) i)) s).
  { intros s'. apply IH; [done|done| |done]. intros k Hk. apply Hkeys. by right. }
  destruct (decide (state_of i nid = Some NodeState.PENDING)) as [Hp|Hp].
  2:{ rewrite decide_False by (unfold is_ready; rewrite bool_decide_false by done; done).
      unfold state_of in Hp. rewrite <-Hrest.
      destruct (dget (node_states i) nid) as [[]|]; try done. }
  pose proof Hp as Hp'. unfold state_of in Hp'. rewrite Hp'.
  pose proof (io_pending _ Hok nid Hp) as Hnode. rewrite (Hpar nid Hnode).
  assert (Hsrc : ∀ p, p ∈ sources (wf_edges i) nid → is_Some (state_of i p)).
  { intros p Hpe%elem_of_sources. apply (io_states _ Hok). by apply (io_graph _ Hok) in Hpe as [? _]. }
  rewrite (parents_ready_spec i _ Hsrc).
  assert (Hr : is_ready i nid = forallb (is_settled i) (sources (wf_edges i) nid)).
  { unfold is_ready. by rewrite bool_decide_true. }
  rewrite <-Hr. unfold bind at 1, of_outcome. destruct (is_ready i nid) eqn:Hready; simpl.
  2:{ apply Hrest. }
  unfold submit_named at 1.
  apply dget_is_Some in Hnode as [n Hn]. unfold wf_nodes in *. rewrite Hn.
  set (i' := with_states _ i).
  assert (Hok' : instance_ok i').
  { destruct Hok as [H1 H2 H3 H4]. constructor; [done| | |].
    - intros v Hv. unfold state_of, i'; simpl. rewrite dget_dset. case_decide; [done|]. by apply H2.
    - intros v. unfold state_of, i'; simpl. rewrite dget_dset. case_decide; [done|]. apply H3.
    - by apply dset_wf. }
  assert (Hext : filter (λ k, is_ready i' k = true) keys = filter (λ k, is_ready i k = true) keys).
  { apply filter_ext_in. intros k Hk. unfold i'. by rewrite is_ready_mark by (done || congruence). }
  unfold i' at 1. rewrite submit_node_mark. unfold bind at 1 2 3.
  destruct (submit_node i nid n s) as [[[]|x] s1]; [|done].
  rewrite (IH Hnd i' s1 Hok'); [|intros k Hk|done].
  - rewrite Hext. unfold bind. done.
  - unfold i'; simpl. apply elem_of_dkeys_dset. right. apply Hkeys. by right.
Qed.

(** A dispatch submits the ready nodes and checkpoints the marked instance. *)
Lemma dispatch_run i s :
  instance_ok i →
  dispatch_eligible_nodes i s =
    (if decide (status i = WorkflowStatus.RUNNING) then
       for_each (eligible i) (submit_named i) ;;;
       checkpoint_workflow (mark_running (eligible i) i) ;;;
       ret (mark_running (eligible i) i)
     else ret i) s.
Proof.
  intros Hok. unfold dispatch_eligible_nodes. case_decide; [|done].
  destruct (build_parents_spec _ _ (io_graph _ Hok)) as (parents & Hb & Hpar).
  unfold wf_nodes in Hb. rewrite Hb. unfold bind, of_outcome.
  rewrite (dispatch_loop_run parents (dkeys (node_states i)) i s Hok); [|apply Hok|done|done].
  fold (eligible i). unfold bind. by destruct (for_each _ _ s) as [[[]|x] s'].
Qed.
End dispatch.

(** * The machine *)

Definition cancel_states (ns : odict NodeState.t) : odict NodeState.t :=
  map (λ x, (x.1, if cancellable x.2 then NodeState.CANCELLED else x.2)) ns.

(** The effect of an event at time [t], and the completion test. *)
Definition event_effect (t : string) (e : RuntimeEvent) (nid : string) (i : WorkflowInstance) :
    outcome WorkflowInstance :=
  match event_kind e with
  | Completed =>
      Ok (with_outputs (dset (node_outputs i) nid (event_result e))
           (with_states (dset (node_states i) nid NodeState.SUCCEEDED) i))
  | Failed =>
      match dget (wf_nodes i) nid with
      | None => Raise (KeyError nid)
      | Some n =>
          if decide (failure_policy i n = FailurePolicy.IGNORE)
          then Ok (with_states (dset (node_states i) nid NodeState.SKIPPED) i)
          else Ok (with_states (dset (node_states i) nid NodeState.FAILED)
                     (with_completed t (with_status WorkflowStatus.FAILED i)))
      end
  | Other => Ok i
  end.
Definition all_done (i : WorkflowInstance) : bool :=
  negb (existsb (λ x, outstanding x.2) (node_states i)).
Definition completion (t : string) (i : WorkflowInstance) : WorkflowInstance :=
  if all_done i && bool_decide (status i = WorkflowStatus.RUNNING)
  then with_completed t (with_status WorkflowStatus.SUCCEEDED i) else i.

(** The node an event is about, by its metadata. *)
Definition event_node (e : RuntimeEvent) : pyval := default VNone (dget (event_metadata e) "node_id").

(** The state an event puts its node in; a report is about a running node, or
    repeats what is known. *)
Definition event_state (i : WorkflowInstance) (e : RuntimeEvent) (nid : string) : option NodeState.t :=
  match event_kind e with
  | Completed => Some NodeState.SUCCEEDED
  | Failed => n ← dget (wf_nodes i) nid;
              Some (if decide (failure_policy i n = FailurePolicy.IGNORE)
                    then NodeState.SKIPPED else NodeState.FAILED)
  | Other => None
  end.
Definition trust : Type := WorkflowInstance → RuntimeEvent → string → Prop.
Definition anything : trust := λ _ _ _, True.
Definition reports : trust := λ i e nid,
  ∀ s, event_state i e nid = Some s → state_of i nid = Some NodeState.RUNNING ∨ state_of i nid = Some s.
Fixpoint trusted_all (R : trust) (i : WorkflowInstance) (es : list RuntimeEvent) : Prop :=
  match es with
  | [] => True
  | e :: es' => (∀ nid, event_node e = VStr nid → R i e nid) ∧
                ∀ i', apply_event_to_instance i e = Ok i' → trusted_all R i' es'
  end.

(** Steps of an instance, for the events the machine trusts: those in [R] of
    the instance and of the node they are about. *)
Inductive wf_step (R : trust) : WorkflowInstance → WorkflowInstance → Prop :=
  | step_pause i :
      status i = WorkflowStatus.RUNNING → wf_step R i (with_status WorkflowStatus.PAUSED i)
  | step_resume i :
      status i = WorkflowStatus.PAUSED → wf_step R i (with_status WorkflowStatus.RUNNING i)
  | step_cancel i t :
      status i = WorkflowStatus.RUNNING ∨ status i = WorkflowStatus.PAUSED →
      wf_step R i (with_completed t
        (with_states (cancel_states (node_states i)) (with_status WorkflowStatus.CANCELLED i)))
  | step_event i e nid t t' i' :
      status i = WorkflowStatus.RUNNING →
      R i e nid →
      event_effect t e nid i = Ok i' → wf_step R i (completion t' i')
  | step_dispatch i :
      status i = WorkflowStatus.RUNNING → wf_step R i (mark_running (eligible i) i)
  | step_recover i es i' :
      status i = WorkflowStatus.RUNNING →
      trusted_all R i es →
      replay_events i es = Ok i' → wf_step R i (mark_running (eligible i') i').

(** ** Marking *)
Lemma mark_running_fields ks i :
  status (mark_running ks i) = status i ∧ definition (mark_running ks i) = definition i ∧
  instance_id (mark_running ks i) = instance_id i ∧ node_outputs (mark_running ks i) = node_outputs i.
Proof.
  unfold mark_running. revert i. induction ks as [|k ks IH]; intros i; [done|].
  simpl. destruct (IH (with_states (dset (node_states i) k NodeState.RUNNING) i)) as (? & ? & ? & ?).
  by split_and!.
Qed.

Lemma mark_running_state ks i v :
  state_of (mark_running ks i) v = if decide (v ∈ ks) then Some NodeState.RUNNING else state_of i v.
Proof.
  unfold mark_running. revert i. induction ks as [|k ks IH]; intros i; simpl.
  - done.
  - rewrite IH. unfold state_of; simpl. rewrite dget_dset.
    destruct (decide (v ∈ ks)); [by rewrite decide_True by by right|].
    destruct (decide (k = v)) as [->|]; [by rewrite decide_True by by left|].
    by rewrite decide_False by set_solver.
Qed.

Lemma mark_running_wf ks i : dwf (node_states i) → dwf (node_states (mark_running ks i)).
Proof.
  unfold mark_running. revert i. induction ks as [|k ks IH]; intros i Hwf; [done|].
  simpl. apply IH. by apply dset_wf.
Qed.

Lemma is_ready_true i v : is_ready i v = true ↔
  state_of i v = Some NodeState.PENDING ∧ ∀ u, edge (wf_edges i) u v → is_settled i u = true.
Proof.
  unfold is_ready. rewrite andb_true_iff, bool_decide_eq_true, forallb_forall.
  setoid_rewrite <-list_elem_of_In. by setoid_rewrite elem_of_sources.
Qed.

Lemma elem_of_eligible i v : v ∈ eligible i ↔ is_ready i v = true.
Proof.
  unfold eligible. rewrite list_elem_of_filter. split; [tauto|]. intros Hr. split; [done|].
  apply is_ready_true in Hr as [Hp _]. apply dget_is_Some. by eexists.
Qed.

(** ** Well-formed instances stay so *)
Lemma instance_ok_set i v s :
  instance_ok i → s ≠ NodeState.PENDING →
  instance_ok (with_states (dset (node_states i) v s) i).
Proof.
  intros [H1 H2 H3 H4] Hs. constructor; [done| | |by apply dset_wf].
  - intros w Hw. unfold state_of; simpl. rewrite dget_dset. case_decide; [done|]. by apply H2.
  - intros w. unfold state_of; simpl. rewrite dget_dset. case_decide; [by intros [= ->]|]. apply H3.
Qed.

Lemma instance_ok_ext i i' :
  instance_ok i → definition i' = definition i → node_states i' = node_states i → instance_ok i'.
Proof.
  intros [H1 H2 H3 H4] Hd Hn. unfold wf_nodes, state_of in *.
  constructor; unfold wf_nodes, state_of; rewrite ?Hd, ?Hn; done.
Qed.

Lemma cancel_states_fmap ns :
  cancel_states ns = prod_map id (λ s, if cancellable s then NodeState.CANCELLED else s) <$> ns.
Proof. unfold cancel_states. apply list_fmap_ext. by intros _ [k s] _. Qed.

Lemma dget_cancel ns v :
  dget (cancel_states ns) v =
    (λ s, if cancellable s then NodeState.CANCELLED else s) <$> dget ns v.
Proof. by rewrite cancel_states_fmap, dget_fmap. Qed.

Lemma mark_running_ok ks i : instance_ok i → instance_ok (mark_running ks i).
Proof.
  unfold mark_running. revert i. induction ks as [|k ks IH]; intros i Hi; [done|].
  simpl. apply IH. by apply instance_ok_set.
Qed.

(** The fields no step changes. *)
Definition same_workflow (i i' : WorkflowInstance) : Prop :=
  definition i' = definition i ∧ instance_id i' = instance_id i.

Lemma event_effect_ok t e nid i i' :
  instance_ok i → event_effect t e nid i = Ok i' → instance_ok i' ∧ same_workflow i i'.
Proof.
  intros Hi. unfold event_effect. destruct (event_kind e).
  - intros [= <-]. split; [|done].
    by apply (instance_ok_ext _ _ (instance_ok_set i nid NodeState.SUCCEEDED Hi ltac:(done))).
  - destruct (dget (wf_nodes i) nid) as [n|]; [|done]. case_decide; intros [= <-].
    + split; [by apply (instance_ok_set i nid NodeState.SKIPPED)|done].
    + split; [|done].
      by apply (instance_ok_ext _ _ (instance_ok_set i nid NodeState.FAILED Hi ltac:(done))).
  - by intros [= <-].
Qed.

Lemma replay_step_ok i e i' :
  instance_ok i → apply_event_to_instance i e = Ok i' →
  instance_ok i' ∧ same_workflow i i' ∧ status i' = status i.
Proof.
  intros Hi. unfold apply_event_to_instance. fold (event_node e).
  destruct (event_node e) as [| | |nid| | | | |]; try by intros [= <-].
  destruct (_ && _); [|by intros [= <-]]. destruct (event_kind e).
  - intros [= <-]. split; [|done].
    by apply (instance_ok_ext _ _ (instance_ok_set i nid NodeState.SUCCEEDED Hi ltac:(done))).
  - destruct (dget _ nid) as [n|]; [|done]. intros [= <-].
    split; [|done]. apply (instance_ok_set i nid); [done|]. by case_decide.
  - by intros [= <-].
Qed.

Lemma foldl_raise i es x :
  foldl (λ acc e, let? i := acc in apply_event_to_instance i e) (Raise x) es ≠ Ok i.
Proof. by induction es as [|e es IH]. Qed.

Lemma replay_cons i e es i' : replay_events i (e :: es) = Ok i' →
  ∃ i1, apply_event_to_instance i e = Ok i1 ∧ replay_events i1 es = Ok i'.
Proof.
  unfold replay_events. simpl. destruct (apply_event_to_instance i e) as [i1|x]; [eauto|].
  intros Hr. by apply foldl_raise in Hr.
Qed.

Lemma replay_events_ok i es i' :
  instance_ok i → replay_events i es = Ok i' →
  instance_ok i' ∧ same_workflow i i' ∧ status i' = status i.
Proof.
  revert i. induction es as [|e es IH]; intros i Hi.
  - unfold replay_events. simpl. by intros [= <-].
  - intros (i1 & H1 & H2)%replay_cons. destruct (replay_step_ok i e i1 Hi H1) as (Hi1 & [Hd Hid] & Hs).
    destruct (IH i1 Hi1 H2) as (Hi' & [Hd' Hid'] & Hs'). split_and!; [done|split; congruence|congruence].
Qed.

Lemma completion_ok t i : instance_ok i → instance_ok (completion t i) ∧ same_workflow i (completion t i).
Proof. intros [H1 H2 H3 H4]. unfold completion. by destruct (_ && _). Qed.

Lemma wf_step_ok R i i' : instance_ok i → wf_step R i i' → instance_ok i' ∧ same_workflow i i'.
Proof.
  intros Hi Hs. destruct Hs as [i _|i _|i t _|i e nid t t' i' _ _ He|i _|i es i' _ _ Hr].
  - by destruct Hi.
  - by destruct Hi.
  - destruct Hi as [H1 H2 H3 H4]. split; [|done]. constructor; [done| | |].
    + intros v Hv. unfold state_of; simpl. rewrite dget_cancel.
      destruct (H2 v Hv) as [s Hs]. unfold state_of in Hs. rewrite Hs. by eexists.
    + intros v. unfold state_of; simpl. rewrite dget_cancel.
      destruct (dget (node_states i) v) as [[]|]; simpl; done.
    + unfold dwf in *; simpl. by rewrite cancel_states_fmap, dkeys_fmap.
  - destruct (event_effect_ok _ _ _ _ _ Hi He) as [Hi' [Hd Hid]].
    destruct (completion_ok t' i' Hi') as [Hi'' [Hd' Hid']]. split; [done|]. split; congruence.
  - destruct (mark_running_fields (eligible i) i) as (_ & Hd & Hid & _).
    split; [by apply mark_running_ok|by split].
  - destruct (replay_events_ok i es i' Hi Hr) as (Hi' & [Hd Hid] & _).
    destruct (mark_running_fields (eligible i') i') as (_ & Hd' & Hid' & _).
    split; [by apply mark_running_ok|split; congruence].
Qed.

(** * The refinement *)
#[local] Arguments json_ok : simpl never.
#[local] Arguments instance_to_dict : simpl never.
#[local] Arguments definition_to_dict : simpl never.

(** A row that stores the instance [i] under its own id. *)
Definition good (k : string) (i : WorkflowInstance) : Prop :=
  instance_id i = k ∧ instance_ok i ∧ definition_plain (definition i).
Definition stored (k : string) (t : WfTables) (i : WorkflowInstance) : Prop :=
  instance_rows t !! k = Some (VDict (instance_to_dict i)) ∧ good k i.
Definition tables_ok (t : WfTables) : Prop :=
  ∀ k j, instance_rows t !! k = Some j → ∃ i, j = VDict (instance_to_dict i) ∧ good k i.

Lemma stored_inj k t i i' : stored k t i → stored k t i' → i = i'.
Proof.
  intros [H1 (_ & _ & Hp)] [H2 (_ & _ & Hp')]. rewrite H1 in H2.
  assert (instance_to_dict i = instance_to_dict i') as E by congruence.
  pose proof (instance_of_to_dict i Hp) as H. rewrite E, (instance_of_to_dict i' Hp') in H. congruence.
Qed.

Lemma good_step R k i i' : good k i → wf_step R i i' → good k i'.
Proof.
  intros (Hid & Hok & Hp) Hs. destruct (wf_step_ok R i i' Hok Hs) as [Hok' [Hd Hid']].
  split_and!; [congruence|done|congruence].
Qed.
Lemma good_steps R k i i' : good k i → rtc (wf_step R) i i' → good k i'.
Proof. intros Hg. induction 1 as [i|i j i' Hs _ IH]; [done|]. apply IH. by eapply good_step. Qed.

(** A new instance. *)
Definition initial (i : WorkflowInstance) : Prop :=
  status i = WorkflowStatus.RUNNING ∧
  node_states i = map (λ nid, (nid, NodeState.PENDING)) (dkeys (wf_nodes i)).

Section refinement.
Context `{!Oracle} {W : Type} `{!SchedulerPort W}.
Variable planner : WorkflowDefinition → outcome ExecutionPlan.
Variable R : trust.
Abbreviation S := (WfTables * (W * Env))%type.
Abbreviation steps := (rtc (wf_step R)).

(** An instance the machine reaches from a new one. *)
Definition reached (i : WorkflowInstance) : Prop := ∃ i0, initial i0 ∧ steps i0 i.
Definition all_reached (t : WfTables) : Prop := ∀ k i, stored k t i → reached i.

(** The stored instances move along the machine, and new ones start it. *)
Definition moves (t t' : WfTables) : Prop :=
  tables_ok t' ∧ (∀ k i, stored k t i → ∃ i', stored k t' i' ∧ steps i i') ∧
  (all_reached t → all_reached t').

Lemma moves_refl t : tables_ok t → moves t t.
Proof. intros Ht. split_and!; [done| |done]. intros k i Hi. by exists i. Qed.
Lemma moves_trans t1 t2 t3 : moves t1 t2 → moves t2 t3 → moves t1 t3.
Proof.
  intros (_ & H12 & Hr12) (Ht3 & H23 & Hr23). split_and!; [done| |by auto]. intros k i (i' & Hi' & Hs)%H12.
  destruct (H23 k i' Hi') as (i'' & ? & ?). exists i''. split; [done|]. by etrans.
Qed.

(** Computations that leave the tables alone. *)
Definition keeps {A} (m : M S A) : Prop := ∀ s, (m s).2.1 = s.1.
Lemma keeps_ret {A} (a : A) : keeps (ret a).
Proof. done. Qed.
Lemma keeps_raise {A} x : keeps (raise (A:=A) x).
Proof. done. Qed.
Lemma keeps_env {A} (m : M (W * Env) A) : keeps (env m).
Proof. intros s. unfold zoom; simpl. by destruct (m s.2). Qed.
Lemma keeps_bind {A B} (m : M S A) (f : A → M S B) : keeps m → (∀ a, keeps (f a)) → keeps (x <- m ;; f x).
Proof.
  intros Hm Hf s. unfold bind. specialize (Hm s). destruct (m s) as [[a|x] s1]; simpl in *; [|done].
  by rewrite Hf.
Qed.
Lemma keeps_catch {A} (m : M S A) h : keeps m → (∀ x, keeps (h x)) → keeps (catch m h).
Proof.
  intros Hm Hh s. unfold catch. specialize (Hm s). destruct (m s) as [[a|x] s1]; simpl in *; [done|].
  by rewrite Hh.
Qed.
Lemma keeps_for_each {A} (l : list A) f : (∀ a, keeps (f a)) → keeps (for_each l f).
Proof. intros Hf. induction l as [|x l IH]; [done|]. by apply keeps_bind. Qed.
Lemma keeps_of_outcome {A} (o : outcome A) : keeps (of_outcome o).
Proof. done. Qed.
Create HintDb keeps_db.
Hint Resolve keeps_ret keeps_raise keeps_env keeps_for_each keeps_of_outcome : keeps_db.

Lemma keeps_now : keeps (now (W:=W)).
Proof. apply keeps_bind; [apply keeps_env|by intros]. Qed.

Lemma keeps_submit i nid : keeps (submit_named (W:=W) i nid).
Proof.
  unfold submit_named, submit_node. destruct (dget _ _); [|done].
  repeat (apply keeps_bind; intros); apply keeps_env.
Qed.

Lemma keeps_cancel_loop i items : keeps (cancel_loop (W:=W) i items).
Proof.
  induction items as [|[nid s] items IH]; [done|]. simpl. destruct (cancellable s).
  - apply keeps_bind; [|intros; apply keeps_bind; [done|by intros]].
    apply keeps_catch; [|by intros x; destruct (isinstance x "Exception")].
    destruct port_has_queue; [|done]. apply keeps_bind; [apply keeps_env|].
    intros []; [|done]. apply keeps_bind; [apply keeps_env|by intros].
  - apply keeps_bind; [done|by intros].
Qed.

Lemma checkpoint_run i s :
  (∃ s', checkpoint_workflow (W:=W) i s = (Ok tt, s') ∧
     instance_rows s'.1 = <[instance_id i := VDict (instance_to_dict i)]> (instance_rows s.1)) ∨
  (∃ x s', checkpoint_workflow (W:=W) i s = (Raise x, s') ∧ s'.1 = s.1).
Proof.
  unfold checkpoint_workflow, on_env, transaction, dumps. run_step.
  destruct (store_error (env_tick s.2.2)); [right; by eexists _, _|].
  destruct (json_ok (VDict (definition_to_dict (definition i)))); cbn [obind]; [|right; by eexists _, _].
  destruct (json_ok (VDict (instance_to_dict i))); cbn [obind]; [|right; by eexists _, _].
  left. by eexists.
Qed.

Lemma insert_moves t t' k i i' :
  tables_ok t → stored k t i → steps i i' →
  instance_rows t' = <[k := VDict (instance_to_dict i')]> (instance_rows t) → moves t t' ∧ stored k t' i'.
Proof.
  intros Ht Hi Hs Hrows. pose proof (good_steps _ _ _ _ (proj2 Hi) Hs) as Hg.
  assert (Hst : stored k t' i') by (split; [by rewrite Hrows, lookup_insert_eq|done]).
  assert (Hother : ∀ k' j, k ≠ k' → stored k' t j ↔ stored k' t' j).
  { intros k' j Hne. unfold stored. by rewrite Hrows, lookup_insert_ne. }
  split; [|done]. split_and!.
  - intros k' j. rewrite Hrows, lookup_insert. case_decide; [|apply Ht].
    intros [= <-]. subst. by exists i'.
  - intros k' j Hj. destruct (decide (k = k')) as [<-|Hne].
    + rewrite (stored_inj k t j i Hj Hi). by exists i'.
    + exists j. split; [|done]. by apply Hother.
  - intros Hr k' j Hj. destruct (decide (k = k')) as [<-|Hne]; [|by apply (Hr k'), Hother].
    rewrite (stored_inj k t' j i' Hj Hst). destruct (Hr k i Hi) as (i0 & ? & ?).
    exists i0. split; [done|]. by etrans.
Qed.

(** A checkpoint of an instance that moved either stores it, or fails and
    leaves the tables. *)
Lemma checkpoint_moves s k i i' :
  tables_ok s.1 → stored k s.1 i → steps i i' →
  (∃ s', checkpoint_workflow (W:=W) i' s = (Ok tt, s') ∧ moves s.1 s'.1 ∧ stored k s'.1 i') ∨
  (∃ x s', checkpoint_workflow (W:=W) i' s = (Raise x, s') ∧ s'.1 = s.1).
Proof.
  intros Ht Hi Hs. destruct (checkpoint_run i' s) as [(s' & Hrun & Hrows)|Hfail]; [left|by right].
  pose proof (good_steps _ _ _ _ (proj2 Hi) Hs) as (Hid & _). rewrite Hid in Hrows.
  destruct (insert_moves s.1 s'.1 k i i' Ht Hi Hs Hrows). eauto.
Qed.

(** A load answers what is stored, or raises; only the clock moves on. *)
Definition after_read (s : WfTables * (W * Env)) : WfTables * (W * Env) := (s.1, (s.2.1, next_tick s.2.2)).
Lemma load_run k s : tables_ok s.1 →
  (∃ i, load_instance (W:=W) k s = (Ok i, after_read s) ∧ stored k (after_read s).1 i) ∨
  ∃ x, load_instance (W:=W) k s = (Raise x, after_read s).
Proof.
  destruct s as [t [w e]]. intros Ht. unfold load_instance, on_env, after_read. run_step.
  destruct (store_error (env_tick e)); [right; by eexists|].
  destruct (instance_rows t !! k) as [j|] eqn:Hj; [|right; by eexists].
  destruct (Ht k j Hj) as (i & -> & Hg). left. exists i. unfold loads.
  pose proof Hg as (_ & _ & Hp). rewrite (instance_of_to_dict i Hp). by split.
Qed.

(** After a load: the state is the one it left. *)
Ltac read_on s :=
  change s.1 with (after_read s).1 in *; set (after_read s) as s' in *; clearbody s'; clear s; rename s' into s.

(** Dispatching an instance that is one step from marking its ready nodes. *)
Lemma dispatch_moves s k i i' :
  tables_ok s.1 → stored k s.1 i → instance_ok i' →
  (status i' = WorkflowStatus.RUNNING → steps i (mark_running (eligible i') i')) →
  moves s.1 (dispatch_eligible_nodes (W:=W) i' s).2.1.
Proof.
  intros Ht Hi Hok Hs. rewrite (dispatch_run i' s Hok). case_decide as Hrun; [|by apply moves_refl].
  specialize (Hs Hrun).
  pose proof (keeps_for_each (eligible i') (submit_named i') (keeps_submit i') s) as Hk.
  unfold bind.
  destruct (for_each (eligible i') (submit_named i') s) as [[[]|x] s1]; simpl in Hk |- *;
    [|rewrite Hk; by apply moves_refl].
  rewrite <-Hk in Ht, Hi |- *.
  destruct (checkpoint_moves s1 k i _ Ht Hi Hs) as [(s2 & -> & Hm & _)|(x & s2 & -> & Heq)]; simpl.
  - done.
  - rewrite Heq. by apply moves_refl.
Qed.

(** The pieces of the methods, as runs. *)
Lemma now_run s : ∃ t s', now (W:=W) s = (Ok t, s') ∧ s'.1 = s.1.
Proof. pose proof (keeps_now s) as Hk. revert Hk. unfold now, on_env. run_step. eauto. Qed.

Lemma apply_event_run e nid i s :
  ∃ t s', apply_event (W:=W) e nid i s = (event_effect t e nid i, s') ∧ s'.1 = s.1.
Proof.
  unfold apply_event, event_effect, wf_nodes. destruct (now_run s) as (t & s' & Hn & Hs').
  destruct (event_kind e); [by exists t, s| |by exists t, s].
  destruct (dget _ nid) as [n|]; [|by exists t, s]. case_decide; [by exists t, s|].
  exists t, s'. unfold bind. by rewrite Hn.
Qed.

Lemma complete_run i s :
  ∃ t s', complete_workflow (W:=W) i s = (Ok (completion t i), s') ∧ s'.1 = s.1.
Proof.
  unfold complete_workflow, completion, all_done. destruct (now_run s) as (t & s' & Hn & Hs').
  destruct (negb _ && _); [|by exists "", s]. exists t, s'. unfold bind. by rewrite Hn.
Qed.

Lemma cancel_loop_run i items s :
  ∃ s', s'.1 = s.1 ∧ (cancel_loop (W:=W) i items s = (Ok (cancel_states items), s') ∨
                       ∃ x, cancel_loop (W:=W) i items s = (Raise x, s')).
Proof.
  exists (cancel_loop (W:=W) i items s).2. split; [apply keeps_cancel_loop|].
  revert s. induction items as [|[nid st] items IH]; intros s; [by left|].
  simpl. destruct (cancellable st); unfold bind.
  - destruct (cancel_task (node_task_id i nid) s) as [[[]|x] s1]; [|by right; eexists].
    destruct (IH s1) as [Hr|[x Hr]]; destruct (cancel_loop i items s1) as [o s2]; simpl in Hr |- *;
      injection Hr as ->; [by left|by right; eexists].
  - destruct (IH s) as [Hr|[x Hr]]; destruct (cancel_loop i items s) as [o s2]; simpl in Hr |- *;
      injection Hr as ->; [by left|by right; eexists].
Qed.

(** ** The operations *)
Lemma pause_moves k s : tables_ok s.1 → moves s.1 (pause_workflow (W:=W) k s).2.1.
Proof.
  intros Ht. unfold pause_workflow, bind.
  destruct (load_run k s Ht) as [(i & -> & Hi)|[x ->]]; [|by apply moves_refl].
  read_on s.
  case_decide; [|by apply moves_refl].
  destruct (checkpoint_moves s k i _ Ht Hi (rtc_once _ _ (step_pause R i ltac:(done))))
    as [(s' & -> & Hm & _)|(x & s' & -> & Heq)]; simpl; [done|].
  rewrite Heq. by apply moves_refl.
Qed.

Lemma cancel_moves k s : tables_ok s.1 → moves s.1 (cancel_workflow (W:=W) k s).2.1.
Proof.
  intros Ht. unfold cancel_workflow, bind.
  destruct (load_run k s Ht) as [(i & -> & Hi)|[x ->]]; [|by apply moves_refl].
  read_on s.
  case_decide as Hst; [|by apply moves_refl].
  destruct (cancel_loop_run i (node_states i) s) as (s1 & Hs1 & [->|[x ->]]);
    [|simpl; rewrite Hs1; by apply moves_refl].
  destruct (now_run s1) as (t & s2 & -> & Hs2).
  assert (Hs12 : s2.1 = s.1) by congruence. rewrite <-Hs12 in Ht, Hi |- *.
  destruct (checkpoint_moves s2 k i _ Ht Hi (rtc_once _ _ (step_cancel R i t Hst)))
    as [(s' & -> & Hm & _)|(x & s' & -> & Heq)]; simpl; [done|].
  rewrite Heq. by apply moves_refl.
Qed.

(** Storing an instance one step on, and dispatching it. *)
Lemma step_then_dispatch s k i i' :
  tables_ok s.1 → stored k s.1 i → wf_step R i i' →
  moves s.1 ((checkpoint_workflow (W:=W) i' ;;; dispatch_eligible_nodes (W:=W) i') s).2.1 ∧
  moves s.1 (((checkpoint_workflow (W:=W) i' ;;;
     if decide (status i' = WorkflowStatus.RUNNING) then dispatch_eligible_nodes (W:=W) i' ;;; ret tt
     else ret tt)) s).2.1.
Proof.
  intros Ht Hi Hs. pose proof Hi as (_ & _ & Hok & _).
  pose proof (wf_step_ok _ _ _ Hok Hs) as [Hok' _]. unfold bind.
  destruct (checkpoint_moves s k i i' Ht Hi (rtc_once _ _ Hs))
    as [(s' & -> & Hm & Hi')|(x & s' & -> & Heq)]; simpl;
    [|rewrite Heq; split; by apply moves_refl].
  assert (Hd : moves s'.1 (dispatch_eligible_nodes (W:=W) i' s').2.1).
  { apply (dispatch_moves s' k i' i'); [apply Hm|done|done|].
    intros Hr. apply rtc_once. by apply step_dispatch. }
  split; [by apply (moves_trans _ _ _ Hm)|].
  case_decide; [|done]. apply (moves_trans _ _ _ Hm).
  by destruct (dispatch_eligible_nodes i' s') as [[]].
Qed.

Lemma resume_moves k s : tables_ok s.1 → moves s.1 (resume_workflow (W:=W) k s).2.1.
Proof.
  intros Ht. unfold resume_workflow. unfold bind at 1.
  destruct (load_run k s Ht) as [(i & -> & Hi)|[x ->]]; [|by apply moves_refl].
  read_on s.
  case_decide; [|by apply moves_refl].
  by apply (step_then_dispatch s k i), step_resume.
Qed.

(** What the machine asks of the events an operation reads. *)
Definition event_workflow (e : RuntimeEvent) : pyval :=
  default VNone (dget (event_metadata e) "workflow_instance_id").

Lemma event_moves e s :
  tables_ok s.1 →
  (∀ k nid i, event_workflow e = VStr k → event_node e = VStr nid →
     stored k s.1 i → R i e nid) →
  moves s.1 (on_runtime_event (W:=W) e s).2.1.
Proof.
  intros Ht Hrep. unfold on_runtime_event. fold (event_workflow e) (event_node e).
  destruct (_ || _); [by apply moves_refl|].
  destruct (event_workflow e) as [| | |k| | | | |]; try by apply moves_refl.
  destruct (event_node e) as [| | |nid| | | | |]; try by apply moves_refl.
  unfold bind at 1. destruct (load_run k s Ht) as [(i & -> & Hi)|[x ->]]; [|by apply moves_refl].
  read_on s.
  case_decide as Hrun; [|by apply moves_refl].
  unfold bind at 1. destruct (apply_event_run e nid i s) as (t & s1 & -> & Hs1).
  destruct (event_effect t e nid i) as [i1|x] eqn:Heff; [|simpl; rewrite Hs1; by apply moves_refl].
  unfold bind at 1. destruct (complete_run i1 s1) as (t' & s2 & -> & Hs2).
  assert (Hs12 : s2.1 = s.1) by congruence. rewrite <-Hs12 in Ht, Hi |- *.
  apply (step_then_dispatch s2 k i); [done|done|].
  apply (step_event R i e nid t); [done| |done].
  apply (Hrep k nid i); [done|done|]. by rewrite <-Hs12.
Qed.

Lemma recover_moves k s :
  tables_ok s.1 →
  (∀ i tbl es, stored k s.1 i → env_store s.2.2 = Some tbl →
     stream_from (started_at i) default_limit 0 tbl = Ok es → trusted_all R i es) →
  moves s.1 (recover_workflow (W:=W) k s).2.1.
Proof.
  intros Ht Hrep. unfold recover_workflow. unfold bind at 1.
  destruct (load_run k s Ht) as [(i & -> & Hi)|[x ->]]; [|by apply moves_refl].
  assert (Hrep' : ∀ tbl es, env_store (after_read s).2.2 = Some tbl →
            stream_from (started_at i) default_limit 0 tbl = Ok es → trusted_all R i es) by (intros ?? ?; by apply Hrep).
  clear Hrep. read_on s.
  assert (Hd : ∀ es i', trusted_all R i es → replay_events i es = Ok i' →
            moves s.1 (dispatch_eligible_nodes (W:=W) i' s).2.1).
  { intros es i' Hes Hr. pose proof Hi as (_ & _ & Hok & _).
    destruct (replay_events_ok i es i' Hok Hr) as (Hok' & _ & Hst).
    apply (dispatch_moves s k i i'); [done|done|done|]. intros Hrun. apply rtc_once.
    by apply (step_recover R i es); [congruence| |]. }
  unfold on_env. run_step. destruct s as [t [w e]]; simpl in *.
  destruct (env_store e) as [tbl|] eqn:Hst.
  - destruct (stream_from _ _ _ tbl) as [es|x] eqn:Hes; [|by apply moves_refl].
    destruct (replay_events i es) as [i'|x] eqn:Hr; [|by apply moves_refl].
    by apply (Hd es); [by apply (Hrep' tbl es)|].
  - apply (Hd []); [done|]. by unfold replay_events.
Qed.

Definition start_ok (d : WorkflowDefinition) (s : S) : Prop :=
  instance_rows s.1 !! uuid4 (env_tick s.2.2) = None ∧ definition_plain d ∧
  dwf (nodes (graph d)) ∧ graph_ok (dkeys (nodes (graph d))) (edges (graph d)).

Lemma fresh_moves (s s' : S) k i :
  tables_ok s.1 → instance_rows s.1 !! k = None → good k i → initial i →
  instance_rows s'.1 = <[k := VDict (instance_to_dict i)]> (instance_rows s.1) →
  moves s.1 s'.1 ∧ stored k s'.1 i.
Proof.
  intros Ht Hf Hg Hini Hrows.
  assert (Hst : stored k s'.1 i) by (split; [by rewrite Hrows, lookup_insert_eq|done]).
  split; [|done]. split_and!.
  - intros k' j. rewrite Hrows, lookup_insert. case_decide; [|apply Ht].
    intros [= <-]. subst. by exists i.
  - intros k' j [Hj Hgj]. exists j. split; [|done]. split; [|done].
    rewrite Hrows, lookup_insert_ne; [done|]. intros <-. by pose proof (eq_trans (eq_sym Hf) Hj).
  - intros Hr k' j Hj. destruct (decide (k = k')) as [<-|Hne].
    + rewrite (stored_inj k s'.1 j i Hj Hst). by exists i.
    + apply (Hr k'). destruct Hj as [Hj Hgj]. split; [|done].
      by rewrite Hrows, lookup_insert_ne in Hj.
Qed.

Lemma tick_run (s : S) : ∃ s', on_env (W:=W) tick s = (Ok (env_tick s.2.2), s') ∧ s'.1 = s.1.
Proof. unfold on_env. run_step. eauto. Qed.

Lemma initial_ok d i :
  dwf (nodes (graph d)) → graph_ok (dkeys (nodes (graph d))) (edges (graph d)) →
  definition i = d → node_states i = map (λ nid, (nid, NodeState.PENDING)) (dkeys (nodes (graph d))) →
  instance_ok i.
Proof.
  intros Hwf Hg Hd Hn. unfold dwf in Hwf.
  constructor; unfold wf_nodes, state_of; rewrite ?Hd, ?Hn; [done| | |].
  - intros v Hv. rewrite dget_map_const. by rewrite decide_True.
  - intros v. rewrite dget_map_const. by case_decide.
  - unfold dwf, dkeys in *. change (NoDup (map fst (map (λ nid, (nid, NodeState.PENDING)) (nodes (graph d)).*1))).
    by rewrite map_map, map_id.
Qed.

Lemma start_moves d inputs s :
  tables_ok s.1 → start_ok d s → moves s.1 (start_workflow planner d inputs s).2.1.
Proof.
  intros Ht (Hfresh & Hp & Hwf & Hg). unfold start_workflow.
  destruct (planner d) as [pl|x]; [|by apply moves_refl].
  destruct (tick_run s) as (s1 & Hr1 & Hs1). destruct (now_run s1) as (ts & s2 & Hr2 & Hs2).
  unfold bind, of_outcome. rewrite Hr1, Hr2.
  set (i := new_instance _ _ _ _ _).
  assert (Hs12 : s2.1 = s.1) by congruence. rewrite <-Hs12 in Ht, Hfresh |- *.
  assert (Hok : instance_ok i) by by apply (initial_ok d).
  assert (Hgood : good (uuid4 (env_tick s.2.2)) i) by by split_and!.
  destruct (checkpoint_run i s2) as [(s3 & -> & Hrows)|(x & s3 & -> & Heq)];
    [|simpl; rewrite Heq; by apply moves_refl].
  destruct (fresh_moves s2 s3 _ i Ht Hfresh Hgood (conj eq_refl eq_refl) Hrows) as [Hm Hi].
  apply (moves_trans _ _ _ Hm). apply (dispatch_moves s3 (uuid4 (env_tick s.2.2)) i i); [apply Hm|done|done|].
  intros Hrun. by apply rtc_once, step_dispatch.
Qed.

(** * Histories of the orchestrator *)
Inductive wf_op : Type :=
  | OpStart (d : WorkflowDefinition) (inputs : option (odict pyval))
  | OpPause (k : string) | OpResume (k : string) | OpCancel (k : string)
  | OpEvent (e : RuntimeEvent) | OpRecover (k : string).
Definition run_op (o : wf_op) : M S unit :=
  match o with
  | OpStart d inputs => start_workflow planner d inputs ;;; ret tt
  | OpPause k => pause_workflow k ;;; ret tt
  | OpResume k => resume_workflow k ;;; ret tt
  | OpCancel k => cancel_workflow k ;;; ret tt
  | OpEvent e => on_runtime_event e
  | OpRecover k => recover_workflow k ;;; ret tt
  end.

(** What is asked of a call: a started definition is storable, with a valid
    graph, and gets an id not in use; the events read are trusted. *)
Definition op_allowed (o : wf_op) (s : S) : Prop :=
  match o with
  | OpStart d _ => start_ok d s
  | OpEvent e => ∀ k nid i,
      event_workflow e = VStr k → event_node e = VStr nid → stored k s.1 i → R i e nid
  | OpRecover k => ∀ i tbl es, stored k s.1 i → env_store s.2.2 = Some tbl →
      stream_from (started_at i) default_limit 0 tbl = Ok es → trusted_all R i es
  | _ => True
  end.

(** Calls in any order; between them the rest of the runtime may change
    everything but the workflow tables. *)
Inductive history : S → S → Prop :=
  | history_refl s : history s s
  | history_call s o s' : op_allowed o s → history (run_op o s).2 s' → history s s'
  | history_other s w s' : history (s.1, w) s' → history s s'.

Lemma ignore_state {A} (m : M S A) s : ((m ;;; ret tt) s).2 = (m s).2.
Proof. unfold bind. by destruct (m s) as [[a|x] s']. Qed.

Lemma history_trans s1 s2 s3 : history s1 s2 → history s2 s3 → history s1 s3.
Proof.
  intros Hh Hs. induction Hh as [|s o s' Ho _ IH|s w s' _ IH]; [done| |].
  - apply (history_call s o); auto.
  - apply (history_other s w); auto.
Qed.

Lemma run_op_moves o s : tables_ok s.1 → op_allowed o s → moves s.1 (run_op o s).2.1.
Proof.
  intros Ht Ha. destruct o; cbn [run_op]; rewrite ?ignore_state.
  - by apply start_moves.
  - by apply pause_moves.
  - by apply resume_moves.
  - by apply cancel_moves.
  - by apply event_moves.
  - by apply recover_moves.
Qed.

Lemma history_moves s s' : tables_ok s.1 → history s s' → moves s.1 s'.1.
Proof.
  intros Ht Hh. induction Hh as [s|s o s' Ha _ IH|s w s' _ IH]; [by apply moves_refl| |by apply IH].
  pose proof (run_op_moves o s Ht Ha) as Hm. apply (moves_trans _ _ _ Hm), IH, Hm.
Qed.
End refinement.

Definition terminal (s : WorkflowStatus.t) : bool :=
  match s with
  | WorkflowStatus.SUCCEEDED | WorkflowStatus.FAILED | WorkflowStatus.CANCELLED => true
  | _ => false
  end.

Lemma terminal_no_step R i i' : terminal (status i) = true → ¬ wf_step R i i'.
Proof. intros Ht Hs. by destruct Hs as [? E|? E|? ? [E|E]|? ? ? ? ? ? E|? E|? ? ? E]; rewrite E in Ht. Qed.

(** ** Causality: what has started had its predecessors settled *)
Definition started (s : NodeState.t) : bool :=
  match s with
  | NodeState.RUNNING | NodeState.SUCCEEDED | NodeState.SKIPPED | NodeState.FAILED => true
  | _ => false
  end.
Definition is_started (i : WorkflowInstance) (v : string) : Prop :=
  ∃ s, state_of i v = Some s ∧ started s = true.
Definition causal (i : WorkflowInstance) : Prop :=
  ∀ u v, edge (wf_edges i) u v → is_started i v → is_settled i u = true.

Lemma causal_ext i i' :
  definition i' = definition i → node_states i' = node_states i → causal i → causal i'.
Proof.
  unfold causal, is_started, is_settled, wf_edges, state_of. by intros -> ->.
Qed.

Definition ended (s : NodeState.t) : bool :=
  match s with NodeState.SUCCEEDED | NodeState.SKIPPED | NodeState.FAILED => true | _ => false end.

(** A running node that ends, or a repeated report. *)
Lemma causal_report i v s :
  causal i → state_of i v = Some NodeState.RUNNING ∨ state_of i v = Some s →
  ended s = true → causal (with_states (dset (node_states i) v s) i).
Proof.
  intros Hc Hv Hs a b He Hb.
  assert (Hst : started s = true) by by destruct s.
  assert (Hsb : is_started i b).
  { destruct Hb as (sb & Hsb & Hb). unfold state_of in Hsb; simpl in Hsb. rewrite dget_dset in Hsb.
    case_decide as Hvb; [subst b|by exists sb]. destruct Hv as [Hv|Hv]; eexists; by split. }
  specialize (Hc a b He Hsb). unfold is_settled, state_of in *; simpl. rewrite dget_dset.
  case_decide as Hva; [subst a|done]. destruct Hv as [Hv|Hv]; by rewrite Hv in Hc.
Qed.

Lemma causal_mark i : causal i → causal (mark_running (eligible i) i).
Proof.
  intros Hc u v He Hv. destruct (mark_running_fields (eligible i) i) as (_ & Hd & _ & _).
  unfold wf_edges in He. rewrite Hd in He. fold (wf_edges i) in He.
  assert (Hu : is_settled i u = true).
  { destruct Hv as (s & Hs & Hst). rewrite mark_running_state in Hs. case_decide as Hel.
    - apply elem_of_eligible, is_ready_true in Hel as [_ Hr]. by apply Hr.
    - apply (Hc u v He). by exists s. }
  unfold is_settled in *. rewrite mark_running_state. rewrite decide_False; [done|].
  rewrite elem_of_eligible, is_ready_true. intros [Hp _]. by rewrite Hp in Hu.
Qed.

Lemma event_state_ended i e nid s : event_state i e nid = Some s → ended s = true.
Proof.
  unfold event_state. destruct (event_kind e); [by intros [= <-]| |done].
  destruct (dget _ nid) as [n|]; simpl; [|done]. intros [= <-]. by case_decide.
Qed.

(** The node states after an event. *)
Lemma event_effect_states t e nid i i' :
  event_effect t e nid i = Ok i' →
  definition i' = definition i ∧
  node_states i' = match event_state i e nid with
                   | Some s => dset (node_states i) nid s | None => node_states i end.
Proof.
  unfold event_effect, event_state. destruct (event_kind e); [by intros [= <-]| |by intros [= <-]].
  destruct (dget _ nid) as [n|]; simpl; [|done]. by case_decide; intros [= <-].
Qed.
Lemma replay_step_states e i i' :
  apply_event_to_instance i e = Ok i' →
  definition i' = definition i ∧
  (node_states i' = node_states i ∨
   ∃ nid s, event_node e = VStr nid ∧ event_state i e nid = Some s ∧
            node_states i' = dset (node_states i) nid s).
Proof.
  unfold apply_event_to_instance. fold (event_node e).
  destruct (event_node e) as [| | |nid| | | | |]; try by intros [= <-]; auto.
  destruct (_ && _); [|by intros [= <-]; auto].
  destruct (event_kind e) eqn:Hk; [|destruct (dget _ nid) as [n|] eqn:Hn; [|done]|by intros [= <-]; auto];
    intros [= <-]; (split; [done|right]); exists nid; eexists; (split; [done|]);
    unfold event_state, wf_nodes; rewrite Hk, ?Hn; done.
Qed.

Lemma causal_set_report i i' e nid :
  causal i → reports i e nid → definition i' = definition i →
  node_states i' = match event_state i e nid with
                   | Some s => dset (node_states i) nid s | None => node_states i end →
  causal i'.
Proof.
  intros Hc Hr Hd Hn. destruct (event_state i e nid) as [s|] eqn:Hs; [|by apply (causal_ext i)].
  apply (causal_ext (with_states (dset (node_states i) nid s) i)); [done|done|].
  apply causal_report; [done|by apply Hr|by eapply event_state_ended].
Qed.

Lemma causal_replay es i i' :
  causal i → trusted_all reports i es → replay_events i es = Ok i' → causal i'.
Proof.
  revert i. induction es as [|e es IH]; intros i Hc Hr.
  - unfold replay_events. simpl. by intros [= <-].
  - intros (i1 & H1 & H2)%replay_cons. destruct Hr as [Hr Hrest].
    apply (IH i1); [|by apply Hrest|done].
    destruct (replay_step_states e i i1 H1) as [Hd [Hn|(nid & s & Hnid & Hs & Hn)]].
    + by apply (causal_ext i).
    + apply (causal_set_report i i1 e nid); [done|by apply Hr|done|by rewrite Hs].
Qed.

Lemma completion_same t i :
  definition (completion t i) = definition i ∧ node_states (completion t i) = node_states i.
Proof. unfold completion. by destruct (_ && _). Qed.

Lemma causal_step i i' : wf_step reports i i' → causal i → causal i'.
Proof.
  intros Hs Hc. destruct Hs as [i _|i _|i t _|i e nid t t' i' _ Hr He|i _|i es i' _ Hr He].
  - by apply (causal_ext i).
  - by apply (causal_ext i).
  - intros u v He (s & Hs & Hst). unfold state_of in Hs; simpl in Hs. rewrite dget_cancel in Hs.
    destruct (dget (node_states i) v) as [sv|] eqn:Hv; [|done]. simpl in Hs.
    assert (Hu : is_settled i u = true).
    { apply (Hc u v He). exists sv. split; [done|]. by destruct sv; simplify_eq/=. }
    unfold is_settled, state_of in *; simpl. rewrite dget_cancel.
    by destruct (dget (node_states i) u) as [[]|].
  - destruct (completion_same t' i') as [Hd Hn]. apply (causal_ext i'); [done..|].
    destruct (event_effect_states t e nid i i' He) as [Hd' Hn'].
    apply (causal_set_report i i' e nid); [done|by apply Hr|done|done].
  - by apply causal_mark.
  - apply causal_mark. eapply causal_replay; [exact Hc|by apply Hr|done].
Qed.

Lemma causal_steps i i' : rtc (wf_step reports) i i' → causal i → causal i'.
Proof. induction 1 as [i|i j i' Hs _ IH]; [done|]. intros Hc. eapply IH, causal_step; eauto. Qed.

(** * The properties *)
Section properties.
Context `{!Oracle} {W : Type} `{!SchedulerPort W}.
Variable planner : WorkflowDefinition → outcome ExecutionPlan.
Variable R : trust.
Abbreviation S := (WfTables * (W * Env))%type.

(** C1: The orchestrator implements the machine: whatever calls are made and
    whatever fails in between (admission, the queue, the store, a missing
    key), a stored instance only moves by steps of the machine. *)
Theorem orchestrator_refines_machine (s s' : S) k i :
  tables_ok s.1 → history planner R s s' → stored k s.1 i →
  tables_ok s'.1 ∧ ∃ i', stored k s'.1 i' ∧ rtc (wf_step R) i i'.
Proof.
  intros Ht Hh Hi. destruct (history_moves planner R s s' Ht Hh) as (Ht' & Hf & _).
  split; [done|]. by apply Hf.
Qed.

(** C38: A finished workflow (succeeded, failed or cancelled in the store) is
    never changed again by any call. *)
Theorem finished_workflow_frozen (s s' : S) k i :
  tables_ok s.1 → history planner R s s' → stored k s.1 i → terminal (status i) = true →
  stored k s'.1 i.
Proof.
  intros Ht Hh Hi Hterm. destruct (history_moves planner R s s' Ht Hh) as (_ & Hf & _).
  destruct (Hf k i Hi) as (i' & Hi' & Hs). destruct Hs as [i|i j i' Hs _]; [done|].
  by apply terminal_no_step in Hs.
Qed.

(** C8: When events report what happened (each about a node that runs, or
    repeating a known outcome), no stored workflow ever has a node that
    started before all its predecessors succeeded or were skipped. *)
Theorem no_node_before_its_predecessors (s s' : S) k i u v :
  instance_rows s.1 = ∅ → history planner reports s s' → stored k s'.1 i →
  edge (wf_edges i) u v → is_started i v → is_settled i u = true.
Proof.
  intros He Hh Hi Huv Hv.
  assert (Ht : tables_ok s.1) by (intros k' j Hj; by rewrite He, lookup_empty in Hj).
  destruct (history_moves planner reports s s' Ht Hh) as (_ & _ & Hr).
  destruct (Hr ltac:(intros k' j [Hj _]; by rewrite He, lookup_empty in Hj) k i Hi)
    as (i0 & [_ Hi0] & Hs).
  refine (causal_steps _ _ Hs _ u v Huv Hv).
  intros a b _ (sb & Hsb & Hb). unfold state_of in Hsb. rewrite Hi0, dget_map_const in Hsb.
  case_decide; [|done]. injection Hsb as <-. done.
Qed.

(** A dispatch of a running instance submits exactly its ready nodes, in the
    order of the node table, each once, and then stores the instance with
    those nodes running; an instance that does not run is left alone. *)
Theorem dispatch_exact i (s : S) :
  instance_ok i →
  dispatch_eligible_nodes i s =
    (if decide (status i = WorkflowStatus.RUNNING) then
       for_each (eligible i) (submit_named i) ;;;
       checkpoint_workflow (mark_running (eligible i) i) ;;;
       ret (mark_running (eligible i) i)
     else ret i) s ∧
  NoDup (eligible i) ∧
  ∀ v, v ∈ eligible i ↔ state_of i v = Some NodeState.PENDING ∧
                         ∀ u, edge (wf_edges i) u v → is_settled i u = true.
Proof.
  intros Hok. split_and!; [by apply dispatch_run| |].
  - unfold eligible. apply NoDup_filter, Hok.
  - intros v. by rewrite elem_of_eligible, is_ready_true.
Qed.
End properties.

(** The states of a node that can still succeed, and of one being worked on. *)
Definition on_track (s : NodeState.t) : bool :=
  match s with NodeState.FAILED | NodeState.CANCELLED => false | _ => true end.
Definition in_progress (s : NodeState.t) : bool :=
  match s with NodeState.RUNNING | NodeState.PREPARING | NodeState.WAITING_APPROVAL => true | _ => false end.

Lemma settled_mark i v : is_settled (mark_running (eligible i) i) v = true → is_settled i v = true.
Proof. unfold is_settled. rewrite mark_running_state. by case_decide. Qed.

(** After a dispatch in which nothing is in progress, an acyclic graph has no
    pending node. *)
Lemma no_pending i :
  instance_ok i → acyclic (wf_edges i) →
  (∀ v s, state_of i v = Some s → on_track s = true) →
  let i' := mark_running (eligible i) i in
  (∀ v s, state_of i' v = Some s → in_progress s = false) →
  ∀ v, v ∈ dkeys (wf_nodes i) → is_settled i' v = true.
Proof.
  intros Hok Hac Hst i' Hnr v. pattern v. revert v. apply (acyclic_ind (wf_edges i)); [exact Hac|].
  intros v IH Hv. destruct (io_states _ Hok v Hv) as [s Hs]. pose proof (Hst v s Hs) as Hs1.
  pose proof (Hnr v) as Hv'. unfold i' in Hv'. rewrite mark_running_state in Hv'.
  destruct (decide (v ∈ eligible i)) as [|Hel]; [by specialize (Hv' _ eq_refl)|].
  unfold is_settled, i'. rewrite mark_running_state, decide_False, Hs by done. specialize (Hv' s Hs).
  destruct s; try done. destruct Hel. apply elem_of_eligible, is_ready_true. split; [done|]. intros u Hu.
  apply settled_mark, IH; [done|]. by apply (io_graph _ Hok) in Hu as [? _].
Qed.
(** Nor any outstanding one. *)
Lemma none_outstanding i :
  instance_ok i → acyclic (wf_edges i) →
  (∀ v s, state_of i v = Some s → on_track s = true) →
  let i' := mark_running (eligible i) i in
  (∀ v s, state_of i' v = Some s → in_progress s = false) → all_done i' = true.
Proof.
  intros Hok Hac Hst i' Hnr. pose proof (mark_running_ok (eligible i) i Hok) as Hok'. fold i' in Hok'.
  unfold all_done. apply negb_true_iff, not_true_iff_false. intros ([v s] & Hv%list_elem_of_In & Ho)%existsb_exists.
  simpl in Ho. apply dget_elem in Hv; [|apply Hok']. fold (state_of i' v) in Hv. specialize (Hnr v s Hv) as Hs.
  pose proof Hv as Hv'. unfold i' in Hv'. rewrite mark_running_state in Hv'.
  case_decide; [by simplify_eq|]. destruct s; try done.
  pose proof (no_pending i Hok Hac Hst Hnr v (io_pending _ Hok v Hv')) as Hset.
  fold i' in Hset. unfold is_settled in Hset. by rewrite Hv in Hset.
Qed.

Section progress.
Context `{!Oracle} {W : Type} `{!SchedulerPort W}.
Abbreviation S := (WfTables * (W * Env))%type.

(** C39: A dispatch that returns leaves no running workflow stuck (its edges join
    declared nodes and its states are those of its nodes): every node that
    was pending with all predecessors done now runs; and on an acyclic graph
    none of whose nodes failed or was cancelled, some node is in progress, or
    completing the workflow succeeds. *)
Theorem dispatch_progress i (s : S) i' s' :
  instance_ok i → status i = WorkflowStatus.RUNNING →
  dispatch_eligible_nodes i s = (Ok i', s') →
  (∀ v, state_of i v = Some NodeState.PENDING → (∀ u, edge (wf_edges i) u v → is_settled i u = true) →
     state_of i' v = Some NodeState.RUNNING) ∧
  (acyclic (wf_edges i) → (∀ v s, state_of i v = Some s → on_track s = true) →
   (∃ v x, state_of i' v = Some x ∧ in_progress x = true) ∨
   ∃ i'' s'', complete_workflow i' s' = (Ok i'', s'') ∧ status i'' = WorkflowStatus.SUCCEEDED).
Proof.
  intros Hok Hrun Hd. rewrite dispatch_run, decide_True in Hd by done.
  assert (i' = mark_running (eligible i) i) as ->.
  { unfold bind in Hd. destruct (for_each _ _ s) as [[[]|x] s1]; [|done].
    destruct (checkpoint_workflow _ s1) as [[[]|x] s2]; [|done]. by injection Hd. }
  clear Hd. split.
  { intros v Hv Hu. rewrite mark_running_state, decide_True; [done|]. by apply elem_of_eligible, is_ready_true. }
  intros Hac Hst. set (i' := mark_running (eligible i) i) in *.
  pose proof (mark_running_ok (eligible i) i Hok) as Hok'. fold i' in Hok'.
  destruct (decide (Exists (λ x, in_progress x.2 = true) (node_states i'))) as [He|He]; [left|right].
  { apply Exists_exists in He as ([v x] & Hv & Heq). exists v, x. split; [|done]. apply dget_elem; [apply Hok'|done]. }
  destruct (complete_run i' s') as (t & s'' & -> & _). eexists _, _. split; [done|].
  destruct (mark_running_fields (eligible i) i) as (Hs & _). fold i' in Hs.
  assert (all_done i' = true) as Hdone; [|unfold completion; by rewrite Hdone, Hs, bool_decide_true].
  apply none_outstanding; [done..|]. intros v x Hv. apply not_true_iff_false. intros Hx. apply He, Exists_exists. exists (v, x).
  split; [by apply dget_Some_elem|done].
Qed.
End progress.

(** * Examples: the diamond workflow on the intelligent scheduler *)
Section examples.
#[local] Existing Instance sample_oracle.
#[local] Existing Instance FIFOPolicy.policy.
#[local] Existing Instance FIFOPolicy.laws.
Abbreviation Sched := (Tracker * Queue FIFOPolicy.t)%type.
#[local] Instance sample_port : SchedulerPort Sched := intelligent_scheduler None.
Definition sample_planner (d : WorkflowDefinition) : outcome ExecutionPlan :=
  default (Raise bad_field) (plan 10 d).
Definition no_tables : WfTables := {| definition_rows := ∅; instance_rows := ∅ |}.
Definition sample_start : WfTables * (Sched * Env) :=
  (no_tables, ((new_tracker, fifo None), sample_world (Some empty_table) [])).
Definition node_event (n : nat) (d : event_data) (nid : string) : RuntimeEvent :=
  {| event_id := uuid4 n; runtime_id := "default-runtime"; correlation_id := None; causation_id := None;
     timestamp := now_iso n; event_type := class_name d; event_version := 1;
     event_metadata := [("workflow_instance_id", VStr "id-10"); ("node_id", VStr nid)]; data := d |}.
Definition sample_run (os : list wf_op) (s : WfTables * (Sched * Env)) : WfTables * (Sched * Env) :=
  foldl (λ s o, (run_op sample_planner o s).2) s os.
Lemma history_nil R s : history sample_planner R s (sample_run [] s).
Proof. apply history_refl. Qed.
Lemma history_cons R o os s :
  op_allowed R o s → history sample_planner R (sample_run [o] s) (sample_run os (sample_run [o] s)) →
  history sample_planner R s (sample_run (o :: os) s).
Proof. intros Ho Hs. by apply (history_call _ _ _ o). Qed.
(** What the store says of the workflow: its status and node states. *)
Definition stored_status (t : WfTables) (k : string) : option (pyval * pyval) :=
  match instance_rows t !! k with
  | Some (VDict d) => Some (default VNone (dget d "status"), default VNone (dget d "node_states"))
  | _ => None
  end.

Lemma diamond_start_ok : start_ok diamond_definition sample_start.
Proof.
  split; [reflexivity|]. split; [apply definition_storable_plain; vm_compute; reflexivity|].
  split; [|apply diamond_graph_ok]. apply (bool_decide_unpack _). vm_compute. exact I.
Qed.
Lemma no_tables_ok : tables_ok no_tables.
Proof. intros k j Hj. simpl in Hj. by rewrite lookup_empty in Hj. Qed.

(** The diamond started, and its tables. *)
Definition started_diamond : WfTables * (Sched * Env) :=
  sample_run [OpStart diamond_definition None] sample_start.
Lemma started_history : history sample_planner reports sample_start started_diamond.
Proof. apply history_cons; [apply diamond_start_ok|apply history_nil]. Qed.
Lemma started_ok : tables_ok started_diamond.1.
Proof.
  apply (run_op_moves sample_planner reports (OpStart diamond_definition None) sample_start no_tables_ok).
  apply diamond_start_ok.
Qed.
(** The instance a table holds. *)
Definition read_instance (t : WfTables) (k : string) : option WorkflowInstance :=
  match instance_rows t !! k with
  | Some (VDict d) => match instance_of_dict d with Ok i => Some i | Raise _ => None end
  | _ => None
  end.
Definition the_instance (t : WfTables) (k : string) : WorkflowInstance :=
  default (sample_instance default_node_policy) (read_instance t k).
Lemma stored_the (t : WfTables) k :
  tables_ok t → bool_decide (is_Some (instance_rows t !! k)) = true → stored k t (the_instance t k).
Proof.
  intros Ht [j Hj]%bool_decide_eq_true. destruct (Ht k j Hj) as (i & -> & Hg).
  unfold the_instance, read_instance. rewrite Hj, (instance_of_to_dict i) by apply Hg. by split.
Qed.
Lemma started_stored : stored "id-10" started_diamond.1 (the_instance started_diamond.1 "id-10").
Proof. apply stored_the; [apply started_ok|vm_compute; reflexivity]. Qed.

Lemma orchestrator_refines_machine_witness :
  let s' := sample_run [OpPause "id-10"] started_diamond in
  ∃ i', stored "id-10" s'.1 i' ∧ rtc (wf_step reports) (the_instance started_diamond.1 "id-10") i' ∧
    stored_status s'.1 "id-10" = Some (VStr "Paused", VDict [("a", VStr "Running"); ("b", VStr "Pending");
                                                           ("c", VStr "Pending"); ("d", VStr "Pending")]).
Proof.
  intros s'.
  assert (history sample_planner reports started_diamond s') as Hh.
  { apply history_cons; [exact I|apply history_nil]. }
  destruct (orchestrator_refines_machine sample_planner reports started_diamond s' "id-10" _ started_ok Hh
    started_stored) as (_ & i' & Hi' & Hs).
  exists i'. split; [exact Hi'|]. split; [exact Hs|]. vm_compute. reflexivity.
Defined.

(** A cancelled workflow, then a late completion of its running node. *)
Definition cancelled_diamond : WfTables * (Sched * Env) := sample_run [OpCancel "id-10"] started_diamond.
Lemma cancelled_ok : tables_ok cancelled_diamond.1.
Proof. apply (run_op_moves sample_planner reports (OpCancel "id-10") started_diamond started_ok I). Qed.
Lemma cancelled_stored : stored "id-10" cancelled_diamond.1 (the_instance cancelled_diamond.1 "id-10").
Proof. apply stored_the; [apply cancelled_ok|vm_compute; reflexivity]. Qed.

Lemma finished_workflow_frozen_witness :
  let late := node_event 30 (TaskCompleted "id-10_a") "a" in
  stored "id-10" (sample_run [OpEvent late; OpResume "id-10"] cancelled_diamond).1
    (the_instance cancelled_diamond.1 "id-10").
Proof.
  intros late.
  apply (finished_workflow_frozen sample_planner anything cancelled_diamond);
    [apply cancelled_ok| |apply cancelled_stored|vm_compute; reflexivity].
  apply history_cons; [intros k nid i _ _ _; exact I|].
  apply history_cons; [exact I|apply history_nil].
Defined.

(** The diamond with its first node done, as the event reports. *)
Definition half_event : RuntimeEvent := node_event 30 (TaskCompleted "id-10_a") "a".
Definition half_diamond : WfTables * (Sched * Env) := sample_run [OpEvent half_event] started_diamond.
Lemma started_running : state_of (the_instance started_diamond.1 "id-10") "a" = Some NodeState.RUNNING.
Proof. vm_compute. reflexivity. Qed.
Lemma half_history : history sample_planner reports sample_start half_diamond.
Proof.
  apply (history_trans _ _ _ _ _ started_history). apply history_cons; [|apply history_nil].
  intros k nid i [= <-] [= <-] Hi s [= <-]. left.
  rewrite (stored_inj _ _ _ _ Hi started_stored). apply started_running.
Qed.
Lemma half_stored : stored "id-10" half_diamond.1 (the_instance half_diamond.1 "id-10").
Proof.
  apply stored_the; [|vm_compute; reflexivity].
  apply (history_moves sample_planner reports sample_start half_diamond no_tables_ok half_history).
Qed.

Lemma no_node_before_its_predecessors_witness :
  let i := the_instance half_diamond.1 "id-10" in is_started i "b" ∧ is_settled i "a" = true.
Proof.
  intros i.
  assert (is_started i "b") as Hb by (exists NodeState.RUNNING; split; vm_compute; reflexivity).
  split; [exact Hb|].
  apply (no_node_before_its_predecessors sample_planner sample_start half_diamond "id-10" i "a" "b");
    [reflexivity|apply half_history|apply half_stored| |exact Hb].
  apply (bool_decide_unpack _). vm_compute. exact I.
Defined.

Lemma dispatch_exact_witness :
  let i := the_instance half_diamond.1 "id-10" in
  NoDup (eligible i) ∧ dispatch_eligible_nodes (W:=Sched) i half_diamond =
    (for_each (eligible i) (submit_named i) ;;;
     checkpoint_workflow (mark_running (eligible i) i) ;;; ret (mark_running (eligible i) i)) half_diamond.
Proof.
  intros i. assert (instance_ok i) as Hok by apply half_stored.
  destruct (dispatch_exact i half_diamond Hok) as (Hd & Hn & _). split; [exact Hn|].
  rewrite decide_True in Hd by (vm_compute; reflexivity). exact Hd.
Defined.

Lemma dispatch_progress_witness :
  let i := the_instance half_diamond.1 "id-10" in
  ∃ i' s', dispatch_eligible_nodes (W:=Sched) i half_diamond = (Ok i', s') ∧
    ((∃ v x, state_of i' v = Some x ∧ in_progress x = true) ∨
     ∃ i'' s'', complete_workflow (W:=Sched) i' s' = (Ok i'', s'') ∧ status i'' = WorkflowStatus.SUCCEEDED).
Proof.
  intros i. assert (match (dispatch_eligible_nodes (W:=Sched) i half_diamond).1 with Ok _ => true | _ => false end = true) as H
    by (vm_compute; reflexivity).
  destruct (dispatch_eligible_nodes (W:=Sched) i half_diamond) as [[i'|x] s'] eqn:E; [|discriminate H].
  exists i', s'. split; [reflexivity|]. apply (dispatch_progress i half_diamond i' s').
  - apply half_stored.
  - vm_compute. reflexivity.
  - exact E.
  - apply (pl_acyclic _ diamond_plannable).
  - clear E H. intros v s Hs. apply dget_Some_elem in Hs. vm_compute in Hs.
    repeat (apply elem_of_cons in Hs as [Hs|Hs]; [injection Hs as _ ->; reflexivity|]).
    by apply not_elem_of_nil in Hs.
Defined.

(** Two nodes without edges. *)
Definition pair_definition : WorkflowDefinition :=
  {| wf_name := "p";
     graph := {| nodes := [("a", sample_node "a" default_node_policy); ("b", sample_node "b" default_node_policy)];
                 edges := []; graph_version := "1.0.0" |};
     wf_version := "1.0.0"; wf_policy := default_workflow_policy; wf_metadata := default_metadata |}.
Definition log_event (n : nat) (e : RuntimeEvent) (s : WfTables * (Sched * Env)) : WfTables * (Sched * Env) :=
  (s.1, (s.2.1, with_store ((λ t, (append n e t).2) <$> env_store s.2.2) s.2.2)).

(** A failure that only recovery sees marks the node, but not the workflow:
    the new status is bound to a local name.  The workflow runs on, and
    succeeds with a failed node; delivered as an event, the same failure
    fails the workflow. *)
Theorem recovered_failure_forgotten :
  let s := sample_run [OpStart pair_definition None] sample_start in
  let failed := node_event 40 (TaskFailed "id-10_b" "boom") "b" in
  let s1 := sample_run [OpRecover "id-10"] (log_event 40 failed s) in
  let s2 := sample_run [OpEvent (node_event 50 (TaskCompleted "id-10_a") "a")] s1 in
  stored_status s1.1 "id-10" = Some (VStr "Running", VDict [("a", VStr "Running"); ("b", VStr "Failed")]) ∧
  stored_status s2.1 "id-10" = Some (VStr "Succeeded", VDict [("a", VStr "Succeeded"); ("b", VStr "Failed")]) ∧
  option_map fst (stored_status (sample_run [OpEvent failed] s).1 "id-10") = Some (VStr "Failed").
Proof. vm_compute. auto. Qed.
End examples.
