(* ===== verification/WorkflowQueue.v ===== *)
(** The orchestrator on a scheduler's queue: what a dispatch puts in the queue
    and in the event log, and what a cancellation takes out of it.  The queue's
    part is [TaskQueue]'s for the dispatch, and the contract of [QueuePort] for
    the cancellation, which is proved for every queue that keeps it; the
    instance's part is [WorkflowMachine]'s. *)
From S2P Require Import Prelude PyNum Heapq Values Decode Events EventStore RuntimeState Tasks Policy.
From S2P Require Import TaskQueue QueuePort QueueSpec QueueRecovery Admission Retry Delayed Scheduler WorkerPool System.
From S2P Require Import Runtime Protocol WorkflowModels Dag Builder Planner Orchestrator WorkflowMachine.
Open Scope Z_scope.

#[local] Arguments json_ok : simpl never.
#[local] Arguments instance_to_dict : simpl never.
#[local] Arguments definition_to_dict : simpl never.

(** A policy that serves in order of arrival. *)
Class ArrivalOrder (P : Type) `{PromptPolicy P} : Prop := {
  add_last (p p' : P) t :
    pol_wf p → task_id t ∉ pol_live p → pol_add t p = (Ok tt, p') → pol_live p' = pol_live p ++ [task_id t]
}.
#[export] Instance fifo_arrival :
  @ArrivalOrder FIFOPolicy.t FIFOPolicy.policy FIFOPolicy.laws fifo_prompt.
Proof. constructor. by intros p p' t _ _ [= <-]. Qed.

#[export] Instance node_task_id_inj i : Inj (=) (=) (node_task_id i).
Proof. intros n n' Hn. unfold node_task_id in Hn. by do 2 apply (inj _) in Hn. Qed.

(** * The store *)
Section store.
Context `{!Oracle} `{!ReliableStore} {W : Type}.

(** A checkpoint of a storable instance is kept. *)
Lemma checkpoint_kept i t (w : W) e es :
  instance_storable i = true → log_is e es →
  ∃ t', checkpoint_workflow (W:=W) i (t, (w, e)) = (Ok tt, (t', (w, next_tick e))) ∧
    instance_rows t' = <[instance_id i := VDict (instance_to_dict i)]> (instance_rows t) ∧ log_is (next_tick e) es.
Proof.
  intros Hi Hlog. pose proof (instance_json i Hi) as Hj.
  apply andb_true_iff in Hi as [Hd _]. pose proof (definition_json _ Hd) as Hdj.
  unfold checkpoint_workflow, Orchestrator.on_env, transaction, dumps. run_step.
  rewrite store_never_fails, Hdj, Hj. cbn [obind]. eexists. split; [done|]. split; [done|].
  by apply (log_is_later e); [|done|simpl; lia].
Qed.
Lemma load_stored k i (t : WfTables) (s : W * Env) :
  instance_rows t !! k = Some (VDict (instance_to_dict i)) → definition_plain (definition i) →
  load_instance (W:=W) k (t, s) = (Ok i, (t, (s.1, next_tick s.2))).
Proof.
  intros Hrow Hp. unfold load_instance, Orchestrator.on_env, loads. run_step.
  by rewrite store_never_fails, Hrow, (instance_of_to_dict i Hp).
Qed.
End store.

(** * Dispatch *)

Definition node_title (i : WorkflowInstance) (nid : string) : string := workflow_name i +:+ ":" +:+ nid.
(** The task of a node as the object of reference [r]. *)
Definition node_task `{!Oracle} (i : WorkflowInstance) (nid : string) (n : GraphNode) (r : nat) : Task :=
  set_id (node_task_id i nid)
    (fresh_task r (node_title i nid) (node_task_type n) (Some (node_task_metadata i nid n))).
(** It has a title, and the runtime's chain lets it through. *)
Definition submittable `{!Oracle} (i : WorkflowInstance) (nid : string) : bool :=
  match dget (wf_nodes i) nid with
  | Some n => str_truthy (strip (node_title i nid)) && bool_decide (admissible_task 255 (node_task i nid n 0))
  | None => false
  end.

Section dispatch.
Context `{!Oracle} `{!ReliableStore} {P : Type} `{HP : PolicyLaws P} `{!PromptPolicy P} `{!ArrivalOrder P}.
#[local] Instance port : SchedulerPort (Tracker * Queue P) :=
  intelligent_scheduler (Some (runtime_admission None)).
Implicit Types (q : Queue P) (e : Env) (t : WfTables) (d : Tracker).

(** Up to the queue: the object is made, renamed, admitted. *)
Lemma submit_node_run i nid n t d q e :
  str_truthy (strip (node_title i nid)) = true → admissible_task 255 (node_task i nid n (env_tick e)) →
  ∃ e2, submit_node i nid n (t, ((d, q), e)) =
          (let '(o, (q', e')) := enqueue (env_tick e) (q, e2) in (o, (t, ((d, q'), e')))) ∧
    env_tasks e2 = <[env_tick e := mutate 0 (node_task i nid n (env_tick e))]> (env_tasks e) ∧
    env_store e2 = env_store e ∧ env_tick e2 = S (env_tick e).
Proof.
  intros Htitle Hadm. unfold submit_node, Orchestrator.on_env, update_task. run_step.
  rewrite new_task_run. unfold node_title in Htitle. rewrite Htitle. simpl.
  set (r := env_tick e) in *. set (tk := node_task i nid n r) in *.
  set (e1 := with_tasks (alter _ r _) _).
  assert (Ht1 : env_tasks e1 !! r = Some tk) by (simpl; by rewrite lookup_alter_eq, lookup_insert_eq).
  unfold schedule, Scheduler.on_env. run_step.
  pose proof (standard_chain_run 255 0 r tk e1 Ht1) as Hrun. simpl in Hrun |- *. rewrite Hrun.
  rewrite decide_True by done. simpl. exists (with_tasks (<[r := mutate 0 tk]> (env_tasks e1)) e1).
  split; [by destruct (enqueue r _) as [[[]|x] [q' e']]|]. split; [|done]. simpl. apply map_eq. intros j.
  destruct (decide (r = j)) as [<-|Hj]; [by rewrite !lookup_insert_eq|].
  by rewrite lookup_insert_ne, lookup_alter_ne, !lookup_insert_ne by done.
Qed.

(** What a dispatch relies on: a sound queue without a limit, and a log. *)
Record accepting q e (es : list RuntimeEvent) : Prop := {
  ac_queue : queue_inv (q, e);
  ac_objects : env_wf e;
  ac_room : q_max_size q = None;
  ac_log : log_is e es
}.
(** The queue holds the task of a node, under the node's id. *)
Definition queued_node (i : WorkflowInstance) q e (nid : string) : Prop :=
  ∃ r tk, q_storage q !! node_task_id i nid = Some r ∧ env_tasks e !! r = Some tk ∧
          task_id tk = node_task_id i nid ∧ task_title tk = node_title i nid.

Lemma emitted_tick {A} dat e e' (o : outcome A) a : emitted dat e e' o a → (env_tick e ≤ env_tick e')%nat.
Proof.
  intros (e1 & o' & _ & Ht & He & _). pose proof (emit_meta_tick dat [] e1) as Hm. unfold emit in He.
  rewrite He in Hm. simpl in Hm. lia.
Qed.
Lemma submit_queues i nid t d q e es :
  submittable i nid = true → accepting q e es → node_task_id i nid ∉ pol_live (q_policy q) →
  ∃ q' e' ev, submit_named i nid (t, ((d, q), e)) = (Ok tt, (t, ((d, q'), e'))) ∧
    pol_live (q_policy q') = pol_live (q_policy q) ++ [node_task_id i nid] ∧
    accepting q' e' (es ++ [ev]) ∧ data ev = TaskQueued (node_task_id i nid) ∧
    queued_node i q' e' nid ∧
    (∀ nid', nid' ≠ nid → queued_node i q e nid' → queued_node i q' e' nid').
Proof.
  unfold submittable, submit_named. destruct (dget (wf_nodes i) nid) as [n|]; [|done].
  intros [Htitle Hadm]%andb_true_iff [Hinv Hwf Hroom Hlog] Hnew. apply bool_decide_eq_true in Hadm.
  set (r := env_tick e) in *. set (tk := mutate 0 (node_task i nid n r)).
  destruct (submit_node_run i nid n t d q e Htitle Hadm) as (e2 & -> & Htk2 & Hst2 & Hn2). fold r tk in Htk2 |- *.
  assert (Hold : ∀ r' u, env_tasks e !! r' = Some u → env_tasks e2 !! r' = Some u).
  { intros r' u Hr'. assert (r ≠ r') by (intros <-; specialize (Hwf r ltac:(by eexists)); lia).
    by rewrite Htk2, lookup_insert_ne. }
  assert (Hinv2 : queue_inv (q, e2)) by (apply (queue_inv_env q e e2 Hinv); intros r' u Hr'; eauto).
  assert (Ht2 : env_tasks e2 !! r = Some tk) by (by rewrite Htk2, lookup_insert_eq).
  assert (Hfull : is_full q = false) by (unfold is_full; by rewrite Hroom).
  assert (Hfresh : task_id tk ∉ pol_tracked (q_policy q)).
  { intros Hin. apply Hnew. by apply tracked_live in Hin; [|apply Hinv]. }
  destruct (enqueue_spec q e2 r tk Hinv2 Ht2 Hfull (addable_all tk) Hfresh)
    as (o & q' & e' & l1 & l2 & Hrun & Hinv' & Hl & Hl' & Hsto & _ & Hroom' & Htk' & _ & _ & Hem).
  destruct (pol_add_spec (q_policy q) tk) as (p' & _ & _ & Hadd & _); [apply Hinv|apply addable_all|done|].
  destruct (enqueue_run q e2 r tk p' Ht2 Hfull Hadd) as (o'' & e'' & evs & Hrun' & _).
  rewrite Hrun in Hrun'. injection Hrun' as -> Hq' ->.
  pose proof (log_is_later e e2 es Hlog Hst2 ltac:(lia)) as Hlog2.
  destruct (emitted_logs _ _ _ _ _ es Hlog2 Hem) as (-> & ev & Hev & Hlog'). rewrite Hrun.
  exists q', e'', ev. split_and!; [done| |constructor; [done| |congruence|done]|done| |].
  - rewrite Hq'. simpl. by apply (add_last _ _ tk); [apply Hinv| |].
  - intros r' Hr'. rewrite Htk' in Hr'. pose proof (emitted_tick _ _ _ _ _ Hem). apply (Nat.lt_le_trans _ (env_tick e2)); [|done].
    rewrite Hn2. destruct (decide (r = r')) as [<-|Hne]; [lia|]. fold r.
    rewrite lookup_alter_ne, Htk2, lookup_insert_ne in Hr' by done. specialize (Hwf r' Hr'). lia.
  - exists r, (stamped e2 tk). rewrite Hsto, lookup_insert_eq, Htk', lookup_alter_eq, Ht2. done.
  - intros nid' Hne (r' & u & Hr' & Hu & Hid & Htit).
    assert (r ≠ r') by (intros <-; specialize (Hwf r ltac:(by eexists)); lia).
    exists r', u. rewrite Hsto, lookup_insert_ne by (intros E; apply (inj (node_task_id i)) in E; congruence).
    rewrite Htk', lookup_alter_ne by done. split_and!; auto.
Qed.

Lemma submit_all i ks t d q e es :
  NoDup ks → Forall (λ nid, submittable i nid = true) ks → accepting q e es →
  Forall (λ nid, node_task_id i nid ∉ pol_live (q_policy q)) ks →
  ∃ q' e' evs, for_each ks (submit_named i) (t, ((d, q), e)) = (Ok tt, (t, ((d, q'), e'))) ∧
    pol_live (q_policy q') = pol_live (q_policy q) ++ (node_task_id i <$> ks) ∧
    accepting q' e' (es ++ evs) ∧ map data evs = TaskQueued <$> (node_task_id i <$> ks) ∧
    Forall (queued_node i q' e') ks ∧
    (∀ nid, nid ∉ ks → queued_node i q e nid → queued_node i q' e' nid).
Proof.
  revert q e es. induction ks as [|nid ks IH]; intros q e es Hnd Hs Hac Hnew.
  { exists q, e, []. rewrite !app_nil_r. by split_and!. }
  apply NoDup_cons in Hnd as [Hni Hnd]. apply Forall_cons in Hs as [Hs Hss]. apply Forall_cons in Hnew as [Hn Hnew].
  destruct (submit_queues i nid t d q e es Hs Hac Hn) as (q1 & e1 & ev & Hrun & Hl & Hac1 & Hev & Hq1 & Hk1).
  destruct (IH q1 e1 (es ++ [ev]) Hnd Hss Hac1) as (q' & e' & evs & Hrun' & Hl' & Hac' & Hevs & Hq' & Hk').
  { apply Forall_forall. intros nid' Hin. rewrite Hl, elem_of_app, list_elem_of_singleton.
    intros [Hold|E%(inj _)]; [by apply (proj1 (Forall_forall _ _) Hnew nid')|congruence]. }
  exists q', e', (ev :: evs). split_and!.
  - simpl. unfold bind. by rewrite Hrun, Hrun'.
  - by rewrite Hl', Hl, <-(assoc_L (++)).
  - by rewrite <-(assoc_L (++)) in Hac'.
  - csimpl. by rewrite Hev, Hevs.
  - constructor; [by apply Hk'|done].
  - intros nid' Hni'. rewrite not_elem_of_cons in Hni'. intros Hq. apply Hk'; [naive_solver|]. apply Hk1; naive_solver.
Qed.

Lemma mark_running_storable ks i : instance_storable (mark_running ks i) = instance_storable i.
Proof.
  unfold instance_storable. revert i. induction ks as [|k ks IH]; intros i; [done|]. simpl. by rewrite IH.
Qed.
(** C10: Dispatching a running instance that JSON can represent on the runtime's
    scheduler, with a store whose writes succeed, UUIDs that do not repeat and a
    queue without a limit that serves in order of arrival, when the admission chain accepts every ready node (its
    title, the workflow's name and the node's id, is not blank and has at most
    255 characters, and a SHELL node sets [allow_shell]) and no composite id of
    one waits in the queue already: the queue gains the tasks of exactly the ready nodes, last and in the order of
    the node table, each under its composite id and with its node's title; the
    log gains their TaskQueued events in the same order; and the store holds
    the instance with those nodes running. *)
Theorem dispatch_queues_ready_nodes i t d q e es :
  instance_ok i → instance_storable i = true → status i = WorkflowStatus.RUNNING → accepting q e es →
  Forall (λ nid, submittable i nid = true ∧ node_task_id i nid ∉ pol_live (q_policy q)) (eligible i) →
  ∃ t' q' e' evs,
    let i' := mark_running (eligible i) i in
    dispatch_eligible_nodes i (t, ((d, q), e)) = (Ok i', (t', ((d, q'), e'))) ∧
    instance_rows t' = <[instance_id i := VDict (instance_to_dict i')]> (instance_rows t) ∧
    pol_live (q_policy q') = pol_live (q_policy q) ++ (node_task_id i <$> eligible i) ∧
    Forall (queued_node i q' e') (eligible i) ∧
    accepting q' e' (es ++ evs) ∧ map data evs = TaskQueued <$> (node_task_id i <$> eligible i).
Proof.
  intros Hok Hsto Hrun Hac [Hsub Hnew]%Forall_and. rewrite (dispatch_run i _ Hok), decide_True by done.
  assert (Hnd : NoDup (eligible i)) by apply NoDup_filter, Hok.
  destruct (submit_all i (eligible i) t d q e es Hnd Hsub Hac Hnew)
    as (q1 & e1 & evs & Hs & Hl & [Hinv Hwf Hroom Hlog] & Hevs & Hqn & _).
  destruct (checkpoint_kept (mark_running (eligible i) i) t (d, q1) e1 (es ++ evs)) as (t' & Hc & Hrows & Hlog');
    [by rewrite mark_running_storable|done|].
  destruct (mark_running_fields (eligible i) i) as (_ & _ & Hid & _). rewrite Hid in Hrows.
  exists t', q1, (next_tick e1), evs. unfold bind. rewrite Hs, Hc. split_and!; try done.
  constructor; [by apply (queue_inv_env q1 e1); [|done]| |done|done].
  intros r Hr. specialize (Hwf r Hr). simpl. lia.
Qed.

(** ** Starting a workflow *)

(** [WorkflowPlanner().plan], with fuel for its walk back. *)
Definition default_planner (d : WorkflowDefinition) : outcome ExecutionPlan :=
  default (Raise RecursionError) (plan (length (nodes (graph d))) d).
(** The nodes without a predecessor. *)
Definition source_nodes (d : WorkflowDefinition) : list string :=
  filter (λ v, sources (pairs (edges (graph d))) v = []) (dkeys (nodes (graph d))).

Lemma accepting_tick q e es : accepting q e es → accepting q (next_tick e) es.
Proof.
  intros [Hinv Hwf Hroom Hlog]. constructor; [by apply (queue_inv_env q e)| |done|].
  - intros r Hr. specialize (Hwf r Hr). simpl. lia.
  - by apply (log_is_later e); [|done|simpl; lia].
Qed.
Lemma new_instance_state (d : WorkflowDefinition) inputs p iid st v :
  state_of (new_instance d inputs p iid st) v = if decide (v ∈ dkeys (nodes (graph d))) then Some NodeState.PENDING else None.
Proof. unfold state_of; simpl. apply dget_map_const. Qed.
Lemma new_instance_eligible (d : WorkflowDefinition) inputs p iid st : eligible (new_instance d inputs p iid st) = source_nodes d.
Proof.
  unfold eligible, source_nodes. set (i := new_instance d inputs p iid st).
  assert (dkeys (node_states i) = dkeys (nodes (graph d))) as ->.
  { unfold i, dkeys; simpl. change (map fst (map (λ nid, (nid, NodeState.PENDING)) (nodes (graph d)).*1) = (nodes (graph d)).*1).
    by rewrite map_map, map_id. }
  apply filter_ext_in. intros v Hv. unfold i. rewrite is_ready_true, new_instance_state, decide_True by done. split.
  - intros [_ Hu]. apply elem_of_nil_inv. intros u Hu'%elem_of_sources. specialize (Hu u Hu').
    unfold is_settled in Hu. rewrite new_instance_state in Hu. by destruct (decide _).
  - intros Hs. split; [done|]. intros u Hu%elem_of_sources.
    assert (u ∈ sources (pairs (edges (graph d))) v) as Hu' by exact Hu. rewrite Hs in Hu'. by apply not_elem_of_nil in Hu'.
Qed.
Lemma new_instance_storable (d : WorkflowDefinition) inputs p iid st :
  definition_storable d = true → values_ok (default [] inputs) = true →
  instance_storable (new_instance d inputs p iid st) = true.
Proof.
  intros Hd Hv. unfold instance_storable, new_instance. cbn [definition node_outputs]. rewrite Hd. cbn [andb].
  destruct (default [] inputs) as [|kv l]; [done|]. cbn [forallb snd]. by rewrite Hv.
Qed.

(** C11: What the builder builds can be started, if it has a node, no node has the
    empty name, its definition and its inputs can be represented in JSON (so no
    node has a policy of its own), and the admission chain accepts the nodes
    without a predecessor (title of 1 to 255 characters, not blank; [allow_shell]
    on SHELL nodes), whose composite ids do not wait in the queue yet:
    [start_workflow] with the default planner, on the runtime's scheduler with a
    store whose writes succeed, UUIDs that do not repeat and a queue without a
    limit that serves in order of arrival, returns a running instance; exactly the nodes without a predecessor run, their tasks are
    last in the queue in the order of the node table, the log has their
    TaskQueued events, the plan covers every node, and the instance is in the
    store under a new id. *)
Theorem built_workflow_starts b (d : WorkflowDefinition) inputs t d0 q e es :
  built b → build b = Ok d → nodes (graph d) ≠ [] → "" ∉ dkeys (nodes (graph d)) →
  definition_storable d = true → values_ok (default [] inputs) = true → accepting q e es →
  let new p := new_instance d inputs p (uuid4 (env_tick e)) (now_iso (S (env_tick e))) in
  (∀ p, Forall (λ nid, submittable (new p) nid = true ∧ node_task_id (new p) nid ∉ pol_live (q_policy q))
          (source_nodes d)) →
  ∃ p t' q' e' evs,
    let i := mark_running (source_nodes d) (new p) in
    let ids := node_task_id (new p) <$> source_nodes d in
    start_workflow default_planner d inputs (t, ((d0, q), e)) = (Ok i, (t', ((d0, q'), e'))) ∧
    status i = WorkflowStatus.RUNNING ∧
    (∀ v, v ∈ dkeys (nodes (graph d)) →
       state_of i v = Some (if decide (v ∈ source_nodes d) then NodeState.RUNNING else NodeState.PENDING)) ∧
    concat (map node_ids (phases p)) ≡ₚ dkeys (nodes (graph d)) ∧
    pol_live (q_policy q') = pol_live (q_policy q) ++ ids ∧ Forall (queued_node (new p) q' e') (source_nodes d) ∧
    accepting q' e' (es ++ evs) ∧ map data evs = TaskQueued <$> ids ∧
    stored (uuid4 (env_tick e)) t' i.
Proof.
  intros Hb Hd Hne Hnames Hsto Hin Hac new Hsub. destruct (built_graph b d Hb Hd) as (Hwf & Hg & Hacyc).
  destruct (plan_run (length (nodes (graph d))) d) as (levels & path & Hlev & Hplan & _); [by constructor|done|].
  set (p := {| phases := plan_phases levels; critical_path := path; plan_version := "1.0.0" |}) in *.
  assert (Hok : instance_ok (new p)) by by apply (initial_ok d).
  pose proof (new_instance_storable d inputs p (uuid4 (env_tick e)) (now_iso (S (env_tick e))) Hsto Hin) as His.
  fold (new p) in His. specialize (Hsub p). apply Forall_and in Hsub as [Hsub Hnew].
  pose proof (accepting_tick _ _ _ (accepting_tick _ _ _ Hac)) as Hac2. set (e2 := next_tick (next_tick e)) in *.
  destruct (checkpoint_kept (new p) t (d0, q) e2 es His (ac_log _ _ _ Hac2)) as (t1 & Hc1 & Hrows1 & _).
  pose proof (accepting_tick _ _ _ Hac2) as Hac3.
  assert (Hnd : NoDup (source_nodes d)) by apply NoDup_filter, Hg.
  destruct (submit_all (new p) (source_nodes d) t1 d0 q (next_tick e2) es Hnd Hsub Hac3 Hnew)
    as (q' & e3 & evs & Hs & Hl & Hac4 & Hevs & Hqn & _).
  destruct (checkpoint_kept (mark_running (source_nodes d) (new p)) t1 (d0, q') e3 (es ++ evs)) as (t' & Hc & Hrows & _);
    [by rewrite mark_running_storable|apply Hac4|].
  destruct (mark_running_fields (source_nodes d) (new p)) as (Hst & Hdef & Hid & _).
  exists p, t', q', (next_tick e3), evs. split_and!.
  - transitivity ((checkpoint_workflow (new p) ;;; dispatch_eligible_nodes (new p)) (t, ((d0, q), e2))).
    { unfold start_workflow, default_planner. by rewrite Hplan. }
    unfold bind at 1. rewrite Hc1, (dispatch_run (new p) _ Hok), decide_True by done.
    assert (eligible (new p) = source_nodes d) as -> by apply new_instance_eligible.
    unfold bind. by rewrite Hs, Hc.
  - done.
  - intros v Hv. rewrite mark_running_state. case_decide; [done|]. unfold new.
    by rewrite new_instance_state, decide_True.
  - by eapply phases_nodes; [|apply Hg].
  - done.
  - done.
  - by apply accepting_tick.
  - done.
  - split; [by rewrite Hrows, Hid, lookup_insert_eq|]. split; [done|]. split; [by apply mark_running_ok|].
    rewrite Hdef. by apply definition_storable_plain.
Qed.
End dispatch.

(** * Cancellation *)
Section cancellation.
Context `{!Oracle} `{!ReliableStore} {D Q : Type} `{!BaseTaskQueue Q} `{!TaskQueueLaws Q}.
Variable schedule : nat → M ((D * Q) * Env) unit.
#[local] Instance cancel_port : SchedulerPort (D * Q) := queue_backed schedule.
Implicit Types (q : Q) (e : Env) (t : WfTables) (d : D).
Abbreviation waiting q := ((bq_items q).*1).

Lemma filter_absent (x : string) (l : list string) : x ∉ l → filter (λ y, y ≠ x) l = l.
Proof. intros Hx. apply filter_all, Forall_forall. intros y Hy ->. done. Qed.

Lemma port_run {A} (m : M (Q * Env) A) d q e :
  zoom queue_lens m ((d, q), e) = let '(o, (q', e')) := m (q, e) in (o, ((d, q'), e')).
Proof. unfold zoom; simpl. by destruct (m (q, e)) as [o [q' e']]. Qed.
Lemma filter_ids (k : string) (l : list (string * nat)) : (filter (λ x, x.1 ≠ k) l).*1 = filter (λ j, j ≠ k) (l.*1).
Proof.
  induction l as [|[j r] l IH]; [done|]. csimpl. rewrite !filter_cons. simpl. by case_decide; csimpl; rewrite IH.
Qed.
Lemma cancel_task_run k t d q e es :
  bq_ok (q, e) → log_is e es →
  ∃ q' e' evs, cancel_task k (t, ((d, q), e)) = (Ok tt, (t, ((d, q'), e'))) ∧ bq_ok (q', e') ∧
    waiting q' = filter (λ j, j ≠ k) (waiting q) ∧ log_is e' (es ++ evs) ∧
    map data evs = TaskCancelled <$> filter (λ j, j ∈ waiting q) [k].
Proof.
  intros Hok Hlog. unfold cancel_task. run_step. rewrite port_run, (bq_contains_law q e k Hok), filter_cons, filter_nil.
  case_bool_decide as Hk; simpl.
  - apply list_elem_of_fmap in Hk as ([i r] & -> & Hin). cbn [fst] in *.
    destruct (bq_cancel_law q e i r Hok Hin) as (o & q' & e' & Hrun & Hok' & Hl & _ & Hem).
    destruct (emitted_logs _ _ _ _ _ es Hlog Hem) as (-> & ev & Hev & Hlog').
    rewrite port_run, Hrun. exists q', e', [ev].
    rewrite Hl, filter_ids, decide_True by (apply list_elem_of_fmap; by exists (i, r)).
    split_and!; [done..|]. simpl. by rewrite Hev.
  - exists q, e, []. rewrite decide_False, filter_absent, app_nil_r by done. by split_and!.
Qed.

(** The task ids of the nodes that are cancelled. *)
Definition cancelled_ids (i : WorkflowInstance) (items : list (string * NodeState.t)) : list string :=
  node_task_id i <$> (filter (λ x : string * NodeState.t, cancellable x.2 = true) items).*1.
Lemma cancelled_ids_cons i nid s items :
  cancelled_ids i ((nid, s) :: items) =
    if cancellable s then node_task_id i nid :: cancelled_ids i items else cancelled_ids i items.
Proof. unfold cancelled_ids. rewrite filter_cons. simpl. by destruct (cancellable s). Qed.

Lemma cancel_loop_queue i items t d q e es :
  dwf items → bq_ok (q, e) → log_is e es →
  ∃ q' e' evs, cancel_loop i items (t, ((d, q), e)) = (Ok (cancel_states items), (t, ((d, q'), e'))) ∧
    bq_ok (q', e') ∧
    waiting q' = filter (λ j, j ∉ cancelled_ids i items) (waiting q) ∧ log_is e' (es ++ evs) ∧
    map data evs = TaskCancelled <$> filter (λ j, j ∈ waiting q) (cancelled_ids i items).
Proof.
  revert q e es. induction items as [|[nid s] items IH]; intros q e es Hnd Hinv Hlog.
  { exists q, e, []. rewrite app_nil_r. split_and!; try done. symmetry. apply filter_all, Forall_forall.
    intros j _. apply not_elem_of_nil. }
  apply NoDup_cons in Hnd as [Hni Hnd]. rewrite cancelled_ids_cons. simpl.
  destruct (cancellable s) eqn:Hs.
  - set (k := node_task_id i nid).
    destruct (cancel_task_run k t d q e es Hinv Hlog) as (q1 & e1 & ev1 & Hrun & Hinv1 & Hl1 & Hlog1 & Hev1).
    destruct (IH q1 e1 (es ++ ev1) Hnd Hinv1 Hlog1) as (q' & e' & evs & Hrun' & Hinv' & Hl' & Hlog' & Hevs).
    exists q', e', (ev1 ++ evs). unfold bind. rewrite Hrun, Hrun'. split_and!; [done|done| | |].
    + rewrite Hl', Hl1, list_filter_filter. apply list_filter_iff. intros j. rewrite not_elem_of_cons. tauto.
    + by rewrite (assoc_L (++)).
    + assert (Hk : k ∉ cancelled_ids i items).
      { unfold cancelled_ids. intros (n & E%(inj _) & ([n' s'] & -> & [_ Hin]%list_elem_of_filter)%list_elem_of_fmap)%list_elem_of_fmap.
        simpl in E. subst n'. apply Hni, list_elem_of_fmap. by exists (nid, s'). }
      rewrite map_app, Hev1, Hevs, Hl1. change (k :: cancelled_ids i items) with ([k] ++ cancelled_ids i items).
      rewrite filter_app, fmap_app. f_equal. f_equal. apply filter_ext_in. intros j Hj.
      rewrite list_elem_of_filter. split; [tauto|]. intros ?. split; [|done]. by intros ->.
  - destruct (IH q e es Hnd Hinv Hlog) as (q' & e' & evs & Hrun' & Hrest).
    exists q', e', evs. unfold bind. rewrite Hrun'. done.
Qed.


(** C12: Cancelling a stored workflow that runs or is paused, on a scheduler whose
    queue keeps the contract of [QueuePort], as [InMemoryTaskQueue] does: the
    queue loses the
    tasks of exactly its nodes that were pending or running, whatever else
    waits in it keeps its order, the log gains a TaskCancelled for each task
    that was still queued, and the store holds the cancelled instance. *)
Theorem cancel_withdraws_nodes k i t d q e es :
  stored k t i → instance_storable i = true →
  status i = WorkflowStatus.RUNNING ∨ status i = WorkflowStatus.PAUSED → bq_ok (q, e) → log_is e es →
  ∃ c t' q' e' evs,
    let i' := with_completed c (with_states (cancel_states (node_states i)) (with_status WorkflowStatus.CANCELLED i)) in
    cancel_workflow k (t, ((d, q), e)) = (Ok i', (t', ((d, q'), e'))) ∧ stored k t' i' ∧
    bq_ok (q', e') ∧
    waiting q' = filter (λ j, j ∉ cancelled_ids i (node_states i)) (waiting q) ∧
    log_is e' (es ++ evs) ∧
    map data evs = TaskCancelled <$> filter (λ j, j ∈ waiting q) (cancelled_ids i (node_states i)).
Proof.
  intros [Hrow Hg] Hsto Hst Hinv Hlog. pose proof Hg as (Hid & Hok & Hplain).
  destruct (cancel_loop_queue i (node_states i) t d q (next_tick e) es (io_wf _ Hok))
    as (q1 & e1 & evs & Hrun & Hinv1 & Hl & Hlog1 & Hevs).
  { by apply (bq_ok_env q e). }
  { by apply (log_is_later e); [|done|simpl; lia]. }
  set (c := now_iso (env_tick e1)).
  set (i' := with_completed c (with_states (cancel_states (node_states i)) (with_status WorkflowStatus.CANCELLED i))).
  destruct (checkpoint_kept i' t (d, q1) (next_tick e1) (es ++ evs)) as (t' & Hc & Hrows & Hlog'); [done| |].
  { by apply (log_is_later e1); [|done|simpl; lia]. }
  exists c, t', q1, (next_tick (next_tick e1)), evs. split_and!; [| | |done..].
  - unfold cancel_workflow. unfold bind at 1. rewrite (load_stored k i t _ Hrow Hplain), decide_True by done.
    unfold bind at 1. cbn [fst snd]. rewrite Hrun.
    assert (now (t, ((d, q1), e1)) = (Ok c, (t, ((d, q1), next_tick e1)))) as Hnow by done.
    unfold bind. rewrite Hnow. fold i'. by rewrite Hc.
  - split; [by rewrite Hrows, <-Hid, lookup_insert_eq|].
    apply (good_step anything k i i' Hg). by apply step_cancel.
  - by apply (bq_ok_env q1 e1).
Qed.
End cancellation.


(** * Examples: two independent nodes *)
Section examples.
#[local] Existing Instance sample_oracle.
#[local] Existing Instance sample_reliable.
#[local] Existing Instance FIFOPolicy.policy.
#[local] Existing Instance FIFOPolicy.laws.
Abbreviation Q := (Queue FIFOPolicy.t).

Definition new_pair : WorkflowInstance :=
  {| instance_id := "i"; workflow_name := "p"; definition := pair_definition; status := WorkflowStatus.RUNNING;
     node_states := [("a", NodeState.PENDING); ("b", NodeState.PENDING)]; node_outputs := [];
     execution_plan := execution_plan (sample_instance default_node_policy); started_at := now_iso 0;
     completed_at := None; instance_version := "1.0.0" |}.
Definition idle_world : Env := sample_world (Some empty_table) [].
Lemma new_pair_ok : instance_ok new_pair.
Proof.
  apply (initial_ok pair_definition); [|split|done..].
  - apply (bool_decide_unpack _). vm_compute. exact I.
  - apply (bool_decide_unpack _). vm_compute. exact I.
  - by intros u v Huv%not_elem_of_nil.
Qed.
Lemma idle_accepting : accepting (new_queue None : Q) idle_world [].
Proof.
  constructor; [apply new_queue_inv| |done|].
  - intros r [t Ht]. simpl in Ht. by apply lookup_empty_Some in Ht.
  - exists empty_table. split; [reflexivity|]. split; [exact holds_empty|constructor].
Qed.
Lemma pair_eligible : eligible new_pair = ["a"; "b"].
Proof. vm_compute. reflexivity. Qed.
Lemma pair_submittable :
  Forall (λ nid, submittable new_pair nid = true ∧ node_task_id new_pair nid ∉ pol_live (q_policy (new_queue None : Q)))
    (eligible new_pair).
Proof.
  rewrite pair_eligible. repeat (apply Forall_cons; split; [split; [vm_compute; reflexivity|apply not_elem_of_nil]|]).
  constructor.
Qed.

Lemma dispatch_queues_ready_nodes_witness :
  ∃ t q e es, dispatch_eligible_nodes (SchedulerPort0:=port) new_pair (no_tables, ((new_tracker, new_queue None : Q), idle_world)) =
      (Ok (mark_running ["a"; "b"] new_pair), (t, ((new_tracker, q), e))) ∧
    pol_live (q_policy q) = ["i_a"; "i_b"] ∧ map data es = [TaskQueued "i_a"; TaskQueued "i_b"].
Proof.
  destruct (dispatch_queues_ready_nodes (P:=FIFOPolicy.t) new_pair no_tables new_tracker (new_queue None) idle_world []
    new_pair_ok eq_refl eq_refl idle_accepting pair_submittable) as (t & q & e & es & Hrun & _ & Hl & _ & _ & Hes).
  rewrite pair_eligible in *. exists t, q, e, es. split; [exact Hrun|]. split; [exact Hl|exact Hes].
Defined.

Lemma built_workflow_starts_witness :
  ∃ d, build diamond = Ok d ∧ ∃ i t q e,
    start_workflow (SchedulerPort0:=port) default_planner d None
      (no_tables, ((new_tracker, new_queue None : Q), idle_world)) = (Ok i, (t, ((new_tracker, q), e))) ∧
    status i = WorkflowStatus.RUNNING ∧ length (pol_live (q_policy q)) = 1%nat.
Proof.
  destruct (build diamond) as [d|x] eqn:Hd; [|exfalso; vm_compute in Hd; discriminate Hd].
  assert (definition_storable d = true ∧ nodes (graph d) ≠ [] ∧ ("" ∉ dkeys (nodes (graph d))) ∧ source_nodes d = ["a"] ∧
    ∀ p, submittable (new_instance d None p (uuid4 10) (now_iso 11)) "a" = true) as (Hs & Hne & Hnm & Hsrc & Hsub).
  { vm_compute in Hd. injection Hd as <-. split_and!.
    - vm_compute. reflexivity.
    - discriminate.
    - apply (bool_decide_unpack _). vm_compute. exact I.
    - vm_compute. reflexivity.
    - intros p. vm_compute. reflexivity. }
  exists d. split; [reflexivity|].
  destruct (built_workflow_starts (P:=FIFOPolicy.t) diamond d None no_tables new_tracker (new_queue None) idle_world []
    diamond_built Hd Hne Hnm Hs eq_refl idle_accepting) as (p & t & q & e & evs & Hrun & Hst & _ & _ & Hq & _).
  - intros p. rewrite Hsrc. apply Forall_singleton. split; [exact (Hsub p)|apply not_elem_of_nil].
  - rewrite Hsrc in Hq. eexists _, t, q, e. split; [exact Hrun|]. split; [exact Hst|]. by rewrite Hq.
Defined.

(** The two tasks queued, and the instance in the store. *)
Definition running_pair : WorkflowInstance := mark_running (eligible new_pair) new_pair.
Definition pair_tables : WfTables :=
  {| definition_rows := ∅; instance_rows := {[ "i" := VDict (instance_to_dict running_pair) ]} |}.
Lemma running_pair_stored : stored "i" pair_tables running_pair.
Proof.
  split; [apply lookup_singleton_eq|]. split; [vm_compute; reflexivity|].
  split; [apply mark_running_ok, new_pair_ok|]. apply definition_storable_plain. vm_compute. reflexivity.
Qed.

Lemma cancel_withdraws_nodes_witness :
  ∃ q0 e0, pol_live (q_policy (q0 : Q)) = ["i_a"; "i_b"] ∧
    ∃ i t q e, cancel_workflow (SchedulerPort0:=intelligent_scheduler None) "i"
        (pair_tables, ((new_tracker, q0), e0)) = (Ok i, (t, ((new_tracker, q), e))) ∧
      status i = WorkflowStatus.CANCELLED ∧ (contents q).*1 = [].
Proof.
  pose proof pair_submittable as [Hsub Hnew]%Forall_and.
  destruct (submit_all (P:=FIFOPolicy.t) new_pair (eligible new_pair) pair_tables new_tracker (new_queue None) idle_world []
    ltac:(apply NoDup_filter, (io_wf _ new_pair_ok)) Hsub idle_accepting Hnew)
    as (q0 & e0 & es & _ & Hl & [Hinv _ _ Hlog] & _).
  rewrite pair_eligible in Hl. exists q0, e0. split; [exact Hl|].
  destruct (cancel_withdraws_nodes (D:=Tracker) (Q:=Q) (TaskQueueLaws0:=in_memory_laws) (λ r, zoom sched_lens (schedule None r (PFloat f_zero)))
    "i" running_pair pair_tables new_tracker q0 e0 _
    running_pair_stored eq_refl (or_introl eq_refl) Hinv Hlog) as (c & t & q & e & evs & Hrun & _ & _ & Hq & _).
  eexists _, t, q, e. split; [exact Hrun|]. split; [reflexivity|].
  etrans; [exact Hq|]. etrans; [exact (f_equal (filter _) (proj1 (contents_ids q0 e0 Hinv)))|].
  rewrite Hl. vm_compute. reflexivity.
Defined.
End examples.
