(* ===== verification/WorkflowRuntime.v ===== *)
(** The workflow engine on the running system: the orchestrator's calls on the
    queue and the event log that the threads of [System] work on, the way
    a client that gives [rt.scheduler] to the orchestrator has it, in any interleaving.  The machine of
    [WorkflowMachine] says what such a run makes of a stored workflow; what
    the log of the run holds is [Timeline]'s. *)
From S2P Require Import Prelude PyNum Heapq Values Decode Events EventStore Tasks Policy.
From S2P Require Import TaskQueue QueuePort Admission Retry Delayed Scheduler WorkerPool System Timeline Runtime.
From S2P Require Import WorkflowModels Dag Builder Planner Orchestrator WorkflowMachine.
Open Scope Z_scope.

#[local] Arguments run_op {_ _ _} _ _ _ : simpl never.
#[local] Arguments answer {_ _ _} _ _ _ : simpl never.

(** * The orchestrator's calls only move the environment forward *)
Section forward.
Context `{!Oracle} {W : Type} `{!SchedulerPort W} `{!Timeline (W * Env)}.
Variable planner : WorkflowDefinition → outcome ExecutionPlan.
Hypothesis env_forward : ∀ A (m : M Env A), forward m → forward (S:=W * Env) (env m).
Hypothesis schedule_forward : ∀ r, forward (port_schedule (W:=W) r).
Hypothesis contains_forward : ∀ i, forward (port_contains (W:=W) i).
Hypothesis cancel_forward : ∀ i, forward (port_cancel (W:=W) i).
Abbreviation OM A := (M (WfTables * (W * Env)) A).

#[local] Hint Resolve schedule_forward contains_forward cancel_forward : forward.

Lemma f_engine_env {A} (m : M Env A) : forward m → forward (Orchestrator.on_env m : OM A).
Proof. intros Hm. by apply f_env, env_forward. Qed.
Lemma f_read {A} (f : Env → A) : forward (gets f).
Proof. by intros e. Qed.
#[local] Hint Resolve f_engine_env f_read : forward.
Lemma f_now : forward (now : OM string).
Proof. unfold now. forward. Qed.
#[local] Hint Resolve f_now : forward.
Lemma f_checkpoint i : forward (checkpoint_workflow i : OM unit).
Proof. unfold checkpoint_workflow. forward. Qed.
Lemma f_load k : forward (load_instance k : OM _).
Proof. unfold load_instance. forward. Qed.
Lemma f_submit_node i nid n : forward (submit_node i nid n : OM unit).
Proof. unfold submit_node. forward. Qed.
#[local] Hint Resolve f_checkpoint f_load f_submit_node : forward.
Lemma f_dispatch_loop ps ks i : forward (dispatch_loop ps ks i : OM _).
Proof. revert i. induction ks as [|k ks IH]; intros i; simpl; forward. Qed.
#[local] Hint Resolve f_dispatch_loop : forward.
Lemma f_dispatch_nodes i : forward (dispatch_eligible_nodes i : OM _).
Proof. unfold dispatch_eligible_nodes. forward. Qed.
Lemma f_cancel_loop i items : forward (cancel_loop i items : OM _).
Proof. induction items as [|[nid s] items IH]; simpl; unfold cancel_task; forward. Qed.
Lemma f_apply_event e nid i : forward (apply_event e nid i : OM _).
Proof. unfold apply_event. forward. Qed.
Lemma f_complete i : forward (complete_workflow i : OM _).
Proof. unfold complete_workflow. forward. Qed.
#[local] Hint Resolve f_dispatch_nodes f_cancel_loop f_apply_event f_complete : forward.
Lemma f_run_op o : forward (run_op planner o : OM unit).
Proof.
  destruct o; unfold run_op, start_workflow, pause_workflow, resume_workflow, cancel_workflow,
    on_runtime_event, recover_workflow; forward.
Qed.
End forward.

(** * Events that tell a workflow nothing *)

(** An event that is no report of an execution: it leaves the node it is about. *)
Definition inert : trust := λ _ e _, event_kind e = Other.

Lemma bare_inert e nid : bare e → event_node e = VStr nid → event_kind e = Other.
Proof.
  intros [Hm|(i & title & ty & Hd)]; [|intros _; unfold event_kind; by rewrite Hd].
  unfold event_node. by rewrite Hm.
Qed.
Lemma bare_trusted i es : Forall bare es → trusted_all inert i es.
Proof.
  intros Hes. revert i. induction Hes as [|e es He _ IH]; intros i; simpl; [done|].
  split; [intros nid Hn; by apply bare_inert in Hn|intros i' _; apply IH].
Qed.
Lemma replay_inert i es i' : trusted_all inert i es → replay_events i es = Ok i' → i' = i.
Proof.
  revert i. induction es as [|e es IH]; intros i; [intros _; unfold replay_events; simpl; by intros [= <-]|].
  intros [He Hes] (i1 & Hi1 & Hi')%replay_cons. rewrite (IH i1 (Hes i1 Hi1) Hi').
  clear Hi' Hes. unfold apply_event_to_instance in Hi1. fold (event_node e) in Hi1.
  destruct (event_node e) as [| | |nid| | | | |]; try by injection Hi1.
  rewrite (He nid eq_refl) in Hi1. destruct (_ && _); by injection Hi1.
Qed.

Lemma event_to_row_valid n e r : event_to_row n e = Ok r →
  json_ok (VDict (event_metadata e)) = true ∧ in_int64 (event_version e) = true.
Proof.
  unfold event_to_row, dumps, sql_int. destruct (json_ok (VDict (event_metadata e))); [|done].
  destruct (json_ok (VDict (to_dict e))); [|done]. by destruct (in_int64 _).
Qed.
(** What the log holds reads back with the metadata it was written with. *)
Lemma bare_row_read r : bare_row r → ∃ e, row_to_event r = Ok e ∧ bare e.
Proof.
  intros (ev & Hr & Hb). pose proof (event_to_row_inv _ _ _ Hr) as (_ & _ & _ & _ & Hd).
  destruct ev as [i rid co ca ts ty v m d].
  set (e := {| event_id := i; runtime_id := rid; correlation_id := co; causation_id := ca; timestamp := ts;
               event_type := class_name d; event_version := v; event_metadata := m; data := d |}).
  exists e. split; [|exact Hb]. unfold row_to_event, loads. rewrite Hd.
  apply (from_dict_to_dict "" "" e).
  split; [done|]. by apply (event_to_row_valid _ _ _ Hr).
Qed.
Lemma bare_rows_read rs es : Forall bare_row rs → omapM row_to_event rs = Ok es → Forall bare es.
Proof.
  intros Hrs. revert es. induction Hrs as [|r rs Hr _ IH]; intros es; simpl; [by intros [= <-]|].
  destruct (bare_row_read r Hr) as (e & -> & He). simpl.
  destruct (omapM row_to_event rs) as [es'|]; simpl; intros [= <-]. constructor; [done|by apply IH].
Qed.
Lemma stream_bare ts limit offset tbl es :
  Forall bare_row (rows tbl) → stream_from ts limit offset tbl = Ok es → Forall bare es.
Proof.
  intros Hrs. apply bare_rows_read. unfold sql_window.
  set (l := filter _ (rows tbl)).
  assert (Forall bare_row l).
  { apply Forall_forall. intros r [_ Hr]%list_elem_of_filter. revert r Hr. by apply Forall_forall. }
  case_match; auto using Forall_drop, Forall_take.
Qed.

(** * Workflows that do not hear of their nodes *)

(** What is left of a workflow that no report reaches: nodes without a
    predecessor run, the others wait, and nothing ends but by a cancellation. *)
Definition unreported (s : NodeState.t) : Prop :=
  s = NodeState.PENDING ∨ s = NodeState.RUNNING ∨ s = NodeState.CANCELLED.
Definition open_ended (s : WorkflowStatus.t) : Prop :=
  s = WorkflowStatus.RUNNING ∨ s = WorkflowStatus.PAUSED.
Record stalled (i : WorkflowInstance) : Prop := {
  sl_known : ∀ v, v ∈ dkeys (wf_nodes i) → is_Some (state_of i v);
  sl_states : ∀ v s, state_of i v = Some s → unreported s;
  sl_roots : ∀ u v, edge (wf_edges i) u v → state_of i v ≠ Some NodeState.RUNNING;
  sl_open : open_ended (status i) → ∀ v, state_of i v ≠ Some NodeState.CANCELLED;
  sl_status : wf_nodes i ≠ [] → open_ended (status i) ∨ status i = WorkflowStatus.CANCELLED
}.

Lemma initial_stalled i : initial i → stalled i.
Proof.
  intros [Hst Hns].
  assert (Hp : ∀ v s, state_of i v = Some s → s = NodeState.PENDING).
  { intros v s. unfold state_of. rewrite Hns, dget_map_const. case_decide; [congruence|done]. }
  constructor.
  - intros v Hv. unfold state_of. rewrite Hns, dget_map_const. by case_decide.
  - intros v s ->%Hp. by left.
  - by intros u v _ ?%Hp.
  - by intros _ v ?%Hp.
  - intros _. left. by left.
Qed.
Lemma stalled_ext i i' :
  definition i' = definition i → node_states i' = node_states i →
  (open_ended (status i') → open_ended (status i)) →
  (wf_nodes i ≠ [] → open_ended (status i') ∨ status i' = WorkflowStatus.CANCELLED) →
  stalled i → stalled i'.
Proof.
  intros Hd Hn Ho Hs [H1 H2 H3 H4 H5]. unfold wf_nodes, wf_edges, state_of in *.
  constructor; unfold wf_nodes, wf_edges, state_of; rewrite ?Hd, ?Hn; auto.
Qed.
Lemma unreported_unsettled i v : stalled i → is_settled i v = false.
Proof.
  intros Hs. unfold is_settled. destruct (state_of i v) as [s|] eqn:Hv; [|done].
  by destruct (sl_states i Hs v s Hv) as [->|[->| ->]].
Qed.
Lemma stalled_eligible i v : stalled i → v ∈ eligible i → ∀ u, ¬ edge (wf_edges i) u v.
Proof.
  intros Hs [_ Hv]%elem_of_eligible%is_ready_true u Hu%Hv. by rewrite unreported_unsettled in Hu.
Qed.
Lemma stalled_dispatch i : status i = WorkflowStatus.RUNNING → stalled i → stalled (mark_running (eligible i) i).
Proof.
  intros Hrun Hs. destruct (mark_running_fields (eligible i) i) as (Hst & Hd & _).
  pose proof Hs as [H1 H2 H3 H4 H5]. unfold wf_nodes, wf_edges in *.
  constructor; unfold wf_nodes, wf_edges; rewrite ?Hd, ?Hst.
  - intros v Hv. rewrite mark_running_state. case_decide; [done|auto].
  - intros v s. rewrite mark_running_state. case_decide; [intros [= <-]; right; by left|apply H2].
  - intros u v Huv. rewrite mark_running_state. case_decide as Hel; [|by apply (H3 u)].
    by destruct (stalled_eligible i v Hs Hel u).
  - intros Ho v. rewrite mark_running_state. case_decide; [done|by apply H4].
  - done.
Qed.
Lemma stalled_completion t i : stalled i → stalled (completion t i).
Proof.
  intros Hs. unfold completion. destruct (all_done i) eqn:Hall; [|done].
  case_bool_decide as Hrun; [|done]; simpl.
  apply (stalled_ext i); [done|done|by intros [?|?]| |done].
  intros Hn. exfalso. destruct (wf_nodes i) as [|[v n] ns] eqn:Hnodes; [done|].
  destruct (sl_known i Hs v) as [s Hv]; [rewrite Hnodes; by left|].
  apply negb_true_iff, not_true_iff_false in Hall. apply Hall, existsb_exists. exists (v, s).
  split; [by apply list_elem_of_In, dget_Some_elem|].
  destruct (sl_states i Hs v s Hv) as [->|[->| ->]]; [done..|].
  by destruct (sl_open i Hs (or_introl Hrun) v).
Qed.
Lemma stalled_step i i' : wf_step inert i i' → stalled i → stalled i'.
Proof.
  intros Hstep Hs. destruct Hstep as [i Hr|i Hp|i t Ho|i e nid t t' i' Hr He Heff|i Hr|i es i' Hr Hes Hrep].
  - apply (stalled_ext i); [done|done|by left|by left; right|done].
  - apply (stalled_ext i); [done|done|by right|by left; left|done].
  - destruct Hs as [H1 H2 H3 H4 H5]. unfold wf_nodes, wf_edges, state_of in *.
    constructor; unfold wf_nodes, wf_edges, state_of; simpl.
    + intros v [s Hv]%H1. rewrite dget_cancel, Hv. by eexists.
    + intros v s. rewrite dget_cancel. destruct (dget (node_states i) v) as [sv|] eqn:Hv; [|done].
      intros [= <-]. right; right. by destruct (H2 v sv Hv) as [->|[->| ->]].
    + intros u v Huv. rewrite dget_cancel.
      destruct (dget (node_states i) v) as [sv|] eqn:Hv; [|done]. by destruct (H2 v sv Hv) as [->|[->| ->]].
    + by intros [?|?].
    + by right.
  - unfold event_effect in Heff. rewrite He in Heff. injection Heff as <-. by apply stalled_completion.
  - by apply stalled_dispatch.
  - rewrite (replay_inert i es i' Hes Hrep). by apply stalled_dispatch.
Qed.
Lemma stalled_steps i i' : rtc (wf_step inert) i i' → stalled i → stalled i'.
Proof. induction 1 as [|i j i' Hs _ IH]; [done|]. intros Hi. eapply IH, stalled_step; eauto. Qed.

(** * The composed system *)
Section composed.
Context `{!Oracle} {P : Type} `{!SchedulingPolicy P}.
Variable planner : WorkflowDefinition → outcome ExecutionPlan.
Variable admission_controller : option (list AdmissionPlugin).
Abbreviation Sched := (Tracker * (Queue P * Env))%type.
Abbreviation CS := (WfTables * (TaskManager * (Threads * (Pool * Sched))))%type.
Abbreviation EngineState := (WfTables * ((Tracker * Queue P) * Env))%type.

(** The runtime's scheduler, as the orchestrator uses it. *)
#[local] Instance runtime_port : SchedulerPort (Tracker * Queue P) :=
  intelligent_scheduler (Some (runtime_admission admission_controller)).

Definition engine_lens : lens CS EngineState :=
  Lens (λ s, (s.1, ((s.2.2.2.2.1, s.2.2.2.2.2.1), s.2.2.2.2.2.2)))
       (λ x s, (x.1, (s.2.1, (s.2.2.1, (s.2.2.2.1, (x.2.1.1, (x.2.1.2, x.2.2))))))).
Definition engine (o : wf_op) : M CS unit := zoom engine_lens (run_op planner o).

(** An event of the log handed to [on_runtime_event], as a subscriber would. *)
Definition deliver (n : nat) : M CS unit := λ s,
  match Timeline.history (environment s.2.2) !! n with
  | None => (Ok tt, s)
  | Some r => match row_to_event r with
              | Ok e => engine (OpEvent e) s
              | Raise x => (Raise x, s)
              end
  end.

(** A step of the system: a client's call of the orchestrator or of the
    runtime, an action of one of the threads, or a delivery. *)
Inductive turn : Type :=
  | Call (o : wf_op)
  | Work (c : Runtime.call)
  | StartRuntime
  | Deliver (n : nat).
Definition take_turn (x : turn) (s : CS) : CS :=
  match x with
  | Call o => (engine o s).2
  | Work c => (s.1, answer admission_controller c s.2)
  | StartRuntime => (s.1, (client_start s.2).2)
  | Deliver n => (deliver n s).2
  end.

(** The client makes up no event, and starts storable definitions. *)
Definition proper (x : turn) (s : CS) : Prop :=
  match x with
  | Call (OpStart d _) => start_ok d (lget engine_lens s)
  | Call (OpEvent _) => False
  | _ => True
  end.
Inductive together : CS → CS → Prop :=
  | together_refl s : together s s
  | together_turn s x s' : proper x s → together (take_turn x s) s' → together s s'.

Hypothesis Hfwd : plugins_forward (Some (runtime_admission admission_controller)).

Lemma f_sched_port {A} (m : M Sched A) : forward m → forward (zoom sched_lens m : M ((Tracker * Queue P) * Env) A).
Proof.
  intros Hm [[d q] e]. specialize (Hm (d, (q, e))). unfold zoom; simpl in *. by destruct (m (d, (q, e))).
Qed.
Lemma f_queue_port {A} (m : M (Queue P * Env) A) :
  forward m → forward (zoom queue_lens m : M ((Tracker * Queue P) * Env) A).
Proof. intros Hm [[d q] e]. specialize (Hm (q, e)). unfold zoom; simpl in *. by destruct (m (q, e)). Qed.
Lemma f_contains i : forward (contains (P:=P) i).
Proof. unfold contains. forward. Qed.
Lemma f_cancel i : forward (cancel (P:=P) i).
Proof. unfold cancel. forward. Qed.
Lemma f_engine o : forward (engine o).
Proof.
  intros s. unfold engine, zoom.
  assert (Hf : forward (run_op (W:=Tracker * Queue P) planner o)).
  { apply f_run_op; [by intros A m Hm; apply f_env|..]; intros ?.
    - by apply f_sched_port, f_schedule.
    - apply f_queue_port, f_contains.
    - apply f_queue_port, f_cancel. }
  specialize (Hf (lget engine_lens s)). by destruct (run_op planner o (lget engine_lens s)).
Qed.
Lemma turn_later x s : later s (take_turn x s).
Proof.
  destruct x as [o|c| |n]; simpl.
  - apply f_engine.
  - by apply (answer_later admission_controller Hfwd c).
  - apply start_later.
  - unfold deliver. destruct (_ !! n); [|done]. destruct (row_to_event _); [apply f_engine|done].
Qed.

(** The runs of the system are histories of the orchestrator, with the runtime
    between its calls; no event of their log is a report. *)
Definition quiet (s : CS) : Prop := Forall bare_row (Timeline.history (environment s.2.2)).
Abbreviation seen s := (lget engine_lens s).

Lemma later_quiet s s' : later s s' → quiet s → quiet s'.
Proof.
  intros [_ Hl] Hq. unfold quiet, Timeline.history in *.
  change (store_later (env_store (environment s.2.2)) (env_store (environment s'.2.2))) in Hl.
  destruct Hl as [tbl tbl' [(new & -> & Hnew) _]|]; [|done]. by apply Forall_app.
Qed.
Lemma engine_seen o s : seen (engine o s).2 = (run_op planner o (seen s)).2.
Proof.
  unfold engine, zoom. destruct (run_op planner o (seen s)) as [r [t [[d q] e]]]. done.
Qed.
Lemma engine_history o s : op_allowed inert o (seen s) →
  history planner inert (seen s) (seen (engine o s).2).
Proof. intros Ho. rewrite engine_seen. by apply (history_call _ _ _ o); [|apply history_refl]. Qed.
Lemma turn_history x s : quiet s → proper x s → history planner inert (seen s) (seen (take_turn x s)).
Proof.
  intros Hq Hx. destruct x as [o|c| |n]; cbn [take_turn].
  - apply engine_history. destruct o as [d ins|k|k|k|e|k]; try done.
    intros i tbl es _ Htbl Hes. apply bare_trusted. apply (stream_bare (started_at i) default_limit 0 tbl); [|done].
    unfold quiet, Timeline.history in Hq. change (env_store (environment s.2.2) = Some tbl) in Htbl.
    by rewrite Htbl in Hq.
  - apply (history_other _ _ _ (seen (s.1, answer admission_controller c s.2)).2), history_refl.
  - apply (history_other _ _ _ (seen (s.1, (client_start s.2).2)).2), history_refl.
  - unfold deliver. destruct (_ !! n) as [r|] eqn:Hr; [|apply history_refl].
    destruct (bare_row_read r) as (e & -> & He); [by apply (Forall_lookup_1 _ _ n r Hq)|].
    apply engine_history. intros k nid i Hk Hn _. by apply (bare_inert e nid).
Qed.
Lemma together_history s s' : together s s' → quiet s → history planner inert (seen s) (seen s').
Proof.
  induction 1 as [s|s x s' Hx _ IH]; intros Hq; [apply history_refl|].
  eapply history_trans; [by apply turn_history|]. apply IH, (later_quiet s); [apply turn_later|done].
Qed.
Lemma together_tables s s' : tables_ok s.1 → quiet s → together s s' → tables_ok s'.1.
Proof.
  intros Hok Hq Ht. exact (proj1 (history_moves planner inert (seen s) (seen s') Hok (together_history s s' Ht Hq))).
Qed.
Lemma together_stalled s s' k i :
  instance_rows s.1 = ∅ → quiet s → together s s' → stored k s'.1 i → stalled i.
Proof.
  intros He Hq Ht Hi. pose proof (together_history s s' Ht Hq) as Hh.
  assert (Hok : tables_ok (seen s).1) by (intros k' j Hj; simpl in Hj; by rewrite He, lookup_empty in Hj).
  destruct (history_moves planner inert _ _ Hok Hh) as (_ & _ & Hr).
  destruct (Hr ltac:(intros k' j [Hj _]; simpl in Hj; by rewrite He, lookup_empty in Hj) k i Hi) as (i0 & Hi0 & Hs).
  by apply (stalled_steps i0), initial_stalled.
Qed.
End composed.

(** * What the composition shows *)
Section theorems.
Context `{!Oracle} {P : Type} `{!SchedulingPolicy P}.
Variable planner : WorkflowDefinition → outcome ExecutionPlan.
Abbreviation CS := (WfTables * (TaskManager * (Threads * (Pool * (Tracker * (Queue P * Env))))))%type.

(** C9: The events that the runtime logs name no workflow, so no execution of a
    node is ever reported to its workflow: in every run of the orchestrator
    on the runtime (its calls, recovery included, its handler given any event
    of the log, and any actions of the threads, in any order), a node that has
    a predecessor waits until it is cancelled, and a workflow that has nodes
    neither succeeds nor fails. *)
Theorem dependent_nodes_wait (s s' : CS) k i :
  instance_rows s.1 = ∅ → Timeline.history (environment s.2.2) = [] →
  together planner None s s' → stored k s'.1 i →
  (∀ u v, edge (wf_edges i) u v →
     state_of i v = Some NodeState.PENDING ∨ state_of i v = Some NodeState.CANCELLED) ∧
  (wf_nodes i ≠ [] →
     status i = WorkflowStatus.RUNNING ∨ status i = WorkflowStatus.PAUSED ∨ status i = WorkflowStatus.CANCELLED).
Proof.
  intros He Hlog Ht Hi. assert (Hq : quiet s) by (unfold quiet; by rewrite Hlog).
  pose proof (together_stalled planner None standard_chain_forward s s' k i He Hq Ht Hi) as Hs.
  pose proof Hi as (_ & _ & Hok & _). split.
  - intros u v Huv. assert (v ∈ dkeys (wf_nodes i)) as Hv by by apply (io_graph _ Hok) in Huv as [_ ?].
    destruct (sl_known i Hs v Hv) as [st Hst]. rewrite Hst.
    destruct (sl_states i Hs v st Hst) as [->|[->| ->]]; [by left| |by right]. by destruct (sl_roots i Hs u v Huv).
  - intros Hn. destruct (sl_status i Hs Hn) as [[?|?]|?]; auto.
Qed.
End theorems.

(** * Example: the diamond, its first node executed *)
Section examples.
#[local] Existing Instance sample_oracle.
#[local] Existing Instance FIFOPolicy.policy.
Abbreviation CS := (WfTables * (TaskManager * (Threads * (Pool * (Tracker * (Queue FIFOPolicy.t * Env))))))%type.

Definition turns (l : list turn) (s : CS) : CS := foldl (λ s x, take_turn sample_planner None x s) s l.
(** Turns a client may take at any time. *)
Definition always (x : turn) : bool :=
  match x with Call (OpStart _ _) | Call (OpEvent _) => false | _ => true end.
Lemma together_always l s : forallb always l = true → together sample_planner None s (turns l s).
Proof.
  revert s. induction l as [|x l IH]; intros s; [intros _; apply together_refl|].
  intros [Hx Hl]%andb_true_iff. apply (together_turn _ _ _ x); [|by apply IH].
  by destruct x as [[]| | |].
Qed.

Definition before : CS := (no_tables, fresh (Some empty_table)).
Definition execute_first : list turn :=
  StartRuntime :: ((λ a, Work (Thread a)) <$> (dispatch ++ worker "W-001" 7 (Ok tt))).
Definition report_all : list turn := Deliver <$> seq 0 20.
Definition after : CS :=
  turns (execute_first ++ report_all ++ [Call (OpRecover "id-10")])
    (take_turn sample_planner None (Call (OpStart diamond_definition None)) before).

(** The last event of the log. *)
Definition last_logged (s : CS) : option event_data :=
  r ← last (Timeline.history (environment s.2.2));
  match row_to_event r with Ok e => Some (data e) | Raise _ => None end.
Lemma before_after : together sample_planner None before after.
Proof.
  apply (together_turn _ _ _ (Call (OpStart diamond_definition None))); [|by apply together_always].
  split; [reflexivity|]. exact (proj2 diamond_start_ok).
Qed.
Lemma after_stored : stored "id-10" after.1 (the_instance after.1 "id-10").
Proof.
  apply stored_the; [|vm_compute; reflexivity].
  exact (together_tables sample_planner None standard_chain_forward before after no_tables_ok
    (Forall_nil_2 _) before_after).
Qed.

Lemma dependent_nodes_wait_witness :
  last_logged after = Some (TaskCompleted "id-10_a") ∧
  stored_status after.1 "id-10" = Some (VStr "Running", VDict [("a", VStr "Running"); ("b", VStr "Pending");
    ("c", VStr "Pending"); ("d", VStr "Pending")]) ∧
  (state_of (the_instance after.1 "id-10") "b" = Some NodeState.PENDING ∨
   state_of (the_instance after.1 "id-10") "b" = Some NodeState.CANCELLED).
Proof.
  split; [vm_compute; reflexivity|]. split; [vm_compute; reflexivity|].
  destruct (dependent_nodes_wait sample_planner before after "id-10" (the_instance after.1 "id-10"))
    as [Hb _]; [reflexivity|reflexivity|apply before_after|apply after_stored|].
  apply (Hb "a" "b"). unfold edge. apply (bool_decide_unpack _). vm_compute. exact I.
Defined.
End examples.
