(* ===== verification/Execution.v ===== *)
(** [executors/domain/models.py]: the immutable values executors exchange, their
    dictionary forms and back.

    The dataclasses check no type: a field holds whatever value its constructor
    was given, so fields that callers fill from payloads and task metadata are
    [pyval]s; only nested dataclasses are typed. *)
From S2P Require Import Prelude PyNum Values Decode.
Open Scope Z_scope.

Inductive ExecutionStatus : Type :=
  | QUEUED | PREPARING | RUNNING | SUCCEEDED | FAILED | TIMED_OUT | CANCELLED | RETRYING | RECOVERED.
#[export] Instance ExecutionStatus_eq_dec : EqDecision ExecutionStatus.
Proof. solve_decision. Defined.

Definition exec_status_value (s : ExecutionStatus) : string :=
  match s with
  | QUEUED => "Queued" | PREPARING => "Preparing" | RUNNING => "Running"
  | SUCCEEDED => "Succeeded" | FAILED => "Failed" | TIMED_OUT => "TimedOut"
  | CANCELLED => "Cancelled" | RETRYING => "Retrying" | RECOVERED => "Recovered"
  end.
Definition exec_statuses : list ExecutionStatus :=
  [QUEUED; PREPARING; RUNNING; SUCCEEDED; FAILED; TIMED_OUT; CANCELLED; RETRYING; RECOVERED].
(** [ExecutionStatus(v)]: equality of a string value; anything else is not a member. *)
Definition exec_status_of (v : pyval) : outcome ExecutionStatus :=
  match v with
  | VStr s =>
      match find (λ st, exec_status_value st =s? s) exec_statuses with
      | Some st => Ok st
      | None => Raise (ValueError "is not a valid ExecutionStatus")
      end
  | _ => Raise (ValueError "is not a valid ExecutionStatus")
  end.

(** [v.get(...)] of a value that is not a dictionary *)
Definition getting (v : pyval) : outcome (odict pyval) :=
  match v with VDict d => Ok d | _ => Raise (AttributeError "get") end.

(** * The dataclasses *)
Record ExecutionCapabilities : Type := { cap_tags : pyval; cap_version : pyval }.
Definition capabilities_to_dict (c : ExecutionCapabilities) : odict pyval :=
  [("tags", asdict (cap_tags c)); ("version", asdict (cap_version c))].
Definition capabilities_from_dict (d : odict pyval) : ExecutionCapabilities :=
  {| cap_tags := get_or d "tags" (VList []); cap_version := get_or d "version" (VStr "1.0.0") |}.

Record ExecutionMetadata : Type := {
  em_started_at : pyval; em_completed_at : pyval; em_duration_seconds : pyval;
  em_extra : pyval; em_version : pyval
}.
Definition default_metadata : ExecutionMetadata :=
  {| em_started_at := VNone; em_completed_at := VNone; em_duration_seconds := VNum (PFloat f_zero);
     em_extra := VDict []; em_version := VStr "1.0.0" |}.
Definition metadata_to_dict (m : ExecutionMetadata) : odict pyval :=
  [("started_at", asdict (em_started_at m)); ("completed_at", asdict (em_completed_at m));
   ("duration_seconds", asdict (em_duration_seconds m)); ("extra", asdict (em_extra m));
   ("version", asdict (em_version m))].
Definition metadata_from_dict (d : odict pyval) : ExecutionMetadata :=
  {| em_started_at := get_or d "started_at" VNone; em_completed_at := get_or d "completed_at" VNone;
     em_duration_seconds := get_or d "duration_seconds" (VNum (PFloat f_zero));
     em_extra := get_or d "extra" (VDict []); em_version := get_or d "version" (VStr "1.0.0") |}.

Record ExecutionError : Type := {
  ee_message : pyval; ee_error_type : pyval; ee_stack_trace : pyval;
  ee_is_transient : pyval; ee_version : pyval
}.
(** [ExecutionError(message=..., error_type=..., is_transient=...)] *)
Definition new_error (message : pyval) (error_type : string) (is_transient : pyval) : ExecutionError :=
  {| ee_message := message; ee_error_type := VStr error_type; ee_stack_trace := VNone;
     ee_is_transient := is_transient; ee_version := VStr "1.0.0" |}.
Definition error_to_dict (e : ExecutionError) : odict pyval :=
  [("message", asdict (ee_message e)); ("error_type", asdict (ee_error_type e));
   ("stack_trace", asdict (ee_stack_trace e)); ("is_transient", asdict (ee_is_transient e));
   ("version", asdict (ee_version e))].
Definition error_from_dict (d : odict pyval) : ExecutionError :=
  {| ee_message := get_or d "message" (VStr ""); ee_error_type := get_or d "error_type" (VStr "UnknownError");
     ee_stack_trace := get_or d "stack_trace" VNone; ee_is_transient := get_or d "is_transient" (VBool false);
     ee_version := get_or d "version" (VStr "1.0.0") |}.

Record ExecutionPolicy : Type := {
  ep_timeout_seconds : pyval; ep_max_retries : pyval; ep_retry_delay_seconds : pyval;
  ep_priority : pyval; ep_cpu_limit : pyval; ep_memory_limit_mb : pyval; ep_version : pyval
}.
(** [ExecutionPolicy(timeout_seconds=..., max_retries=..., retry_delay_seconds=...)] *)
Definition new_policy (timeout max_retries retry_delay : pyval) : ExecutionPolicy :=
  {| ep_timeout_seconds := timeout; ep_max_retries := max_retries; ep_retry_delay_seconds := retry_delay;
     ep_priority := VInt 0; ep_cpu_limit := VNone; ep_memory_limit_mb := VNone;
     ep_version := VStr "1.0.0" |}.
Definition default_policy : ExecutionPolicy :=
  new_policy VNone (VInt 0) (VNum (PFloat (round_to_float 1 0))).
Definition policy_to_dict (p : ExecutionPolicy) : odict pyval :=
  [("timeout_seconds", asdict (ep_timeout_seconds p)); ("max_retries", asdict (ep_max_retries p));
   ("retry_delay_seconds", asdict (ep_retry_delay_seconds p)); ("priority", asdict (ep_priority p));
   ("cpu_limit", asdict (ep_cpu_limit p)); ("memory_limit_mb", asdict (ep_memory_limit_mb p));
   ("version", asdict (ep_version p))].
Definition policy_from_dict (d : odict pyval) : ExecutionPolicy :=
  {| ep_timeout_seconds := get_or d "timeout_seconds" VNone;
     ep_max_retries := get_or d "max_retries" (VInt 0);
     ep_retry_delay_seconds := get_or d "retry_delay_seconds" (VNum (PFloat (round_to_float 1 0)));
     ep_priority := get_or d "priority" (VInt 0); ep_cpu_limit := get_or d "cpu_limit" VNone;
     ep_memory_limit_mb := get_or d "memory_limit_mb" VNone;
     ep_version := get_or d "version" (VStr "1.0.0") |}.

Record ExecutionRequest : Type := {
  rq_executor_type : pyval; rq_payload : pyval; rq_policy : ExecutionPolicy; rq_version : pyval
}.
Definition request_to_dict (r : ExecutionRequest) : odict pyval :=
  [("executor_type", rq_executor_type r); ("payload", rq_payload r);
   ("policy", VDict (policy_to_dict (rq_policy r))); ("version", rq_version r)].
Definition request_from_dict (d : odict pyval) : outcome ExecutionRequest :=
  let? p := getting (get_or d "policy" (VDict [])) in
  Ok {| rq_executor_type := get_or d "executor_type" (VStr "");
        rq_payload := get_or d "payload" (VDict []); rq_policy := policy_from_dict p;
        rq_version := get_or d "version" (VStr "1.0.0") |}.

Record ExecutionResult : Type := {
  rs_status : ExecutionStatus; rs_output : pyval; rs_error : option ExecutionError;
  rs_metadata : ExecutionMetadata; rs_version : pyval
}.
(** [ExecutionResult(status=..., output=..., error=..., metadata=...)] *)
Definition new_result (s : ExecutionStatus) (output : pyval) (error : option ExecutionError)
    (m : ExecutionMetadata) : ExecutionResult :=
  {| rs_status := s; rs_output := output; rs_error := error; rs_metadata := m;
     rs_version := VStr "1.0.0" |}.
Definition result_to_dict (r : ExecutionResult) : odict pyval :=
  [("status", VStr (exec_status_value (rs_status r))); ("output", rs_output r);
   ("error", match rs_error r with Some e => VDict (error_to_dict e) | None => VNone end);
   ("metadata", VDict (metadata_to_dict (rs_metadata r))); ("version", rs_version r)].
Definition result_from_dict (d : odict pyval) : outcome ExecutionResult :=
  let? s := exec_status_of (get_or d "status" (VStr "Failed")) in
  let v := get_or d "error" VNone in
  let? e := (if truthy v then let? ed := getting v in Ok (Some (error_from_dict ed)) else Ok None) in
  let? m := getting (get_or d "metadata" (VDict [])) in
  Ok {| rs_status := s; rs_output := get_or d "output" VNone; rs_error := e;
        rs_metadata := metadata_from_dict m; rs_version := get_or d "version" (VStr "1.0.0") |}.

(** [services.configuration] is always a dictionary here: no code of the
    repository sets it. *)
Record ExecutionServices : Type := {
  sv_logger : pyval; sv_metrics : pyval; sv_event_store : pyval; sv_state_store : pyval;
  sv_configuration : odict pyval
}.
Record ExecutionContext : Type := {
  cx_runtime_id : string; cx_task_id : string; cx_worker_id : string;
  cx_correlation_id : pyval; cx_causation_id : pyval; cx_deadline : pyval;
  cx_cancellation_token : pyval; cx_resource_limits : odict pyval;
  cx_services : option ExecutionServices
}.
(** [replace(context, correlation_id=..., causation_id=...)] *)
Definition with_ids (correlation causation : pyval) (c : ExecutionContext) : ExecutionContext :=
  {| cx_runtime_id := cx_runtime_id c; cx_task_id := cx_task_id c; cx_worker_id := cx_worker_id c;
     cx_correlation_id := correlation; cx_causation_id := causation; cx_deadline := cx_deadline c;
     cx_cancellation_token := cx_cancellation_token c; cx_resource_limits := cx_resource_limits c;
     cx_services := cx_services c |}.

(** * Correctness *)

(** Every field holds a JSON value. *)
Definition all_json (vs : list pyval) : Prop := Forall (λ v, json_ok v = true) vs.
Definition policy_json (p : ExecutionPolicy) : Prop :=
  all_json [ep_timeout_seconds p; ep_max_retries p; ep_retry_delay_seconds p; ep_priority p;
            ep_cpu_limit p; ep_memory_limit_mb p; ep_version p].
Definition error_json (e : ExecutionError) : Prop :=
  all_json [ee_message e; ee_error_type e; ee_stack_trace e; ee_is_transient e; ee_version e].
Definition metadata_json (m : ExecutionMetadata) : Prop :=
  all_json [em_started_at m; em_completed_at m; em_duration_seconds m; em_extra m; em_version m].
Definition request_json (r : ExecutionRequest) : Prop :=
  all_json [rq_executor_type r; rq_payload r; rq_version r] ∧ policy_json (rq_policy r).
Definition result_json (r : ExecutionResult) : Prop :=
  all_json [rs_output r; rs_version r] ∧ metadata_json (rs_metadata r) ∧
  match rs_error r with Some e => error_json e | None => True end.

Lemma exec_status_of_value s : exec_status_of (VStr (exec_status_value s)) = Ok s.
Proof. by destruct s. Qed.

(** Split [all_json] of concrete fields and rewrite [asdict] and [json_ok] of
    each. *)
Ltac json_fields :=
  unfold request_json, result_json, policy_json, error_json, metadata_json, all_json in *;
  simpl in *; rewrite ?Forall_cons in *; destruct_and?;
  repeat match goal with H : json_ok ?v = true |- _ =>
    rewrite ?(asdict_json_ok v H), ?H; clear H end;
  simpl; try done.

Lemma policy_roundtrip p : policy_json p →
  policy_from_dict (policy_to_dict p) = p ∧ json_ok (VDict (policy_to_dict p)) = true.
Proof. destruct p; intros Hp. unfold policy_to_dict. by json_fields. Qed.
Lemma error_roundtrip e : error_json e →
  error_from_dict (error_to_dict e) = e ∧ json_ok (VDict (error_to_dict e)) = true.
Proof. destruct e; intros He. unfold error_to_dict. by json_fields. Qed.
Lemma metadata_roundtrip m : metadata_json m →
  metadata_from_dict (metadata_to_dict m) = m ∧ json_ok (VDict (metadata_to_dict m)) = true.
Proof. destruct m; intros Hm. unfold metadata_to_dict. by json_fields. Qed.

Lemma request_roundtrip r : request_json r →
  request_from_dict (request_to_dict r) = Ok r ∧ json_ok (VDict (request_to_dict r)) = true.
Proof.
  destruct r as [ty pl p v]. intros [Hr [Hp Hj]%policy_roundtrip].
  unfold request_from_dict, request_to_dict. rewrite !json_dict_cons. read_dict. cbn [getting obind].
  cbn [rq_policy] in *. rewrite Hp, Hj. by json_fields.
Qed.
Lemma result_roundtrip r : result_json r →
  result_from_dict (result_to_dict r) = Ok r ∧ json_ok (VDict (result_to_dict r)) = true.
Proof.
  destruct r as [s o e m v]. intros (Hr & [Hm Hj]%metadata_roundtrip & He).
  unfold result_from_dict, result_to_dict. rewrite !json_dict_cons. read_dict.
  rewrite exec_status_of_value. cbn [obind getting rs_metadata rs_error] in *. rewrite Hm, Hj.
  destruct e as [e|]; [apply error_roundtrip in He as [He Hje]; cbn [getting obind]|].
  - rewrite He, Hje. by json_fields.
  - by json_fields.
Qed.

(** Executions cross process boundaries as JSON: a request, and a result with or
    without an error, whose fields hold JSON values is serialised and read back
    unchanged. *)
Theorem execution_json_roundtrip q r :
  request_json q → result_json r →
  (∃ j, dumps (VDict (request_to_dict q)) = Ok j ∧
        (let? d := getting (loads j) in request_from_dict d) = Ok q) ∧
  (∃ j, dumps (VDict (result_to_dict r)) = Ok j ∧
        (let? d := getting (loads j) in result_from_dict d) = Ok r).
Proof.
  intros [Hq Hjq]%request_roundtrip [Hr Hjr]%result_roundtrip. unfold dumps, loads.
  rewrite Hjq, Hjr. split; (eexists; split; [reflexivity|done]).
Qed.

Definition sample_request : ExecutionRequest := {|
  rq_executor_type := VStr "MockExecutor"; rq_payload := VDict [("delay_seconds", VInt 0)];
  rq_policy := new_policy VNone (VInt 2) (VInt 0); rq_version := VStr "1.0.0" |}.
Definition sample_failure : ExecutionResult :=
  new_result FAILED VNone (Some (new_error (VStr "boom") "ValueError" (VBool true))) default_metadata.

Lemma execution_json_roundtrip_witness :
  (∃ j, dumps (VDict (request_to_dict sample_request)) = Ok j ∧
        (let? d := getting (loads j) in request_from_dict d) = Ok sample_request) ∧
  (∃ j, dumps (VDict (result_to_dict sample_failure)) = Ok j ∧
        (let? d := getting (loads j) in result_from_dict d) = Ok sample_failure).
Proof.
  apply execution_json_roundtrip.
  - split; repeat constructor.
  - split; [repeat constructor|split; repeat constructor].
Defined.
