(* ===== verification/Middleware.v ===== *)
(** [executors/middleware/base.py], [executors/middleware/concrete.py]: the
    onion of middlewares around an executor call.

    A handler runs on a world [W] that holds the shared environment; [Host] is
    what the code reaches from there beyond this repository. *)
From S2P Require Import Prelude PyNum Values Decode Events EventStore Tasks Execution.
Open Scope Z_scope.

(** [a or b] *)
Definition py_or (a b : pyval) : pyval := if truthy a then a else b.
(** [n >= v] of an int *)
Definition int_ge (n : Z) (v : pyval) : outcome bool :=
  match as_num v with
  | Some m => Ok (num_le m (PInt n))
  | None => Raise (TypeError "'>=' not supported")
  end.
(** What [time.sleep] and [Thread.join] do to a number of seconds: nanoseconds
    in 64 bits, [OverflowError] beyond.  [join] takes a negative one for zero. *)
Definition seconds_arg (v : pyval) : outcome num :=
  match as_num v with
  | None => Raise (TypeError "cannot be interpreted as an integer")
  | Some (PInt z) => if in_int64 (z * 10 ^ 9) then Ok (PInt z) else Raise OverflowError
  | Some (PFloat f) =>
      if is_nan f then Raise (ValueError "Invalid value NaN (not a number)")
      else
        let ns := PFloat (fmul f (round_to_float (10 ^ 9) 0)) in
        if num_le (PInt (- 2 ^ 63)) ns && num_lt ns (PInt (2 ^ 63)) then Ok (PFloat f)
        else Raise OverflowError
  end.
Definition sleep_arg (v : pyval) : outcome unit :=
  let? n := seconds_arg v in
  if num_lt n (PInt 0) then Raise (ValueError "sleep length must be non-negative") else Ok tt.

Definition join_arg (v : pyval) : outcome unit :=
  match as_num v with
  | Some n => if num_lt n (PInt 0) then Ok tt else let? _ := seconds_arg v in Ok tt
  | None => Raise (TypeError "'>' not supported")
  end.

Definition succeeded (r : ExecutionResult) : bool := bool_decide (rs_status r = SUCCEEDED).

(** The host of an execution: where the environment is in the world; whether a
    call given to a thread is still running when the [join] with its time-out
    returns, and the world it has reached by then; the text of a value in an
    f-string; the [append] of the event store and the [record_execution] of the
    metrics object in the services (no class of the repository has the latter). *)
Class Host (W : Type) : Type := {
  world_env : lens W Env;
  late : ∀ A : Type, M W A → W → option W;
  str_of : pyval → string;
  store_append : pyval → event_data → M W unit;
  record_execution : pyval → pyval → string → spec_float → M W unit
}.

Section middleware.
Context `{!Oracle} {W : Type} `{!Host W}.

Abbreviation handler := (ExecutionRequest → ExecutionContext → M W ExecutionResult).
(** [ExecutionMiddleware.process] *)
Abbreviation middleware := (ExecutionRequest → ExecutionContext → handler → M W ExecutionResult).

(** ** [MiddlewarePipeline] *)
Fixpoint compile_chain (n : nat) (ms : list middleware) (index : nat) (target : handler) : handler :=
  match n with
  | O => target
  | S n' =>
      match ms !! index with
      | None => target
      | Some m => λ req ctx, m req ctx (compile_chain n' ms (S index) target)
      end
  end.
Definition pipeline_execute (ms : list middleware) (req : ExecutionRequest) (ctx : ExecutionContext)
    (target : handler) : M W ExecutionResult :=
  compile_chain (length ms) ms 0 target req ctx.

(** ** The middlewares *)
Definition reading : M W nat := zoom world_env tick.

(** [LoggingMiddleware.process]; the log lines are not part of the world *)
Definition LoggingMiddleware : middleware := λ req ctx next,
  _ <- reading ;;
  result <- next req ctx ;;
  _ <- reading ;;
  ret result.

(** [MetricsMiddleware.process] *)
Definition MetricsMiddleware : middleware := λ req ctx next,
  start <- reading ;;
  result <- next req ctx ;;
  stop <- reading ;;
  match cx_services ctx with
  | Some s =>
      if truthy (sv_metrics s) then
        swallow (record_execution (sv_metrics s) (rq_executor_type req) (exec_status_value (rs_status result))
                   (fsub (time_now stop) (time_now start))) ;;;
        ret result
      else ret result
  | None => ret result
  end.

(** [TracingMiddleware.process] *)
Definition TracingMiddleware : middleware := λ req ctx next,
  correlation <- (if truthy (cx_correlation_id ctx) then ret (cx_correlation_id ctx)
                  else n <- reading ;; ret (VStr (uuid4 n))) ;;
  next req (with_ids correlation (py_or (cx_causation_id ctx) (VStr (cx_task_id ctx))) ctx).

(** [not timeout or timeout <= 0] *)
Definition no_limit (v : pyval) : outcome bool :=
  if truthy v then
    match as_num v with
    | Some n => Ok (num_le n (PInt 0))
    | None => Raise (TypeError "'<=' not supported")
    end
  else Ok true.
(** the thread's body and what [process] makes of it once it has ended: only
    an [Exception] is kept for the caller *)
Definition thread_result (m : M W ExecutionResult) : M W ExecutionResult :=
  catch m (λ x, if isinstance x "Exception" then raise x
                else ret (new_result FAILED VNone
                  (Some (new_error (VStr "Thread finished without output") "InternalError" (VBool false)))
                  default_metadata)).
Definition timed_out (timeout : pyval) : M W ExecutionResult :=
  started <- reading ;;
  completed <- reading ;;
  ret (new_result TIMED_OUT VNone
    (Some (new_error (VStr ("Execution exceeded timeout limit of " +:+ str_of timeout +:+ " seconds."))
                     "TimeoutError" (VBool true)))
    {| em_started_at := VStr (now_iso started); em_completed_at := VStr (now_iso completed);
       em_duration_seconds := timeout; em_extra := VDict []; em_version := VStr "1.0.0" |}).
(** [TimeoutMiddleware.process] *)
Definition TimeoutMiddleware : middleware := λ req ctx next,
  let timeout := ep_timeout_seconds (rq_policy req) in
  skip <- of_outcome (no_limit timeout) ;;
  if (skip : bool) then next req ctx
  else λ w,
    match late _ (next req ctx) w with
    | Some w' => (_ <- of_outcome (join_arg timeout) ;; timed_out timeout) w'
    | None =>
        match join_arg timeout with
        | Ok _ => thread_result (next req ctx) w
        | Raise x => (Raise x, (next req ctx w).2)
        end
    end.

(** [RetryMiddleware.process]: the event of the [n]-th retry and the pause
    before it *)
Definition log_retry (ctx : ExecutionContext) (n : Z) : M W unit :=
  match cx_services ctx with
  | Some s =>
      if truthy (sv_event_store s) then
        swallow (store_append (sv_event_store s) (TaskRetried (cx_task_id ctx) n))
      else ret tt
  | None => ret tt
  end.
Definition retry_pause (req : ExecutionRequest) (ctx : ExecutionContext) (n : Z) : M W unit :=
  log_retry ctx n ;;;
  of_outcome (sleep_arg (ep_retry_delay_seconds (rq_policy req))).
(** The [while True] loop; fuel that runs out stands for a loop still running. *)
Fixpoint retry_loop (fuel : nat) (next : handler) (req : ExecutionRequest) (ctx : ExecutionContext)
    (attempts : Z) : M W ExecutionResult :=
  result <- next req ctx ;;
  if succeeded result then ret result
  else
    stop <- of_outcome (int_ge attempts (ep_max_retries (rq_policy req))) ;;
    if (stop : bool) then ret result
    else
      match fuel with
      | O => raise RecursionError
      | S fuel' =>
          retry_pause req ctx (attempts + 1) ;;;
          retry_loop fuel' next req ctx (attempts + 1)
      end.
Definition RetryMiddleware (fuel : nat) : middleware := λ req ctx next,
  retry_loop fuel next req ctx 0.

(** * Correctness *)

(** ** The pipeline *)
(** The onion a list of middlewares should be. *)
Definition onion (ms : list middleware) (target : handler) : handler :=
  foldr (λ m next req ctx, m req ctx next) target ms.

Lemma compile_chain_onion n ms i target :
  (length ms ≤ n + i)%nat → compile_chain n ms i target = onion (drop i ms) target.
Proof.
  revert i. induction n as [|n IH]; intros i Hn; simpl; [by rewrite drop_ge by lia|].
  destruct (ms !! i) as [m|] eqn:Hm.
  - rewrite (drop_S _ _ _ Hm), IH by lia. done.
  - apply lookup_ge_None in Hm. by rewrite drop_ge.
Qed.
Lemma pipeline_onion ms req ctx target : pipeline_execute ms req ctx target = onion ms target req ctx.
Proof. unfold pipeline_execute. by rewrite compile_chain_onion by lia. Qed.

(** The pipeline is the onion of its middlewares: the first is outermost, the
    last calls the target, and a pipeline of two parts is the first part around
    the pipeline of the second. *)
Theorem pipeline_nested m ms1 ms2 req ctx target :
  pipeline_execute [] req ctx target = target req ctx ∧
  pipeline_execute (m :: ms1) req ctx target = m req ctx (λ r c, pipeline_execute ms1 r c target) ∧
  pipeline_execute (ms1 ++ ms2) req ctx target =
    pipeline_execute ms1 req ctx (λ r c, pipeline_execute ms2 r c target).
Proof.
  assert (∀ ms, (λ r c, pipeline_execute ms r c target) = onion ms target) as Hms.
  { intros ms. unfold pipeline_execute. by rewrite compile_chain_onion by lia. }
  rewrite (Hms ms1), (Hms ms2), !pipeline_onion. unfold onion. by rewrite foldr_app.
Qed.

(** ** Observers *)
Section observers.
(** Worlds that differ by clock readings and recorded metrics only. *)
Context (R : W → W → Prop) `{!Equivalence R}.
Hypothesis reading_R : ∀ w, ∃ n w', reading w = (Ok n, w') ∧ R w w'.
Hypothesis record_R : ∀ v ty st d w, ∃ o w', record_execution v ty st d w = (o, w') ∧ R w w' ∧
  match o with Ok _ => True | Raise x => isinstance x "Exception" = true end.

(** A handler that does not observe the difference. *)
Definition insensitive (h : handler) : Prop := ∀ req ctx w1 w2, R w1 w2 →
  (h req ctx w1).1 = (h req ctx w2).1 ∧ R (h req ctx w1).2 (h req ctx w2).2.
Definition observer (m : middleware) : Prop := m = LoggingMiddleware ∨ m = MetricsMiddleware.

Lemma swallow_record v ty st d w : ∃ w', swallow (record_execution v ty st d) w = (Ok tt, w') ∧ R w w'.
Proof.
  destruct (record_R v ty st d w) as ([[]|x] & w' & Hr & Hw & Hx); unfold swallow, catch; rewrite Hr.
  - by exists w'.
  - rewrite Hx. by exists w'.
Qed.

(** An observer around a handler is the handler, on equivalent worlds. *)
Lemma observer_transparent m next req ctx w1 w2 :
  observer m → insensitive next → R w1 w2 →
  (m req ctx next w1).1 = (next req ctx w2).1 ∧ R (m req ctx next w1).2 (next req ctx w2).2.
Proof.
  intros Hm Hnext HR. destruct (reading_R w1) as (n & w1' & Hn & Hw1).
  destruct (Hnext req ctx w1' w2) as [Ho Hw]; [by rewrite <-Hw1|].
  destruct Hm as [-> | ->]; unfold LoggingMiddleware, MetricsMiddleware, bind; rewrite Hn;
    destruct (next req ctx w1') as [[r|x] w1'']; try done;
    destruct (reading_R w1'') as (n' & w' & Hn' & Hw'); rewrite Hn'; simpl in *.
  1: by rewrite <-Hw'.
  destruct (cx_services ctx) as [s|]; [destruct (truthy _)|]; simpl; try by rewrite <-Hw'.
  destruct (swallow_record (sv_metrics s) (rq_executor_type req) (exec_status_value (rs_status r))
    (fsub (time_now n') (time_now n)) w') as (w'' & Hs & Hw'').
  rewrite Hs; simpl. by rewrite <-Hw'', <-Hw'.
Qed.

Lemma observer_insensitive m next :
  observer m → insensitive next → insensitive (λ req ctx, m req ctx next).
Proof.
  intros Hm Hn req ctx w1 w2 HR.
  destruct (observer_transparent m next req ctx w1 w2 Hm Hn HR) as [-> ->].
  destruct (observer_transparent m next req ctx w2 w2 Hm Hn) as [-> ->]; done.
Qed.

(** Logging and metrics only observe: a pipeline of them returns or raises what
    the executor does, whatever happens to the metrics sink, and leaves a world
    that differs from the executor's by clock readings and metrics only. *)
Theorem observers_transparent ms req ctx target w :
  Forall observer ms → insensitive target →
  (pipeline_execute ms req ctx target w).1 = (target req ctx w).1 ∧
  R (pipeline_execute ms req ctx target w).2 (target req ctx w).2.
Proof.
  intros Hms Ht. rewrite pipeline_onion.
  assert (insensitive (onion ms target) ∧ ∀ req ctx w1 w2, R w1 w2 →
    (onion ms target req ctx w1).1 = (target req ctx w2).1 ∧
    R (onion ms target req ctx w1).2 (target req ctx w2).2) as [_ Hon]; [|by apply Hon].
  induction Hms as [|m ms Hm Hms [IHi IH]]; simpl; [by split|].
  split; [by apply observer_insensitive|].
  intros req' ctx' w1 w2 HR.
  destruct (observer_transparent m _ req' ctx' w1 w1 Hm IHi) as [-> ->]; [done|]. by apply IH.
Qed.
End observers.

(** ** Retries *)

(** [failed_attempts k w w']: [k] calls in a row return without success, each
    followed by its pause, the [i]-th announcing retry [i]. *)
Inductive failed_attempts (next : handler) (req : ExecutionRequest) (ctx : ExecutionContext) :
    Z → W → W → Prop :=
  | fa_none w : failed_attempts next req ctx 0 w w
  | fa_more k w w1 r w2 w3 :
      failed_attempts next req ctx k w w1 →
      next req ctx w1 = (Ok r, w2) → succeeded r = false →
      retry_pause req ctx (k + 1) w2 = (Ok tt, w3) →
      failed_attempts next req ctx (k + 1) w w3.

Lemma int_ge_int n m : int_ge n (VInt m) = Ok (bool_decide (m ≤ n)).
Proof.
  unfold int_ge; simpl. by rewrite num_le_int.
Qed.

Lemma failed_attempts_nonneg next req ctx k w w' : failed_attempts next req ctx k w w' → 0 ≤ k.
Proof. induction 1; lia. Qed.

(** The loop after [a] retries, with fuel for the retries that remain. *)
Lemma retry_loop_spec next req ctx m w fuel a wa :
  ep_max_retries (rq_policy req) = VInt m → m - a ≤ Z.of_nat fuel → (a = 0 ∨ a ≤ m) →
  failed_attempts next req ctx a w wa →
  let '(o, w') := retry_loop fuel next req ctx a wa in
  ∃ k wk, a ≤ k ≤ Z.max 0 m ∧ failed_attempts next req ctx k w wk ∧
  match o with
  | Ok r => next req ctx wk = (Ok r, w') ∧ (succeeded r = true ∨ k = Z.max 0 m)
  | Raise x => next req ctx wk = (Raise x, w') ∨
      ∃ r w2, next req ctx wk = (Ok r, w2) ∧ succeeded r = false ∧ k < m ∧
              retry_pause req ctx (k + 1) w2 = (Raise x, w')
  end.
Proof.
  intros Hm. revert a wa. induction fuel as [|fuel IH]; intros a wa Hf Ha Hfa.
  all: pose proof (failed_attempts_nonneg _ _ _ _ _ _ Hfa).
  all: simpl; unfold bind at 1; destruct (next req ctx wa) as [[r|x] w1] eqn:Hn;
    [|exists a, wa; split_and!; [lia..|done|by left]].
  all: destruct (succeeded r) eqn:Hr; [exists a, wa; split_and!; [lia..|done|done|by left]|].
  all: rewrite Hm, int_ge_int; unfold bind, of_outcome; case_bool_decide as Hle;
    [exists a, wa; split_and!; [lia..|done|done|right; lia]|].
  - lia.
  - destruct (retry_pause req ctx (a + 1) w1) as [[[]|x] w2] eqn:Hp.
    + specialize (IH (a + 1) w2 ltac:(lia) ltac:(lia)). unfold bind, of_outcome in IH.
      destruct (retry_loop fuel next req ctx (a + 1) w2) as [o w'].
      destruct IH as (k & wk & Hk & Hfk & Ho); [by eapply fa_more|].
      exists k, wk. split; [lia|done].
    + exists a, wa. split_and!; [lia..|done|]. right. exists r, w1. split_and!; try done. lia.
Qed.

(** C26: Retrying terminates with a bounded number of calls: with an int maximum
    [m], [RetryMiddleware] makes [k + 1] calls for some [k] between 0 and
    [max 0 m], of which the first [k] return without success and announce retry
    1 .. [k]; it returns the last call's result, which is a success unless all
    [m] retries are used up, or raises what the last call or the pause after it
    raised. *)
Theorem retry_middleware_spec fuel next req ctx m w :
  ep_max_retries (rq_policy req) = VInt m → m ≤ Z.of_nat fuel →
  let '(o, w') := RetryMiddleware fuel req ctx next w in
  ∃ k wk, 0 ≤ k ≤ Z.max 0 m ∧ failed_attempts next req ctx k w wk ∧
  match o with
  | Ok r => next req ctx wk = (Ok r, w') ∧ (succeeded r = true ∨ k = Z.max 0 m)
  | Raise x => next req ctx wk = (Raise x, w') ∨
      ∃ r w2, next req ctx wk = (Ok r, w2) ∧ succeeded r = false ∧ k < m ∧
              retry_pause req ctx (k + 1) w2 = (Raise x, w')
  end.
Proof.
  intros Hm Hf. unfold RetryMiddleware. apply retry_loop_spec; [done|lia|by left|constructor].
Qed.

Lemma failed_attempts_prefix next req ctx k w wk j :
  failed_attempts next req ctx k w wk → 0 ≤ j < k →
  ∃ wj r w2 w3, failed_attempts next req ctx j w wj ∧ next req ctx wj = (Ok r, w2) ∧
    succeeded r = false ∧ retry_pause req ctx (j + 1) w2 = (Ok tt, w3).
Proof.
  intros Hk. revert j. induction Hk as [|k w w1 r w2 w3 Hk IH Hn Hr Hp]; intros j Hj; [lia|].
  destruct (decide (j = k)) as [->|]; [by exists w1, r, w2, w3|apply IH; lia].
Qed.
Lemma failed_attempts_det next req ctx k w w1 w2 :
  failed_attempts next req ctx k w w1 → failed_attempts next req ctx k w w2 → w1 = w2.
Proof.
  intros H1. revert w2. induction H1 as [|k w w1 r w1' w1'' H1 IH Hn Hr Hp]; intros w2 H2.
  - inversion H2 as [|k ? ? ? ? ? Hk]; [done|]. apply failed_attempts_nonneg in Hk. lia.
  - inversion H2 as [|k' ? v1 r' v2 ? Hk Hn' Hr' Hp' Hkk].
    + apply failed_attempts_nonneg in H1. lia.
    + assert (k' = k) as -> by lia. pose proof (IH _ Hk). subst v1. congruence.
Qed.

(** Retrying reaches the first success: when the first [k] calls fail, no more
    than the maximum, and the next one succeeds, the result of that call is what
    the middleware returns, in the world the call leaves. *)
Theorem retry_first_success fuel next req ctx m w k wk r w' :
  ep_max_retries (rq_policy req) = VInt m → m ≤ Z.of_nat fuel →
  failed_attempts next req ctx k w wk → k ≤ m →
  next req ctx wk = (Ok r, w') → succeeded r = true →
  RetryMiddleware fuel req ctx next w = (Ok r, w').
Proof.
  intros Hm Hf Hk Hkm Hn Hr. pose proof (failed_attempts_nonneg _ _ _ _ _ _ Hk).
  assert (m - 0 ≤ Z.of_nat fuel) as Hfuel by lia.
  pose proof (retry_loop_spec next req ctx m w fuel 0 w Hm Hfuel ltac:(by left) ltac:(constructor)) as Hspec.
  unfold RetryMiddleware. destruct (retry_loop fuel next req ctx 0 w) as [o v'].
  destruct Hspec as (j & wj & Hj & Hfj & Ho).
  destruct (Z.lt_trichotomy j k) as [Hlt|[->|Hgt]].
  - destruct (failed_attempts_prefix _ _ _ _ _ _ j Hk) as (wj' & r' & w2 & w3 & Hj' & Hn' & Hr' & Hp); [lia|].
    rewrite (failed_attempts_det _ _ _ _ _ _ _ Hfj Hj') in Ho. destruct o as [ro|x].
    + destruct Ho as [Ho [Hs|Hs]]; [congruence|lia].
    + destruct Ho as [Ho|(? & ? & Ho & _ & _ & Hpo)]; congruence.
  - rewrite (failed_attempts_det _ _ _ _ _ _ _ Hfj Hk) in Ho. destruct o as [ro|x].
    + destruct Ho as [Ho _]. congruence.
    + destruct Ho as [Ho|(? & ? & Ho & Hs & _)]; congruence.
  - destruct (failed_attempts_prefix _ _ _ _ _ _ k Hfj) as (wk' & r' & w2 & w3 & Hk' & Hn' & Hr' & _); [lia|].
    rewrite (failed_attempts_det _ _ _ _ _ _ _ Hk Hk') in Hn. congruence.
Qed.

(** ** Time-outs and retries together *)

(** A call that always overruns is started again while its earlier threads
    still run: under a pipeline of retries around a time-out, the result is a
    time-out, and [m + 1] calls have been started, none of them ended. *)
Section overlap.
Variable running : W → Z.
Hypothesis late_always : ∀ A (m : M W A) w, ∃ w', late A m w = Some w' ∧ running w' = running w + 1.
Hypothesis reading_running : ∀ w, ∃ n w', reading w = (Ok n, w') ∧ running w' = running w.
Hypothesis append_running : ∀ v d w, ∃ o w', store_append v d w = (o, w') ∧ running w' = running w ∧
  match o with Ok _ => True | Raise x => isinstance x "Exception" = true end.

Lemma log_retry_running ctx n w : ∃ w', log_retry ctx n w = (Ok tt, w') ∧ running w' = running w.
Proof.
  unfold log_retry. destruct (cx_services ctx) as [s|]; [|by exists w].
  destruct (truthy _); [|by exists w].
  destruct (append_running (sv_event_store s) (TaskRetried (cx_task_id ctx) n) w)
    as ([[]|x] & w' & Ha & Hw & Hx); unfold swallow, catch; rewrite Ha; [|rewrite Hx]; by exists w'.
Qed.
Lemma late_times_out next req ctx t w :
  ep_timeout_seconds (rq_policy req) = VInt t → 0 < t → in_int64 (t * 10 ^ 9) = true →
  ∃ r w', TimeoutMiddleware req ctx next w = (Ok r, w') ∧ rs_status r = TIMED_OUT ∧
    running w' = running w + 1.
Proof.
  intros Ht Hpos Hmax. unfold TimeoutMiddleware, no_limit. rewrite Ht. unfold truthy, num_truthy, num_eq.
  rewrite num_cmp_int. destruct (Z.compare_spec t 0); try lia. cbn [negb as_num].
  rewrite num_le_int, bool_decide_false by lia. unfold bind, of_outcome.
  destruct (late_always _ (next req ctx) w) as (w1 & -> & Hw1). unfold join_arg, seconds_arg. cbn [as_num].
  rewrite Hmax, num_lt_int, bool_decide_false by lia. unfold timed_out, bind.
  destruct (reading_running w1) as (n & w2 & -> & Hw2). destruct (reading_running w2) as (n' & w3 & -> & Hw3).
  eexists _, w3. split_and!; [reflexivity|done|lia].
Qed.

Theorem timeout_retries_overlap fuel next req ctx t m d w :
  ep_timeout_seconds (rq_policy req) = VInt t → 0 < t → in_int64 (t * 10 ^ 9) = true →
  ep_max_retries (rq_policy req) = VInt m → 0 ≤ m ≤ Z.of_nat fuel →
  ep_retry_delay_seconds (rq_policy req) = VInt d → 0 ≤ d → in_int64 (d * 10 ^ 9) = true →
  ∃ r w', pipeline_execute [RetryMiddleware fuel; TimeoutMiddleware] req ctx next w = (Ok r, w') ∧
    rs_status r = TIMED_OUT ∧ running w' = running w + m + 1.
Proof.
  intros Ht Hpos Hmax Hm Hf Hd Hd0 Hdmax. rewrite pipeline_onion; simpl.
  set (h := λ req ctx, TimeoutMiddleware req ctx next). unfold RetryMiddleware.
  assert (∀ a, 0 ≤ a ≤ m → m - a ≤ Z.of_nat fuel → ∃ r w',
    retry_loop fuel h req ctx a w = (Ok r, w') ∧ rs_status r = TIMED_OUT ∧
    running w' = running w + (m - a) + 1) as Hloop; [|destruct (Hloop 0) as (r & w' & ?); [lia..|]].
  2:{ exists r, w'. by replace (running w + m + 1) with (running w + (m - 0) + 1) by lia. }
  clear Hf. revert w. induction fuel as [|fuel IH]; intros w a Ha Hfa; simpl.
  all: destruct (late_times_out next req ctx t w Ht Hpos Hmax) as (r & w1 & Hr & Hst & Hw1).
  all: unfold bind at 1; subst h; cbv beta; rewrite Hr; unfold succeeded; rewrite Hst, bool_decide_false by done.
  all: rewrite Hm, int_ge_int; unfold bind, of_outcome; case_bool_decide as Hle; try lia;
    try (exists r, w1; split_and!; [done..|lia]).
  unfold retry_pause, bind. destruct (log_retry_running ctx (a + 1) w1) as (w2 & -> & Hw2).
  unfold of_outcome, sleep_arg, seconds_arg. rewrite Hd; cbn [as_num]. rewrite Hdmax; cbn [obind].
  rewrite num_lt_int, bool_decide_false by lia.
  destruct (IH w2 (a + 1)) as (r' & w' & Hl & Hs & Hw'); [lia..|].
  exists r', w'. split_and!; [exact Hl|done|lia].
Qed.
End overlap.
End middleware.

(** * Examples *)
Section examples.
#[local] Existing Instance sample_oracle.

(** A world with the results an executor is going to produce; metrics go to a
    [MetricsRegistry], which has no [record_execution]. *)
Abbreviation Script := (Env * list ExecutionResult)%type.
#[local] Instance script_host : Host Script := {|
  world_env := self_lens; late A m w := None; str_of v := "";
  store_append _ d := self (emit d);
  record_execution _ _ _ _ := raise (AttributeError "record_execution") |}.
Definition ok_result : ExecutionResult := new_result SUCCEEDED (VStr "done") None default_metadata.
Definition scripted (_ : ExecutionRequest) (_ : ExecutionContext) : M Script ExecutionResult := λ w,
  match w.2 with
  | [] => (Ok ok_result, w)
  | r :: rs => (Ok r, (w.1, rs))
  end.
Definition script_services : ExecutionServices := {|
  sv_logger := VObj "Logger" 0; sv_metrics := VObj "MetricsRegistry" 1;
  sv_event_store := VObj "SQLiteEventStore" 2; sv_state_store := VNone; sv_configuration := [] |}.
Definition script_context : ExecutionContext := {|
  cx_runtime_id := "default-runtime"; cx_task_id := "t"; cx_worker_id := "W-001";
  cx_correlation_id := VNone; cx_causation_id := VNone; cx_deadline := VNone;
  cx_cancellation_token := VNone; cx_resource_limits := []; cx_services := Some script_services |}.
Definition script (rs : list ExecutionResult) : Script :=
  ({| env_tasks := ∅; env_tick := 0; env_store := Some empty_table |}, rs).
Definition retry_script := RetryMiddleware (W := Script) 2.

Lemma retry_middleware_spec_witness :
  let '(o, w') := retry_script sample_request script_context scripted (script [sample_failure]) in
  ∃ k wk, 0 ≤ k ≤ Z.max 0 2 ∧
  failed_attempts scripted sample_request script_context k (script [sample_failure]) wk ∧
  match o with
  | Ok r => scripted sample_request script_context wk = (Ok r, w') ∧ (succeeded r = true ∨ k = Z.max 0 2)
  | Raise x => scripted sample_request script_context wk = (Raise x, w') ∨
      ∃ r w2, scripted sample_request script_context wk = (Ok r, w2) ∧ succeeded r = false ∧ k < 2 ∧
              retry_pause sample_request script_context (k + 1) w2 = (Raise x, w')
  end.
Proof.
  apply (retry_middleware_spec 2 scripted sample_request script_context 2); [done|lia].
Defined.

(** One failure, one success: the event log holds the announced retry. *)
Lemma retry_first_success_witness :
  let w1 := script [sample_failure] in
  let w2 := (retry_pause sample_request script_context 1 (script [])).2 in
  retry_script sample_request script_context scripted w1 = (Ok ok_result, w2) ∧
  count (default empty_table (env_store w2.1)) = 1.
Proof.
  intros w1 w2. split; [|vm_compute; reflexivity].
  apply (retry_first_success 2 scripted sample_request script_context 2 w1 1 w2 ok_result w2).
  - reflexivity.
  - lia.
  - eapply (fa_more _ _ _ 0); [apply fa_none|reflexivity|reflexivity|vm_compute; reflexivity].
  - lia.
  - vm_compute. reflexivity.
  - reflexivity.
Defined.

Definition same_script (v w : Script) : Prop := v.2 = w.2.
#[local] Instance same_script_equiv : Equivalence same_script.
Proof. unfold same_script. split; congruence. Qed.
Lemma observers_transparent_witness :
  let ms := [LoggingMiddleware; MetricsMiddleware] in
  let w := script [sample_failure] in
  (pipeline_execute ms sample_request script_context scripted w).1 =
    (scripted sample_request script_context w).1 ∧
  same_script (pipeline_execute ms sample_request script_context scripted w).2
    (scripted sample_request script_context w).2.
Proof.
  intros ms w. apply (observers_transparent same_script).
  - intros v. eexists _, _. split_and!; done.
  - intros v ty st d u. eexists _, _. split_and!; done.
  - apply Forall_cons; split; [by left|]. apply Forall_singleton. by right.
  - intros req ctx [e1 l1] [e2 l2]; unfold same_script; simpl. intros <-. by destruct l1.
Defined.

Definition overlap_request : ExecutionRequest := {|
  rq_executor_type := VStr "PythonExecutor"; rq_payload := VDict [];
  rq_policy := new_policy (VInt 1) (VInt 2) (VInt 0); rq_version := VStr "1.0.0" |}.
(** A world that counts the calls in progress; none ends in time. *)
#[local] Instance counting_host : Host (Env * Z) := {|
  world_env := self_lens; late A m w := Some (w.1, w.2 + 1); str_of v := "1";
  store_append _ _ := ret tt; record_execution _ _ _ _ := ret tt |}.
Lemma timeout_retries_overlap_witness : ∃ r w',
  pipeline_execute [RetryMiddleware 2; TimeoutMiddleware]
    overlap_request script_context (λ _ _, raise IndexError) ((script []).1, 0) = (Ok r, w') ∧
  rs_status r = TIMED_OUT ∧ w'.2 = 0 + 2 + 1.
Proof.
  apply (timeout_retries_overlap (W := Env * Z) snd) with (t := 1) (d := 0);
    try (done || lia).
  - intros A m w. eexists. split; done.
  - intros w. eexists _, _. split_and!; done.
  - intros v d w. eexists _, _. split_and!; done.
Defined.
End examples.
