(* ===== verification/Executors.v ===== *)
(** [executors/domain/ports.py] and its implementations: [environment/local.py],
    [python_executor.py], [shell_executor.py], [function_executor.py],
    [mock_executor.py], and [adapters/legacy_adapter.py], through which the
    runtime's workers call them. *)
From S2P Require Import Prelude PyNum Values Decode Events EventStore Tasks.
From S2P Require Import Execution Middleware.
From stdpp Require Import pretty.
Open Scope Z_scope.

(** What a subprocess does within its time-out: it ends with an exit code, or
    [communicate] raises [TimeoutExpired] and the killed process leaves output. *)
Inductive process_end : Type :=
  | Exited (stdout stderr : string) (returncode : Z)
  | Expired (stdout stderr : string).

(** The Python callables and the operating system an executor reaches: calling
    an object, the [TypeError] of [inspect.signature(f).bind] (every callable is taken
    to have a signature), [exec] of a code
    string, [Popen] and [communicate], [os.makedirs], [shlex.split], the GMT text
    of a clock reading, and the context as a value. *)
Class OS (W : Type) : Type := {
  is_callable : pyval → bool;
  call : pyval → list pyval → odict pyval → M W pyval;
  bind_error : pyval → list pyval → odict pyval → option string;
  exec_code : pyval → M W pyval;
  run_process : list pyval → option string → pyval → M W process_end;
  makedirs : string → M W unit;
  shlex_split : string → outcome (list string);
  gmt_text : spec_float → string;
  context_value : ExecutionContext → pyval
}.

(** [e.__class__.__name__] *)
Definition exn_class (e : exn) : string := default "Exception" (head (exn_mro e)).
(** [data.get(k, default)] where [data] may be any value *)
Definition getv (v : pyval) (k : string) (def : pyval) : outcome pyval :=
  let? d := getting v in Ok (get_or d k def).
(** [*args] *)
Definition star_args (v : pyval) : outcome (list pyval) :=
  match v with
  | VList l => Ok l
  | VStr s => Ok (map (λ c, VStr (String c EmptyString)) (String.list_ascii_of_string s))
  | VDict d => Ok (map VStr (dkeys d))
  | _ => Raise (TypeError "argument after * must be an iterable")
  end.
Definition star_kwargs (v : pyval) : outcome (odict pyval) :=
  match v with VDict d => Ok d | _ => Raise (TypeError "argument after ** must be a mapping") end.

Section executors.
Context `{!Oracle} {W : Type} `{!Host W} `{!OS W}.

(** [Executor] *)
Record Executor : Type := {
  ex_class : string;
  ex_capabilities : ExecutionCapabilities;
  before_execute : ExecutionRequest → ExecutionContext → M W unit;
  execute_request : ExecutionRequest → ExecutionContext → M W ExecutionResult;
  after_execute : ExecutionRequest → ExecutionResult → ExecutionContext → M W unit;
  cleanup : ExecutionRequest → ExecutionContext → M W unit
}.
Definition no_hook {A} (_ : ExecutionRequest) (_ : A) : M W unit := ret tt.
Definition no_hook_after (_ : ExecutionRequest) (_ : ExecutionResult) (_ : ExecutionContext) : M W unit :=
  ret tt.
Definition capabilities_of (tags : list string) : ExecutionCapabilities :=
  {| cap_tags := strs tags; cap_version := VStr "1.0.0" |}.

(** ** [LocalExecutionEnvironment] *)

(** [datetime_iso]; [None] is the call without a time *)
Definition datetime_iso (start : option nat) : M W pyval :=
  match start with
  | Some n => if num_truthy (PFloat (time_now n)) then ret (VStr (now_iso n))
              else m <- reading ;; ret (VStr (now_iso m))
  | None => m <- reading ;; ret (VStr (now_iso m))
  end.
(** [ExecutionMetadata(started_at=datetime_iso(start_time), completed_at=datetime_iso(),
    duration_seconds=...)]; [_run_callable] and [_run_subprocess] read the
    duration first, the handlers of [run_in_env] last *)
Definition iso_metadata (start : nat) (duration : pyval) (extra : odict pyval) : M W ExecutionMetadata :=
  started <- datetime_iso (Some start) ;;
  completed <- datetime_iso None ;;
  ret {| em_started_at := started; em_completed_at := completed; em_duration_seconds := duration;
         em_extra := VDict extra; em_version := VStr "1.0.0" |}.
Definition since (start : nat) : M W pyval :=
  n <- reading ;; ret (VNum (PFloat (fsub (time_now n) (time_now start)))).
Definition failure_metadata (start : nat) : M W ExecutionMetadata :=
  m <- iso_metadata start VNone [] ;;
  d <- since start ;;
  ret {| em_started_at := em_started_at m; em_completed_at := em_completed_at m;
         em_duration_seconds := d; em_extra := VDict []; em_version := VStr "1.0.0" |}.

(** [_run_callable]: the thread keeps an [Exception] for the caller; anything
    else it raises ends it without a result. *)
Definition run_thread (target : M W pyval) : M W pyval :=
  catch target (λ x, if isinstance x "Exception" then raise x else ret VNone).
Definition timed_call (target : M W pyval) (timeout : pyval) : M W pyval := λ w,
  match late _ target w with
  | Some w' => (_ <- of_outcome (join_arg timeout) ;;
      raise (TimeoutError ("Callable execution exceeded timeout threshold of " +:+ str_of timeout
        +:+ " seconds."))) w'
  | None => match join_arg timeout with
            | Ok _ => run_thread target w
            | Raise x => (Raise x, (target w).2)
            end
  end.
Definition run_callable (target : M W pyval) (timeout : pyval) : M W ExecutionResult :=
  start <- reading ;;
  output <- (if truthy timeout then timed_call target timeout else target) ;;
  d <- since start ;;
  m <- iso_metadata start d [] ;;
  ret (new_result SUCCEEDED output None m).

(** [_run_subprocess] *)
Definition run_subprocess (chroot : option string) (cmd : list pyval) (timeout : pyval) :
    M W ExecutionResult :=
  start <- reading ;;
  let cwd := match chroot with Some c => if str_truthy c then Some c else None | None => None end in
  e <- run_process cmd cwd timeout ;;
  match e with
  | Expired out err =>
      raise (TimeoutError ("Subprocess execution timed out after " +:+ str_of timeout +:+
        " seconds. Stdout: " +:+ out +:+ ". Stderr: " +:+ err))
  | Exited out err code =>
      d <- since start ;;
      m <- iso_metadata start d [("stdout", VStr out); ("stderr", VStr err); ("exit_code", VInt code)] ;;
      if code =? 0 then ret (new_result SUCCEEDED (VStr out) None m)
      else ret (new_result FAILED (VStr out)
        (Some (new_error (VStr ("Process exited with non-zero code " +:+ pretty code +:+
                 ". Stderr: " +:+ err)) "SubprocessError" (VBool false))) m)
  end.

(** What [run_in_env] is given: a command list, a callable, or something else. *)
Inductive execution_callable : Type :=
  | Command (cmd : list pyval)
  | Callable (target : M W pyval)
  | NotExecutable.

Definition before_run (chroot : option string) : M W unit :=
  match chroot with Some c => if str_truthy c then makedirs c else ret tt | None => ret tt end.
(** [run_in_env]; [after_run] does nothing *)
Definition run_in_env (chroot : option string) (req : ExecutionRequest) (x : execution_callable) :
    M W ExecutionResult :=
  start <- reading ;;
  before_run chroot ;;;
  let timeout := ep_timeout_seconds (rq_policy req) in
  finally
    (catch
      (match x with
       | Command cmd => run_subprocess chroot cmd timeout
       | Callable target => run_callable target timeout
       | NotExecutable =>
           raise (ValueError "Target execution object must be a shell command list or a Python callable.")
       end)
      (λ e,
        if isinstance e "TimeoutError" then
          m <- failure_metadata start ;;
          ret (new_result TIMED_OUT VNone (Some (new_error (VStr (exn_str e)) "TimeoutError" (VBool true))) m)
        else if isinstance e "Exception" then
          m <- failure_metadata start ;;
          ret (new_result FAILED VNone (Some (new_error (VStr (exn_str e)) (exn_class e) (VBool false))) m)
        else raise e))
    (ret tt).

(** ** [PythonExecutor] *)
Inductive python_target : Type :=
  | Given (f : pyval)
  | Code (code : pyval)                          (** [run_code] *)
  | Print (title : pyval).                       (** [default_print] *)
Definition text_of (v : pyval) : string := match v with VStr s => s | _ => str_of v end.
Definition python_resolve (payload : pyval) : outcome python_target :=
  let? f := getv payload "callable" VNone in
  if truthy f then Ok (Given f)
  else
    let? code := getv payload "code" VNone in
    if truthy code then Ok (Code code)
    else let? title := getv payload "title" (VStr "No Title") in Ok (Print title).
(** the validation; [run_code] and [default_print] take no argument *)
Definition python_bind (t : python_target) (args kw : pyval) : outcome unit :=
  let mismatch m := Raise (ValueError ("Argument signature binding mismatch: " +:+ m)) in
  let check f :=
    match star_args args, star_kwargs kw with
    | Ok a, Ok k => match f a k with Some m => mismatch m | None => Ok tt end
    | Raise x, _ | _, Raise x => mismatch (exn_str x)
    end in
  match t with
  | Given f => if is_callable f then check (bind_error f) else Ok tt
  | Code _ | Print _ =>
      check (λ a k, match a, k with
                    | [], [] => None
                    | [], (n, _) :: _ => Some ("got an unexpected keyword argument '" +:+ n +:+ "'")
                    | _, _ => Some "too many positional arguments"
                    end)
  end.
Definition python_call (t : python_target) (args kw : pyval) : M W pyval :=
  a <- of_outcome (star_args args) ;;
  k <- of_outcome (star_kwargs kw) ;;
  match t with
  | Given f => call f a k
  | Code code => exec_code code
  | Print title => ret (VStr ("Executed task: " +:+ text_of title))
  end.
Definition python_execute_request (chroot : option string) (req : ExecutionRequest)
    (ctx : ExecutionContext) : M W ExecutionResult :=
  let payload := rq_payload req in
  _ <- of_outcome (getting payload) ;;
  args <- of_outcome (getv payload "args" (VList [])) ;;
  kw <- of_outcome (getv payload "kwargs" (VDict [])) ;;
  t <- of_outcome (python_resolve payload) ;;
  _ <- of_outcome (python_bind t args kw) ;;
  run_in_env chroot req (Callable (python_call t args kw)).
Definition PythonExecutor (chroot : option string) : Executor := {|
  ex_class := "PythonExecutor";
  ex_capabilities := capabilities_of ["python"; "local"; "cpu"; "trusted"; "sync"];
  before_execute := no_hook; execute_request := python_execute_request chroot;
  after_execute := no_hook_after; cleanup := no_hook |}.

(** ** [ShellExecutor] *)
Definition shell_execute_request (chroot : option string) (req : ExecutionRequest)
    (ctx : ExecutionContext) : M W ExecutionResult :=
  cmd <- of_outcome (getv (rq_payload req) "command" VNone) ;;
  if negb (truthy cmd) then
    raise (ValueError "ExecutionRequest payload must contain 'command' (string or list of strings).")
  else
    match cmd with
    | VStr s => l <- of_outcome (shlex_split s) ;; run_in_env chroot req (Command (map VStr l))
    | VList l => run_in_env chroot req (Command l)
    | _ => run_in_env chroot req (if is_callable cmd then Callable (call cmd [] []) else NotExecutable)
    end.
Definition ShellExecutor (chroot : option string) : Executor := {|
  ex_class := "ShellExecutor";
  ex_capabilities := capabilities_of ["shell"; "filesystem"; "subprocess"; "trusted"];
  before_execute := no_hook; execute_request := shell_execute_request chroot;
  after_execute := no_hook_after; cleanup := no_hook |}.

(** ** [MockExecutor] *)
Definition gmt_metadata (start : nat) (duration : pyval) : M W ExecutionMetadata :=
  n <- reading ;;
  ret {| em_started_at := VStr (gmt_text (time_now start)); em_completed_at := VStr (gmt_text (time_now n));
         em_duration_seconds := duration; em_extra := VDict []; em_version := VStr "1.0.0" |}.
(** [n > 0] *)
Definition positive (v : pyval) : outcome bool :=
  match as_num v with
  | Some n => Ok (num_lt (PInt 0) n)
  | None => Raise (TypeError "'>' not supported")
  end.
Definition mock_execute_request (req : ExecutionRequest) (ctx : ExecutionContext) : M W ExecutionResult :=
  start <- reading ;;
  payload <- of_outcome (getting (rq_payload req)) ;;
  let delay := get_or payload "delay_seconds" (VNum (PFloat f_zero)) in
  wait <- of_outcome (positive delay) ;;
  (if (wait : bool) then of_outcome (sleep_arg delay) else ret tt) ;;;
  d <- since start ;;
  m <- gmt_metadata start d ;;
  if truthy (get_or payload "force_error" (VBool false)) then
    ret (new_result FAILED VNone
      (Some (new_error (get_or payload "error_message" (VStr "Mock forced execution failure"))
        "MockExecutorError" (get_or payload "is_transient" (VBool false)))) m)
  else ret (new_result SUCCEEDED (get_or payload "output" (VStr "Mock Success")) None m).
Definition MockExecutor : Executor := {|
  ex_class := "MockExecutor"; ex_capabilities := capabilities_of ["mock"; "local"; "sync"];
  before_execute := no_hook; execute_request := mock_execute_request;
  after_execute := no_hook_after; cleanup := no_hook |}.

(** ** [FunctionExecutor] *)

(** A callable: the parameters of its signature, with whether each has a
    default, and its call by keywords. *)
Record PyFunction : Type := {
  fn_params : list (string * bool);
  fn_call : odict pyval → M W pyval
}.
Record FunctionRegistry : Type := { fe_functions : odict PyFunction; fe_dependencies : odict pyval }.
(** [register_function], [register_dependency] *)
Definition register_function (name : string) (f : PyFunction) (r : FunctionRegistry) : FunctionRegistry :=
  {| fe_functions := dset (fe_functions r) name f; fe_dependencies := fe_dependencies r |}.
Definition register_dependency (name : string) (v : pyval) (r : FunctionRegistry) : FunctionRegistry :=
  {| fe_functions := fe_functions r; fe_dependencies := dset (fe_dependencies r) name v |}.

(** [elif param_name == name and context.services and services.<field>] *)
Definition service_field (ctx : ExecutionContext) (field : ExecutionServices → pyval) : option pyval :=
  match cx_services ctx with
  | Some s => if truthy (field s) then Some (field s) else None
  | None => None
  end.
Definition from_context (ctx : ExecutionContext) (p : string) : option pyval :=
  if p =s? "logger" then service_field ctx sv_logger
  else if p =s? "event_store" then service_field ctx sv_event_store
  else if p =s? "state_store" then service_field ctx sv_state_store
  else if p =s? "config" then service_field ctx (λ s, VDict (sv_configuration s))
  else if p =s? "context" then Some (context_value ctx)
  else None.
(** The value the [if]/[elif] chain finds for a parameter. *)
Definition resolve_param (deps kw : odict pyval) (ctx : ExecutionContext) (p : string) : option pyval :=
  match dget kw p with
  | Some v => Some v
  | None => match dget deps p with Some v => Some v | None => from_context ctx p end
  end.
Fixpoint inject (deps kw : odict pyval) (ctx : ExecutionContext) (params : list (string * bool))
    (injected : odict pyval) : outcome (odict pyval) :=
  match params with
  | [] => Ok injected
  | (p, has_default) :: params' =>
      match resolve_param deps kw ctx p with
      | Some v => inject deps kw ctx params' (dset injected p v)
      | None =>
          if (has_default : bool) then inject deps kw ctx params' injected
          else Raise (RuntimeError ("Dependency injection failed: Parameter '" +:+ p +:+
                                    "' is required but not resolved."))
      end
  end.
(** [self._functions.get(func_name)]: a list or a dictionary is no key *)
Definition find_function (r : FunctionRegistry) (name : pyval) : outcome PyFunction :=
  match name with
  | VList _ | VDict _ => Raise (TypeError "unhashable type")
  | _ =>
      match (match name with VStr s => dget (fe_functions r) s | _ => None end) with
      | Some f => Ok f
      | None => Raise (ValueError ("No function registered with name: " +:+ text_of name))
      end
  end.
(** [execute_request]; a [kwargs] that is not a dictionary is reported as a
    [TypeError] *)
Definition function_execute_request (r : FunctionRegistry) (req : ExecutionRequest)
    (ctx : ExecutionContext) : M W ExecutionResult :=
  payload <- of_outcome (getting (rq_payload req)) ;;
  let name := get_or payload "function_name" VNone in
  if negb (truthy name) then raise (ValueError "ExecutionRequest payload must contain 'function_name'.")
  else
    f <- of_outcome (find_function r name) ;;
    kw <- of_outcome (as_dict (get_or payload "kwargs" (VDict []))) ;;
    injected <- of_outcome (inject (fe_dependencies r) kw ctx (fn_params f) []) ;;
    start <- reading ;;
    catch
      (output <- fn_call f injected ;;
       d <- since start ;;
       m <- gmt_metadata start d ;;
       ret (new_result SUCCEEDED output None m))
      (λ e,
        if isinstance e "Exception" then
          d <- since start ;;
          m <- gmt_metadata start d ;;
          ret (new_result FAILED VNone (Some (new_error (VStr (exn_str e)) (exn_class e) (VBool false))) m)
        else raise e).
Definition FunctionExecutor (r : FunctionRegistry) : Executor := {|
  ex_class := "FunctionExecutor";
  ex_capabilities := capabilities_of ["function"; "local"; "dependency-injection"];
  before_execute := no_hook; execute_request := function_execute_request r;
  after_execute := no_hook_after; cleanup := no_hook |}.

(** ** [LegacyExecutorAdapter] *)

(** [self._store]: the object and its [event_store] attribute *)
Record AdapterStore : Type := { as_object : pyval; as_event_store : pyval }.

(** [getattr(v, "timeout_seconds", None)]: of the values task metadata holds,
    only a [TimeoutPolicy] has the attribute *)
Definition timeout_attr (v : pyval) : pyval :=
  match v with VTimeoutPolicy p => VNum (timeout_seconds p) | _ => VNone end.
Definition task_request (class : string) (t : Task) : ExecutionRequest :=
  let m := metadata_or_empty t in {|
  rq_executor_type := VStr class;
  rq_payload := VDict [("task_id", VStr (task_id t)); ("title", VStr (task_title t)); ("metadata", VDict m)];
  rq_policy := new_policy
    (match dget m "timeout_policy" with Some v => timeout_attr v | None => VNone end)
    (get_or m "max_retries" (VInt 0))
    (get_or m "retry_delay" (VNum (PFloat (round_to_float 1 0))));
  rq_version := VStr "1.0.0" |}.
Definition task_context (store : option AdapterStore) (t : Task) : ExecutionContext :=
  let m := metadata_or_empty t in {|
  cx_runtime_id := "default-runtime"; cx_task_id := task_id t; cx_worker_id := "LegacyWorker";
  cx_correlation_id := get_or m "correlation_id" VNone;
  cx_causation_id := get_or m "causation_id" VNone;
  cx_deadline := VNone; cx_cancellation_token := VNone; cx_resource_limits := [];
  cx_services := Some {|
    sv_logger := VObj "Logger" 0; sv_metrics := VNone;
    sv_event_store := match store with Some s => as_event_store s | None => VNone end;
    sv_state_store := match store with Some s => as_object s | None => VNone end;
    sv_configuration := [] |} |}.
(** the [try] block *)
Definition adapter_body (ex : Executor) (req : ExecutionRequest) (ctx : ExecutionContext) : M W unit :=
  result <- execute_request ex req ctx ;;
  after_execute ex req result ctx ;;;
  if succeeded result then ret tt
  else raise (RuntimeError (match rs_error result with
                            | Some e => text_of (ee_message e)
                            | None => "Execution failed"
                            end)).
(** [execute(task)] *)
Definition adapter_execute (ex : Executor) (store : option AdapterStore) (r : nat) : M W unit :=
  t <- zoom world_env (deref r) ;;
  let req := task_request (ex_class ex) t in
  let ctx := task_context store t in
  before_execute ex req ctx ;;;
  finally (adapter_body ex req ctx) (cleanup ex req ctx).

(** * Correctness *)

(** ** Dependency injection *)
Definition unresolved (deps kw : odict pyval) (ctx : ExecutionContext) (params : list (string * bool))
    (p : string) : Prop :=
  (p, false) ∈ params ∧ resolve_param deps kw ctx p = None.

Lemma inject_correct deps kw ctx params acc :
  NoDup (params.*1) → (∀ p, p ∈ params.*1 → dget acc p = None) →
  match inject deps kw ctx params acc with
  | Ok injected =>
      (∀ p, dget injected p = if decide (p ∈ params.*1) then resolve_param deps kw ctx p else dget acc p) ∧
      (∀ p, ¬ unresolved deps kw ctx params p) ∧ (dwf acc → dwf injected)
  | Raise x => ∃ p, unresolved deps kw ctx params p ∧
      x = RuntimeError ("Dependency injection failed: Parameter '" +:+ p +:+ "' is required but not resolved.")
  end.
Proof.
  revert acc. induction params as [|[p b] params IH]; intros acc Hnd Hacc; csimpl.
  { split_and!; [done| |done]. intros p [[]%not_elem_of_nil _]. }
  csimpl in *. apply NoDup_cons in Hnd as [Hp Hnd].
  assert (∀ q acc', (∀ q', q' ≠ p → dget acc' q' = dget acc q') → q ∈ params.*1 → dget acc' q = None) as Hacc'.
  { intros q acc' Ha Hq. rewrite Ha by (intros ->; done). apply Hacc. by right. }
  destruct (resolve_param deps kw ctx p) as [v|] eqn:Hr; [|destruct b].
  - specialize (IH (dset acc p v) Hnd). destruct (inject _ _ _ _ _) as [inj|x].
    + destruct IH as (Hd & Hu & Hw); [intros; eapply Hacc'; [intros; by apply dget_dset_ne|done]|].
      split_and!; [| |intros; by apply Hw, dset_wf].
      * intros q. rewrite Hd. destruct (decide (q = p)) as [->|].
        { rewrite decide_False, decide_True, dget_dset_eq by (done || by left). done. }
        rewrite dget_dset_ne by done. by do 2 case_decide; set_solver.
      * intros q [[?|Hq]%elem_of_cons Hq']; [by simplify_eq|]. by eapply Hu.
    + destruct IH as (q & [Hq Hq'] & ->); [intros; eapply Hacc'; [intros; by apply dget_dset_ne|done]|].
      exists q. split; [split; [by right|done]|done].
  - specialize (IH acc Hnd). destruct (inject _ _ _ _ _) as [inj|x].
    + destruct IH as (Hd & Hu & Hw); [intros; by eapply Hacc'|]. split_and!; [| |done].
      * intros q. rewrite Hd. destruct (decide (q = p)) as [->|].
        { rewrite decide_False, decide_True by (done || by left). rewrite Hr. apply Hacc. by left. }
        by do 2 case_decide; set_solver.
      * intros q [[?|Hq]%elem_of_cons Hq']; [by simplify_eq|]. by eapply Hu.
    + destruct IH as (q & [Hq Hq'] & ->); [intros; by eapply Hacc'|].
      exists q. split; [split; [by right|done]|done].
  - exists p. split; [split; [by left|done]|done].
Qed.

(** The result of a call, as [FunctionExecutor] reports it. *)
Definition reports (res : ExecutionResult) (o : outcome pyval) : Prop :=
  match o with
  | Ok v => rs_status res = SUCCEEDED ∧ rs_output res = v ∧ rs_error res = None
  | Raise e => rs_status res = FAILED ∧ rs_error res =
      Some (new_error (VStr (exn_str e)) (exn_class e) (VBool false))
  end.

(** C30: A registered function with distinct parameters, which a payload names (with a
    dictionary of kwargs, if any), is called just when every parameter without a default
    is resolved, with exactly one keyword for each parameter that the payload's
    kwargs, the registered dependencies or the context's services resolve, in
    this order of precedence, and with nothing else the kwargs hold; what it
    returns or raises is the status, output and error of the result, and what is
    no [Exception] goes on.  With an unresolved parameter a [RuntimeError] is
    raised and nothing is called. *)
Theorem function_executor_spec reg payload req ctx name f kw w :
  rq_payload req = VDict payload → dget payload "function_name" = Some (VStr name) → name ≠ "" →
  dget (fe_functions reg) name = Some f → get_or payload "kwargs" (VDict []) = VDict kw →
  NoDup ((fn_params f).*1) →
  (∃ injected, (∀ p, ¬ unresolved (fe_dependencies reg) kw ctx (fn_params f) p) ∧ dwf injected ∧
     (∀ p, dget injected p = if decide (p ∈ (fn_params f).*1)
                     then resolve_param (fe_dependencies reg) kw ctx p else None) ∧
     let '(o, w1) := fn_call f injected (reading w).2 in
     match function_execute_request reg req ctx w with
     | (Ok res, w') => reports res o ∧ w' = (reading (reading w1).2).2
     | (Raise x, w') => o = Raise x ∧ isinstance x "Exception" = false ∧ w' = w1
     end) ∨
  (∃ p x, unresolved (fe_dependencies reg) kw ctx (fn_params f) p ∧
     function_execute_request reg req ctx w = (Raise (RuntimeError x), w)).
Proof.
  intros Hp Hname Hne Hf Hkw Hnd. unfold function_execute_request. rewrite Hp.
  assert (get_or payload "function_name" VNone = VStr name) as Hn by (unfold get_or; by rewrite Hname).
  assert (truthy (VStr name) = true) as Ht by (simpl; unfold str_truthy; by destruct (String.eqb_spec name "")).
  assert (find_function reg (VStr name) = Ok f) as Hff by (unfold find_function; simpl; by rewrite Hf).
  unfold bind, of_outcome; cbn [getting]. rewrite Hn, Ht, Hff, Hkw; cbn [negb as_dict].
  pose proof (inject_correct (fe_dependencies reg) kw ctx (fn_params f) [] Hnd ltac:(done)) as Hi.
  destruct (inject _ _ _ _ _) as [injected|x].
  - left. exists injected. destruct Hi as (Hd & Hu & Hw). split_and!; [done|apply Hw, NoDup_nil_2|done|].
    unfold catch, since, gmt_metadata, bind, reading, zoom, tick, ret; cbn [fst snd].
    destruct (fn_call f injected _) as [[v|x] w1]; [done|].
    destruct (isinstance x "Exception") eqn:Hx; [done|]. done.
  - right. destruct Hi as (p & Hu & ->). by eexists p, _.
Qed.

(** ** The local environment contains failures *)
Lemma finally_ret {A} (m : M W A) w : finally m (ret tt) w = m w.
Proof. unfold finally, ret. by destruct (m w). Qed.
Lemma failure_metadata_ok start w : ∃ m w', failure_metadata start w = (Ok m, w').
Proof.
  unfold failure_metadata, iso_metadata, datetime_iso, since, bind, reading, zoom, tick, ret.
  destruct (num_truthy _); by eexists _, _.
Qed.

Definition reported (res : ExecutionResult) : Prop :=
  (rs_status res = SUCCEEDED ∧ rs_error res = None) ∨ (rs_status res = FAILED ∧ is_Some (rs_error res)).
Lemma run_subprocess_reported chroot cmd timeout w res w' :
  run_subprocess chroot cmd timeout w = (Ok res, w') → reported res.
Proof.
  unfold run_subprocess, bind, raise, ret, reported. intros H'.
  repeat (case_match; simplify_eq/=); eauto.
Qed.
Lemma run_callable_reported target timeout w res w' :
  run_callable target timeout w = (Ok res, w') → reported res.
Proof.
  unfold run_callable. unfold bind at 1 2. generalize (if truthy timeout then timed_call target timeout else target).
  unfold bind, ret, reported. intros m H'. repeat (case_match; simplify_eq/=); eauto.
Qed.

(** [run_in_env] raises no [Exception] once the sandbox directory is ready:
    whatever the command or the callable raises is reported, a [TimeoutError] as
    a transient time-out, any other [Exception] as a failure with its class. *)
Theorem run_in_env_contains chroot req x w :
  (∀ e, (before_run chroot (reading w).2).1 ≠ Raise e) →
  match (run_in_env chroot req x w).1 with
  | Ok res =>
      rs_status res ∈ [SUCCEEDED; FAILED; TIMED_OUT] ∧
      (rs_status res = SUCCEEDED ↔ rs_error res = None) ∧
      (rs_status res = TIMED_OUT → ∃ m, rs_error res = Some (new_error (VStr m) "TimeoutError" (VBool true)))
  | Raise e => isinstance e "Exception" = false
  end.
Proof.
  intros Hb. unfold run_in_env. unfold bind at 1. unfold reading at 1, zoom at 1, tick at 1.
  unfold reading, zoom, tick in Hb; cbn [snd] in Hb. unfold bind at 1.
  destruct (before_run chroot _) as [[[]|e] w1]; [|by destruct (Hb e)].
  rewrite finally_ret. unfold catch at 1.
  set (body := match x with Command _ => _ | Callable _ => _ | NotExecutable => _ end).
  assert (∀ res w2, body w1 = (Ok res, w2) → reported res) as Hbody.
  { intros res w2. destruct x; subst body; [apply run_subprocess_reported|apply run_callable_reported|done]. }
  destruct (body w1) as [[res|e] w2]; cbn [fst] in *.
  { destruct (Hbody _ _ eq_refl) as [[-> ->]|[-> [e ->]]]; split_and!; first [done|set_solver]. }
  clear Hbody. destruct (failure_metadata_ok (env_tick (lget world_env w)) w2) as (m & w3 & Hm).
  destruct (isinstance e "TimeoutError"); [|destruct (isinstance e "Exception") eqn:He; [|done]].
  all: unfold bind; rewrite Hm; simpl; split_and!; try done; try set_solver.
Qed.

(** The exception is what ends a thread without one: under a time-out, a callable
    that calls [sys.exit] has succeeded with output [None]; without one, the exit
    goes through. *)
Theorem exit_in_thread_succeeds req target w e w' :
  truthy (ep_timeout_seconds (rq_policy req)) = true →
  join_arg (ep_timeout_seconds (rq_policy req)) = Ok tt →
  let w2 := (reading (reading w).2).2 in
  late _ target w2 = None → target w2 = (Raise e, w') → isinstance e "Exception" = false →
  ∃ res w'', run_in_env None req (Callable target) w = (Ok res, w'') ∧
    rs_status res = SUCCEEDED ∧ rs_output res = VNone.
Proof.
  intros Ht Hj w2 Hlate Hrun He. unfold run_in_env. unfold bind at 1. unfold reading at 1, zoom at 1, tick at 1.
  unfold bind at 1. cbn [before_run ret]. rewrite finally_ret. unfold catch, run_callable. unfold bind at 1.
  unfold reading at 1, zoom at 1, tick at 1. rewrite Ht. unfold bind at 1, timed_call.
  change (lset world_env _ (lset world_env _ w)) with w2. rewrite Hlate, Hj. unfold run_thread, catch.
  rewrite Hrun, He. unfold since, iso_metadata, datetime_iso, bind, reading, zoom, tick, ret.
  destruct (num_truthy _); eexists _, _; split_and!; reflexivity.
Qed.

(** ** The adapter *)

(** The request, then the after hook if it returned: whether all went well with
    a result of status SUCCEEDED, and the world they leave. *)
Definition body_end (ex : Executor) (req : ExecutionRequest) (ctx : ExecutionContext) (w1 : W) : bool * W :=
  match execute_request ex req ctx w1 with
  | (Ok res, w2) => match after_execute ex req res ctx w2 with
                    | (Ok _, w3) => (succeeded res, w3)
                    | (Raise _, w3) => (false, w3)
                    end
  | (Raise _, w2) => (false, w2)
  end.
Lemma deref_run `{!LensLaws (world_env (W := W))} r t w :
  env_tasks (lget world_env w) !! r = Some t → zoom world_env (deref r) w = (Ok t, w).
Proof. intros Ht. unfold zoom, deref. by rewrite Ht, lset_lget. Qed.

(** C31: Once [before_execute] has returned, the clean-up runs exactly once and last,
    whatever the request and the after hook do; the call succeeds just when the
    request, the hook and the clean-up succeed and the result's status is
    SUCCEEDED.  When [before_execute] raises, nothing else runs. *)
Theorem adapter_always_cleans_up `{!LensLaws (world_env (W := W))} ex store r t w :
  env_tasks (lget world_env w) !! r = Some t →
  let req := task_request (ex_class ex) t in
  let ctx := task_context store t in
  match before_execute ex req ctx w with
  | (Raise x, w1) => adapter_execute ex store r w = (Raise x, w1)
  | (Ok _, w1) =>
      let '(ok, w2) := body_end ex req ctx w1 in
      let '(c, w3) := cleanup ex req ctx w2 in
      (adapter_execute ex store r w).2 = w3 ∧
      ((adapter_execute ex store r w).1 = Ok tt ↔ ok = true ∧ c = Ok tt)
  end.
Proof.
  intros Ht req ctx. unfold adapter_execute, bind. rewrite (deref_run r t w Ht).
  fold req ctx. destruct (before_execute ex req ctx w) as [[[]|x] w1]; [|done].
  unfold body_end, finally, adapter_body, bind.
  destruct (execute_request ex req ctx w1) as [[res|x] w2].
  - destruct (after_execute ex req res ctx w2) as [[[]|x] w3].
    + destruct (succeeded res); unfold ret, raise; destruct (cleanup ex req ctx w3) as [[[]|y] w4]; naive_solver.
    + destruct (cleanup ex req ctx w3) as [[[]|y] w4]; naive_solver.
  - destruct (cleanup ex req ctx w2) as [[[]|y] w4]; naive_solver.
Qed.

(** ** What the adapter does not pass on *)

(** The payload an adapted executor sees has the keys [task_id], [title] and
    [metadata] only: the command, function name or options a task carries in its
    metadata are not where the executors look.  Through the adapter every task
    fails on a [FunctionExecutor] or a [ShellExecutor] before anything runs, and
    on a [MockExecutor] it succeeds even when its metadata forces an error. *)
Theorem adapted_tasks_lose_their_payload `{!LensLaws (world_env (W := W))} reg chroot store r t w :
  env_tasks (lget world_env w) !! r = Some t →
  adapter_execute (FunctionExecutor reg) store r w =
    (Raise (ValueError "ExecutionRequest payload must contain 'function_name'."), w) ∧
  adapter_execute (ShellExecutor chroot) store r w =
    (Raise (ValueError "ExecutionRequest payload must contain 'command' (string or list of strings)."), w) ∧
  (adapter_execute MockExecutor store r w).1 = Ok tt.
Proof.
  intros Ht. pose proof (deref_run r t w Ht) as Hd.
  split_and!; unfold adapter_execute; unfold bind at 1; rewrite Hd; reflexivity.
Qed.

(** [n] clock readings later *)
Definition ticks (n : nat) (w : W) : W := lset world_env (Nat.iter n next_tick (lget world_env w)) w.
Lemma reading_ticks `{!LensLaws (world_env (W := W))} n w :
  ∃ k, reading (ticks n w) = (Ok k, ticks (S n) w).
Proof.
  unfold reading, zoom, tick, ticks. rewrite lget_lset, lset_lset. by eexists.
Qed.
Lemma ticks_0 `{!LensLaws (world_env (W := W))} w : ticks 0 w = w.
Proof. apply lset_lget. Qed.
(** On a [PythonExecutor], through the adapter, a task without a time-out prints
    its title and succeeds whatever its metadata holds (a callable, code, their
    arguments): the world changes by clock readings only. *)
Theorem adapted_python_prints `{!LensLaws (world_env (W := W))} store r t w :
  env_tasks (lget world_env w) !! r = Some t → dget (metadata_or_empty t) "timeout_policy" = None →
  ∃ n, adapter_execute (PythonExecutor None) store r w = (Ok tt, ticks n w).
Proof.
  intros Ht Hp. pose proof (deref_run r t w Ht) as Hd.
  set (req := task_request (ex_class (PythonExecutor None)) t).
  assert (∃ n res, run_in_env None req (Callable (python_call (Print (VStr (task_title t))) (VList []) (VDict [])))
    (ticks 0 w) = (Ok res, ticks n w) ∧ succeeded res = true) as (n & res & Hrun & Hres).
  { assert (ep_timeout_seconds (rq_policy req) = VNone) as Hto by (simpl; by rewrite Hp).
    unfold run_in_env, before_run, run_callable, since, iso_metadata, datetime_iso. rewrite Hto.
    unfold finally, catch, bind, ret; cbn [truthy].
    destruct (reading_ticks 0 w) as (k0 & ->), (reading_ticks 1 w) as (k1 & ->).
    unfold python_call, bind, of_outcome, ret. cbn beta iota delta [star_args star_kwargs].
    destruct (reading_ticks 2 w) as (k2 & ->), (reading_ticks 3 w) as (k3 & E3), (reading_ticks 4 w) as (k4 & E4).
    destruct (num_truthy _); rewrite E3, ?E4; by eexists _, _. }
  rewrite ticks_0 in Hrun. exists n. unfold adapter_execute. unfold bind at 1. rewrite Hd.
  fold req. unfold bind at 1. unfold finally, adapter_body, bind.
  assert (execute_request (PythonExecutor None) req (task_context store t) w = (Ok res, ticks n w)) as He
    by exact Hrun.
  cbn [before_execute PythonExecutor no_hook]. unfold no_hook at 1, ret at 1. rewrite He; simpl. by rewrite Hres.
Qed.
End executors.

(** * Examples *)
Section examples.
#[local] Existing Instance sample_oracle.

(** A world that counts the calls of user code; every thread ends in time. *)
Abbreviation Counting := (Env * nat)%type.
#[local] Instance calls_host : Host Counting := {|
  world_env := self_lens; late A m w := None; str_of v := "1"; store_append _ d := self (emit d);
  record_execution _ _ _ _ := ret tt |}.
#[local] Instance calls_os : OS Counting := {|
  is_callable v := match v with VObj "function" _ => true | _ => false end;
  call f args kw := modify (λ w : Counting, (w.1, S w.2)) ;;; ret (VInt (Z.of_nat (length kw)));
  bind_error f args kw := None;
  exec_code code := raise (UserExc ["SystemExit"; "BaseException"] "1");
  run_process cmd cwd timeout := ret (Exited "out" "err" 3);
  makedirs d := ret tt; shlex_split s := Ok [s]; gmt_text t := "now"; context_value c := VObj "ExecutionContext" 0 |}.
Definition shell_task : Task := {|
  task_id := "s"; task_type := SHELL; task_metadata := Some [("command", VStr "ls"); ("force_error", VBool true)];
  task_title := "list files"; task_status := PENDING; created_at := "now" |}.
Definition calls_start : Counting :=
  ({| env_tasks := {[0%nat := shell_task]}; env_tick := 0; env_store := None |}, 0%nat).

Definition greet : PyFunction := {|
  fn_params := [("name", false); ("greeting", true); ("logger", false)];
  fn_call kw := modify (λ w : Counting, (w.1, S w.2)) ;;; raise (UserExc ["GreetingError"; "Exception"] "rude") |}.
Definition greet_registry : FunctionRegistry := register_function "greet" greet {| fe_functions := []; fe_dependencies := [] |}.
Definition greet_request : ExecutionRequest := {|
  rq_executor_type := VStr "FunctionExecutor";
  rq_payload := VDict [("function_name", VStr "greet");
                       ("kwargs", VDict [("name", VStr "Ada"); ("unknown", VNone)])];
  rq_policy := default_policy; rq_version := VStr "1.0.0" |}.

Lemma function_executor_spec_witness :
  let ctx := task_context None shell_task in
  let kw := [("name", VStr "Ada"); ("unknown", VNone)] in
  (∃ injected, (∀ p, ¬ unresolved [] kw ctx (fn_params greet) p) ∧ dwf injected ∧
     (∀ p, dget injected p = if decide (p ∈ (fn_params greet).*1)
                     then resolve_param [] kw ctx p else None) ∧
     let '(o, w1) := fn_call greet injected (reading calls_start).2 in
     match function_execute_request greet_registry greet_request ctx calls_start with
     | (Ok res, w') => reports res o ∧ w' = (reading (reading w1).2).2
     | (Raise x, w') => o = Raise x ∧ isinstance x "Exception" = false ∧ w' = w1
     end) ∨
  (∃ p x, unresolved [] kw ctx (fn_params greet) p ∧
     function_execute_request greet_registry greet_request ctx calls_start = (Raise (RuntimeError x), calls_start)).
Proof.
  intros ctx kw.
  apply (function_executor_spec greet_registry [("function_name", VStr "greet"); ("kwargs", VDict kw)]
    greet_request ctx "greet" greet kw calls_start); try done.
  apply (bool_decide_unpack _). vm_compute. exact I.
Defined.

Lemma run_in_env_contains_witness :
  match (run_in_env (Some "/tmp/box") sample_request (Command [VStr "false"]) calls_start).1 with
  | Ok res =>
      rs_status res ∈ [SUCCEEDED; FAILED; TIMED_OUT] ∧
      (rs_status res = SUCCEEDED ↔ rs_error res = None) ∧
      (rs_status res = TIMED_OUT → ∃ m, rs_error res = Some (new_error (VStr m) "TimeoutError" (VBool true)))
  | Raise e => isinstance e "Exception" = false
  end.
Proof. apply run_in_env_contains. intros x. discriminate. Defined.

Lemma exit_in_thread_succeeds_witness :
  ∃ res w'', run_in_env None overlap_request (Callable (exec_code (VStr "exit(1)"))) calls_start = (Ok res, w'') ∧
    rs_status res = SUCCEEDED ∧ rs_output res = VNone.
Proof.
  apply (exit_in_thread_succeeds overlap_request (exec_code (VStr "exit(1)")) calls_start
    (UserExc ["SystemExit"; "BaseException"] "1") (reading (reading calls_start).2).2); reflexivity.
Defined.

(** A mock whose clean-up counts its calls. *)
Definition counting_mock : Executor := {|
  ex_class := "MockExecutor"; ex_capabilities := capabilities_of ["mock"];
  before_execute := no_hook; execute_request _ _ := raise (ValueError "broken");
  after_execute := no_hook_after; cleanup _ _ := modify (λ w : Counting, (w.1, S w.2)) |}.
Lemma adapter_always_cleans_up_witness :
  (adapter_execute counting_mock None 0 calls_start).2 = (calls_start.1, 1%nat) ∧
  ((adapter_execute counting_mock None 0 calls_start).1 = Ok tt ↔ false = true ∧ Ok tt = Ok tt).
Proof. apply (adapter_always_cleans_up counting_mock None 0 shell_task calls_start). reflexivity. Defined.

Lemma adapted_tasks_lose_their_payload_witness :
  adapter_execute (FunctionExecutor greet_registry) None 0 calls_start =
    (Raise (ValueError "ExecutionRequest payload must contain 'function_name'."), calls_start) ∧
  adapter_execute (ShellExecutor None) None 0 calls_start =
    (Raise (ValueError "ExecutionRequest payload must contain 'command' (string or list of strings)."),
     calls_start) ∧
  (adapter_execute MockExecutor None 0 calls_start).1 = Ok tt.
Proof. apply (adapted_tasks_lose_their_payload _ _ _ _ shell_task). reflexivity. Defined.

Lemma adapted_python_prints_witness :
  ∃ n, adapter_execute (PythonExecutor None) None 0 calls_start = (Ok tt, ticks n calls_start).
Proof. apply (adapted_python_prints None 0 shell_task); reflexivity. Defined.
End examples.
