(* ===== verification/Http.v ===== *)
(** [executors/http_executor.py]: the executor of HTTP requests, over
    [urllib.request]. *)
From S2P Require Import Prelude PyNum Values Decode Events EventStore Tasks.
From S2P Require Import Execution Middleware Executors.
From stdpp Require Import pretty.
Open Scope Z_scope.

(** [urllib.request.Request(url, data, headers, method)] *)
Inductive http_data : Type := JsonBody (j : json) | TextBody (s : string).
Record HttpCall : Type := {
  hc_url : pyval;
  hc_data : option http_data;
  hc_headers : pyval;
  hc_method : string
}.

(** What [urlopen] gives: a response, which is read (and decoded as UTF-8) and
    closed; or an [HTTPError], whose body may be read; or a [URLError]. *)
Inductive http_reply (W : Type) : Type :=
  | Response (status : Z) (headers : odict pyval) (read : M W string) (close : M W unit)
  | HTTPError (code : Z) (reason : string) (headers : odict pyval) (fp : option (M W string))
  | URLError (reason : string).
Arguments Response {W} status headers read close.
Arguments HTTPError {W} code reason headers fp.
Arguments URLError {W} reason.

(** The network and the library: [str.upper], the constructor of a request
    (which rejects a URL without a known scheme), [urlopen] with a time-out,
    where any other exception is raised, and [json.loads] of a received text,
    [None] for a [JSONDecodeError]. *)
Class Network (W : Type) : Type := {
  str_upper : string → string;
  new_request : HttpCall → outcome unit;
  urlopen : HttpCall → pyval → M W (http_reply W);
  parse_json : string → option pyval
}.

(** [if "Content-Type" not in headers: headers["Content-Type"] = ...] *)
Definition add_content_type (headers : pyval) : outcome pyval :=
  match headers with
  | VDict d =>
      Ok (VDict (if dhas d "Content-Type" then d else dset d "Content-Type" (VStr "application/json")))
  | VList l =>
      if existsb (λ v, match v with VStr s => s =s? "Content-Type" | _ => false end) l then Ok headers
      else Raise (TypeError "list indices must be integers or slices, not str")
  | VStr s =>
      if str_contains "Content-Type" s then Ok headers
      else Raise (TypeError "'str' object does not support item assignment")
  | _ => Raise (TypeError "argument is not iterable")
  end.

Section http.
Context `{!Oracle} {W : Type} `{!Host W} `{!OS W} `{!Network W}.

Definition http_method (payload : odict pyval) : outcome string :=
  match get_or payload "method" (VStr "GET") with
  | VStr s => Ok (str_upper s)
  | _ => Raise (AttributeError "upper")
  end.
(** [data] and the headers; a body that is no dictionary and no string is not
    sent *)
Definition http_body (body headers : pyval) : outcome (option http_data * pyval) :=
  if truthy body then
    match body with
    | VDict _ => let? j := dumps body in let? h := add_content_type headers in Ok (Some (JsonBody j), h)
    | VStr s => Ok (Some (TextBody s), headers)
    | _ => Ok (None, headers)
    end
  else Ok (None, headers).
Definition http_prepare (payload : odict pyval) : outcome HttpCall :=
  let url := get_or payload "url" VNone in
  let? method := http_method payload in
  let headers := get_or payload "headers" (VDict []) in
  let body := get_or payload "body" VNone in
  if negb (truthy url) then Raise (ValueError "ExecutionRequest payload must contain 'url'.")
  else
    let? dh := http_body body headers in
    Ok {| hc_url := url; hc_data := dh.1; hc_headers := dh.2; hc_method := method |}.
(** The payload afterwards: its [headers] dictionary, when it has one, is the
    object that was changed. *)
Definition http_payload_after (payload : odict pyval) : odict pyval :=
  match http_prepare payload with
  | Ok c => if dhas payload "headers" then dset payload "headers" (hc_headers c) else payload
  | Raise _ => payload
  end.

(** What the [try] block ends with. *)
Inductive attempt : Type :=
  | Answered (res : ExecutionResult)
  | Refused (code : Z) (reason : string) (headers : odict pyval) (fp : option (M W string))
  | Unreachable (reason : string)
  | Crashed (e : exn).

Definition with_extra (extra : odict pyval) (m : ExecutionMetadata) : ExecutionMetadata :=
  {| em_started_at := em_started_at m; em_completed_at := em_completed_at m;
     em_duration_seconds := em_duration_seconds m; em_extra := VDict extra; em_version := em_version m |}.
Definition timed_metadata (start : nat) (extra : odict pyval) : M W ExecutionMetadata :=
  d <- since start ;;
  m <- gmt_metadata start d ;;
  ret (with_extra extra m).

Definition http_answer (start : nat) (status : Z) (headers : odict pyval) (read : M W string) :
    M W ExecutionResult :=
  response_body <- read ;;
  let output := default (VStr response_body) (parse_json response_body) in
  m <- timed_metadata start [("status_code", VInt status); ("headers", VDict headers)] ;;
  ret (new_result SUCCEEDED output None m).
Definition http_try (start : nat) (c : HttpCall) (timeout : pyval) : M W attempt :=
  catch
    (reply <- urlopen c timeout ;;
     match reply with
     | Response status headers read close =>
         res <- finally (http_answer start status headers read) close ;; ret (Answered res)
     | HTTPError code reason headers fp => ret (Refused code reason headers fp)
     | URLError reason => ret (Unreachable reason)
     end)
    (λ e, if isinstance e "Exception" then ret (Crashed e) else raise e).

(** HTTP 5xx codes are transient. *)
Definition transient_code (code : Z) : bool := (500 <=? code) && (code <? 600).
Definition http_failed (e : ExecutionError) (m : ExecutionMetadata) : M W ExecutionResult :=
  ret (new_result FAILED VNone (Some e) m).
(** the [except] clauses; what they raise themselves is not caught *)
Definition http_report (start : nat) (a : attempt) : M W ExecutionResult :=
  match a with
  | Answered res => ret res
  | Refused code reason headers fp =>
      d <- since start ;;
      response_body <- match fp with Some read => read | None => ret "" end ;;
      m <- gmt_metadata start d ;;
      http_failed (new_error (VStr ("HTTP " +:+ pretty code +:+ ": " +:+ reason +:+ ". Response: " +:+
                    response_body)) "HTTPError" (VBool (transient_code code)))
        (with_extra [("status_code", VInt code); ("headers", VDict headers);
                     ("error_body", VStr response_body)] m)
  | Unreachable reason =>
      m <- timed_metadata start [] ;;
      http_failed (new_error (VStr ("Network URL connection failed: " +:+ reason)) "URLError" (VBool true)) m
  | Crashed e =>
      m <- timed_metadata start [] ;;
      http_failed (new_error (VStr (exn_str e)) (exn_class e) (VBool false)) m
  end.
(** [execute_request] *)
Definition http_execute_request (req : ExecutionRequest) (ctx : ExecutionContext) : M W ExecutionResult :=
  start <- reading ;;
  payload <- of_outcome (getting (rq_payload req)) ;;
  c <- of_outcome (http_prepare payload) ;;
  let timeout := py_or (ep_timeout_seconds (rq_policy req)) (VNum (PFloat (round_to_float 10 0))) in
  _ <- of_outcome (new_request c) ;;
  a <- http_try start c timeout ;;
  http_report start a.
Definition HTTPExecutor : Executor := {|
  ex_class := "HTTPExecutor"; ex_capabilities := capabilities_of ["http"; "network"; "rest"; "external"];
  before_execute := no_hook; execute_request := http_execute_request;
  after_execute := no_hook_after; cleanup := no_hook |}.

(** * Correctness *)

(** ** The request *)
Lemma add_content_type_again h h' : add_content_type h = Ok h' → add_content_type h' = Ok h'.
Proof.
  unfold add_content_type. destruct h; try done.
  - destruct (str_contains _ _) eqn:E; [|done]. intros [= <-]. by rewrite E.
  - destruct (existsb _ _) eqn:E; [|done]. intros [= <-]. by rewrite E.
  - intros [= <-]. destruct (dhas d "Content-Type") eqn:Hd; [by rewrite Hd|].
    assert (dhas (dset d "Content-Type" (VStr "application/json")) "Content-Type" = true) as ->; [|done].
    apply dhas_true, elem_of_dkeys_dset. by left.
Qed.

Lemma get_or_dset_ne (d : odict pyval) k k' v def : k ≠ k' → get_or (dset d k v) k' def = get_or d k' def.
Proof. intros Hne. unfold get_or. by rewrite dget_dset_ne. Qed.

(** Executing a request changes the headers inside its payload, but an
    execution of the changed payload, a retry for one, sends the same request. *)
Theorem http_retry_same_request payload c :
  http_prepare payload = Ok c → http_prepare (http_payload_after payload) = Ok c.
Proof.
  intros Hp. unfold http_payload_after. rewrite Hp. destruct (dhas payload "headers") eqn:Hd; [|done].
  revert Hp. unfold http_prepare, http_method. rewrite !get_or_dset_ne by done.
  replace (get_or (dset payload "headers" (hc_headers c)) "headers" (VDict [])) with (hc_headers c)
    by (unfold get_or; by rewrite dget_dset_eq).
  destruct (get_or payload "method" _); try done. cbn [obind].
  destruct (negb _); [done|]. unfold http_body. destruct (truthy (get_or payload "body" VNone)) eqn:Hb.
  2:{ cbn [obind]. intros [= <-]. done. }
  destruct (get_or payload "body" VNone) as [| | | | |d| | |]; cbn [obind]; try (intros [= <-]; done).
  destruct (dumps (VDict d)) as [j|]; cbn [obind]; [|done].
  destruct (add_content_type _) as [h|] eqn:Hh; cbn [obind]; [|done]. intros [= <-]. cbn [hc_headers].
  apply add_content_type_again in Hh. rewrite Hh. done.
Qed.

(** ** The result *)
Definition failed_with (class : string) (transient : bool) (o : outcome ExecutionResult) : Prop :=
  ∃ msg m, o = Ok (new_result FAILED VNone (Some (new_error (VStr msg) class (VBool transient))) m).
(** What ends the attempt at [w] with an exception: an [Exception] becomes a
    failure of its class that is not transient, anything else goes on. *)
Definition crashed_with (e : exn) (w : W) (o : outcome ExecutionResult) (w' : W) : Prop :=
  if isinstance e "Exception" then failed_with (exn_class e) false o ∧ w' = (reading (reading w).2).2
  else o = Raise e ∧ w' = w.
(** The response is closed at [w], after what was to be the result [res]. *)
Definition closed_with (close : M W unit) (w : W) (res : outcome ExecutionResult) (o : outcome ExecutionResult) (w' : W) :
    Prop :=
  match close w, res with
  | (Ok _, w1), Ok r => o = Ok r ∧ w' = w1
  | (Ok _, w1), Raise e => crashed_with e w1 o w'
  | (Raise e, w1), _ => crashed_with e w1 o w'
  end.
(** The request a call sends, or why it cannot be built. *)
Definition http_call (req : ExecutionRequest) : outcome HttpCall :=
  let? payload := getting (rq_payload req) in
  let? c := http_prepare payload in
  let? _ := new_request c in Ok c.

Lemma timed_metadata_run start extra w :
  ∃ m, timed_metadata start extra w = (Ok m, (reading (reading w).2).2).
Proof. by eexists. Qed.

Lemma http_answer_run start status headers read w :
  match read w with
  | (Ok text, w1) => ∃ m, http_answer start status headers read w =
      (Ok (new_result SUCCEEDED (default (VStr text) (parse_json text)) None m), (reading (reading w1).2).2)
  | (Raise e, w1) => http_answer start status headers read w = (Raise e, w1)
  end.
Proof.
  destruct (read w) as [[text|e] w1] eqn:E; unfold http_answer, bind at 1; rewrite E; [|done]. unfold bind at 1.
  destruct (timed_metadata_run start [("status_code", VInt status); ("headers", VDict headers)] w1) as [m ->].
  by exists m.
Qed.

Lemma report_crashed start e w :
  let '(o, w') := (if isinstance e "Exception" then http_report start (Crashed e) w else (Raise e, w)) in
  crashed_with e w o w'.
Proof.
  unfold crashed_with. destruct (isinstance e "Exception"); [|done]. unfold http_report. unfold bind at 1.
  destruct (timed_metadata_run start [] w) as [m ->]. split; [by eexists _, _|done].
Qed.

(** C32: The result of a request follows from the exchange.  A request that cannot be
    built (no URL, a method that is no text, a URL the library rejects) raises
    before anything is sent.  A response is closed in any case, whether or not
    it can be read; when it is read and closed the result is a success whatever
    the status, with its JSON value or its text as output.  An HTTP error is
    transient just for the codes 500 to 599, a URL error always; any other
    [Exception] of the exchange is a failure of its class that is not.  Once the
    request is sent, only what reading the body of an HTTP error raises, and what
    is no [Exception], leaves the executor as an exception. *)
Theorem http_execute_spec req ctx w :
  let timeout := py_or (ep_timeout_seconds (rq_policy req)) (VNum (PFloat (round_to_float 10 0))) in
  let '(o, w') := http_execute_request req ctx w in
  match http_call req with
  | Raise e => o = Raise e ∧ w' = (reading w).2
  | Ok c =>
      match urlopen c timeout (reading w).2 with
      | (Ok (Response _ _ read close), w1) =>
          match read w1 with
          | (Ok text, w2) => ∃ m, closed_with close (reading (reading w2).2).2
              (Ok (new_result SUCCEEDED (default (VStr text) (parse_json text)) None m)) o w'
          | (Raise e, w2) => closed_with close w2 (Raise e) o w'
          end
      | (Ok (HTTPError code _ _ fp), w1) =>
          match (match fp with Some read => read | None => ret "" end) (reading w1).2 with
          | (Ok _, w2) => (∃ transient, failed_with "HTTPError" transient o ∧ (transient = true ↔ 500 ≤ code < 600)) ∧
              w' = (reading w2).2
          | (Raise e, w2) => o = Raise e ∧ w' = w2
          end
      | (Ok (URLError _), w1) => failed_with "URLError" true o ∧ w' = (reading (reading w1).2).2
      | (Raise e, w1) => crashed_with e w1 o w'
      end
  end.
Proof.
  intros timeout. unfold http_execute_request, http_call. unfold bind at 1.
  destruct (reading w) as [[start|x] w0] eqn:Hrd; [|discriminate Hrd]. cbn [snd].
  unfold bind at 1, of_outcome. destruct (getting _) as [payload|x]; cbn [obind]; [|done].
  unfold bind at 1. destruct (http_prepare payload) as [c|x]; cbn [obind]; [|done].
  unfold bind at 1. fold timeout. destruct (new_request c) as [[]|x]; cbn [obind]; [|done].
  unfold http_try. unfold bind at 1, catch. unfold bind at 1.
  destruct (urlopen c timeout w0) as [[[st hs read close|code reason hs fp|reason]|e] w1].
  - unfold bind at 1, finally. pose proof (http_answer_run start st hs read w1) as Ha.
    destruct (read w1) as [[text|e] w2].
    + destruct Ha as [m ->]. unfold closed_with. destruct (close _) as [[[]|x] w3]; simpl; [by exists m|].
      pose proof (report_crashed start x w3) as Hx. by destruct (isinstance x "Exception"); exists m.
    + rewrite Ha. unfold closed_with. destruct (close w2) as [[[]|x] w3]; simpl.
      * pose proof (report_crashed start e w3) as Hx. by destruct (isinstance e "Exception").
      * pose proof (report_crashed start x w3) as Hx. by destruct (isinstance x "Exception").
  - simpl. generalize (match fp with Some read => read | None => ret "" end). intros rd. unfold since. run_step.
    destruct (rd _) as [[text|e] w3]; [|done].
    simpl. split; [|done]. exists (transient_code code). split; [by eexists _, _|].
    unfold transient_code. rewrite andb_true_iff, Z.leb_le, Z.ltb_lt. done.
  - split; [by eexists _, _|done].
  - pose proof (report_crashed start e w1) as Hx. by destruct (isinstance e "Exception").
Qed.
End http.

(** * Examples: a server that answers 503, whose error page is not UTF-8 text at
    one address, and 200 elsewhere, with a JSON text but at one address *)
Section examples.
#[local] Existing Instances sample_oracle calls_host calls_os.
Abbreviation Served := (Env * nat)%type.
Definition decode_error : exn := UserExc ["UnicodeDecodeError"; "ValueError"; "Exception"] "invalid start byte".
#[local] Instance sample_network : Network Served := {|
  str_upper s := s;
  new_request c := Ok tt;
  urlopen c timeout :=
    match hc_url c with
    | VStr "http://a/busy" => ret (HTTPError 503 "Busy" [] (Some (ret "later")))
    | VStr "http://a/broken" => ret (HTTPError 503 "Busy" [] (Some (raise decode_error)))
    | VStr "http://a/binary" => ret (Response 200 [] (raise decode_error) (modify (λ w, (w.1, S w.2))))
    | _ => ret (Response 200 [] (ret "[1]") (modify (λ w, (w.1, S w.2))))
    end;
  parse_json s := if s =s? "[1]" then Some (VList [VInt 1]) else None |}.
Definition get_request (url : string) : ExecutionRequest := {|
  rq_executor_type := VStr "HTTPExecutor"; rq_payload := VDict [("url", VStr url)];
  rq_policy := default_policy; rq_version := VStr "1.0.0" |}.
(** A response whose text cannot be decoded is closed too. *)
Lemma http_execute_spec_witness :
  let run url := http_execute_request (get_request url) (task_context None shell_task) calls_start in
  (let '(o, w') := run "http://a" in
   (∃ m, o = Ok (new_result SUCCEEDED (VList [VInt 1]) None m)) ∧ w'.2 = 1%nat) ∧
  (let '(o, _) := run "http://a/busy" in ∃ transient, failed_with "HTTPError" transient o ∧
     (transient = true ↔ 500 ≤ 503 < 600)) ∧
  (let '(o, _) := run "http://a/broken" in o = Raise decode_error) ∧
  (let '(o, w') := run "http://a/binary" in failed_with "UnicodeDecodeError" false o ∧ w'.2 = 1%nat) ∧
  (run "").1 = Raise (ValueError "ExecutionRequest payload must contain 'url'.").
Proof.
  intros run. pose (call url := http_execute_spec (get_request url) (task_context None shell_task) calls_start).
  split_and!.
  - pose proof (call "http://a") as H. hnf in H. destruct H as [m [Hm Hw]]. split; [by exists m|]. exact (f_equal snd Hw).
  - exact (proj1 (call "http://a/busy")).
  - exact (proj1 (call "http://a/broken")).
  - pose proof (call "http://a/binary") as H. hnf in H. destruct H as [Hm Hw]. split; [exact Hm|]. exact (f_equal snd Hw).
  - exact (proj1 (call "")).
Defined.

Lemma http_retry_same_request_witness :
  let payload := [("url", VStr "http://a"); ("body", VDict [("k", VInt 1)]); ("headers", VDict [])] in
  http_payload_after payload ≠ payload ∧ http_prepare (http_payload_after payload) = http_prepare payload.
Proof.
  intros payload. split; [vm_compute; discriminate|].
  destruct (http_prepare payload) as [c|x] eqn:Hc; [|discriminate Hc].
  exact (http_retry_same_request payload c Hc).
Defined.
End examples.
