(* ===== verification/Registry.v ===== *)
(** [registry/executor_registry.py] and [Runtime.execute_task] of [runtime.py].

    [X] is the type of the registered objects; a builder is any callable that is
    no [Executor]. *)
From S2P Require Import Prelude PyNum Values Decode Events EventStore Tasks.
From S2P Require Import Execution Middleware Executors.
From stdpp Require Import sorting.
Open Scope Z_scope.

(** [tag in tags]: equality with an element of a list, a key of a dictionary, a
    part of a string *)
Definition tag_in (tag : string) (tags : pyval) : outcome bool :=
  match tags with
  | VList l => Ok (existsb (λ v, match v with VStr s => s =s? tag | _ => false end) l)
  | VDict d => Ok (dhas d tag)
  | VStr s => Ok (str_contains tag s)
  | _ => Raise (TypeError "argument is not iterable")
  end.

Section registry.
Context {W X : Type}.
(** [isinstance(x, Executor)], and [x.capabilities] where [x] has it *)
Context (is_executor : X → bool) (capabilities : X → option ExecutionCapabilities).

Inductive registrable : Type :=
  | Object (x : X)
  | Builder (build : M W X).
Record entry_of : Type := {
  instance_or_builder : registrable;
  is_lazy : bool;
  entry_capabilities : option ExecutionCapabilities
}.
(** [_executors] is keyed by [TaskType], here by its value. *)
Record ExecutorRegistry : Type := {
  rg_executors : odict X;
  rg_new : odict (odict entry_of);
  rg_default_type : option string;
  rg_default_version : option string
}.
Definition new_executor_registry : ExecutorRegistry :=
  {| rg_executors := []; rg_new := []; rg_default_type := None; rg_default_version := None |}.
Definition with_new (d : odict (odict entry_of)) (r : ExecutorRegistry) : ExecutorRegistry :=
  {| rg_executors := rg_executors r; rg_new := d; rg_default_type := rg_default_type r;
     rg_default_version := rg_default_version r |}.

(** [register] *)
Definition register (ty : TaskType) (x : X) (r : ExecutorRegistry) : ExecutorRegistry :=
  {| rg_executors := dset (rg_executors r) (type_value ty) x; rg_new := rg_new r;
     rg_default_type := rg_default_type r; rg_default_version := rg_default_version r |}.
(** [set_default_executor] *)
Definition set_default_executor (t v : string) (r : ExecutorRegistry) : ExecutorRegistry :=
  {| rg_executors := rg_executors r; rg_new := rg_new r; rg_default_type := Some t;
     rg_default_version := Some v |}.

(** [executor.capabilities if isinstance(executor, Executor) else None] *)
Definition own_capabilities (x : registrable) : outcome (option ExecutionCapabilities) :=
  match x with
  | Object x =>
      if is_executor x then
        match capabilities x with
        | Some c => Ok (Some c)
        | None => Raise (AttributeError "capabilities")
        end
      else Ok None
  | Builder _ => Ok None
  end.
(** [register_executor]; a [Builder] is a callable that is no [Executor], an
    [Object] is an [Executor] or not callable. *)
Definition register_executor (t : string) (x : registrable) (v : string)
    (caps : option ExecutionCapabilities) : M ExecutorRegistry unit :=
  r <- get ;;
  (if dhas (rg_new r) t then ret tt else modify (λ r, with_new (dset (rg_new r) t []) r)) ;;;
  c <- of_outcome (match caps with Some c => Ok (Some c) | None => own_capabilities x end) ;;
  let e := {| instance_or_builder := x;
              is_lazy := match x with Builder _ => true | Object _ => false end;
              entry_capabilities := c |} in
  modify (λ r, with_new (dset (rg_new r) t (dset (default [] (dget (rg_new r) t)) v e)) r).
(** [unregister_executor] *)
Definition unregister_executor (t v : string) : M ExecutorRegistry unit :=
  r <- get ;;
  match dget (rg_new r) t with
  | Some versions =>
      if dhas versions v then
        let versions' := ddel versions v in
        modify (with_new (if bool_decide (versions' = []) then ddel (rg_new r) t
                          else dset (rg_new r) t versions'))
      else ret tt
  | None => ret tt
  end.

Abbreviation RM A := (M (ExecutorRegistry * W) A).

(** [sorted(versions.keys())[-1]] *)
Definition latest (versions : odict entry_of) : string :=
  default "" (last (sorted_strings (dkeys versions))).
Definition update_entry (t v : string) (f : entry_of → entry_of) : RM unit :=
  self (modify (λ r, with_new (match dget (rg_new r) t with
    | Some vs => match dget vs v with
                 | Some e => dset (rg_new r) t (dset vs v (f e))
                 | None => rg_new r end
    | None => rg_new r end) r)).
(** What [lookup_executor] does with the entry it finds: a builder is run, and
    its instance takes its place before its capabilities are read. *)
Definition lookup_entry (t v : string) (e : entry_of) : RM X :=
  match instance_or_builder e with
  | Builder b =>
      if is_lazy e then
        x <- env b ;;
        update_entry t v (λ e, {| instance_or_builder := Object x; is_lazy := false;
                                  entry_capabilities := entry_capabilities e |}) ;;;
        match capabilities x with
        | Some c =>
            update_entry t v (λ e, {| instance_or_builder := instance_or_builder e; is_lazy := is_lazy e;
                                      entry_capabilities := Some c |}) ;;;
            ret x
        | None => raise (AttributeError "capabilities")
        end
      else raise (TypeError "a builder that is not lazy")
  | Object x => if is_lazy e then raise (TypeError "object is not callable") else ret x
  end.
(** [lookup_executor]; a recursion that does not end is Python's
    [RecursionError]. *)
Fixpoint lookup_executor (fuel : nat) (t : string) (v : option string) : RM X :=
  match fuel with
  | O => raise RecursionError
  | S fuel' =>
      r <- self get ;;
      match dget (rg_new r) t with
      | Some ((_ :: _) as versions) =>
          let target := default (latest versions) (opt_truthy v) in
          match dget versions target with
          | None => raise (ValueError ("No executor registered with name " +:+ t +:+ " and version " +:+ target))
          | Some e => lookup_entry t target e
          end
      | _ =>
          match opt_truthy (rg_default_type r) with
          | Some d => lookup_executor fuel' d (rg_default_version r)
          | None =>
              if dhas (rg_new r) (lower t) then lookup_executor fuel' (lower t) v
              else raise (ValueError ("No executor registered with name: " +:+ t))
          end
      end
  end.

(** [find_by_capability]: the instances whose tags hold the tag; what raises is
    skipped *)
Definition find_one (fuel : nat) (tag t v : string) : RM (list X) :=
  catch
    (x <- lookup_executor fuel t (Some v) ;;
     match capabilities x with
     | None => raise (AttributeError "capabilities")
     | Some c => b <- of_outcome (tag_in tag (cap_tags c)) ;; ret (if (b : bool) then [x] else [])
     end)
    (λ e, if isinstance e "Exception" then ret [] else raise e).
Fixpoint collect {A} (l : list A) (body : A → RM (list X)) : RM (list X) :=
  match l with
  | [] => ret []
  | a :: l' => xs <- body a ;; ys <- collect l' body ;; ret (xs ++ ys)
  end.
Definition find_by_capability (fuel : nat) (tag : string) : RM (list X) :=
  r <- self get ;;
  collect (dkeys (rg_new r)) (λ t,
    r <- self get ;;
    match dget (rg_new r) t with
    | None => raise (KeyError t)
    | Some versions => collect (dkeys versions) (find_one fuel tag t)
    end).
(** [list_executors] *)
Definition list_executors (r : ExecutorRegistry) : odict (list string) :=
  prod_map id dkeys <$> rg_new r.

(** What [get_executor] answers: a registered legacy executor, or an adapter
    around a new one. *)
Inductive found : Type :=
  | Legacy (x : X)
  | Adapted (x : X).
(** [get_executor] *)
Definition get_executor (fuel : nat) (ty : TaskType) : RM found :=
  r <- self get ;;
  match dget (rg_executors r) (type_value ty) with
  | Some x => ret (Legacy x)
  | None =>
      catch (x <- lookup_executor fuel (type_value ty) None ;; ret (Adapted x))
        (λ e, if isinstance e "Exception"
              then raise (ValueError ("No executor registered for task type: " +:+ type_value ty))
              else raise e)
  end.

(** * Correctness *)

(** An [Executor] has capabilities (an abstract property of the port). *)
Hypothesis executor_capabilities : ∀ x, is_executor x = true → is_Some (capabilities x).

Definition entry_wf (e : entry_of) : Prop :=
  match instance_or_builder e with Builder _ => is_lazy e = true | Object _ => is_lazy e = false end.
(** No empty dictionary of versions; an entry is lazy just when it holds a
    builder. *)
Definition registry_wf (r : ExecutorRegistry) : Prop :=
  dwf (rg_new r) ∧
  ∀ t vs, dget (rg_new r) t = Some vs → vs ≠ [] ∧ dwf vs ∧ ∀ v e, dget vs v = Some e → entry_wf e.

Lemma dset_nonempty {V} (d : odict V) k v : dset d k v ≠ [].
Proof. destruct d as [|[k' v'] d]; simpl; [done|]. by case_decide. Qed.

Lemma with_new_wf r t vs :
  registry_wf r → vs ≠ [] → dwf vs → (∀ v e, dget vs v = Some e → entry_wf e) →
  registry_wf (with_new (dset (rg_new r) t vs) r).
Proof.
  intros [Hd Hr] Hne Hwf Hes. split; [by apply dset_wf|]. intros t' vs'. simpl.
  rewrite dget_dset. case_decide; [by intros [= <-]|apply Hr].
Qed.

Lemma register_executor_run t x v caps r : ∃ c r0,
  register_executor t x v caps r = (Ok tt, r0) ∧
  rg_new r0 = dset (rg_new r) t (dset (default [] (dget (rg_new r) t)) v
    {| instance_or_builder := x; is_lazy := match x with Builder _ => true | Object _ => false end;
       entry_capabilities := c |}) ∧
  rg_executors r0 = rg_executors r ∧ rg_default_type r0 = rg_default_type r ∧
  rg_default_version r0 = rg_default_version r.
Proof.
  assert (∃ c, match caps with Some c => Ok (Some c) | None => own_capabilities x end = Ok c) as [c Hc].
  { destruct caps as [c|]; [by eexists|]. destruct x as [x|b]; simpl; [|by eexists].
    destruct (is_executor x) eqn:Hx; [|by eexists].
    destruct (executor_capabilities x Hx) as [c ->]. by eexists. }
  exists c. unfold register_executor. run_step. rewrite Hc.
  destruct (dhas (rg_new r) t) eqn:Ht; simpl; eexists; (split; [reflexivity|]); simpl; [done|].
  split; [|done]. rewrite dget_dset_eq, dset_dset. simpl.
  apply dhas_false, dget_None in Ht. by rewrite Ht.
Qed.

Lemma register_executor_wf t x v caps r o r' :
  registry_wf r → register_executor t x v caps r = (o, r') → registry_wf r'.
Proof.
  intros Hwf Hrun. destruct (register_executor_run t x v caps r) as (c & r0 & Hr & Hnew & _).
  rewrite Hrun in Hr. injection Hr as _ ->.
  assert (registry_wf (with_new (rg_new r0) r)) as Hok; [|done]. rewrite Hnew.
  assert (∀ v e, dget (default [] (dget (rg_new r) t)) v = Some e → entry_wf e) as Hes.
  { destruct (dget (rg_new r) t) as [vs|] eqn:E; [|done]. apply (proj2 Hwf t vs E). }
  apply with_new_wf; [done|apply dset_nonempty| |].
  - apply dset_wf. destruct (dget (rg_new r) t) as [vs|] eqn:E; [|apply NoDup_nil_2].
    apply (proj2 Hwf t vs E).
  - intros v' e. rewrite dget_dset. case_decide; [|apply Hes].
    intros [= <-]. unfold entry_wf; simpl. by destruct x.
Qed.
Lemma unregister_executor_wf t v r o r' :
  registry_wf r → unregister_executor t v r = (o, r') → registry_wf r'.
Proof.
  intros Hwf. unfold unregister_executor. run_step.
  destruct (dget (rg_new r) t) as [vs|] eqn:E; [|by intros [= _ <-]].
  destruct (proj2 Hwf t vs E) as (_ & Hvs & Hes).
  destruct (dhas vs v); [|by intros [= _ <-]]. case_bool_decide as Hne; intros [= _ <-].
  - destruct Hwf as [Hd Hr]. split; [by apply ddel_wf|]. intros t' vs'. simpl.
    destruct (decide (t = t')) as [->|]; [by rewrite dget_ddel_eq by done|].
    rewrite dget_ddel_ne by done. apply Hr.
  - apply with_new_wf; [done..|by apply ddel_wf|]. intros v' e.
    destruct (decide (v = v')) as [->|]; [by rewrite dget_ddel_eq by done|].
    rewrite dget_ddel_ne by done. apply Hes.
Qed.
Lemma update_entry_wf t v f s o s' :
  registry_wf s.1 → (∀ e, entry_wf e → entry_wf (f e)) → update_entry t v f s = (o, s') → registry_wf s'.1.
Proof.
  intros Hwf Hf. destruct s as [r w]. unfold update_entry. run_step. intros [= _ <-]; simpl in *.
  destruct (dget (rg_new r) t) as [vs|] eqn:E; [|by destruct r].
  destruct (dget vs v) as [e|] eqn:Ev; [|by destruct r].
  destruct (proj2 Hwf t vs E) as (_ & Hvs & Hes).
  apply with_new_wf; [done|apply dset_nonempty|by apply dset_wf|].
  intros v' e'. rewrite dget_dset. case_decide; [|apply Hes]. intros [= <-]. eauto.
Qed.

(** What a lookup makes of an entry found under [t] and [v]. *)
Lemma update_entry_run t v f r w vs e :
  dget (rg_new r) t = Some vs → dget vs v = Some e →
  update_entry t v f (r, w) = (Ok tt, (with_new (dset (rg_new r) t (dset vs v (f e))) r, w)).
Proof. intros Ht Hv. unfold update_entry. run_step. by rewrite Ht, Hv. Qed.
Lemma lookup_entry_object t v e x s :
  instance_or_builder e = Object x → is_lazy e = false → lookup_entry t v e s = (Ok x, s).
Proof. intros Hx Hl. unfold lookup_entry. by rewrite Hx, Hl. Qed.
Lemma lookup_entry_wf t v e s o s' :
  registry_wf s.1 → entry_wf e → lookup_entry t v e s = (o, s') → registry_wf s'.1.
Proof.
  intros Hwf He. unfold lookup_entry. unfold entry_wf in He.
  destruct (instance_or_builder e) as [x|b]; rewrite He; [by intros [= _ <-]|].
  unfold bind, zoom at 1; cbn [lget lset env_lens fst snd]. destruct (b s.2) as [[x|y] w']; [|by intros [= _ <-]].
  match goal with |- context [update_entry t v ?f ?u] => destruct (update_entry t v f u) as [o1 s1] eqn:E1 end.
  apply update_entry_wf in E1; [|done..]. destruct o1 as [[]|]; [|by intros [= _ <-]].
  destruct (capabilities x) as [c|]; [|by intros [= _ <-]].
  match goal with |- context [update_entry t v ?f s1] => destruct (update_entry t v f s1) as [o2 s2] eqn:E2 end.
  apply update_entry_wf in E2; [|done..].
  destruct o2; by intros [= _ <-].
Qed.
Lemma lookup_executor_wf fuel t v s o s' :
  registry_wf s.1 → lookup_executor fuel t v s = (o, s') → registry_wf s'.1.
Proof.
  revert t v. induction fuel as [|fuel IH]; intros t v Hwf; simpl; [by intros [= _ <-]|].
  unfold bind at 1, zoom at 1, get; simpl. rewrite <-surjective_pairing.
  destruct (dget (rg_new s.1) t) as [[|ve vs]|] eqn:Ht.
  2:{ destruct (dget (ve :: vs) _) as [e|] eqn:Hv; [|by intros [= _ <-]].
      apply lookup_entry_wf; [done|]. by eapply (proj2 Hwf). }
  all: destruct (opt_truthy _) as [d|]; [by apply IH|];
    destruct (dhas _ _); [by apply IH|by intros [= _ <-]].
Qed.
Lemma find_one_wf fuel tag t v s o s' :
  registry_wf s.1 → find_one fuel tag t v s = (o, s') → registry_wf s'.1.
Proof.
  intros Hwf. unfold find_one, catch, bind. destruct (lookup_executor fuel t (Some v) s) as [o1 s1] eqn:E.
  apply lookup_executor_wf in E; [|done]. unfold of_outcome, ret, raise.
  destruct o1 as [x|y]; [destruct (capabilities x) as [c|]; [destruct (tag_in _ _)|]|];
    simpl; repeat case_match; by intros [= _ <-].
Qed.
Lemma collect_wf {A} (l : list A) (body : A → RM (list X)) s o s' :
  (∀ a s o s', registry_wf s.1 → body a s = (o, s') → registry_wf s'.1) →
  registry_wf s.1 → collect l body s = (o, s') → registry_wf s'.1.
Proof.
  intros Hbody. revert s o s'. induction l as [|a l IH]; intros s o s' Hwf; simpl; [by intros [= _ <-]|].
  unfold bind. destruct (body a s) as [o1 s1] eqn:E1. apply Hbody in E1; [|done].
  destruct o1; [|by intros [= _ <-]]. destruct (collect l body s1) as [o2 s2] eqn:E2.
  apply IH in E2; [|done]. destruct o2; by intros [= _ <-].
Qed.

(** C28: The registry's shape is an invariant: no type without versions and no
    builder but in a lazy entry, whatever is registered, unregistered, looked up
    or searched for, and whether or not the call raises. *)
Theorem registry_invariant r w :
  registry_wf r →
  (∀ t x v caps, registry_wf (register_executor t x v caps r).2) ∧
  (∀ t v, registry_wf (unregister_executor t v r).2) ∧
  (∀ ty x, registry_wf (register ty x r)) ∧ (∀ t v, registry_wf (set_default_executor t v r)) ∧
  (∀ fuel t v, registry_wf (lookup_executor fuel t v (r, w)).2.1) ∧
  (∀ fuel ty, registry_wf (get_executor fuel ty (r, w)).2.1) ∧
  (∀ fuel tag, registry_wf (find_by_capability fuel tag (r, w)).2.1).
Proof.
  intros Hwf. split_and!; try done.
  - intros t x v caps. destruct (register_executor t x v caps r) eqn:E. by eapply register_executor_wf.
  - intros t v. destruct (unregister_executor t v r) eqn:E. by eapply unregister_executor_wf.
  - intros fuel t v. destruct (lookup_executor fuel t v (r, w)) eqn:E. by eapply lookup_executor_wf in E.
  - intros fuel ty. unfold get_executor. unfold bind at 1, zoom at 1, get; simpl.
    destruct (dget _ _); [done|]. unfold catch, bind.
    destruct (lookup_executor fuel (type_value ty) None (r, w)) as [o s] eqn:E.
    apply lookup_executor_wf in E; [|done]. destruct o; [done|]. by case_match.
  - intros fuel tag. destruct (find_by_capability fuel tag (r, w)) as [o s] eqn:E. simpl. revert E.
    unfold find_by_capability. unfold bind at 1, zoom at 1, get; simpl. apply collect_wf; [|done].
    intros t s1 o1 s1' Hs1. unfold bind, zoom at 1, get; simpl. rewrite <-surjective_pairing.
    destruct (dget _ _) as [vs|]; [|by intros [= _ <-]]. apply collect_wf; [|done].
    intros v s2 o2 s2'. apply find_one_wf.
Qed.

(** What is registered under a type and a version is what a lookup of the two
    returns: an object as it is, with nothing changed; a builder is run by the
    first lookup only, and every later one returns the instance it built. *)
Theorem register_lookup t v x caps r fuel w :
  str_truthy v = true →
  ∃ r1, register_executor t x v caps r = (Ok tt, r1) ∧
  match x with
  | Object x => lookup_executor (S fuel) t (Some v) (r1, w) = (Ok x, (r1, w))
  | Builder b =>
      match b w with
      | (Raise e, w1) => lookup_executor (S fuel) t (Some v) (r1, w) = (Raise e, (r1, w1))
      | (Ok x, w1) =>
          ∃ o r2, lookup_executor (S fuel) t (Some v) (r1, w) = (o, (r2, w1)) ∧
            (is_Some (capabilities x) → o = Ok x) ∧
            ∀ w2, lookup_executor (S fuel) t (Some v) (r2, w2) = (Ok x, (r2, w2))
      end
  end.
Proof.
  intros Hv. destruct (register_executor_run t x v caps r) as (c & r1 & Hr & Hnew & _).
  exists r1. split; [done|].
  set (e := {| instance_or_builder := x; is_lazy := _; entry_capabilities := c |}) in *.
  set (vs := dset _ v e) in *.
  assert (dget (rg_new r1) t = Some vs ∧ dget vs v = Some e) as [Ht He].
  { rewrite Hnew. subst vs. by rewrite !dget_dset_eq. }
  assert (∀ r w vs e, dget (rg_new r) t = Some vs → dget vs v = Some e →
    lookup_executor (S fuel) t (Some v) (r, w) = lookup_entry t v e (r, w)) as Hl.
  { clear -Hv. intros r w vs e Ht He. cbn [lookup_executor]. unfold bind at 1, zoom at 1, get; simpl.
    rewrite Ht. destruct vs as [|ve vs]; [done|]. rewrite Hv; cbn [default from_option id]. by rewrite He. }
  destruct x as [x|b]; [by rewrite (Hl _ _ _ _ Ht He)|].
  rewrite (Hl _ _ _ _ Ht He). unfold lookup_entry; cbn [instance_or_builder is_lazy e].
  unfold bind, zoom; cbn [lget lset env_lens fst snd].
  destruct (b w) as [[x|y] w1]; [|done]. cbn [fst snd].
  erewrite update_entry_run by eassumption.
  set (r2 := with_new _ r1). set (e2 := {| instance_or_builder := Object x; is_lazy := false; entry_capabilities := entry_capabilities e |}) in r2.
  assert (dget (rg_new r2) t = Some (dset vs v e2) ∧ dget (dset vs v e2) v = Some e2) as [Ht2 He2].
  { split; [|by rewrite dget_dset_eq]. simpl. by rewrite dget_dset_eq. }
  destruct (capabilities x) as [c'|].
  - erewrite update_entry_run by eassumption. eexists _, _. split_and!; [reflexivity|done|]. intros w2.
    erewrite Hl; [|simpl; by rewrite dget_dset_eq|by rewrite dget_dset_eq]. by apply lookup_entry_object.
  - eexists _, r2. split_and!; [reflexivity|by intros [??]|]. intros w2.
    rewrite (Hl _ _ _ _ Ht2 He2). by apply lookup_entry_object.
Qed.

(** ** Where a lookup falls back *)

(** A lookup without a version is a lookup of the greatest registered version
    name in string order; a name without versions stands for the default when
    there is one, and for its lower case otherwise. *)
Theorem lookup_fallback fuel t v r w :
  registry_wf r →
  match dget (rg_new r) t with
  | Some vs =>
      latest vs ∈ dkeys vs ∧ (∀ v', v' ∈ dkeys vs → str_le v' (latest vs)) ∧
      (opt_truthy v = None → str_truthy (latest vs) = true →
       lookup_executor (S fuel) t v (r, w) = lookup_executor (S fuel) t (Some (latest vs)) (r, w))
  | None =>
      lookup_executor (S fuel) t v (r, w) =
        match opt_truthy (rg_default_type r) with
        | Some d => lookup_executor fuel d (rg_default_version r) (r, w)
        | None =>
            if dhas (rg_new r) (lower t) then lookup_executor fuel (lower t) v (r, w)
            else (Raise (ValueError ("No executor registered with name: " +:+ t)), (r, w))
        end
  end.
Proof.
  intros Hwf. destruct (dget (rg_new r) t) as [vs|] eqn:Ht.
  - destruct (proj2 Hwf t vs Ht) as (Hne & _ & _).
    destruct (sorted_strings_last (dkeys vs)) as (s & Hs & Hin & Hmax).
    { destruct vs; [done|]. discriminate. }
    unfold latest at 1 2. rewrite Hs; cbn [default from_option id]. split_and!; [done..|].
    intros Hv Hl. cbn [lookup_executor]. unfold bind at 1 2, zoom at 1 2, get; simpl. rewrite Ht.
    destruct vs; [done|]. rewrite Hv. cbn [opt_truthy]. by rewrite Hl.
  - cbn [lookup_executor]. unfold bind at 1, zoom at 1, get; simpl. rewrite Ht.
    destruct (opt_truthy _); [done|]. by destruct (dhas _ _).
Qed.

(** Lookups terminate, with at most one fallback, unless the default is itself
    not registered. *)
Theorem lookup_terminates fuel t v r w :
  registry_wf r → (∀ d, opt_truthy (rg_default_type r) = Some d → dhas (rg_new r) d = true) →
  lookup_executor (2 + fuel) t v (r, w) = lookup_executor 2 t v (r, w).
Proof.
  intros Hwf Hd.
  assert (∀ n t v, dhas (rg_new r) t = true →
    lookup_executor (S n) t v (r, w) = lookup_executor 1 t v (r, w)) as Hreg.
  { intros n t' v' Ht'. cbn [lookup_executor]. unfold bind at 1 2, zoom at 1 2, get; simpl.
    apply dhas_true, dget_is_Some in Ht' as [vs Hvs].
    destruct (proj2 Hwf t' vs Hvs) as (Hne & _). rewrite Hvs. by destruct vs. }
  destruct (dget (rg_new r) t) as [vs|] eqn:Ht.
  - assert (dhas (rg_new r) t = true) by (apply dhas_true, dget_is_Some; by eexists).
    change (2 + fuel)%nat with (S (S fuel)).
    by rewrite (Hreg (S fuel) t v), (Hreg 1%nat t v).
  - pose proof (lookup_fallback (S fuel) t v r w Hwf) as H1. pose proof (lookup_fallback 1 t v r w Hwf) as H2.
    rewrite Ht in H1, H2. change (2 + fuel)%nat with (S (S fuel)). rewrite H1, H2.
    destruct (opt_truthy _) as [d|]; [by apply (Hreg fuel), Hd|].
    destruct (dhas (rg_new r) (lower t)) eqn:Hlow; [by apply Hreg|done].
Qed.

(** With a default type that is not registered, looking up any other missing
    name recurses for ever: Python ends it with a [RecursionError], which
    [get_executor] reports as a missing executor. *)
Theorem default_unregistered_diverges fuel d t v r w :
  opt_truthy (rg_default_type r) = Some d → dget (rg_new r) d = None → dget (rg_new r) t = None →
  lookup_executor fuel t v (r, w) = (Raise RecursionError, (r, w)).
Proof.
  intros Hd Hnd. revert t v. induction fuel as [|fuel IH]; intros t v Ht; [done|].
  cbn [lookup_executor]. unfold bind at 1, zoom at 1, get; simpl. rewrite Ht, Hd. by apply IH.
Qed.

(** ** Discovery *)
Lemma collect_pure {A} (l : list A) (body : A → RM (list X)) (f : A → list X) s :
  (∀ a, a ∈ l → body a s = (Ok (f a), s)) → collect l body s = (Ok (concat (map f l)), s).
Proof.
  induction l as [|a l IH]; intros Hb; simpl; [done|]. unfold bind.
  rewrite (Hb a) by left. rewrite IH by (intros; apply Hb; by right). done.
Qed.
Lemma map_dkeys {V B} (d : odict V) (f : string → B) (g : V → B) :
  dwf d → (∀ k v, dget d k = Some v → f k = g v) → map f (dkeys d) = map g (dvals d).
Proof.
  intros Hd Hfg. unfold dkeys, dvals. rewrite <-!list_fmap_compose. apply list_fmap_ext.
  intros i [k v] Hi; simpl. apply Hfg, dget_elem; [done|]. by eapply list_elem_of_lookup_2.
Qed.

Definition has_tag (tag : string) (x : X) : Prop :=
  ∃ c, capabilities x = Some c ∧ tag_in tag (cap_tags c) = Ok true.
#[export] Instance has_tag_dec tag x : Decision (has_tag tag x).
Proof.
  unfold has_tag. destruct (capabilities x) as [c|]; [|right; intros (c & ? & _); discriminate].
  destruct (decide (tag_in tag (cap_tags c) = Ok true)) as [Ht|Ht]; [left; by exists c|].
  right. intros (c' & [= <-] & Hc). done.
Defined.
Definition entry_objects (e : entry_of) : list X :=
  match instance_or_builder e with Object x => [x] | Builder _ => [] end.
(** The registered objects, in order of registration. *)
Definition registered_objects (r : ExecutorRegistry) : list X :=
  concat (map (λ vs, concat (map entry_objects (dvals vs))) (dvals (rg_new r))).
(** No builder is left, and no version name is empty. *)
Definition eager (r : ExecutorRegistry) : Prop :=
  ∀ t vs v e, dget (rg_new r) t = Some vs → dget vs v = Some e →
    str_truthy v = true ∧ ∃ x, instance_or_builder e = Object x.

Lemma find_one_object fuel tag t v r w vs e x :
  dget (rg_new r) t = Some vs → dget vs v = Some e → str_truthy v = true →
  instance_or_builder e = Object x → is_lazy e = false →
  find_one (S fuel) tag t v (r, w) = (Ok (filter (has_tag tag) [x]), (r, w)).
Proof.
  intros Ht He Hv Hx Hl. unfold find_one, catch. unfold bind at 1.
  assert (lookup_executor (S fuel) t (Some v) (r, w) = (Ok x, (r, w))) as ->.
  { cbn [lookup_executor]. unfold bind at 1, zoom at 1, get; simpl. rewrite Ht.
    destruct vs as [|ve vs]; [done|]. rewrite Hv; cbn [default from_option id]. rewrite He.
    by apply lookup_entry_object. }
  rewrite filter_cons, filter_nil. case_decide as Hd.
  - destruct Hd as (c & -> & Hc). unfold bind, of_outcome. by rewrite Hc.
  - destruct (capabilities x) as [c|] eqn:Ec; [|done]. unfold bind, of_outcome.
    destruct (tag_in tag (cap_tags c)) as [[]|y] eqn:Et; [|done|].
    + destruct Hd. by exists c.
    + destruct (cap_tags c); simpl in Et; simplify_eq/=; done.
Qed.

Theorem find_by_capability_spec fuel tag r w :
  registry_wf r → eager r →
  find_by_capability (S fuel) tag (r, w) =
    (Ok (filter (has_tag tag) (registered_objects r)), (r, w)).
Proof.
  intros Hwf He. unfold find_by_capability. unfold bind at 1, zoom at 1, get; simpl.
  set (g := λ vs, filter (has_tag tag) (concat (map entry_objects (dvals vs)))).
  rewrite (collect_pure _ _ (λ t, default [] (g <$> dget (rg_new r) t))).
  - rewrite (map_dkeys _ _ g); [|apply Hwf|by intros t vs ->]. do 2 f_equal.
    unfold registered_objects, g. induction (dvals (rg_new r)) as [|vs l IH]; simpl; [done|].
    by rewrite filter_app, IH.
  - intros t Ht. apply dget_is_Some in Ht as [vs Hvs]. unfold bind, zoom, get; simpl. rewrite Hvs; simpl.
    destruct (proj2 Hwf t vs Hvs) as (_ & Hd & Hes).
    rewrite (collect_pure _ _ (λ v, default [] ((filter (has_tag tag) ∘ entry_objects) <$> dget vs v))).
    + rewrite (map_dkeys _ _ (filter (has_tag tag) ∘ entry_objects)); [|done|by intros v e ->]. do 2 f_equal.
      unfold g. induction (dvals vs) as [|e l IH]; simpl; [done|]. by rewrite filter_app, IH.
    + intros v Hv. apply dget_is_Some in Hv as [e Hev]. rewrite Hev; simpl.
      destruct (He t vs v e Hvs Hev) as [Hvt [x Hx]]. specialize (Hes v e Hev). unfold entry_wf in Hes.
      rewrite Hx in Hes. unfold entry_objects. rewrite Hx. by eapply find_one_object.
Qed.

(** ** [Runtime.execute_task] *)
Section execute_task.
Context (world_env : lens W Env) `{!LensLaws world_env}.
(** [executor.execute(task)] of what [get_executor] returns *)
Context (execute : found → nat → M W unit).
Abbreviation TM A := (M (TaskManager * (ExecutorRegistry * W)) A).
Definition on_tasks {A} (m : M Env A) : TM A := env (env (zoom world_env m)).

Definition execute_task (fuel : nat) (i : string) : TM nat :=
  r <- self (get_task i) ;;
  on_tasks (update_task r start) ;;;
  catch
    (t <- on_tasks (deref r) ;;
     x <- env (get_executor fuel (task_type t)) ;;
     env (env (execute x r)) ;;;
     on_tasks (update_task r complete))
    (λ e, if isinstance e "Exception" then on_tasks (update_task r fail) ;;; raise e else raise e) ;;;
  ret r.

Definition status_in (s : TaskManager * (ExecutorRegistry * W)) (r : nat) : option Taskstatus :=
  task_status <$> env_tasks (lget world_env s.2.2) !! r.
(** [m] drops no task object. *)
Definition keeps {A} (r : nat) (m : M W A) : Prop :=
  ∀ w, is_Some (env_tasks (lget world_env w) !! r) → is_Some (env_tasks (lget world_env (m w).2) !! r).

(** [f] applied to the task [r] of a world. *)
Definition updated (f : Task → Task) (r : nat) (w : W) : W :=
  lset world_env (with_tasks (alter f r (env_tasks (lget world_env w))) (lget world_env w)) w.
Lemma on_tasks_update f r mgr reg w :
  on_tasks (update_task r f) (mgr, (reg, w)) = (Ok tt, (mgr, (reg, updated f r w))).
Proof. done. Qed.
Lemma updated_task f r w t :
  env_tasks (lget world_env w) !! r = Some t → env_tasks (lget world_env (updated f r w)) !! r = Some (f t).
Proof. intros Ht. unfold updated. rewrite lget_lset; simpl. by rewrite lookup_alter_eq, Ht. Qed.
Lemma on_tasks_deref r t mgr reg w :
  env_tasks (lget world_env w) !! r = Some t → on_tasks (deref r) (mgr, (reg, w)) = (Ok t, (mgr, (reg, w))).
Proof. intros Ht. unfold on_tasks, zoom, deref; simpl. by rewrite Ht, lset_lget. Qed.

(** With an executor registered for the task's type, a synchronous execution is
    what the executor does between two changes of the status. *)
Lemma execute_task_run fuel i r t (mgr : TaskManager) reg w x :
  dget mgr i = Some r → env_tasks (lget world_env w) !! r = Some t →
  dget (rg_executors reg) (type_value (task_type t)) = Some x →
  execute_task fuel i (mgr, (reg, w)) =
    match execute (Legacy x) r (updated start r w) with
    | (Ok _, w2) => (Ok r, (mgr, (reg, updated complete r w2)))
    | (Raise e, w2) => (Raise e, (mgr, (reg, if isinstance e "Exception" then updated fail r w2 else w2)))
    end.
Proof.
  intros Hi Ht Hx. set (w1 := updated start r w).
  assert (self (get_task i) (mgr, (reg, w)) = (Ok r, (mgr, (reg, w)))) as Hg.
  { unfold get_task. run_step. by rewrite Hi. }
  pose proof (on_tasks_deref r (start t) mgr reg w1 (updated_task start r w t Ht)) as Hd.
  assert (env (get_executor fuel (task_type (start t))) (mgr, (reg, w1)) = (Ok (Legacy x), (mgr, (reg, w1)))) as Hge.
  { unfold get_executor, bind, zoom, get; simpl. by rewrite Hx. }
  assert (∀ o w2, execute (Legacy x) r w1 = (o, w2) →
    env (env (execute (Legacy x) r)) (mgr, (reg, w1)) = (o, (mgr, (reg, w2)))) as Hexe.
  { intros o w2 He. unfold zoom; simpl. by rewrite He. }
  unfold execute_task, bind, catch. rewrite Hg, on_tasks_update. fold w1. rewrite Hd, Hge.
  destruct (execute (Legacy x) r w1) as [[[]|e] w2] eqn:He; rewrite (Hexe _ _ eq_refl).
  - by rewrite on_tasks_update.
  - destruct (isinstance e "Exception"); [|done]. by rewrite on_tasks_update.
Qed.

(** C29: A synchronous execution settles its task: with the executor registered for
    the task's type, the task ends COMPLETED and is returned just when the
    executor returns, and ends FAILED with the executor's exception re-raised
    when it raises one; with none registered it ends FAILED with a
    [ValueError]. *)
Theorem execute_task_settles fuel i r t (mgr : TaskManager) reg w :
  dget mgr i = Some r → env_tasks (lget world_env w) !! r = Some t → (∀ x, keeps r (execute x r)) →
  match dget (rg_executors reg) (type_value (task_type t)) with
  | Some x =>
      ∃ o w1 w2, execute (Legacy x) r w1 = (o, w2) ∧
        lget world_env w1 = with_tasks (alter start r (env_tasks (lget world_env w))) (lget world_env w) ∧
        let '(o', s') := execute_task fuel i (mgr, (reg, w)) in
        match o with
        | Ok _ => o' = Ok r ∧ status_in s' r = Some COMPLETED
        | Raise e => o' = Raise e ∧ (isinstance e "Exception" = true → status_in s' r = Some Tasks.FAILED)
        end
  | None =>
      rg_new reg = [] → opt_truthy (rg_default_type reg) = None → (0 < fuel)%nat →
      let '(o', s') := execute_task fuel i (mgr, (reg, w)) in
      o' = Raise (ValueError ("No executor registered for task type: " +:+ type_value (task_type t))) ∧
      status_in s' r = Some Tasks.FAILED
  end.
Proof.
  intros Hi Ht Hk. destruct (dget (rg_executors reg) _) as [x|] eqn:Hx.
  - rewrite (execute_task_run fuel i r t mgr reg w x Hi Ht Hx).
    assert (is_Some (env_tasks (lget world_env (updated start r w)) !! r)) as Hw1
      by (eexists; by apply updated_task).
    destruct (execute (Legacy x) r (updated start r w)) as [o w2] eqn:Hex.
    exists o, (updated start r w), w2. split_and!; [done|unfold updated; by rewrite lget_lset|].
    pose proof (Hk (Legacy x) _ Hw1) as [t2 Ht2]. rewrite Hex in Ht2; simpl in Ht2. unfold status_in.
    destruct o as [[]|e]; simpl; (split; [done|]).
    + by rewrite (updated_task complete r w2 t2 Ht2).
    + intros ->. simpl. by rewrite (updated_task fail r w2 t2 Ht2).
  - intros Hn Hdef Hf. destruct fuel as [|fuel]; [lia|]. set (w1 := updated start r w).
    pose proof (updated_task start r w t Ht) as Ht1. fold w1 in Ht1.
    assert (self (get_task i) (mgr, (reg, w)) = (Ok r, (mgr, (reg, w)))) as Hg.
    { unfold get_task. run_step. by rewrite Hi. }
    assert (env (get_executor (S fuel) (task_type (start t))) (mgr, (reg, w1)) =
      (Raise (ValueError ("No executor registered for task type: " +:+ type_value (task_type t))),
       (mgr, (reg, w1)))) as Hge.
    { unfold get_executor; cbn [lookup_executor]. unfold catch, bind, zoom, get; simpl. rewrite Hx.
      cbn [fst snd]. by rewrite Hn, Hdef. }
    unfold execute_task, bind, catch. rewrite Hg, on_tasks_update. fold w1. rewrite (on_tasks_deref r (start t)), Hge by done.
    match goal with |- context [isinstance ?e ?c] => change (isinstance e c) with true end. cbn beta iota.
    rewrite on_tasks_update. split; [done|]. unfold status_in; simpl. by rewrite (updated_task fail r w1 _ Ht1).
Qed.
End execute_task.
End registry.

(** * Examples *)
Section examples.
#[local] Existing Instance sample_oracle.

(** Executors named by numbers; building one counts. *)
Definition plain_executor (_ : nat) : bool := true.
Definition plain_capabilities (n : nat) : option ExecutionCapabilities :=
  Some (capabilities_of (if Nat.even n then ["even"; "local"] else ["odd"; "local"])).
Lemma plain_ok : ∀ x, plain_executor x = true → is_Some (plain_capabilities x).
Proof. intros x _. by eexists. Qed.
Definition build_one : M nat nat := λ w, (Ok 7%nat, S w).
Definition reg_executor {W} := register_executor (W := W) plain_executor plain_capabilities.
Definition three_versions : ExecutorRegistry (W := nat) (X := nat) :=
  (reg_executor "shell" (Object 8%nat) "9.0.0" None
    (reg_executor "python" (Object 2%nat) "10.0.0" None
      (reg_executor "python" (Object 1%nat) "9.0.0" None new_executor_registry).2).2).2.

Lemma three_versions_wf : registry_wf three_versions.
Proof.
  unfold three_versions.
  assert (registry_wf (@new_executor_registry nat nat)) as Hnew by (split; [apply NoDup_nil_2|done]).
  unfold reg_executor. do 3 (eapply (register_executor_wf plain_executor plain_capabilities plain_ok);
    [|apply surjective_pairing]). exact Hnew.
Qed.
Lemma registry_invariant_witness :
  registry_wf (unregister_executor "shell" "9.0.0" three_versions).2.
Proof.
  destruct (registry_invariant plain_executor plain_capabilities plain_ok three_versions 0%nat three_versions_wf)
    as (_ & Hu & _). apply Hu.
Defined.

Lemma register_lookup_witness :
  ∃ r1, reg_executor "lazy" (Builder build_one) "1.0.0" None three_versions = (Ok tt, r1) ∧
  ∃ o r2, lookup_executor plain_capabilities 1 "lazy" (Some "1.0.0") (r1, 0%nat) = (o, (r2, 1%nat)) ∧
    (is_Some (plain_capabilities 7) → o = Ok 7%nat) ∧
    ∀ w2, lookup_executor plain_capabilities 1 "lazy" (Some "1.0.0") (r2, w2) = (Ok 7%nat, (r2, w2)).
Proof.
  apply (register_lookup plain_executor plain_capabilities plain_ok "lazy" "1.0.0" (Builder build_one) None
    three_versions 0%nat 0%nat).
  reflexivity.
Defined.

(** "10.0.0" is registered, yet the latest "python" is "9.0.0". *)
Lemma lookup_fallback_witness :
  "9.0.0" ∈ ["9.0.0"; "10.0.0"] ∧ str_le "10.0.0" "9.0.0" ∧
  lookup_executor plain_capabilities 2 "python" None (three_versions, 0%nat) =
    lookup_executor plain_capabilities 2 "python" (Some "9.0.0") (three_versions, 0%nat) ∧
  (lookup_executor plain_capabilities 2 "python" None (three_versions, 0%nat)).1 = Ok 1%nat.
Proof.
  destruct (lookup_fallback plain_capabilities 1 "python" None three_versions 0%nat three_versions_wf)
    as (Hin & Hmax & Hl).
  split_and!; [exact Hin|apply Hmax; by right; left|by apply Hl|vm_compute; reflexivity].
Defined.

Lemma lookup_terminates_witness :
  lookup_executor plain_capabilities (2 + 40) "SHELL" None (three_versions, 0%nat) =
    lookup_executor plain_capabilities 2 "SHELL" None (three_versions, 0%nat).
Proof. apply (lookup_terminates plain_capabilities 40 "SHELL" None _ 0%nat three_versions_wf). discriminate. Defined.

Lemma default_unregistered_diverges_witness :
  lookup_executor plain_capabilities 1000 "browser" None
    (set_default_executor "docker" "1.0.0" three_versions, 0%nat) =
  (Raise RecursionError, (set_default_executor "docker" "1.0.0" three_versions, 0%nat)).
Proof. apply (default_unregistered_diverges plain_capabilities 1000 "docker"); reflexivity. Defined.

Lemma find_by_capability_spec_witness :
  find_by_capability plain_capabilities 1 "even" (three_versions, 0%nat) =
    (Ok (filter (has_tag plain_capabilities "even") (registered_objects three_versions)), (three_versions, 0%nat)) ∧
  filter (has_tag plain_capabilities "even") (registered_objects three_versions) = [2%nat; 8%nat].
Proof.
  split; [|vm_compute; reflexivity].
  apply (find_by_capability_spec plain_capabilities 0 "even" _ 0%nat three_versions_wf).
  intros t vs v e Ht Hv.
  let d := eval vm_compute in (rg_new three_versions) in change (rg_new three_versions) with d in Ht.
  simpl in Ht. repeat case_decide; simplify_eq; simpl in Hv; repeat case_decide; simplify_eq;
    (split; [done|by eexists]).
Defined.

(** The synchronous run of a shell task by an executor that raises. *)
Definition sync_env : Env := {| env_tasks := {[0%nat := shell_task]}; env_tick := 0; env_store := None |}.
Definition id_lens {S} : lens S S := Lens id (λ t _, t).
#[local] Instance id_lens_laws {S} : LensLaws (@id_lens S).
Proof. by split. Qed.
Definition raising (_ : @found nat) (_ : nat) : M Env unit := raise (ValueError "no").
Definition sync_registry : ExecutorRegistry (W := Env) (X := nat) := register SHELL 5%nat new_executor_registry.
Lemma execute_task_settles_witness :
  ∃ o w1 w2, raising (Legacy 5%nat) 0%nat w1 = (o, w2) ∧
    w1 = with_tasks (alter start 0%nat (env_tasks sync_env)) sync_env ∧
    let '(o', s') := execute_task plain_capabilities id_lens raising 1 "s" ([("s", 0%nat)], (sync_registry, sync_env)) in
    match o with
    | Ok _ => o' = Ok 0%nat ∧ status_in id_lens s' 0%nat = Some COMPLETED
    | Raise e => o' = Raise e ∧ (isinstance e "Exception" = true → status_in id_lens s' 0%nat = Some Tasks.FAILED)
    end.
Proof.
  apply (execute_task_settles plain_capabilities id_lens raising 1 "s" 0%nat shell_task [("s", 0%nat)] sync_registry sync_env).
  - reflexivity.
  - reflexivity.
  - intros x w Hw. exact Hw.
Defined.
End examples.
