(* ===== verification/Metrics.v ===== *)
(** [observability/metrics.py] with its metric classes of
    [observability/domain/models.py]. *)
From S2P Require Import Prelude PyNum Values Decode Events EventStore Tasks.
From Stdlib Require Import Ascii.
Open Scope Z_scope.

(** * Data *)
Record MetricPoint : Type := { mp_value : num; mp_timestamp : string; mp_labels : odict string }.
(** [CounterMetric], [GaugeMetric], [HistogramMetric] *)
Inductive metric_class : Type := Counter | Gauge | Histogram (buckets : list num).
Record Metric : Type := { mt_class : metric_class; mt_name : string; mt_points : list MetricPoint }.
Record MetricFamily : Type := {
  mf_name : string; mf_help_text : string; mf_metric_type : string; mf_metrics : odict Metric
}.
Definition MetricsRegistry : Type := odict MetricFamily.
Definition add_metric (key : string) (m : Metric) (f : MetricFamily) : MetricFamily :=
  {| mf_name := mf_name f; mf_help_text := mf_help_text f; mf_metric_type := mf_metric_type f;
     mf_metrics := dset (mf_metrics f) key m |}.
Definition with_points (ps : list MetricPoint) (m : Metric) : Metric :=
  {| mt_class := mt_class m; mt_name := mt_name m; mt_points := ps |}.

(** * Series keys *)

(** [sorted(labels.items())]: pairs in lexicographic order *)
Definition item_le (a b : string * string) : Prop :=
  if decide (a.1 = b.1) then str_le a.2 b.2 else str_le a.1 b.1.
#[export] Instance item_le_dec a b : Decision (item_le a b).
Proof. unfold item_le. case_decide; apply _. Defined.
Definition sorted_items (labels : odict string) : list (string * string) := merge_sort item_le labels.
Definition label_text (kv : string * string) : string := kv.1 +:+ "=" +:+ kv.2.
(** [_serialize_labels]; [None] and the empty dictionary have the same key *)
Definition serialize_labels (labels : odict string) : string :=
  match labels with
  | [] => "default"
  | _ => String.concat "," (map label_text (sorted_items labels))
  end.

(** * Operations *)
Section metrics.
Context `{!Oracle}.
Abbreviation MM A := (M (MetricsRegistry * Env) A).

(** [_get_or_create_family] *)
Definition get_or_create_family (name type help : string) (r : MetricsRegistry) : MetricFamily * MetricsRegistry :=
  match dget r name with
  | Some f => (f, r)
  | None =>
      let f := {| mf_name := name; mf_help_text := help; mf_metric_type := type; mf_metrics := [] |} in
      (f, dset r name f)
  end.

(** The three recording operations differ by the family's type and help text,
    the class of a new metric and what becomes of its points. *)
Definition record_point (type help : string) (class : metric_class)
    (update : MetricPoint → list MetricPoint → list MetricPoint)
    (name : string) (value : num) (labels : odict string) : MM unit :=
  r <- self get ;;
  let '(f, r) := get_or_create_family name type help r in
  let key := serialize_labels labels in
  let m := default {| mt_class := class; mt_name := name; mt_points := [] |} (dget (mf_metrics f) key) in
  n <- env tick ;;
  let pt := {| mp_value := value; mp_timestamp := now_iso n; mp_labels := labels |} in
  self (modify (λ _, dset r name (add_metric key (with_points (update pt (mt_points m)) m) f))).

(** [increment] *)
Definition increment (name : string) (value : num) (labels : odict string) : MM unit :=
  record_point "counter" "Count of occurrences" Counter (λ pt ps, ps ++ [pt]) name value labels.
(** [set_gauge]: only the latest point is kept *)
Definition set_gauge (name : string) (value : num) (labels : odict string) : MM unit :=
  record_point "gauge" "Level measurements" Gauge (λ pt _, [pt]) name value labels.
(** [observe_histogram] *)
Definition histogram_buckets : list num :=
  map (λ nd, PFloat (f_ratio nd.1 nd.2))
    [(5, 1000); (1, 100); (5, 100); (1, 10); (5, 10); (1, 1); (5, 1); (10, 1); (60, 1)].
Definition observe_histogram (name : string) (value : num) (labels : odict string) : MM unit :=
  record_point "histogram" "Value distribution analyses" (Histogram histogram_buckets) (λ pt ps, ps ++ [pt])
    name value labels.

(** [start_timer] and the [with] block around [body]; [perf_counter n] is the
    [n]-th reading of the performance counter. *)
Context (perf_counter : nat → spec_float).
Definition timed {A} (name : string) (labels : odict string) (body : MM A) : MM A :=
  start <- env tick ;;
  let exit : MM unit :=
    stop <- env tick ;;
    observe_histogram name (PFloat (fsub (perf_counter stop) (perf_counter start))) labels in
  finally body exit.

(** [get_family], [list_families] *)
Definition get_family (name : string) : M MetricsRegistry (option MetricFamily) := gets (λ r, dget r name).
Definition list_families : M MetricsRegistry (list MetricFamily) := gets dvals.

(** * Correctness *)

(** ** The registry refines a log of observations *)

(** The points of a series. *)
Definition points (r : MetricsRegistry) (name key : string) : list MetricPoint :=
  default [] (f ← dget r name; mt_points <$> dget (mf_metrics f) key).

Inductive observation : Type :=
  | OIncrement (name : string) (value : num) (labels : odict string)
  | OGauge (name : string) (value : num) (labels : odict string)
  | OHistogram (name : string) (value : num) (labels : odict string).
Definition observe (o : observation) : MM unit :=
  match o with
  | OIncrement n v l => increment n v l
  | OGauge n v l => set_gauge n v l
  | OHistogram n v l => observe_histogram n v l
  end.
Definition obs_name (o : observation) : string :=
  match o with OIncrement n _ _ | OGauge n _ _ | OHistogram n _ _ => n end.
Definition obs_labels (o : observation) : odict string :=
  match o with OIncrement _ _ l | OGauge _ _ l | OHistogram _ _ l => l end.
Definition obs_value (o : observation) : num :=
  match o with OIncrement _ v _ | OGauge _ v _ | OHistogram _ v _ => v end.
Definition obs_point (n : nat) (o : observation) : MetricPoint :=
  {| mp_value := obs_value o; mp_timestamp := now_iso n; mp_labels := obs_labels o |}.
Definition in_series (name key : string) (o : observation) : Prop :=
  obs_name o = name ∧ serialize_labels (obs_labels o) = key.
#[local] Instance in_series_dec name key o : Decision (in_series name key o).
Proof. unfold in_series. apply _. Defined.

(** The abstract registry: a series is the list of its observations since the
    last gauge reading. *)
Fixpoint series (name key : string) (ps : list MetricPoint) (n : nat) (os : list observation) :
    list MetricPoint :=
  match os with
  | [] => ps
  | o :: os' =>
      let ps' := if decide (in_series name key o)
                 then match o with OGauge _ _ _ => [obs_point n o] | _ => ps ++ [obs_point n o] end
                 else ps in
      series name key ps' (S n) os'
  end.

Lemma record_point_points type help class update nm v l r e name key :
  let '(o, (r', e')) := record_point type help class update nm v l (r, e) in
  o = Ok tt ∧ e' = next_tick e ∧
  points r' name key =
    if decide (nm = name ∧ serialize_labels l = key)
    then update {| mp_value := v; mp_timestamp := now_iso (env_tick e); mp_labels := l |} (points r name key)
    else points r name key.
Proof.
  unfold record_point, get_or_create_family. unfold bind at 1, zoom at 1, get; simpl.
  destruct (dget r nm) as [f|] eqn:Hf; run_step; (split_and!; [done..|]); unfold points; rewrite ?dset_dset, dget_dset.
  - destruct (decide (nm = name)) as [<-|Hne]; simpl; [|by rewrite decide_False by tauto].
    rewrite Hf; simpl. rewrite dget_dset. destruct (decide (serialize_labels l = key)) as [<-|Hk]; simpl.
    + rewrite decide_True by done. by destruct (dget (mf_metrics f) _).
    + by rewrite decide_False by tauto.
  - destruct (decide (nm = name)) as [<-|Hne]; simpl; [|by rewrite decide_False by tauto].
    rewrite Hf; simpl. destruct (decide (key = serialize_labels l)) as [->|Hk]; simpl.
    + by rewrite decide_True.
    + by rewrite decide_False by (intros [_ ?]; congruence).
Qed.

(** C27: What was recorded is what the registry holds: after any observations the
    points of every series are exactly its own observations in order, with their
    labels and times, from the last gauge reading on. *)
Theorem metrics_refine_log os r e name key :
  let '(o, (r', e')) := for_each os observe (r, e) in
  o = Ok tt ∧ points r' name key = series name key (points r name key) (env_tick e) os.
Proof.
  revert r e. induction os as [|x os IH]; intros r e; simpl; [done|].
  unfold bind.
  assert (∃ r1, observe x (r, e) = (Ok tt, (r1, next_tick e)) ∧
    points r1 name key = if decide (in_series name key x)
      then match x with OGauge _ _ _ => [obs_point (env_tick e) x]
           | _ => points r name key ++ [obs_point (env_tick e) x] end
      else points r name key) as (r1 & -> & Hr1).
  { destruct x as [nm v l|nm v l|nm v l]; simpl; unfold increment, set_gauge, observe_histogram;
      match goal with |- context [record_point ?ty ?h ?c ?u nm v l _] =>
        pose proof (record_point_points ty h c u nm v l r e name key) as Hp;
        destruct (record_point ty h c u nm v l (r, e)) as [o [r1 e1]]; destruct Hp as (-> & -> & Hp);
        exists r1; split; [done|]; rewrite Hp; unfold in_series; simpl; repeat case_decide; (done || tauto)
      end. }
  specialize (IH r1 (next_tick e)). destruct (for_each os observe _) as [o [r' e']].
  destruct IH as [-> ->]. split; [done|]. by rewrite Hr1.
Qed.

(** A timer records exactly one duration, whether its block returns or raises,
    and passes the block's outcome on. *)
Theorem timer_always_records {A} name labels (body : MM A) r e o r1 e1 :
  body (r, next_tick e) = (o, (r1, e1)) →
  ∃ pt r' e', timed name labels body (r, e) = (o, (r', e')) ∧
    points r' name (serialize_labels labels) = points r1 name (serialize_labels labels) ++ [pt] ∧
    mp_value pt = PFloat (fsub (perf_counter (env_tick e1)) (perf_counter (env_tick e))).
Proof.
  intros Hb. unfold timed, finally. unfold bind at 1, zoom at 1, tick; simpl. rewrite Hb.
  unfold bind, zoom, tick; simpl.
  match goal with |- context [observe_histogram name ?v labels ?s] =>
    pose proof (record_point_points "histogram" "Value distribution analyses" (Histogram histogram_buckets)
      (λ pt ps, ps ++ [pt]) name v labels s.1 s.2 name (serialize_labels labels)) as Hp;
    unfold observe_histogram; simpl in Hp;
    destruct (record_point _ _ _ _ _ _ _ s) as [o' [r' e']] end.
  destruct Hp as (-> & -> & Hp). rewrite decide_True in Hp by done. by eexists _, _, _.
Qed.
End metrics.

(** ** Series keys tell label sets apart *)

(** [s.split(c)] *)
Fixpoint split (c : Ascii.ascii) (s : string) : list string :=
  match s with
  | EmptyString => [EmptyString]
  | String a s' =>
      if Ascii.eqb a c then EmptyString :: split c s'
      else match split c s' with p :: ps => String a p :: ps | [] => [String a EmptyString] end
  end.
Fixpoint free (c : Ascii.ascii) (s : string) : bool :=
  match s with
  | EmptyString => true
  | String a s' => negb (Ascii.eqb a c) && free c s'
  end.

Lemma split_free c s : free c s = true → split c s = [s].
Proof.
  induction s as [|a s IH]; simpl; [done|]. destruct (Ascii.eqb a c); simpl; [done|].
  intros Hs. by rewrite IH.
Qed.
Lemma split_sep c p s : free c p = true → split c (p +:+ String c s) = p :: split c s.
Proof.
  induction p as [|a p IH]; simpl; [by rewrite Ascii.eqb_refl|].
  destruct (Ascii.eqb a c); simpl; [done|]. intros Hp. by rewrite IH.
Qed.
Lemma free_app c p s : free c (p +:+ s) = free c p && free c s.
Proof. induction p as [|a p IH]; simpl; [done|]. by rewrite IH, andb_assoc. Qed.
Lemma split_concat c ps :
  ps ≠ [] → Forall (λ p, free c p = true) ps → split c (String.concat (String c EmptyString) ps) = ps.
Proof.
  intros Hne Hps. induction Hps as [|p ps Hp Hps IH]; [done|].
  destruct ps as [|q ps]; [by apply split_free|].
  change (String.concat (String c EmptyString) (p :: q :: ps)) with
    (p +:+ String c (String.concat (String c EmptyString) (q :: ps))).
  rewrite split_sep by done. by rewrite IH.
Qed.

(** Reading a key back. *)
Definition parse_item (s : string) : option (string * string) :=
  match split "="%char s with [k; v] => Some (k, v) | _ => None end.
Definition parse_labels (s : string) : list (string * string) := omap parse_item (split ","%char s).

(** Neither separator occurs in a label's name or value. *)
Definition clean (s : string) : bool := free ","%char s && free "="%char s.
Definition clean_labels (l : odict string) : Prop := Forall (λ kv, clean kv.1 = true ∧ clean kv.2 = true) l.

Lemma sorted_items_perm l : sorted_items l ≡ₚ l.
Proof. apply merge_sort_Permutation. Qed.
Lemma parse_item_text k v : clean k = true → clean v = true → parse_item (label_text (k, v)) = Some (k, v).
Proof.
  unfold clean, parse_item, label_text; simpl. intros [_ Hk]%andb_true_iff [_ Hv]%andb_true_iff.
  change ("=" +:+ v) with (String "="%char v). rewrite split_sep by done. by rewrite split_free.
Qed.
Lemma label_text_free k v : clean k = true → clean v = true → free ","%char (label_text (k, v)) = true.
Proof.
  unfold clean, label_text; simpl. intros [Hk _]%andb_true_iff [Hv _]%andb_true_iff.
  rewrite !free_app, Hk, Hv. done.
Qed.

Lemma parse_serialize l : clean_labels l → l ≠ [] → parse_labels (serialize_labels l) = sorted_items l.
Proof.
  intros Hl Hne. assert (clean_labels (sorted_items l)) as Hs
    by (eapply Permutation_Forall; [symmetry; apply sorted_items_perm|done]).
  assert (sorted_items l ≠ []) as Hsne.
  { intros E. pose proof (sorted_items_perm l) as Hp. rewrite E in Hp. by apply Permutation_nil_l in Hp. }
  unfold serialize_labels, parse_labels. destruct l as [|kv l]; [done|].
  rewrite split_concat.
  - clear Hsne. induction Hs as [|[k v] items [Hk Hv] _ IH]; csimpl; [done|].
    by rewrite parse_item_text, IH.
  - by destruct (sorted_items _).
  - apply Forall_map. eapply Forall_impl; [exact Hs|]. intros [k v] [Hk Hv]. by apply label_text_free.
Qed.
Lemma serialize_not_default l : l ≠ [] → free "="%char (serialize_labels l) = false.
Proof.
  intros Hne. unfold serialize_labels. destruct l as [|kv l]; [done|].
  pose proof (sorted_items_perm (kv :: l)) as Hp. destruct (sorted_items _) as [|[k v] items].
  { by apply Permutation_nil_l in Hp. }
  unfold label_text; simpl. destruct items; simpl; rewrite !free_app; simpl; by rewrite andb_false_r.
Qed.

#[export] Instance str_le_antisymm : AntiSymm (=) str_le.
Proof. intros a b. unfold str_le. rewrite !leb_le. apply (anti_symm String.le). Qed.
#[export] Instance item_le_trans : Transitive item_le.
Proof.
  intros [a1 a2] [b1 b2] [c1 c2]. unfold item_le; simpl.
  repeat case_decide; subst; try congruence; intros Hab Hbc; try done.
  - by etrans.
  - exfalso. assert (b1 = c1); [|congruence]. by apply (anti_symm str_le).
  - by etrans.
Qed.
#[export] Instance item_le_antisymm : AntiSymm (=) item_le.
Proof.
  intros [a1 a2] [b1 b2]. unfold item_le; simpl.
  repeat case_decide; subst; try congruence; intros Hab Hbc.
  - f_equal. by apply (anti_symm str_le).
  - exfalso. assert (a1 = b1); [|congruence]. by apply (anti_symm str_le).
Qed.
#[export] Instance item_le_total : Total item_le.
Proof.
  intros [a1 a2] [b1 b2]. unfold item_le; simpl. repeat case_decide; subst; try congruence; apply (total str_le).
Qed.

(** Two observations share a series just when their labels are the same
    dictionary, as long as no label name or value holds a comma or an equals
    sign; a labelled series is never the unlabelled one. *)
Theorem series_keys_faithful l1 l2 :
  clean_labels l1 → clean_labels l2 →
  serialize_labels l1 = serialize_labels l2 ↔ l1 ≡ₚ l2.
Proof.
  intros H1 H2. split.
  - intros Heq. destruct (decide (l1 = [])) as [->|Hn1], (decide (l2 = [])) as [->|Hn2]; [done|..].
    + pose proof (serialize_not_default l2 Hn2) as Hd. by rewrite <-Heq in Hd.
    + pose proof (serialize_not_default l1 Hn1) as Hd. by rewrite Heq in Hd.
    + rewrite <-(sorted_items_perm l1), <-(sorted_items_perm l2), <-!parse_serialize by done. by rewrite Heq.
  - intros Hp. assert (sorted_items l1 = sorted_items l2) as Hs.
    { apply (StronglySorted_unique item_le); [apply StronglySorted_merge_sort; apply _..|].
      by rewrite !sorted_items_perm. }
    unfold serialize_labels. rewrite Hs. destruct l1, l2; try done.
    + by apply Permutation_nil_l in Hp.
    + by apply Permutation_nil_r in Hp.
Qed.

(** With a separator in a value, different label sets fall into one series. *)
Theorem series_keys_collide :
  serialize_labels [("a", "1,b=2")] = serialize_labels [("a", "1"); ("b", "2")] ∧
  ¬ ([("a", "1,b=2")] ≡ₚ [("a", "1"); ("b", "2")]).
Proof. split; [reflexivity|]. intros Hp%Permutation_length. done. Qed.

(** * Examples *)
Section examples.
#[local] Existing Instance sample_oracle.
Definition metrics_env : Env := {| env_tasks := ∅; env_tick := 5; env_store := None |}.

Lemma timer_always_records_witness :
  ∃ pt r' e', timed (λ n, round_to_float (Z.of_nat n) 0) "latency" [("q", "x")]
      (raise (ValueError "no") : M (MetricsRegistry * Env) unit) ([], metrics_env) = (Raise (ValueError "no"), (r', e')) ∧
    points r' "latency" "q=x" = points [] "latency" "q=x" ++ [pt] ∧
    mp_value pt = PFloat (fsub (round_to_float 6 0) (round_to_float 5 0)).
Proof.
  apply (timer_always_records (λ n, round_to_float (Z.of_nat n) 0) "latency" [("q", "x")]
    (raise (ValueError "no") : M (MetricsRegistry * Env) unit) [] metrics_env _ [] (next_tick metrics_env)).
  reflexivity.
Defined.

Lemma series_keys_faithful_witness :
  serialize_labels [("b", "2"); ("a", "1")] = serialize_labels [("a", "1"); ("b", "2")] ↔
  [("b", "2"); ("a", "1")] ≡ₚ [("a", "1"); ("b", "2")].
Proof. apply series_keys_faithful; repeat constructor. Defined.
End examples.
