(* ===== verification/Tracing.v ===== *)
(** [observability/tracing.py] with [Span] and [Trace] of
    [observability/domain/models.py]. *)
From S2P Require Import Prelude PyNum Values Decode Events EventStore Tasks.
Open Scope Z_scope.

(** * Data *)
Record Span : Type := {
  span_id : string; trace_id : string; span_name : string; start_time : string;
  end_time : option string; parent_span_id : option string; span_metadata : odict pyval
}.
Record Trace : Type := { tr_trace_id : string; tr_spans : list Span }.

(** [Span.to_dict], [Span.from_dict]; the version is always "1.0.0" *)
Definition span_to_dict (s : Span) : odict pyval :=
  [("span_id", VStr (span_id s)); ("trace_id", VStr (trace_id s)); ("name", VStr (span_name s));
   ("start_time", VStr (start_time s)); ("end_time", opt_str (end_time s));
   ("parent_span_id", opt_str (parent_span_id s)); ("metadata", asdict (VDict (span_metadata s)));
   ("version", VStr "1.0.0")].
Definition get_opt_str (d : odict pyval) (k : string) : outcome (option string) :=
  as_opt_str (get_or d k VNone).
Definition span_from_dict (d : odict pyval) : outcome Span :=
  let? i := req_str d "span_id" in let? t := req_str d "trace_id" in
  let? n := req_str d "name" in let? st := req_str d "start_time" in
  let? e := get_opt_str d "end_time" in let? p := get_opt_str d "parent_span_id" in
  let? m := as_dict (get_or d "metadata" (VDict [])) in
  Ok {| span_id := i; trace_id := t; span_name := n; start_time := st; end_time := e;
        parent_span_id := p; span_metadata := m |}.
(** [Trace.to_dict], [Trace.from_dict] *)
Definition trace_to_dict (t : Trace) : odict pyval :=
  [("trace_id", VStr (tr_trace_id t)); ("spans", VList (map (λ s, VDict (span_to_dict s)) (tr_spans t)));
   ("version", VStr "1.0.0")].
Definition trace_from_dict (d : odict pyval) : outcome Trace :=
  let? l := (match get_or d "spans" (VList []) with VList l => Ok l | _ => Raise bad_field end) in
  let? ss := omapM (λ v, let? d := as_dict v in span_from_dict d) l in
  let? t := req_str d "trace_id" in
  Ok {| tr_trace_id := t; tr_spans := ss |}.

(** A tracer, and the thread-local contexts it reads: each thread's dictionary
    under the thread's name, empty for a thread that has none yet. *)
Record Tracer : Type := {
  tc_spans : odict Span;
  tc_traces : odict (list Span);
  tc_contexts : odict (odict string)
}.
Definition new_tracer : Tracer := {| tc_spans := []; tc_traces := []; tc_contexts := [] |}.
Definition context (th : string) (t : Tracer) : odict string := default [] (dget (tc_contexts t) th).
Definition set_context (th : string) (c : odict string) (t : Tracer) : Tracer :=
  {| tc_spans := tc_spans t; tc_traces := tc_traces t; tc_contexts := dset (tc_contexts t) th c |}.

(** [a or d.get(k)] *)
Definition or_get (o : option string) (d : odict string) (k : string) : option string :=
  match opt_truthy o with Some s => Some s | None => dget d k end.

(** Documented behaviour of [uuid4]: texts are never empty and never repeat. *)
Class UuidLaws `{Oracle} : Prop := {
  uuid4_unique : ∀ n m, uuid4 n = uuid4 m → n = m;
  uuid4_truthy : ∀ n, str_truthy (uuid4 n) = true
}.
Section tracer.
Context `{!Oracle}.
Abbreviation TrM A := (M (Tracer * Env) A).

(** [if k: ctx[name] = k] *)
Definition set_truthy (c : odict string) (k : string) (o : option string) : odict string :=
  match opt_truthy o with Some s => dset c k s | None => c end.

(** The critical section of [start_span]. *)
Definition add_span (s : Span) (t : Tracer) : Tracer :=
  {| tc_spans := dset (tc_spans t) (span_id s) s;
     tc_traces := dset (tc_traces t) (trace_id s) (default [] (dget (tc_traces t) (trace_id s)) ++ [s]);
     tc_contexts := tc_contexts t |}.
(** [start_span] on thread [th] *)
Definition start_span (th name : string) (parent correlation causation trace : option string) : TrM Span :=
  n <- env tick ;;
  t <- self get ;;
  let c := context th t in
  tr <- (match opt_truthy (or_get trace c "trace_id") with
         | Some s => ret s
         | None => m <- env tick ;; ret (uuid4 m)
         end) ;;
  k <- env tick ;;
  let s := {| span_id := uuid4 n; trace_id := tr; span_name := name; start_time := now_iso k;
              end_time := None; parent_span_id := or_get parent c "span_id";
              span_metadata := [("correlation_id", opt_str (or_get correlation c "correlation_id"));
                                ("causation_id", opt_str (or_get causation c "causation_id"))] |} in
  self (modify (add_span s)) ;;;
  self (modify (λ t, set_context th
    (set_truthy (set_truthy (dset (dset (context th t) "trace_id" tr) "span_id" (span_id s))
       "correlation_id" correlation) "causation_id" causation) t)) ;;;
  ret s.

(** [datetime.fromisoformat] in microseconds *)
Context (from_iso : string → outcome Z).

(** the [for] loop of [end_span] *)
Fixpoint replace_span (i : string) (s : Span) (l : list Span) : list Span :=
  match l with
  | [] => []
  | s' :: l' => if span_id s' =s? i then s :: l' else s' :: replace_span i s l'
  end.
Definition finished (s : Span) (finish : string) (metadata : odict pyval) : Span :=
  let meta := dupdate (span_metadata s) metadata in {|
  span_id := span_id s; trace_id := trace_id s; span_name := span_name s; start_time := start_time s;
  end_time := Some finish; parent_span_id := parent_span_id s;
  span_metadata :=
    match from_iso (start_time s), from_iso finish with
    | Ok a, Ok b => dset meta "duration_seconds" (VNum (PFloat (total_seconds (b - a))))
    | _, _ => meta
    end |}.
Definition store_span (i : string) (s : Span) (t : Tracer) : Tracer :=
  {| tc_spans := dset (tc_spans t) i s;
     tc_traces := match dget (tc_traces t) (trace_id s) with
                  | Some l => dset (tc_traces t) (trace_id s) (replace_span i s l)
                  | None => tc_traces t
                  end;
     tc_contexts := tc_contexts t |}.
(** the thread's context once a span has ended *)
Definition leave_span (i : string) (s : Span) (c : odict string) : odict string :=
  if bool_decide (dget c "span_id" = Some i) then
    match opt_truthy (parent_span_id s) with
    | Some p => dset c "span_id" p
    | None => []
    end
  else c.
(** [end_span] on thread [th] *)
Definition end_span (th i : string) (metadata : odict pyval) : TrM unit :=
  t <- self get ;;
  match dget (tc_spans t) i with
  | None => ret tt
  | Some s =>
      n <- env tick ;;
      self (modify (store_span i (finished s (now_iso n) metadata))) ;;;
      self (modify (λ t, set_context th (leave_span i s (context th t)) t))
  end.

(** [get_trace], [list_spans] *)
Definition get_trace (i : string) : M Tracer (option Trace) :=
  gets (λ t, match dget (tc_traces t) i with
             | Some (s :: l) => Some {| tr_trace_id := i; tr_spans := s :: l |}
             | _ => None
             end).
Definition list_spans : M Tracer (list Span) := gets (λ t, dvals (tc_spans t)).

(** * Correctness *)

Context `{!UuidLaws}.

(** The spans and the traces hold the same spans: one per id, in the list of its
    own trace; ids are UUIDs drawn before now. *)
Record tracer_wf (t : Tracer) (e : Env) : Prop := {
  wf_span : ∀ i s, dget (tc_spans t) i = Some s →
    span_id s = i ∧ ∃ l, dget (tc_traces t) (trace_id s) = Some l ∧ s ∈ l;
  wf_trace : ∀ tr l, dget (tc_traces t) tr = Some l → NoDup (span_id <$> l) ∧
    Forall (λ s, trace_id s = tr ∧ dget (tc_spans t) (span_id s) = Some s) l;
  wf_ids : ∀ i, is_Some (dget (tc_spans t) i) → ∃ n, (n < env_tick e)%nat ∧ i = uuid4 n
}.

Lemma wf_fresh t e n : tracer_wf t e → (env_tick e ≤ n)%nat → dget (tc_spans t) (uuid4 n) = None.
Proof.
  intros Hwf Hn. apply eq_None_not_Some. intros [m [Hm Heq]]%(wf_ids _ _ Hwf).
  apply uuid4_unique in Heq. lia.
Qed.
Lemma wf_later t e e' : tracer_wf t e → (env_tick e ≤ env_tick e')%nat → tracer_wf t e'.
Proof.
  intros [Hs Ht Hi] He. split; [done..|]. intros i (n & Hn & ->)%Hi. exists n. split; [lia|done].
Qed.
Lemma wf_context th c t e : tracer_wf t e → tracer_wf (set_context th c t) e.
Proof. by intros [Hs Ht Hi]. Qed.

Lemma add_span_ok s t e e' n :
  tracer_wf t e → span_id s = uuid4 n → (env_tick e ≤ n < env_tick e')%nat → tracer_wf (add_span s t) e'.
Proof.
  intros Hwf Hid Hn. pose proof (wf_fresh t e n Hwf ltac:(lia)) as Hf. rewrite <-Hid in Hf.
  split; simpl.
  - intros i s'. rewrite dget_dset. case_decide as Hi.
    + intros [= <-]. split; [done|]. rewrite dget_dset_eq. eexists. split; [done|]. set_solver.
    + intros Hs'. destruct (wf_span _ _ Hwf i s' Hs') as (? & l & Hl & Hin). split; [done|].
      rewrite dget_dset. case_decide as Htr; [|by exists l].
      eexists. split; [done|]. rewrite Htr, Hl. set_solver.
  - intros tr l. rewrite dget_dset. case_decide as Htr.
    + intros [= <-]. destruct (dget (tc_traces t) (trace_id s)) as [l|] eqn:Hl; simpl.
      * destruct (wf_trace _ _ Hwf _ _ Hl) as [Hnd Hall]. split.
        { rewrite fmap_app. apply NoDup_app. split_and!; [done| |apply NoDup_singleton].
          intros i Hi Hi'. apply list_elem_of_singleton in Hi' as ->.
          apply list_elem_of_fmap in Hi as (s' & Hs' & Hin). rewrite Forall_forall in Hall.
          destruct (Hall _ Hin) as [_ Hd]. rewrite <-Hs', Hf in Hd. done. }
        apply Forall_app. split.
        { eapply Forall_impl; [exact Hall|]. intros s' [? Hd]. split; [congruence|].
          rewrite dget_dset_ne; [done|]. intros E. rewrite <-E, Hf in Hd. done. }
        apply Forall_singleton. by rewrite dget_dset_eq.
      * split; [apply NoDup_singleton|]. apply Forall_singleton. by rewrite dget_dset_eq.
    + intros Hl. destruct (wf_trace _ _ Hwf _ _ Hl) as [Hnd Hall]. split; [done|].
      eapply Forall_impl; [exact Hall|]. intros s' [? Hd]. split; [done|].
      rewrite dget_dset_ne; [done|]. intros E. rewrite <-E, Hf in Hd. done.
  - intros i. rewrite dget_dset. case_decide as Hi; [intros _; exists n; split; [lia|congruence]|].
    intros (m & Hm & ->)%(wf_ids _ _ Hwf). exists m. split; [lia|done].
Qed.

Lemma replace_span_ids i s l : span_id s = i → span_id <$> replace_span i s l = span_id <$> l.
Proof.
  intros Hi. induction l as [|s' l IH]; simpl; [done|].
  destruct (String.eqb_spec (span_id s') i) as [Heq|]; csimpl; [by rewrite Hi, Heq|by rewrite IH].
Qed.
Lemma elem_of_replace_span i s s' l :
  s' ∈ replace_span i s l → s' = s ∨ (s' ∈ l ∧ (NoDup (span_id <$> l) → span_id s' ≠ i)).
Proof.
  induction l as [|s1 l IH]; csimpl; [by intros ?%not_elem_of_nil|].
  destruct (String.eqb_spec (span_id s1) i) as [Heq|Hne]; rewrite elem_of_cons.
  - intros [->|Hin]; [by left|]. right. split; [by right|].
    intros [Hni _]%NoDup_cons Hi. apply Hni. rewrite Heq, <-Hi. apply list_elem_of_fmap. by exists s'.
  - intros [->|Hin]; [right; split; [by left|done]|].
    destruct (IH Hin) as [->|[Hl Hnd]]; [by left|]. right. split; [by right|].
    intros [_ ?]%NoDup_cons. auto.
Qed.
Lemma replace_span_in i s s' l : s' ∈ l → span_id s' = i → s ∈ replace_span i s l.
Proof.
  intros Hin Hi. induction l as [|s1 l IH]; csimpl; [by apply not_elem_of_nil in Hin|].
  destruct (String.eqb_spec (span_id s1) i) as [Heq|Hne]; [left|].
  apply elem_of_cons in Hin as [->|Hin]; [done|]. right. auto.
Qed.
Lemma replace_span_other i s s' l : s' ∈ l → span_id s' ≠ i → s' ∈ replace_span i s l.
Proof.
  intros Hin Hi. induction l as [|s1 l IH]; csimpl; [by apply not_elem_of_nil in Hin|].
  destruct (String.eqb_spec (span_id s1) i) as [Heq|Hne]; apply elem_of_cons in Hin as [->|Hin].
  - done.
  - by right.
  - left.
  - right. auto.
Qed.

Lemma store_span_ok i s0 s t e e' :
  tracer_wf t e → dget (tc_spans t) i = Some s0 → span_id s = i → trace_id s = trace_id s0 →
  (env_tick e ≤ env_tick e')%nat → tracer_wf (store_span i s t) e'.
Proof.
  intros Hwf Hs0 Hi Htr He. destruct (wf_span _ _ Hwf i s0 Hs0) as (Hi0 & l0 & Hl0 & Hin0).
  unfold store_span. rewrite Htr, Hl0.
  destruct (wf_trace _ _ Hwf _ _ Hl0) as [Hnd0 Hall0]. rewrite Forall_forall in Hall0.
  split; simpl.
  - intros j s'. rewrite dget_dset. case_decide as Hj.
    + intros [= <-]. split; [congruence|]. rewrite Htr, dget_dset_eq. eexists. split; [done|].
      by eapply replace_span_in.
    + intros Hs'. destruct (wf_span _ _ Hwf j s' Hs') as (Hj' & l & Hl & Hin). split; [done|].
      rewrite dget_dset. case_decide as Ht; [|by exists l].
      eexists. split; [done|]. rewrite <-Ht, Hl0 in Hl. injection Hl as <-.
      apply replace_span_other; [done|congruence].
  - intros tr l. rewrite dget_dset. case_decide as Ht.
    + intros [= <-]. split; [by rewrite replace_span_ids|]. apply Forall_forall. intros s' Hs'.
      apply elem_of_replace_span in Hs' as [->|[Hin Hne]].
      * split; [congruence|]. by rewrite Hi, dget_dset_eq.
      * destruct (Hall0 _ Hin) as [? Hd]. split; [congruence|].
        rewrite dget_dset_ne; [done|]. intros E. by apply Hne.
    + intros Hl. destruct (wf_trace _ _ Hwf _ _ Hl) as [Hnd Hall]. split; [done|].
      eapply Forall_impl; [exact Hall|]. intros s' [Ht' Hd]. split; [done|].
      rewrite dget_dset_ne; [done|]. intros ->. rewrite Hs0 in Hd. injection Hd as ->. congruence.
  - intros j. rewrite dget_dset. case_decide as Hj.
    + intros _. subst j. destruct (wf_ids _ _ Hwf i) as (n & Hn & ->); [by eexists|].
      exists n. split; [lia|done].
    + intros (n & Hn & ->)%(wf_ids _ _ Hwf). exists n. split; [lia|done].
Qed.

(** What [start_span] does, with the trace and the parent it resolves. *)
Lemma start_span_run th name parent correlation causation trace t e :
  tracer_wf t e →
  ∃ s t' e', start_span th name parent correlation causation trace (t, e) = (Ok s, (t', e')) ∧
    tracer_wf t' e' ∧ (env_tick e ≤ env_tick e')%nat ∧
    span_id s = uuid4 (env_tick e) ∧ end_time s = None ∧
    parent_span_id s = or_get parent (context th t) "span_id" ∧
    str_truthy (trace_id s) = true ∧
    (∀ tr, opt_truthy (or_get trace (context th t) "trace_id") = Some tr → trace_id s = tr) ∧
    tc_spans t' = dset (tc_spans t) (span_id s) s ∧
    tc_contexts t' = dset (tc_contexts t) th
      (set_truthy (set_truthy (dset (dset (context th t) "trace_id" (trace_id s)) "span_id" (span_id s))
         "correlation_id" correlation) "causation_id" causation).
Proof.
  intros Hwf. unfold start_span. run_step.
  assert (∀ o s, opt_truthy o = Some s → str_truthy s = true) as Htr.
  { intros [x|] y; simpl; [|done]. by case_match; intros [= <-]. }
  destruct (opt_truthy (or_get trace (context th t) "trace_id")) as [tr|] eqn:E; simpl;
    (eexists _, _, _; split; [reflexivity|]; simpl; split_and!; try done; try lia; try (by eapply Htr);
     try (intros ? [= <-]; done); [|..]).
  all: try apply wf_context; try (eapply add_span_ok; [exact Hwf|reflexivity|simpl; lia]).
  apply uuid4_truthy.
Qed.
Lemma end_span_run th i metadata t e s :
  tracer_wf t e → dget (tc_spans t) i = Some s →
  ∃ s' t' e', end_span th i metadata (t, e) = (Ok tt, (t', e')) ∧
    tracer_wf t' e' ∧ (env_tick e ≤ env_tick e')%nat ∧
    s' = finished s (now_iso (env_tick e)) metadata ∧
    tc_spans t' = dset (tc_spans t) i s' ∧
    tc_contexts t' = dset (tc_contexts t) th (leave_span i s (context th t)).
Proof.
  intros Hwf Hs. unfold end_span. run_step. rewrite Hs; simpl.
  eexists _, _, _. split; [reflexivity|]. simpl. split_and!; try done; [|lia].
  apply wf_context. eapply store_span_ok; [exact Hwf|exact Hs| |done|simpl; lia].
  apply (wf_span _ _ Hwf _ _ Hs).
Qed.

(** The spans and the traces agree after any calls, on any threads. *)
Theorem tracer_invariant t e th :
  tracer_wf t e →
  (∀ name parent correlation causation trace,
     let '(_, (t', e')) := start_span th name parent correlation causation trace (t, e) in tracer_wf t' e') ∧
  (∀ i metadata, let '(_, (t', e')) := end_span th i metadata (t, e) in tracer_wf t' e').
Proof.
  intros Hwf. split.
  - intros name parent correlation causation trace.
    destruct (start_span_run th name parent correlation causation trace t e Hwf) as (s & t' & e' & -> & ? & _).
    done.
  - intros i metadata. destruct (dget (tc_spans t) i) as [s|] eqn:Hs.
    + destruct (end_span_run th i metadata t e s Hwf Hs) as (s' & t' & e' & -> & ? & _). done.
    + unfold end_span. run_step. by rewrite Hs.
Qed.

(** ** Nested spans *)

(** Code that opens and closes spans in a nested way, on one thread. *)
Inductive traced : Type :=
  | Skip
  | Within (name : string) (metadata : odict pyval) (body : traced)
  | Then (p q : traced).
Fixpoint run_traced (th : string) (p : traced) : TrM unit :=
  match p with
  | Skip => ret tt
  | Within name metadata body =>
      s <- start_span th name None None None None ;;
      run_traced th body ;;;
      end_span th (span_id s) metadata
  | Then p q => run_traced th p ;;; run_traced th q
  end.

(** A context is empty or names an active span and its trace. *)
Definition context_ok (c : odict string) : Prop :=
  c = [] ∨ ∃ i tr, dget c "span_id" = Some i ∧ dget c "trace_id" = Some tr ∧
                   str_truthy i = true ∧ str_truthy tr = true.

Lemma context_trace c tr :
  context_ok c → dget c "trace_id" = Some tr → opt_truthy (or_get None c "trace_id") = Some tr.
Proof.
  intros [->|(i & tr' & _ & Ht & _ & Htt)]; [done|]. rewrite Ht. intros [= <-].
  unfold or_get; simpl. rewrite Ht; simpl. by rewrite Htt.
Qed.

(** Entering a span and leaving it again is where the thread was. *)
Lemma leave_after_enter c tr s :
  context_ok c → (∀ tr', opt_truthy (or_get None c "trace_id") = Some tr' → tr = tr') →
  parent_span_id s = dget c "span_id" →
  leave_span (span_id s) s (dset (dset c "trace_id" tr) "span_id" (span_id s)) = c.
Proof.
  intros Hc Htr Hp. unfold leave_span. rewrite dget_dset_eq, bool_decide_true, Hp by done.
  pose proof (λ tr', context_trace c tr' Hc) as Hct.
  destruct Hc as [->|(i & tr' & Hi & Ht & Hit & Htt)]; [done|].
  rewrite Hi; simpl. rewrite Hit, dset_dset. rewrite (Htr tr') by auto.
  rewrite (dset_same c "trace_id" tr') by done. by apply dset_same.
Qed.

(** What becomes of a thread's context, the spans and the new spans while nested
    spans run on it. *)
Record nested (th : string) (t t' : Tracer) : Prop := {
  nested_context : ∀ th', context th' t' = context th' t;
  nested_keeps : ∀ i s, dget (tc_spans t) i = Some s → dget (tc_spans t') i = Some s;
  nested_new : ∀ i s, dget (tc_spans t') i = Some s → dget (tc_spans t) i = None →
    is_Some (end_time s) ∧
    (∀ tr, dget (context th t) "trace_id" = Some tr → trace_id s = tr) ∧
    (parent_span_id s = dget (context th t) "span_id" ∨
     ∃ q, parent_span_id s = Some q ∧ dget (tc_spans t) q = None ∧ is_Some (dget (tc_spans t') q))
}.

Lemma nested_trans th t1 t2 t3 : nested th t1 t2 → nested th t2 t3 → nested th t1 t3.
Proof.
  intros [Hcx1 Hkeep1 Hnew1] [Hcx2 Hkeep2 Hnew2]. split; [intros; by rewrite Hcx2|auto|].
  intros i s Hs Hn. destruct (dget (tc_spans t2) i) as [s1|] eqn:Hs1.
  - pose proof (Hkeep2 i s1 Hs1) as Hs'. rewrite Hs in Hs'. injection Hs' as ->.
    destruct (Hnew1 i s1 Hs1 Hn) as (? & ? & [?|(q & ? & ? & [sq Hsq])]); split_and!; try done; [by left|].
    right. exists q. split_and!; [done..|]. exists sq. by apply Hkeep2.
  - destruct (Hnew2 i s Hs Hs1) as (? & Htr & Hp). rewrite Hcx1 in Htr, Hp. split_and!; [done..|].
    destruct Hp as [?|(q & ? & Hqn & ?)]; [by left|]. right. exists q. split_and!; [done| |done].
    destruct (dget (tc_spans t1) q) as [sq|] eqn:Hq; [|done]. by rewrite (Hkeep1 _ _ Hq) in Hqn.
Qed.

(** A span around nested spans: from the thread's context [c] before it, the
    tracers after its start, after its body and after its end. *)
Lemma nested_within th t t1 t2 t3 s metadata fin :
  let c := context th t in
  context_ok c → dget (tc_spans t) (span_id s) = None →
  parent_span_id s = dget c "span_id" →
  (∀ tr, opt_truthy (or_get None c "trace_id") = Some tr → trace_id s = tr) →
  tc_spans t1 = dset (tc_spans t) (span_id s) s →
  tc_contexts t1 = dset (tc_contexts t) th (dset (dset c "trace_id" (trace_id s)) "span_id" (span_id s)) →
  nested th t1 t2 →
  tc_spans t3 = dset (tc_spans t2) (span_id s) (finished s fin metadata) →
  tc_contexts t3 = dset (tc_contexts t2) th (leave_span (span_id s) s (context th t2)) →
  nested th t t3.
Proof.
  intros c Hc Hfresh Hpar Htr Hsp1 Hcx1 [Hcx2 Hkeep Hnew] Hsp3 Hcx3.
  assert (context th t1 = dset (dset c "trace_id" (trace_id s)) "span_id" (span_id s)) as Hc1.
  { unfold context at 1. by rewrite Hcx1, dget_dset_eq. }
  assert (∀ tr, dget c "trace_id" = Some tr → trace_id s = tr) as Htr'.
  { intros tr Ht. by apply Htr, context_trace. }
  split.
  - intros th'. unfold context at 1. rewrite Hcx3, dget_dset. case_decide as Hth.
    + subst th'. simpl. rewrite Hcx2, Hc1. by apply leave_after_enter.
    + fold (context th' t2). rewrite Hcx2. unfold context. by rewrite Hcx1, dget_dset_ne.
  - intros i si Hi. rewrite Hsp3, dget_dset_ne by congruence. apply Hkeep.
    rewrite Hsp1, dget_dset_ne; [done|congruence].
  - intros i si. rewrite Hsp3, dget_dset. case_decide as Hi.
    { intros [= <-] Hn. simpl. split_and!; [by eexists|exact Htr'|by left]. }
    intros Hsi Hn. destruct (Hnew i si Hsi) as (Hend & Htri & Hpi); [by rewrite Hsp1, dget_dset_ne|].
    split_and!; [done|..].
    + intros tr Ht. rewrite <-(Htr' tr Ht). apply Htri. by rewrite Hc1, dget_dset_ne, dget_dset_eq.
    + right. destruct Hpi as [Hpi|(q & Hq & Hqn & Hqs)].
      * exists (span_id s). rewrite Hpi, Hc1, !dget_dset_eq. split_and!; [done..|by eexists].
      * exists q. rewrite Hsp1, dget_dset in Hqn. case_decide; [done|]. by rewrite dget_dset_ne.
Qed.

(** Nested spans on a thread: whatever spans are opened and closed inside, the
    thread is back in its context afterwards and other threads keep theirs; the
    spans there were are untouched, and every new one is ended, lies in the
    thread's trace when it had one, and has as parent the span that was active
    or another new span. *)
Theorem nested_spans th p t e :
  tracer_wf t e → context_ok (context th t) →
  ∃ t' e', run_traced th p (t, e) = (Ok tt, (t', e')) ∧ tracer_wf t' e' ∧ nested th t t'.
Proof.
  revert t e. induction p as [|name metadata body IH|p IHp q IHq]; intros t e Hwf Hc; simpl.
  - exists t, e. split_and!; try done. split; [done..|]. intros i s Hs Hn. congruence.
  - destruct (start_span_run th name None None None None t e Hwf)
      as (s & t1 & e1 & Hrun & Hwf1 & He1 & Hid & _ & Hpar & Htt & Htr & Hsp1 & Hcx1).
    destruct (IH t1 e1) as (t2 & e2 & Hrun2 & Hwf2 & Hn2); [done| |].
    { right. exists (span_id s), (trace_id s). unfold context. rewrite Hcx1, dget_dset_eq; simpl.
      unfold set_truthy; simpl. rewrite dget_dset_eq, dget_dset_ne, dget_dset_eq by done. split_and!; try done.
      rewrite Hid. apply uuid4_truthy. }
    assert (dget (tc_spans t2) (span_id s) = Some s) as Hs2.
    { apply (nested_keeps _ _ _ Hn2). by rewrite Hsp1, dget_dset_eq. }
    destruct (end_span_run th (span_id s) metadata t2 e2 s Hwf2 Hs2)
      as (s' & t3 & e3 & Hrun3 & Hwf3 & He3 & -> & Hsp3 & Hcx3).
    exists t3, e3. unfold bind. rewrite Hrun, Hrun2. split_and!; [done..|].
    eapply (nested_within th t t1 t2 t3 s); try done. rewrite Hid. by eapply wf_fresh.
  - destruct (IHp t e Hwf Hc) as (t1 & e1 & Hrun1 & Hwf1 & Hn1).
    destruct (IHq t1 e1 Hwf1) as (t2 & e2 & Hrun2 & Hwf2 & Hn2).
    { by rewrite (nested_context _ _ _ Hn1). }
    exists t2, e2. unfold bind. rewrite Hrun1. split_and!; [done..|]. by eapply nested_trans.
Qed.

(** ** Spans as JSON *)
Lemma span_roundtrip s : json_ok (VDict (span_metadata s)) = true →
  span_from_dict (span_to_dict s) = Ok s ∧ json_ok (VDict (span_to_dict s)) = true.
Proof.
  destruct s as [i tr n st e p m]; cbn [span_metadata]. intros Hm.
  unfold span_from_dict, span_to_dict, get_opt_str; cbn [span_metadata].
  rewrite asdict_json_ok by done. read_dict. rewrite !as_opt_str_opt; cbn [obind].
  split; [done|]. rewrite !json_dict_cons, Hm, !json_opt_str. done.
Qed.
(** A trace whose span metadata are JSON values survives its dictionary form and
    JSON. *)
Theorem trace_json_roundtrip t :
  Forall (λ s, json_ok (VDict (span_metadata s)) = true) (tr_spans t) →
  ∃ j, dumps (VDict (trace_to_dict t)) = Ok j ∧ (let? d := as_dict (loads j) in trace_from_dict d) = Ok t.
Proof.
  intros Hall. exists (VDict (trace_to_dict t)). unfold dumps, loads, trace_to_dict.
  rewrite !json_dict_cons.
  replace (json_ok (VList (map (λ s, VDict (span_to_dict s)) (tr_spans t)))) with true; cbn [json_ok andb].
  - split; [done|]. cbn [as_dict obind]. unfold trace_from_dict. read_dict.
    rewrite (omapM_Ok _ (λ s, VDict (span_to_dict s))).
    + cbn [obind]. by destruct t.
    + eapply Forall_impl; [exact Hall|]. intros s Hs. cbn [as_dict obind]. by apply span_roundtrip.
  - symmetry. change (forallb json_ok (map (λ s, VDict (span_to_dict s)) (tr_spans t)) = true).
    apply forallb_Forall_true, Forall_map.
    eapply Forall_impl; [exact Hall|]. intros s Hs. by apply span_roundtrip.
Qed.
End tracer.

(** * Examples *)
Section examples.
#[local] Existing Instance sample_oracle.

Lemma pretty_inj n m : nat_string n = nat_string m → n = m.
Proof. unfold nat_string. intros E%(inj pretty.pretty). lia. Qed.
#[local] Instance sample_uuids : UuidLaws.
Proof.
  split; [|by intros n].
  intros n m. unfold uuid4, sample_oracle; simpl. intros E. apply pretty_inj. by injection E.
Qed.
Definition no_iso (_ : string) : outcome Z := Raise (ValueError "Invalid isoformat string").
Definition tracing_env : Env := {| env_tasks := ∅; env_tick := 0; env_store := None |}.
Lemma new_tracer_wf : tracer_wf new_tracer tracing_env.
Proof. split; [done..|]. intros i [? ?]. done. Qed.

Lemma tracer_invariant_witness :
  let '(_, (t', e')) := start_span "W-001" "task" None (Some "c") None None (new_tracer, tracing_env) in
  tracer_wf t' e'.
Proof. apply (tracer_invariant no_iso new_tracer tracing_env "W-001" new_tracer_wf). Defined.

Definition nest : traced := Within "workflow" [] (Then (Within "a" [] Skip) (Within "b" [] Skip)).
Lemma nested_spans_witness :
  ∃ t' e', run_traced no_iso "main" nest (new_tracer, tracing_env) = (Ok tt, (t', e')) ∧ tracer_wf t' e' ∧
    nested "main" new_tracer t'.
Proof. apply (nested_spans no_iso "main" nest new_tracer tracing_env); [exact new_tracer_wf|by left]. Defined.

Definition sample_trace : Trace := {|
  tr_trace_id := "t"; tr_spans := [{| span_id := "s"; trace_id := "t"; span_name := "x"; start_time := "now";
    end_time := None; parent_span_id := Some "p"; span_metadata := [("status", VStr "Failed")] |}] |}.
Lemma trace_json_roundtrip_witness :
  ∃ j, dumps (VDict (trace_to_dict sample_trace)) = Ok j ∧
    (let? d := as_dict (loads j) in trace_from_dict d) = Ok sample_trace.
Proof. apply trace_json_roundtrip. repeat constructor. Defined.
End examples.
