(* ===== verification/Application.v ===== *)
(** [main.py]: the program of the repository.  It builds a task manager, a
    registry with the Python executor and a runtime, submits two tasks,
    executes both with [execute_task] and prints them before and after.  It
    never starts the runtime, so nothing runs beside it. *)
From S2P Require Import Prelude PyNum Heapq Values Decode Events EventStore Tasks Policy.
From S2P Require Import TaskQueue QueuePort Admission Retry Delayed Scheduler WorkerPool Accounting System Runtime.
From S2P Require Import Tracing Execution Middleware Executors Registry.
Open Scope Z_scope.

Section application.
Context `{!Oracle}.
#[local] Existing Instance FIFOPolicy.policy.
Abbreviation Sys := (Threads * (Pool * (Tracker * (Queue FIFOPolicy.t * Env))))%type.
Definition tasks_of_system : lens Sys Env :=
  Lens environment (λ e s, (s.1, (s.2.1, (s.2.2.1, (s.2.2.2.1, e))))).
(** What an execution reaches outside the runtime (see [Host]); its tasks are
    the runtime's. *)
Record Outside : Type := {
  thread_late : ∀ A : Type, M Sys A → Sys → option Sys;
  text_of_value : pyval → string;
  append_to : pyval → event_data → M Sys unit;
  record_in : pyval → pyval → string → spec_float → M Sys unit
}.
Variable outside : Outside.
Context `{!OS Sys}.
#[local] Instance application_host : Host Sys := {|
  world_env := tasks_of_system; late := thread_late outside; str_of := text_of_value outside;
  store_append := append_to outside; record_execution := record_in outside |}.

Abbreviation Registered := (Executor (W:=Sys)).
Abbreviation App := (TaskManager * (ExecutorRegistry (W:=Sys) (X:=Registered) * Sys))%type.

Definition runtime_of : lens App (TaskManager * Sys) := Lens (λ s, (s.1, s.2.2)) (λ x s, (x.1, (s.2.1, x.2))).

(** [TaskManager()], [ExecutorRegistry()] with its [register], [Runtime(...)] *)
Definition built (e : Env) : App :=
  let '(mgr, sys) := new_runtime (P:=FIFOPolicy.t) [] e in
  (mgr, (register PYTHON (PythonExecutor None) new_executor_registry, sys)).

Definition submit_titled (title : string) : M App nat :=
  zoom runtime_of (client_submit None
    {| sb_title := title; sb_type := PYTHON; sb_metadata := None; sb_delay := PFloat f_zero |}).
(** [executor.execute(task)] *)
Definition execute_found (x : found (X:=Registered)) (r : nat) : M Sys unit :=
  match x with Legacy ex | Adapted ex => adapter_execute ex None r end.
Definition deref_task (r : nat) : M App Task := on_tasks tasks_of_system (deref r).
(** [runtime.execute_task(task.id)] *)
Definition execute_by_id (r : nat) : M App nat :=
  t <- deref_task r ;;
  execute_task (λ ex, Some (ex_capabilities ex)) tasks_of_system execute_found 2 (task_id t).
(** [print(task)] *)
Definition printed (r : nat) : M App string := t <- deref_task r ;; ret (task_str t).

Definition newline : string := String (Ascii.ascii_of_nat 10) "".
Definition banner (s : string) : string := newline +:+ "========== " +:+ s +:+ " EXECUTION ==========" +:+ newline.

(** The script, and what it prints. *)
Definition main : M App (list string) :=
  task1 <- submit_titled "Learn Python Runtime" ;;
  task2 <- submit_titled "Build AI Operating System" ;;
  a1 <- printed task1 ;;
  a2 <- printed task2 ;;
  execute_by_id task1 ;;;
  execute_by_id task2 ;;;
  b1 <- printed task1 ;;
  b2 <- printed task2 ;;
  ret [banner "BEFORE"; a1; a2; banner "AFTER"; b1; b2].

(** * What it does *)
#[local] Existing Instance FIFOPolicy.laws.
#[local] Instance tasks_of_system_laws : LensLaws tasks_of_system.
Proof. split; [done| |done]. by intros [h [p [d [q e]]]]. Qed.

(** A submission to the FIFO queue without a limit. *)
Lemma submit_titled_run title mgr reg h p d (q : Queue FIFOPolicy.t) e :
  let r := env_tick e in
  let t := stamped (next_tick e) (mutate 0 (fresh_task r title PYTHON None)) in
  str_truthy (strip title) = true → Z.of_nat (String.length title) ≤ 255 →
  env_store e = None → q_max_size q = None → uuid4 r ∉ dkeys mgr →
  env_wf e → queue_inv (q, e) → uuid4 r ∉ FIFOPolicy.order (q_policy q) →
  ∃ q' e', submit_titled title (mgr, (reg, (h, (p, (d, (q, e)))))) =
      (Ok r, (mgr ++ [(uuid4 r, r)], (reg, (h, (p, (d, (q', e'))))))) ∧
    q_max_size q' = None ∧ q_storage q' = <[uuid4 r := r]> (q_storage q) ∧
    FIFOPolicy.order (q_policy q') = FIFOPolicy.order (q_policy q) ++ [uuid4 r] ∧
    env_tasks e' = <[r := t]> (env_tasks e) ∧ env_store e' = None ∧ (r < env_tick e')%nat ∧
    env_wf e' ∧ queue_inv (q', e').
Proof.
  intros r t Htitle Hlen Hst Hmax Hmgr Hwf Hinv Hnew. set (t0 := fresh_task r title PYTHON None).
  pose proof (submit_to_queue (P:=FIFOPolicy.t) 255 0 title PYTHON None (PFloat f_zero) mgr d q e Htitle Hst Hmgr eq_refl) as Hsub.
  cbv zeta in Hsub. fold r t0 in Hsub. rewrite decide_True in Hsub by (split; [done|discriminate]).
  set (e1 := admitted_env 0 t0 e) in *.
  assert (env_tasks e1 !! r = Some (mutate 0 t0)) as Ht1 by (simpl; by rewrite lookup_insert_eq).
  destruct (enqueue_run q e1 r (mutate 0 t0) {| FIFOPolicy.order := FIFOPolicy.order (q_policy q) ++ [uuid4 r] |} Ht1)
    as (o & e' & evs & Hrun & Htk & Hem & Hst'); [unfold is_full; by rewrite Hmax|done|].
  destruct (enqueue_spec q e1 r (mutate 0 t0) (admitted_env_inv 0 t0 q e Hinv Hwf) Ht1)
    as (o2 & q2 & e2' & _ & _ & Hrun2 & Hinv2 & _); [unfold is_full; by rewrite Hmax|done| |].
  { simpl. by rewrite not_elem_of_list_to_set. }
  rewrite Hrun in Hrun2. injection Hrun2 as <- <- <-.
  pose proof (emitted_nostore _ _ _ _ _ Hem Hst) as ->.
  destruct Hem as (e2 & o' & He2 & Htick & Hem & _). unfold emit in Hem.
  rewrite emit_meta_nostore in Hem by (rewrite He2; exact Hst). injection Hem as _ <-.
  assert (env_tasks e2 = <[r := t]> (env_tasks e)) as Htk2.
  { rewrite Htk. apply map_eq. intros j. destruct (decide (j = r)) as [->|Hne].
    - by rewrite lookup_alter_eq, Ht1, lookup_insert_eq.
    - rewrite lookup_alter_ne, lookup_insert_ne by done. simpl. by rewrite !lookup_insert_ne by done. }
  assert (r < env_tick e2)%nat as Hlt by (simpl in Htick; fold r in Htick; lia).
  rewrite Hrun in Hsub. eexists _, e2. split_and!.
  - unfold submit_titled, zoom. cbn [lget runtime_of fst snd].
    erewrite client_submit_run by exact Hsub. reflexivity.
  - done.
  - done.
  - done.
  - done.
  - by rewrite He2.
  - done.
  - intros j. rewrite Htk2, lookup_insert_is_Some. intros [<-|[_ Hj]]; [done|]. specialize (Hwf j Hj). fold r in Hwf. lia.
  - done.
Qed.

Lemma deref_task_run r t mgr reg w :
  env_tasks (environment w) !! r = Some t → deref_task r (mgr, (reg, w)) = (Ok t, (mgr, (reg, w))).
Proof.
  intros Ht. unfold deref_task, on_tasks, zoom; simpl. rewrite (deref_Some _ r t Ht); simpl.
  destruct w as [h [p [d [q e]]]]. done.
Qed.

Lemma printed_run r t mgr reg w :
  env_tasks (environment w) !! r = Some t → printed r (mgr, (reg, w)) = (Ok (task_str t), (mgr, (reg, w))).
Proof. intros Ht. unfold printed, bind. by rewrite (deref_task_run r t). Qed.
Lemma bind_run {S A B} (m : M S A) (k : A → M S B) s a s' : m s = (Ok a, s') → bind m k s = k a s'.
Proof. unfold bind. by intros ->. Qed.
Lemma iter_tick n e : env_tasks (Nat.iter n next_tick e) = env_tasks e ∧
  env_store (Nat.iter n next_tick e) = env_store e ∧ (env_tick e ≤ env_tick (Nat.iter n next_tick e))%nat.
Proof. induction n as [|n (IH1 & IH2 & IH3)]; [done|]. simpl. split_and!; [done..|lia]. Qed.

(** One synchronous execution: the task is completed, and nothing else changes
    but the clock. *)
Lemma execute_by_id_run r t mgr reg h p d (q : Queue FIFOPolicy.t) e :
  dget (rg_executors reg) "python" = Some (PythonExecutor None) →
  dget mgr (task_id t) = Some r → env_tasks e !! r = Some t → task_type t = PYTHON →
  dget (metadata_or_empty t) "timeout_policy" = None →
  ∃ e', execute_by_id r (mgr, (reg, (h, (p, (d, (q, e)))))) = (Ok r, (mgr, (reg, (h, (p, (d, (q, e')))))) ) ∧
    env_tasks e' = <[r := complete t]> (env_tasks e) ∧ env_store e' = env_store e ∧ (env_tick e ≤ env_tick e')%nat.
Proof.
  intros Hreg Hi Ht Hty Hto. unfold execute_by_id. unfold bind at 1. rewrite (deref_task_run r t) by done.
  set (e1 := with_tasks (alter start r (env_tasks e)) e).
  assert (env_tasks e1 !! r = Some (start t)) as Ht1 by (simpl; by rewrite lookup_alter_eq, Ht).
  pose proof (adapted_python_prints (W:=Sys) None r (start t) (h, (p, (d, (q, e1))))) as Hpy.
  destruct (Hpy Ht1 Hto) as (n & Hrun).
  set (e2 := Nat.iter n next_tick e1). destruct (iter_tick n e1) as (Htk & Hst & Htick). fold e2 in Htk, Hst, Htick.
  assert (env_tasks e2 !! r = Some (start t)) as Ht2 by by rewrite Htk.
  exists (with_tasks (alter complete r (env_tasks e2)) e2). split_and!.
  - rewrite (execute_task_run (λ ex : Registered, Some (ex_capabilities ex)) tasks_of_system execute_found 2
      (task_id t) r t mgr reg _ (PythonExecutor None)); [|done|done|by rewrite Hty].
    change (updated tasks_of_system start r (h, (p, (d, (q, e))))) with (h, (p, (d, (q, e1)))).
    cbn [execute_found]. by rewrite Hrun.
  - apply map_eq. intros j. simpl. destruct (decide (j = r)) as [->|Hne].
    + by rewrite lookup_alter_eq, Ht2, lookup_insert_eq.
    + rewrite lookup_alter_ne, Htk, lookup_insert_ne by done. simpl. by rewrite lookup_alter_ne.
  - done.
  - done.
Qed.

(** A submitted task, as it waits. *)
Definition submitted (title : string) (e : Env) : Task :=
  stamped (next_tick e) (mutate 0 (fresh_task (env_tick e) title PYTHON None)).

Context `{!UuidLaws}.

(** Started with a task in the queue, the runtime executes it, whatever its
    status. *)
Lemma started_executes mgr (q : Queue FIFOPolicy.t) e i r t l f :
  env_store e = None → queue_inv (q, e) → contents q = (i, r) :: l → env_tasks e !! r = Some t →
  let s0 := (mgr, (new_threads, (new_pool, (new_tracker, (q, e))))) in
  let s1 := session None (Thread <$> (replicate 4 ALoop ++ replicate 7 (AWorker "W-001" f (Ok tt)))) (client_start s0).2 in
  env_tasks (environment s1.2) !! r = Some (System.finished (f (start t))).
Proof.
  intros He Hinv Hc Ht. destruct (runtime_start_run pool_size q e He) as (h & Hrun & Hl & Hstop & _).
  set (s0 := (mgr, _)). cbv zeta.
  assert ((client_start s0).2 = (mgr, (h, (started_pool pool_size (env_tick e), (started_tracker, (q, ticked 6 e)))))) as ->.
  { unfold client_start, s0, zoom. cbn [lget env_lens fst snd]. by rewrite Hrun. }
  destruct (contents_ids q e Hinv) as [Hids _]. rewrite Hc in Hids. csimpl in Hids.
  assert (queue_inv (q, ticked 6 e)) as Hinv6 by by apply (queue_inv_env q e).
  destruct (loop_dispatch (Some (runtime_admission None)) h (started_pool pool_size (env_tick e)) started_tracker q (ticked 6 e)
    "W-001" (new_worker (S (env_tick e))) i (l.*1)) as (q2 & e2 & r' & t' & Hr' & _ & _ & Hinv2 & _ & Htk2 & He2 & Hrun2);
    [done..|vm_compute; reflexivity|done|done|done|done|].
  assert (r' = r) as ->.
  { assert ((i, r) ∈ contents q) as Hin by (rewrite Hc; by left). apply (contents_elem q e i r Hinv) in Hin. congruence. }
  rewrite session_threads, run_app, Hrun2.
  destruct (worker_round (P:=FIFOPolicy.t) (with_loop Polling h) (with_pool_queue [r] (started_pool pool_size (env_tick e)))
    started_tracker q2 e2 "W-001" (new_worker (S (env_tick e))) r t f) as (x3 & p3 & e3 & Hrun3 & Htk3 & _).
  1-6: try done.
  { by rewrite Htk2. }
  change (pl_queue (started_pool pool_size (env_tick e)) ++ [r]) with [r]. rewrite Hrun3.
  unfold environment; simpl. by rewrite Htk3, lookup_insert_eq.
Qed.

(** C34: The program runs to its end, in any state of the clock and without a store.
    It prints both tasks as pending and then both as completed; afterwards the
    manager lists both, and both still wait in the queue, because [execute_task]
    does not take them out: starting this runtime executes the first task again,
    although it is completed. *)
Theorem main_completes e :
  env_store e = None → env_wf e →
  ∃ r1 r2 t1 t2 q e',
    main (built e) =
      (Ok [banner "BEFORE"; task_str t1; task_str t2; banner "AFTER"; task_str (complete t1); task_str (complete t2)],
       ([(task_id t1, r1); (task_id t2, r2)],
        (register PYTHON (PythonExecutor None) new_executor_registry, (new_threads, (new_pool, (new_tracker, (q, e'))))))) ∧
    task_title t1 = "Learn Python Runtime" ∧ task_title t2 = "Build AI Operating System" ∧
    task_status t1 = PENDING ∧ task_status t2 = PENDING ∧ r1 ≠ r2 ∧ task_id t1 ≠ task_id t2 ∧
    env_tasks e' = <[r2 := complete t2]> (<[r1 := complete t1]> (env_tasks e)) ∧ env_store e' = None ∧
    contents q = [(task_id t1, r1); (task_id t2, r2)] ∧
    ∀ f, let s0 := ([(task_id t1, r1); (task_id t2, r2)], (new_threads, (new_pool, (new_tracker, (q, e'))))) in
      let s1 := session None (Thread <$> (replicate 4 ALoop ++ replicate 7 (AWorker "W-001" f (Ok tt)))) (client_start s0).2 in
      env_tasks (environment s1.2) !! r1 = Some (System.finished (f (start (complete t1)))).
Proof.
  intros He Hwf. set (reg := register PYTHON (PythonExecutor None) new_executor_registry).
  destruct (submit_titled_run "Learn Python Runtime" [] reg new_threads new_pool new_tracker (new_queue None) e)
    as (q1 & e1 & Hrun1 & Hm1 & Hs1 & Ho1 & Htk1 & He1 & Hlt1 & Hwf1 & Hinv1);
    [done|by vm_compute|done|done|apply not_elem_of_nil|done|apply new_queue_inv|apply not_elem_of_nil|].
  set (r1 := env_tick e) in *. set (t1 := stamped (next_tick e) _) in Htk1.
  assert (uuid4 r1 ≠ uuid4 (env_tick e1)) as Hid by (intros E%uuid4_unique; lia).
  destruct (submit_titled_run "Build AI Operating System" [(uuid4 r1, r1)] reg new_threads new_pool new_tracker q1 e1)
    as (q2 & e2 & Hrun2 & Hm2 & Hs2 & Ho2 & Htk2 & He2 & Hlt2 & Hwf2 & Hinv2);
    [done|by vm_compute|done|done|set_solver|done|done|rewrite Ho1; set_solver|].
  set (r2 := env_tick e1) in *. set (t2 := stamped (next_tick e1) _) in Htk2.
  assert (env_tasks e2 !! r1 = Some t1) as Ht1 by (rewrite Htk2, lookup_insert_ne, Htk1, lookup_insert_eq; [done|lia]).
  assert (env_tasks e2 !! r2 = Some t2) as Ht2 by by rewrite Htk2, lookup_insert_eq.
  set (mgr := [(uuid4 r1, r1); (uuid4 r2, r2)]) in *.
  destruct (execute_by_id_run r1 t1 mgr reg new_threads new_pool new_tracker q2 e2)
    as (e3 & Hrun3 & Htk3 & He3 & Hlt3); [done|simpl; by rewrite decide_True|done..|].
  assert (env_tasks e3 !! r2 = Some t2) as Ht2' by (rewrite Htk3, lookup_insert_ne; [done|lia]).
  destruct (execute_by_id_run r2 t2 mgr reg new_threads new_pool new_tracker q2 e3)
    as (e4 & Hrun4 & Htk4 & He4 & Hlt4); [done|simpl; by rewrite decide_False, decide_True|done..|].
  assert (env_tasks e4 !! r1 = Some (complete t1)) as Ht1d by (rewrite Htk4, lookup_insert_ne, Htk3, lookup_insert_eq; [done|lia]).
  assert (env_tasks e4 !! r2 = Some (complete t2)) as Ht2d by by rewrite Htk4, lookup_insert_eq.
  assert (queue_inv (q2, e4)) as Hinv4.
  { apply (queue_inv_env q2 e2); [done|]. intros j t. rewrite Htk4, Htk3, !lookup_insert.
    intros Hj. repeat case_decide; subst; simplify_eq; eauto. }
  assert (contents q2 = [(uuid4 r1, r1); (uuid4 r2, r2)]) as Hc.
  { unfold contents. change (pol_live (q_policy q2)) with (FIFOPolicy.order (q_policy q2)).
    rewrite Ho2, Ho1, Hs2, Hs1. csimpl. rewrite lookup_insert_ne, !lookup_insert_eq by done. done. }
  exists r1, r2, t1, t2, q2, e4. split_and!; try done.
  - change (built e) with (([] : TaskManager), (reg, (new_threads, (new_pool, (new_tracker, (new_queue (P:=FIFOPolicy.t) None, e)))))).
    pose (w := λ e : Env, (new_threads, (new_pool, (new_tracker, (q2, e)))) : Sys).
    unfold main. etrans; [apply (bind_run _ _ _ _ _ Hrun1)|]. etrans; [apply (bind_run _ _ _ _ _ Hrun2)|].
    etrans; [apply (bind_run _ _ _ _ _ (printed_run r1 t1 mgr reg (w e2) Ht1))|].
    etrans; [apply (bind_run _ _ _ _ _ (printed_run r2 t2 mgr reg (w e2) Ht2))|].
    etrans; [apply (bind_run _ _ _ _ _ Hrun3)|]. etrans; [apply (bind_run _ _ _ _ _ Hrun4)|].
    etrans; [apply (bind_run _ _ _ _ _ (printed_run r1 (complete t1) mgr reg (w e4) Ht1d))|].
    etrans; [apply (bind_run _ _ _ _ _ (printed_run r2 (complete t2) mgr reg (w e4) Ht2d))|]. done.
  - lia.
  - rewrite Htk4, Htk3, Htk2, Htk1. apply map_eq. intros j.
    destruct (decide (j = r2)) as [->|H2]; [by rewrite !lookup_insert_eq|rewrite !(lookup_insert_ne _ r2) by done].
    by destruct (decide (j = r1)) as [->|H1]; [rewrite !lookup_insert_eq|rewrite !lookup_insert_ne].
  - congruence.
  - intros f. by apply (started_executes _ q2 e4 (uuid4 r1) r1 (complete t1) [(uuid4 r2, r2)]); [congruence|..].
Qed.
End application.

(** * Example *)
Section examples.
#[local] Existing Instance sample_oracle.
#[local] Existing Instance sample_uuids.
Abbreviation Sys := (Threads * (Pool * (Tracker * (Queue FIFOPolicy.t * Env))))%type.
#[local] Instance no_os : OS Sys := {|
  is_callable v := false; call f args kw := raise (TypeError "not callable"); bind_error f args kw := None;
  exec_code code := ret VNone; run_process cmd cwd timeout := ret (Exited "" "" 0); makedirs d := ret tt;
  shlex_split s := Ok [s]; gmt_text t := ""; context_value c := VNone |}.
Definition nothing_outside : Outside := {|
  thread_late A m w := None; text_of_value v := ""; append_to v d := ret tt; record_in a b c d := ret tt |}.
Definition first_world : Env := sample_world None [].

Lemma main_completes_witness :
  ∃ r1 r2 t1 t2 s, main nothing_outside (built nothing_outside first_world) =
      (Ok [banner "BEFORE"; task_str t1; task_str t2; banner "AFTER"; task_str (complete t1); task_str (complete t2)], s) ∧
    s.1 = [(task_id t1, r1); (task_id t2, r2)] ∧ task_title t1 = "Learn Python Runtime" ∧ task_status t1 = PENDING.
Proof.
  assert (env_wf first_world) as Hwf by (intros r [t Ht]; vm_compute in Ht; discriminate).
  destruct (main_completes nothing_outside first_world eq_refl Hwf)
    as (r1 & r2 & t1 & t2 & q & e' & Hrun & Ht1 & _ & Hs1 & _).
  exists r1, r2, t1, t2. eexists. split; [exact Hrun|]. split; [reflexivity|]. split; [exact Ht1|exact Hs1].
Defined.
End examples.
