(* ===== verification/Monitoring.v ===== *)
(** [observability/health.py], [observability/alerts.py],
    [observability/timeline.py] and [observability/replay.py]: what is derived
    from the events of the runtime. *)
From S2P Require Import Prelude PyNum Values Decode Events EventStore Tasks.
From stdpp Require Import pretty.
Open Scope Z_scope.

(** * Health *)
Inductive HealthStatus : Type := HEALTHY | WARNING | DEGRADED | UNHEALTHY.
Definition health_value (s : HealthStatus) : string :=
  match s with HEALTHY => "Healthy" | WARNING => "Warning" | DEGRADED => "Degraded" | UNHEALTHY => "Unhealthy" end.

Record HealthMonitor : Type := {
  hm_scheduler_running : bool;
  hm_workers : odict string;
  hm_workflow_failures : Z;
  hm_last_started : string
}.
Definition new_health_monitor : HealthMonitor :=
  {| hm_scheduler_running := false; hm_workers := []; hm_workflow_failures := 0; hm_last_started := "" |}.
Definition scheduler_is (b : bool) (started : string) (h : HealthMonitor) : HealthMonitor :=
  {| hm_scheduler_running := b; hm_workers := hm_workers h; hm_workflow_failures := hm_workflow_failures h;
     hm_last_started := started |}.
Definition with_health_workers (d : odict string) (h : HealthMonitor) : HealthMonitor :=
  {| hm_scheduler_running := hm_scheduler_running h; hm_workers := d;
     hm_workflow_failures := hm_workflow_failures h; hm_last_started := hm_last_started h |}.
Definition count_workflow_failure (h : HealthMonitor) : HealthMonitor :=
  {| hm_scheduler_running := hm_scheduler_running h; hm_workers := hm_workers h;
     hm_workflow_failures := hm_workflow_failures h + 1; hm_last_started := hm_last_started h |}.

(** [event.metadata.get("worker_id", "default")], a string *)
Definition worker_key (e : RuntimeEvent) : outcome string :=
  as_str (get_or (event_metadata e) "worker_id" (VStr "default")).
(** [HealthMonitor.on_event] *)
Definition on_event (e : RuntimeEvent) : M HealthMonitor unit :=
  let ty := class_name (data e) in
  if ty =s? "SchedulerStarted" then modify (scheduler_is true (timestamp e))
  else if ty =s? "SchedulerStopped" then modify (λ h, scheduler_is false (hm_last_started h) h)
  else if ty =s? "WorkerStarted" then
    w <- of_outcome (worker_key e) ;;
    modify (λ h, with_health_workers (dset (hm_workers h) w (timestamp e)) h)
  else if ty =s? "WorkerStopped" then
    w <- of_outcome (worker_key e) ;;
    modify (λ h, with_health_workers (ddel (hm_workers h) w) h)
  else if ty =s? "WorkerHeartbeat" then
    w <- of_outcome (worker_key e) ;;
    modify (λ h, with_health_workers (dset (hm_workers h) w (timestamp e)) h)
  else if ty =s? "WorkflowFailed" then modify count_workflow_failure
  else ret tt.

Record HealthReport : Type := {
  hr_status : string; hr_reasons : list string; hr_active_workers_count : Z; hr_workflow_failures : Z
}.

Section health.
Context `{!Oracle}.
(** [datetime.fromisoformat] in microseconds, and a number with one decimal *)
Context (from_iso : string → outcome Z) (one_decimal : spec_float → string).

(** the loop over the workers: [(status, reasons)] *)
Fixpoint check_workers (threshold : num) (now : Z) (ws : odict string)
    (acc : HealthStatus * list string) : HealthStatus * list string :=
  match ws with
  | [] => acc
  | (w, ts) :: ws' =>
      check_workers threshold now ws'
        match from_iso ts with
        | Ok t =>
            let diff := total_seconds (now - t) in
            if num_lt threshold (PFloat diff) then
              (DEGRADED, acc.2 ++ ["Worker '" +:+ w +:+ "' missed heartbeats (last seen " +:+
                                   one_decimal diff +:+ "s ago)."])
            else acc
        | Raise _ => acc
        end
  end.
(** [check_health]; [db] is what [SELECT 1] does on the connection, if there is
    one, and [fs] what writing and removing the test file does. *)
Definition check_health (threshold : num) (db : option (outcome unit)) (fs : outcome unit) :
    M (HealthMonitor * Env) HealthReport :=
  h <- self get ;;
  let acc := if hm_scheduler_running h then (HEALTHY, [])
             else (DEGRADED, ["Scheduler process is stopped."]) in
  n <- env tick ;;
  let '(s, rs) := check_workers threshold (now_us n) (hm_workers h) acc in
  acc <- of_outcome (match db with
    | Some (Raise x) =>
        if isinstance x "Error"
        then Ok (UNHEALTHY, rs ++ ["SQLite Connection Failure: " +:+ exn_str x]) else Raise x
    | _ => Ok (s, rs)
    end) ;;
  let '(s, rs) := acc in
  acc <- of_outcome (match fs with
    | Raise x =>
        if isinstance x "Exception"
        then Ok (UNHEALTHY, rs ++ ["Filesystem write check failed: " +:+ exn_str x]) else Raise x
    | Ok _ => Ok (s, rs)
    end) ;;
  let '(s, rs) := acc in
  ret {| hr_status := health_value s; hr_reasons := rs;
         hr_active_workers_count := Z.of_nat (length (hm_workers h));
         hr_workflow_failures := hm_workflow_failures h |}.

(** * Alerts *)
Record AlertRule : Type := { ar_name : string; ar_metric_name : string; ar_threshold : num }.
Record Alert : Type := { al_rule_name : string; al_message : string; al_severity : string; al_timestamp : string }.
Record AlertEngine : Type := { ae_rules : list AlertRule; ae_alerts : list Alert }.
(** the text of a number in an f-string *)
Context (num_text : num → string).

Definition queue_limit (rules : list AlertRule) : num :=
  match find (λ r, ar_metric_name r =s? "queue_size") rules with
  | Some r => ar_threshold r
  | None => PInt 5
  end.
(** [AlertEngine.evaluate] on a report of [check_health] and the size of the
    queue in the diagnostics *)
Definition evaluate (h : HealthReport) (queue_size : num) : M (AlertEngine * Env) (list Alert) :=
  n <- env tick ;;
  a <- self get ;;
  let alert rule message severity :=
    {| al_rule_name := rule; al_message := message; al_severity := severity; al_timestamp := now_iso n |} in
  let limit := queue_limit (ae_rules a) in
  let triggered :=
    map (λ reason, alert "WorkerHeartbeatMissing" reason "critical")
      (filter (λ reason, str_contains "missed heartbeats" reason || str_contains "stopped" reason = true)
        (hr_reasons h)) ++
    (if num_lt limit queue_size then
       [alert "QueueDepthThresholdExceeded" ("Queue size is " +:+ num_text queue_size +:+
          ", exceeding threshold limit of " +:+ num_text limit +:+ ".") "warning"]
     else []) ++
    (if 2 <? hr_workflow_failures h then
       [alert "WorkflowFailuresSpike" ("Workflow failure count is " +:+ pretty (hr_workflow_failures h) +:+
          ", indicating spike anomalies.") "critical"]
     else []) in
  self (modify (λ a, {| ae_rules := ae_rules a; ae_alerts := ae_alerts a ++ triggered |})) ;;;
  ret triggered.

(** ** What the monitor can see *)

(** The monitor after some events; an event it raises on changes nothing. *)
Definition monitor_after (es : list RuntimeEvent) : HealthMonitor :=
  foldl (λ h e, (on_event e h).2) new_health_monitor es.

Lemma on_event_failures e h : hm_workflow_failures (on_event e h).2 = hm_workflow_failures h.
Proof.
  unfold on_event. destruct (data e); simpl; try done;
    unfold bind, of_outcome; by destruct (worker_key e).
Qed.
Lemma monitor_after_failures es : hm_workflow_failures (monitor_after es) = 0.
Proof.
  unfold monitor_after. assert (hm_workflow_failures new_health_monitor = 0) as H0 by done. revert H0.
  generalize new_health_monitor. induction es as [|e es IH]; intros h Hh; simpl; [done|].
  apply IH. by rewrite on_event_failures.
Qed.

(** No event class is called "WorkflowFailed": whatever events the monitor is
    given, it counts no workflow failure, every report says so, and the alert on
    a spike of failures is never triggered. *)
Theorem workflow_failures_unseen es threshold db fs e r s' a queue_size :
  check_health threshold db fs (monitor_after es, e) = (Ok r, s') →
  hr_workflow_failures r = 0 ∧
  ∃ alerts a', evaluate r queue_size a = (Ok alerts, a') ∧
    Forall (λ x, al_rule_name x ≠ "WorkflowFailuresSpike") alerts.
Proof.
  intros Hc. assert (hr_workflow_failures r = 0) as Hr.
  { pose proof (monitor_after_failures es) as Hf. revert Hc. unfold check_health. run_step.
    destruct (check_workers _ _ _ _) as [s rs].
    repeat (case_match; simplify_eq/=; try done); intros [= <- _]; done. }
  split; [done|]. unfold evaluate. run_step. eexists _, _. split; [reflexivity|]. rewrite Hr; simpl.
  rewrite app_nil_r. apply Forall_app. split.
  - apply Forall_map, Forall_forall. done.
  - case_match; [by apply Forall_singleton|apply Forall_nil_2].
Qed.

(** The runtime's worker events name the worker in their own field, not in their
    metadata: for the monitor all workers are one, "default", which one of them
    stopping removes. *)
Theorem workers_collapse es :
  Forall (λ e, dget (event_metadata e) "worker_id" = None) es →
  ∀ w, w ∈ dkeys (hm_workers (monitor_after es)) → w = "default".
Proof.
  intros Hes. unfold monitor_after.
  assert (∀ w, w ∈ dkeys (hm_workers new_health_monitor) → w = "default") as H0.
  { intros w Hw. by apply not_elem_of_nil in Hw. }
  revert H0. generalize new_health_monitor.
  induction Hes as [|e es He Hes IH]; intros h Hh; simpl; [done|]. apply IH.
  unfold on_event, worker_key, get_or. rewrite He; simpl. unfold bind, of_outcome.
  destruct (data e); simpl; try done; intros w'.
  - rewrite elem_of_dkeys_dset. intros [?|?]; auto.
  - intros ?%dkeys_ddel_sub. auto.
  - rewrite elem_of_dkeys_dset. intros [?|?]; auto.
Qed.

(** A stopped scheduler is reported as a missing worker heartbeat. *)
Theorem stopped_scheduler_alerts_heartbeat threshold e a :
  ∃ r s' alerts a', check_health threshold None (Ok tt) (new_health_monitor, e) = (Ok r, s') ∧
    hr_active_workers_count r = 0 ∧ evaluate r (PInt 0) a = (Ok alerts, a') ∧
    Exists (λ x, al_rule_name x = "WorkerHeartbeatMissing") alerts.
Proof.
  unfold check_health, evaluate. run_step.
  eexists _, _, _, _. split_and!; [reflexivity|done|reflexivity|]. simpl. by left.
Qed.
End health.

(** * The timeline *)

(** One entry: [timestamp], [event_type], [message], [metadata]. *)
Record TimelineEntry : Type := {
  te_timestamp : string; te_event_type : string; te_message : string; te_metadata : odict pyval
}.

Section timeline.
(** the text of a value in an f-string *)
Context (text : pyval → string).

Definition timeline_message (e : RuntimeEvent) : string :=
  let meta := event_metadata e in
  match data e with
  | TaskSubmitted i _ _ => "Task '" +:+ i +:+ "' submitted to Scheduler queue."
  | TaskStarted i => "Task '" +:+ i +:+ "' started execution on worker '" +:+
      text (get_or meta "worker_id" (VStr "unknown")) +:+ "'."
  | TaskCompleted i => "Task '" +:+ i +:+ "' completed successfully."
  | TaskFailed i _ => "Task '" +:+ i +:+ "' failed: " +:+
      text (get_or meta "error" (VStr "unknown error")) +:+ "."
  | TaskCancelled i => "Task '" +:+ i +:+ "' was cancelled."
  | TaskTimedOut i => "Task '" +:+ i +:+ "' execution timed out."
  | d => "Event '" +:+ class_name d +:+ "' occurred."
  end.
Definition timeline_entry (e : RuntimeEvent) : TimelineEntry := {|
  te_timestamp := timestamp e; te_event_type := class_name (data e); te_message := timeline_message e;
  te_metadata := dupdate [("correlation_id", opt_str (correlation_id e));
                          ("causation_id", opt_str (causation_id e))] (event_metadata e) |}.

(** [list.sort(key=...)]: stable *)
Fixpoint insert_entry (x : TimelineEntry) (l : list TimelineEntry) : list TimelineEntry :=
  match l with
  | [] => [x]
  | y :: l' => if String.leb (te_timestamp x) (te_timestamp y) then x :: l else y :: insert_entry x l'
  end.
Definition sort_entries (l : list TimelineEntry) : list TimelineEntry := foldr insert_entry [] l.
(** [TimelineEngine.reconstruct] *)
Definition reconstruct (es : list RuntimeEvent) : list TimelineEntry :=
  sort_entries (map timeline_entry es).

Definition entry_before (x y : TimelineEntry) : Prop := str_le (te_timestamp x) (te_timestamp y).

Lemma insert_entry_perm x l : insert_entry x l ≡ₚ x :: l.
Proof.
  induction l as [|y l IH]; simpl; [done|]. case_match; [done|]. rewrite IH. apply Permutation_swap.
Qed.
Lemma sort_entries_perm l : sort_entries l ≡ₚ l.
Proof. induction l as [|x l IH]; simpl; [done|]. by rewrite insert_entry_perm, IH. Qed.
Lemma insert_entry_sorted x l :
  StronglySorted entry_before l → StronglySorted entry_before (insert_entry x l).
Proof.
  induction 1 as [|y l Hl IH Hy]; simpl; [repeat constructor|].
  destruct (String.leb (te_timestamp x) (te_timestamp y)) eqn:E.
  - constructor; [by constructor|]. constructor; [done|].
    eapply Forall_impl; [exact Hy|]. intros z Hz. unfold entry_before in *. by etrans.
  - constructor; [done|]. rewrite insert_entry_perm. constructor; [|done].
    unfold entry_before, str_le. destruct (String.leb_total (te_timestamp x) (te_timestamp y)); congruence.
Qed.
(** Inserting does not reorder the entries of any one time. *)
Lemma insert_entry_stable ts x l : StronglySorted entry_before l →
  filter (λ y, te_timestamp y = ts) (insert_entry x l) = filter (λ y, te_timestamp y = ts) (x :: l).
Proof.
  induction 1 as [|y l Hl IH Hy]; simpl; [done|].
  destruct (String.leb (te_timestamp x) (te_timestamp y)) eqn:E; [done|].
  rewrite filter_cons, IH, !filter_cons. repeat case_decide; try done.
  assert (str_le (te_timestamp x) (te_timestamp y)) as Hxy by (by destruct (total str_le (te_timestamp x) (te_timestamp x)); congruence).
  unfold str_le in Hxy. congruence.
Qed.

(** The timeline of some events has one entry per event, ordered by time, and
    events of the same time keep their order. *)
Theorem timeline_sorted es :
  reconstruct es ≡ₚ map timeline_entry es ∧
  StronglySorted entry_before (reconstruct es) ∧
  ∀ ts, filter (λ x, te_timestamp x = ts) (reconstruct es) =
        filter (λ x, te_timestamp x = ts) (map timeline_entry es).
Proof.
  split; [apply sort_entries_perm|]. unfold reconstruct. generalize (map timeline_entry es). intros l.
  assert (StronglySorted entry_before (sort_entries l)) as Hs.
  { induction l as [|x l IH]; simpl; [constructor|by apply insert_entry_sorted]. }
  split; [done|]. intros ts. clear Hs. induction l as [|x l IH]; simpl; [done|].
  rewrite insert_entry_stable, !filter_cons, IH; [done|].
  clear IH. induction l as [|y l IH]; simpl; [constructor|by apply insert_entry_sorted].
Qed.

(** The failures the scheduler logs carry their message in a field of their own;
    the timeline reads the metadata and shows an unknown error. *)
Theorem timeline_loses_errors e i msg :
  data e = TaskFailed i msg → event_metadata e = [] → text (VStr "unknown error") = "unknown error" →
  te_message (timeline_entry e) = "Task '" +:+ i +:+ "' failed: unknown error.".
Proof. intros Hd Hm Ht. simpl. unfold timeline_message. rewrite Hd, Hm. unfold get_or; simpl. by rewrite Ht. Qed.
End timeline.

(** * Replaying a workflow *)
Record ReplayStep : Type := {
  sp_timestamp : string; sp_node_id : string; sp_event_type : string; sp_old : string; sp_new : string
}.
(** [step["transition"]] *)
Definition transition (s : ReplayStep) : string := sp_old s +:+ " -> " +:+ sp_new s.
Record Replay : Type := {
  rp_instance_id : string; rp_workflow_name : pyval; rp_snapshot_status : pyval;
  rp_node_states : odict string; rp_history : list ReplayStep
}.

(** [meta.get("workflow_instance_id") == instance_id] *)
Definition of_instance (iid : string) (e : RuntimeEvent) : Prop :=
  get_or (event_metadata e) "workflow_instance_id" VNone = VStr iid.
#[export] Instance of_instance_dec iid e : Decision (of_instance iid e).
Proof.
  unfold of_instance. destruct (get_or _ _ _) as [| | |s| | | | |]; try (right; discriminate).
  destruct (decide (s = iid)); [left|right]; congruence.
Defined.
(** the state an event moves a node to *)
Definition new_state (d : event_data) : option string :=
  match d with
  | TaskStarted _ => Some "Running"
  | TaskCompleted _ => Some "Succeeded"
  | TaskFailed _ _ => Some "Failed"
  | _ => None
  end.
(** the loop over the instance's events; a [node_id] is a string *)
Fixpoint replay_steps (es : list RuntimeEvent) (states : odict string) :
    outcome (odict string * list ReplayStep) :=
  match es with
  | [] => Ok (states, [])
  | e :: es' =>
      let v := get_or (event_metadata e) "node_id" VNone in
      if truthy v then
        let? n := as_str v in
        let old := default "Pending" (dget states n) in
        let new := default old (new_state (data e)) in
        let? r := replay_steps es' (dset states n new) in
        Ok (r.1, {| sp_timestamp := timestamp e; sp_node_id := n; sp_event_type := class_name (data e);
                    sp_old := old; sp_new := new |} :: r.2)
      else replay_steps es' states
  end.
(** [ReplayEngine.replay_workflow]: [row] is the JSON of the instance's row,
    [tbl] the event store *)
Definition replay_workflow (row : option json) (tbl : option EventTable) (iid : string) : outcome Replay :=
  match row with
  | None => Raise (ValueError ("No WorkflowInstance found for: " +:+ iid))
  | Some j =>
      let? d := as_dict (loads j) in
      let started := get_or d "started_at" VNone in
      let? es := (match tbl with
        | Some t => if truthy started then let? ts := as_str started in stream_from ts default_limit 0 t else Ok []
        | None => Ok []
        end) in
      let? nodes := as_dict (get_or d "node_states" (VDict [])) in
      let? r := replay_steps (filter (of_instance iid) es) (prod_map id (λ _, "Pending") <$> nodes) in
      Ok {| rp_instance_id := iid; rp_workflow_name := get_or d "workflow_name" VNone;
            rp_snapshot_status := get_or d "status" VNone; rp_node_states := r.1; rp_history := r.2 |}
  end.

(** The node an event is about, and the last state some events give a node. *)
Definition about_node (n : string) (e : RuntimeEvent) : Prop :=
  n ≠ "" ∧ get_or (event_metadata e) "node_id" VNone = VStr n.
#[export] Instance about_node_dec n e : Decision (about_node n e).
Proof.
  unfold about_node. destruct (get_or _ _ _) as [| | |s| | | | |]; try (right; intros [_ ?]; discriminate).
  destruct (decide (s = n)), (decide (n = "")); [right|left|right|right]; naive_solver.
Defined.
Definition last_state (n : string) (start : string) (es : list RuntimeEvent) : string :=
  default start (last (omap (λ e, new_state (data e)) (filter (about_node n) es))).

(** Steps that lead a node from a state to another, each from where the last one
    ended. *)
Fixpoint chain (start finish : string) (l : list ReplayStep) : Prop :=
  match l with
  | [] => start = finish
  | s :: l' => sp_old s = start ∧ chain (sp_new s) finish l'
  end.

Lemma truthy_str v n : truthy v = true → as_str v = Ok n → v = VStr n ∧ n ≠ "".
Proof.
  destruct v; simpl; try done. intros Ht [= <-]. split; [done|]. intros ->. done.
Qed.

(** What a replay shows of a node: its final state is the one its last start,
    completion or failure among the events gives it, and its transitions lead
    there from the initial state without a gap. *)
Lemma replay_steps_spec es states states' hist n :
  replay_steps es states = Ok (states', hist) →
  default "Pending" (dget states' n) = last_state n (default "Pending" (dget states n)) es ∧
  chain (default "Pending" (dget states n)) (default "Pending" (dget states' n))
    (filter (λ s, sp_node_id s = n) hist).
Proof.
  revert states states' hist. induction es as [|e es IH]; intros states states' hist; simpl.
  { intros [= <- <-]. done. }
  destruct (truthy (get_or (event_metadata e) "node_id" VNone)) eqn:Ht.
  - destruct (as_str (get_or (event_metadata e) "node_id" VNone)) as [m|] eqn:Hs; simpl; [|done].
    destruct (truthy_str _ _ Ht Hs) as [Hv Hm].
    destruct (replay_steps es _) as [[fs h]|] eqn:Hr; simpl; [|done]. intros [= <- <-].
    destruct (IH _ _ _ Hr) as [Hfin Hch]. rewrite dget_dset in Hfin, Hch.
    unfold last_state. rewrite !filter_cons; simpl. destruct (decide (m = n)) as [->|Hne].
    + rewrite (decide_True (P := about_node n e)) by done. csimpl. simpl in Hfin, Hch.
      split; [|by split]. rewrite Hfin. unfold last_state. destruct (new_state (data e)); simpl; [|done].
      by destruct (last _) eqn:El; rewrite ?last_cons, El.
    + rewrite (decide_False (P := about_node n e)) by (intros [_ ?]; congruence). done.
  - intros Hr. destruct (IH _ _ _ Hr) as [Hfin Hch]. split; [|done]. rewrite Hfin.
    unfold last_state. rewrite filter_cons, decide_False; [done|]. intros [Hn Hv]. rewrite Hv in Ht.
    simpl in Ht. unfold str_truthy in Ht. destruct (String.eqb_spec n ""); done.
Qed.

(** The events a replay of an instance started at [ts] looks at: those of the
    instance among the first hundred since then. *)
Definition replayed (iid ts : string) (es : list RuntimeEvent) : list RuntimeEvent :=
  filter (of_instance iid) (take 100 (filter (λ e, String.leb ts (timestamp e) = true) es)).

(** A replay reads the events of its instance among the first hundred stored
    since the instance started, and nothing after them; from these the state and
    the transitions of every node follow. *)
Theorem replay_workflow_spec j d tbl iid ts nodes es rp n :
  loads j = VDict d → dget d "started_at" = Some (VStr ts) → ts ≠ "" →
  dget d "node_states" = Some (VDict nodes) → holds tbl es →
  replay_workflow (Some j) (Some tbl) iid = Ok rp →
  let seen := replayed iid ts es in
  rp_snapshot_status rp = get_or d "status" VNone ∧
  default "Pending" (dget (rp_node_states rp) n) = last_state n "Pending" seen ∧
  chain "Pending" (last_state n "Pending" seen) (filter (λ s, sp_node_id s = n) (rp_history rp)).
Proof.
  intros Hj Hs Hts Hn Hh. unfold replay_workflow. rewrite Hj. cbn [as_dict obind]. unfold get_or at 1 2 3.
  rewrite Hs, Hn. cbn [default from_option id]. 
  assert (truthy (VStr ts) = true) as -> by (simpl; unfold str_truthy; by destruct (String.eqb_spec ts "")).
  cbn [as_str as_dict obind]. rewrite (stream_from_holds tbl es ts default_limit 0 Hh). cbn [obind].
  unfold sql_window, default_limit. change (100 <? 0) with false. cbv iota.
  change (drop (Z.to_nat 0) ?l) with l. change (Z.to_nat 100) with 100%nat. fold (replayed iid ts es).
  destruct (replay_steps _ _) as [[fs h]|] eqn:Hr; cbn [obind]; [|done]. intros [= <-]. cbn [rp_snapshot_status rp_node_states rp_history fst snd].
  destruct (replay_steps_spec _ _ _ _ n Hr) as [Hfin Hch].
  assert (default "Pending" (dget (prod_map id (λ _, "Pending") <$> nodes) n) = "Pending") as Hp.
  { rewrite dget_fmap. by destruct (dget nodes n). }
  rewrite Hp in Hfin, Hch. rewrite Hfin in Hch. split_and!; [done..|exact Hch].
Qed.

(** The runtime's own start, completion and failure events carry no metadata
    (only [TaskSubmitted] gets the task's): replaying what it logs, every node
    stays Pending. *)
Theorem replay_sees_no_progress es states states' hist n :
  Forall (λ e, is_Some (new_state (data e)) → event_metadata e = []) es →
  replay_steps es states = Ok (states', hist) →
  default "Pending" (dget states' n) = default "Pending" (dget states n) ∧
  Forall (λ s, sp_old s = sp_new s) hist.
Proof.
  intros Hes. revert states states' hist. induction Hes as [|e es He Hes IH]; intros states states' hist; simpl.
  { intros [= <- <-]. done. }
  destruct (truthy (get_or (event_metadata e) "node_id" VNone)) eqn:Ht; [|apply IH].
  assert (new_state (data e) = None) as Hnew.
  { apply eq_None_not_Some. intros Hsome. by rewrite (He Hsome) in Ht. }
  rewrite Hnew. destruct (as_str _) as [m|]; simpl; [|done].
  destruct (replay_steps es _) as [[fs h]|] eqn:Hr; simpl; [|done]. intros [= <- <-].
  destruct (IH _ _ _ Hr) as [Hfin Hh]. split; [|by constructor].
  rewrite Hfin, dget_dset. by case_decide as Hm; [rewrite Hm|].
Qed.

(** * Examples *)
Section examples.
#[local] Existing Instance sample_oracle.

Definition plain_event (n : nat) (d : event_data) (m : odict pyval) : RuntimeEvent := {|
  event_id := nat_string n; runtime_id := "default-runtime"; correlation_id := None; causation_id := None;
  timestamp := now_iso n; event_type := class_name d; event_version := 1; event_metadata := m; data := d |}.
Definition node_meta : odict pyval := [("workflow_instance_id", VStr "wf"); ("node_id", VStr "a")].
Definition monitor_env : Env := {| env_tasks := ∅; env_tick := 0; env_store := None |}.
Definition no_parse (_ : string) : outcome Z := Raise (ValueError "Invalid isoformat string").

Lemma workflow_failures_unseen_witness :
  let es := [plain_event 1 SchedulerStarted []; plain_event 2 (TaskFailed "t" "boom") []] in
  ∃ r s', check_health no_parse (λ _, "0.0") (PInt 10) None (Ok tt) (monitor_after es, monitor_env) = (Ok r, s') ∧
    hr_workflow_failures r = 0.
Proof.
  intros es. eexists _, _. split; [vm_compute; reflexivity|].
  refine (proj1 (workflow_failures_unseen no_parse (λ _, "0.0") (λ _, "") es (PInt 10) None (Ok tt) monitor_env _ _
    ({| ae_rules := []; ae_alerts := [] |}, monitor_env) (PInt 0) _)).
  vm_compute. reflexivity.
Defined.

Lemma workers_collapse_witness :
  let es := [plain_event 1 (WorkerStarted "W-001") []; plain_event 2 (WorkerStarted "W-002") []] in
  dkeys (hm_workers (monitor_after es)) = ["default"] ∧
  ∀ w, w ∈ dkeys (hm_workers (monitor_after es)) → w = "default".
Proof. intros es. split; [reflexivity|]. apply (workers_collapse es). repeat constructor. Defined.

Lemma timeline_loses_errors_witness :
  te_message (timeline_entry (λ _, "unknown error") (plain_event 3 (TaskFailed "t" "division by zero") [])) =
    "Task 't' failed: unknown error.".
Proof. apply (timeline_loses_errors (λ _, "unknown error") _ "t" "division by zero"); reflexivity. Defined.

Definition replay_row : json := VDict
  [("started_at", VStr "2026-01-01T00:00:1"); ("node_states", VDict [("a", VStr "x")]); ("status", VStr "Running")].
Definition replay_log : list RuntimeEvent :=
  [plain_event 1 (TaskStarted "t") node_meta; plain_event 2 (TaskCompleted "t") node_meta].
Definition replay_table : EventTable := (append_batch 0 replay_log empty_table).2.
Lemma replay_table_holds : holds replay_table replay_log.
Proof.
  destruct (insert_events_holds replay_log empty_table [] holds_empty) as (t & Ht & Hh).
  - repeat constructor.
  - apply (bool_decide_unpack _). vm_compute. exact I.
  - assert (replay_table = t) as ->; [|exact Hh]. vm_compute in Ht. injection Ht as <-. vm_compute. reflexivity.
Qed.
Lemma replay_workflow_spec_witness : ∃ rp,
  replay_workflow (Some replay_row) (Some replay_table) "wf" = Ok rp ∧
  default "Pending" (dget (rp_node_states rp) "a") = "Succeeded" ∧
  map transition (rp_history rp) = ["Pending -> Running"; "Running -> Succeeded"].
Proof.
  eexists. split; [vm_compute; reflexivity|]. split; [|vm_compute; reflexivity].
  refine (eq_trans (proj1 (proj2 (replay_workflow_spec replay_row _ replay_table "wf" "2026-01-01T00:00:1" _
    replay_log _ "a" eq_refl eq_refl _ eq_refl replay_table_holds _))) _).
  - discriminate.
  - vm_compute. reflexivity.
  - vm_compute. reflexivity.
Defined.

Lemma replay_sees_no_progress_witness :
  let es := [plain_event 1 (TaskSubmitted "t" "x" "PYTHON") node_meta; plain_event 2 (TaskStarted "t") [];
             plain_event 3 (TaskFailed "t" "boom") []] in
  ∃ states hist, replay_steps es [("a", "Pending")] = Ok (states, hist) ∧
    default "Pending" (dget states "a") = "Pending" ∧ length hist = 1%nat.
Proof.
  intros es. eexists _, _. split; [vm_compute; reflexivity|]. split; [|reflexivity].
  refine (proj1 (replay_sees_no_progress es [("a", "Pending")] _ _ "a" _ _)).
  - repeat (constructor; [intros [? E]; first [reflexivity|discriminate E]|]). constructor.
  - vm_compute. reflexivity.
Defined.
End examples.
