(* ===== verification/EventBus.v ===== *)
(** [observability/bus.py] and [observability/integration.py]: the event bus, the
    event store behind it, and the subscriber that feeds metrics, spans and
    health from events. *)
From S2P Require Import Prelude PyNum Values Decode Events EventStore Tasks.
From S2P Require Import Metrics Tracing Monitoring.
Open Scope Z_scope.

(** * The bus *)

(** The set of subscribers, by identity; the order in which a set is iterated is
    that of the list, and no theorem depends on it. *)
Definition Bus : Type := list nat.
(** [subscribe], [unsubscribe] *)
Definition subscribe (i : nat) (b : Bus) : Bus := if decide (i ∈ b) then b else b ++ [i].
Definition unsubscribe (i : nat) (b : Bus) : Bus := filter (λ j, j ≠ i) b.

Section bus.
Context {S : Type} (deliver : nat → RuntimeEvent → M S unit).

(** [publish], [batch_publish] *)
Definition publish (b : Bus) (e : RuntimeEvent) : M S unit :=
  for_each b (λ i, swallow (deliver i e)).
Definition batch_publish (b : Bus) (es : list RuntimeEvent) : M S unit := for_each es (publish b).

(** A subscriber raises nothing but [Exception]s. *)
Definition contained : Prop := ∀ i e s x, (deliver i e s).1 = Raise x → isinstance x "Exception" = true.

Lemma swallow_run (m : M S unit) s :
  (∀ x, (m s).1 = Raise x → isinstance x "Exception" = true) → swallow m s = (Ok tt, (m s).2).
Proof.
  intros Hx. unfold swallow, catch. destruct (m s) as [[[]|x] s'] eqn:Hm; [done|].
  rewrite (Hx x eq_refl). done.
Qed.
Lemma bus_publish_run b e s :
  contained → publish b e s = (Ok tt, foldl (λ s i, (deliver i e s).2) s b).
Proof.
  intros Hc. unfold publish. revert s. induction b as [|i b IH]; intros s; simpl; [done|].
  unfold bind. rewrite swallow_run by (intros; by eapply Hc). apply IH.
Qed.

(** Publishing reaches everyone: each event goes to each subscriber exactly once,
    in the order of the events, whatever other subscribers raise, and publishing
    itself raises nothing. *)
Theorem publish_reaches_everyone b es s :
  contained →
  batch_publish b es s =
    (Ok tt, foldl (λ s ei, (deliver ei.2 ei.1 s).2) s (e ← es; (λ i, (e, i)) <$> b)).
Proof.
  intros Hc. unfold batch_publish. revert s. induction es as [|e es IH]; intros s; simpl; [done|].
  unfold bind. rewrite bus_publish_run by done. rewrite IH, foldl_app. f_equal. f_equal.
  clear IH. revert s. induction b as [|i b IHb]; intros s; csimpl; [done|]. apply IHb.
Qed.
End bus.

Lemma subscribe_NoDup i b : NoDup b → NoDup (subscribe i b).
Proof.
  intros Hb. unfold subscribe. case_decide; [done|]. apply NoDup_app. split_and!; [done| |apply NoDup_singleton].
  intros j Hj ->%list_elem_of_singleton. done.
Qed.
(** Subscribing twice is subscribing once, and unsubscribing undoes it. *)
Theorem subscribe_set i j b :
  NoDup b →
  NoDup (subscribe i b) ∧ (j ∈ subscribe i b ↔ j = i ∨ j ∈ b) ∧ subscribe i (subscribe i b) = subscribe i b ∧
  NoDup (unsubscribe i b) ∧ (j ∈ unsubscribe i b ↔ j ≠ i ∧ j ∈ b).
Proof.
  intros Hb. split_and!.
  - by apply subscribe_NoDup.
  - unfold subscribe. case_decide; set_solver.
  - unfold subscribe at 1. rewrite decide_True; [done|]. unfold subscribe. case_decide; set_solver.
  - by apply NoDup_filter.
  - unfold unsubscribe. rewrite list_elem_of_filter. done.
Qed.

(** * The event store behind the bus *)
Section proxy.
Context `{!Oracle}.

(** [EventStoreSubscriber.__call__] *)
Definition store_subscriber (e : RuntimeEvent) : M Env unit := λ v,
  match env_store v with
  | None => (Raise (AttributeError "append"), v)
  | Some tbl =>
      let '(o, tbl') := append (env_tick v) e tbl in (o, with_store (Some tbl') (next_tick v))
  end.
(** [EventStoreBusProxy]: writes go to the bus, reads to the store.  The bus of
    these theorems has the store as its only subscriber. *)
Definition proxy_append : RuntimeEvent → M Env unit := publish (λ _, store_subscriber) [0%nat].
Definition proxy_append_batch : list RuntimeEvent → M Env unit := batch_publish (λ _, store_subscriber) [0%nat].
Definition proxy_read {A} (name : string) (f : EventTable → outcome A) (v : Env) : outcome A :=
  match env_store v with Some t => f t | None => Raise (AttributeError name) end.
Definition proxy_load (eid : string) : Env → outcome (option RuntimeEvent) := proxy_read "load" (load eid).
Definition proxy_stream (limit offset : Z) : Env → outcome (list RuntimeEvent) :=
  proxy_read "stream" (stream limit offset).
Definition proxy_stream_from (ts : string) (limit offset : Z) : Env → outcome (list RuntimeEvent) :=
  proxy_read "stream_from" (stream_from ts limit offset).
Definition proxy_replay (rid : string) : Env → outcome (list RuntimeEvent) := proxy_read "replay" (replay rid).
Definition proxy_count : Env → outcome Z := proxy_read "count" (λ t, Ok (count t)).
Definition proxy_truncate : M Env unit := λ v,
  match env_store v with
  | Some t => (Ok tt, with_store (Some (truncate t)) v)
  | None => (Raise (AttributeError "truncate"), v)
  end.

(** The events whose id is not yet taken. *)
Fixpoint fresh_events (taken : list string) (es : list RuntimeEvent) : list RuntimeEvent :=
  match es with
  | [] => []
  | e :: es' =>
      if decide (event_id e ∈ taken) then fresh_events taken es'
      else e :: fresh_events (taken ++ [event_id e]) es'
  end.

Lemma store_subscriber_run e v tbl es :
  (∀ n, store_error n = None) → env_store v = Some tbl → holds tbl es → event_wf e →
  ∃ tbl', swallow (store_subscriber e) v = (Ok tt, with_store (Some tbl') (next_tick v)) ∧
    holds tbl' (es ++ fresh_events (map event_id es) [e]).
Proof.
  intros Hup Hs Hh Hwf. unfold swallow, catch, store_subscriber. rewrite Hs.
  unfold append, transaction. rewrite Hup. simpl. case_decide as Hin.
  - exists tbl. destruct (insert_event e tbl) as [t'|x] eqn:Hi.
    + exfalso. unfold insert_event in Hi. destruct (event_to_row_wf (next_sequence tbl) e Hwf) as [r Hr].
      rewrite Hr in Hi; simpl in Hi. rewrite (holds_ids tbl es Hh) in Hi. by rewrite decide_True in Hi.
    + assert (isinstance x "Exception" = true) as ->.
      { unfold insert_event in Hi. destruct (event_to_row_wf (next_sequence tbl) e Hwf) as [r Hr].
        rewrite Hr in Hi; simpl in Hi. rewrite (holds_ids tbl es Hh), decide_True in Hi by done.
        injection Hi as <-. done. }
      split; [done|]. by rewrite app_nil_r.
  - destruct (insert_event_holds tbl es e Hh Hwf) as (t' & -> & Ht'); [done|]. by exists t'.
Qed.

(** Behind the bus a batch is no longer one transaction: every event of the
    batch whose id is free is stored, the others are dropped without an
    exception, and the call succeeds; the store's own [append_batch] would have
    raised [IntegrityError] and stored none. *)
Theorem proxy_drops_duplicates es es' v tbl :
  (∀ n, store_error n = None) → env_store v = Some tbl → holds tbl es → Forall event_wf es' →
  ∃ v' tbl', proxy_append_batch es' v = (Ok tt, v') ∧ env_store v' = Some tbl' ∧
    holds tbl' (es ++ fresh_events (map event_id es) es') ∧ env_tasks v' = env_tasks v.
Proof.
  intros Hup Hs Hh Hwf. unfold proxy_append_batch, batch_publish. revert es v tbl Hs Hh.
  induction Hwf as [|e es' He Hwf IH]; intros es v tbl Hs Hh; simpl.
  { exists v, tbl. by rewrite app_nil_r. }
  destruct (store_subscriber_run e v tbl es Hup Hs Hh He) as (t1 & Hrun & Hh1).
  unfold bind at 1. unfold publish at 1; simpl. unfold bind at 1. rewrite Hrun; simpl.
  destruct (IH _ (with_store (Some t1) (next_tick v)) t1 eq_refl Hh1) as (v' & t' & Hr & Hs' & Hh' & Ht).
  exists v', t'. split_and!; [exact Hr|done| |done]. revert Hh'. simpl.
  case_decide; [by rewrite app_nil_r|]. by rewrite map_app, <-app_assoc.
Qed.

(** The proxy reads what was written through it: after an event with a free id
    is appended, [load] finds it, [stream] and [stream_from] end with it,
    [replay] gives it for its runtime, and [count] has grown by one; after
    [truncate] nothing is found. *)
Theorem proxy_reads_through e es v tbl limit offset ts :
  (∀ n, store_error n = None) → env_store v = Some tbl → holds tbl es → event_wf e → event_id e ∉ map event_id es →
  ∃ v', proxy_append e v = (Ok tt, v') ∧
    proxy_load (event_id e) v' = Ok (Some e) ∧
    proxy_stream limit offset v' = Ok (sql_window limit offset (es ++ [e])) ∧
    proxy_stream_from ts limit offset v' =
      Ok (sql_window limit offset (filter (λ e, String.leb ts (timestamp e) = true) (es ++ [e]))) ∧
    proxy_replay (runtime_id e) v' = Ok (filter (λ e', runtime_id e' = runtime_id e) es ++ [e]) ∧
    proxy_count v' = Ok (Z.of_nat (S (length es))) ∧
    ∃ v'', proxy_truncate v' = (Ok tt, v'') ∧ proxy_stream limit offset v'' = Ok (sql_window limit offset []).
Proof.
  intros Hup Hs Hh He Hn. destruct (store_subscriber_run e v tbl es Hup Hs Hh He) as (t1 & Hrun & Hh1).
  simpl in Hh1. rewrite decide_False in Hh1 by done.
  exists (with_store (Some t1) (next_tick v)).
  unfold proxy_load, proxy_stream, proxy_stream_from, proxy_replay, proxy_count, proxy_read. simpl. split_and!.
  - unfold proxy_append, publish. simpl. unfold bind. by rewrite Hrun.
  - rewrite (load_holds t1 (es ++ [e])), filter_app by done. do 2 f_equal.
    rewrite (filter_none _ es); [by rewrite filter_cons, decide_True|].
    apply Forall_forall. intros e' He' Heq. apply Hn. rewrite <-Heq. by apply list_elem_of_In, in_map, list_elem_of_In.
  - by apply stream_holds.
  - by apply stream_from_holds.
  - rewrite (replay_holds t1 (es ++ [e])), filter_app by done. by rewrite (filter_cons _ e []), decide_True.
  - unfold count. destruct Hh1 as [Hf _]. rewrite (Forall2_length _ _ _ Hf), length_app. simpl. do 2 f_equal. lia.
  - eexists. split; [done|]. simpl. apply stream_holds. split_and!; constructor.
Qed.
End proxy.

(** * The observability subscriber *)
Record Observed : Type := {
  ob_metrics : MetricsRegistry;
  ob_tracer : Tracer;
  ob_health : HealthMonitor;
  ob_active : odict string                       (** [_active_spans]: task id to span id *)
}.
Definition with_active (d : odict string) (o : Observed) : Observed :=
  {| ob_metrics := ob_metrics o; ob_tracer := ob_tracer o; ob_health := ob_health o; ob_active := d |}.
(** A part of the observed state next to the environment. *)
Definition metrics_part : lens (Observed * Env) (MetricsRegistry * Env) :=
  Lens (λ s, (ob_metrics s.1, s.2)) (λ t s, ({| ob_metrics := t.1; ob_tracer := ob_tracer s.1;
    ob_health := ob_health s.1; ob_active := ob_active s.1 |}, t.2)).
Definition tracer_part : lens (Observed * Env) (Tracer * Env) :=
  Lens (λ s, (ob_tracer s.1, s.2)) (λ t s, ({| ob_metrics := ob_metrics s.1; ob_tracer := t.1;
    ob_health := ob_health s.1; ob_active := ob_active s.1 |}, t.2)).
Definition health_part : lens (Observed * Env) HealthMonitor :=
  Lens (λ s, ob_health s.1) (λ h s, ({| ob_metrics := ob_metrics s.1; ob_tracer := ob_tracer s.1;
    ob_health := h; ob_active := ob_active s.1 |}, s.2)).

Section subscriber.
Context `{!Oracle} (from_iso : string → outcome Z).
Abbreviation OM A := (M (Observed * Env) A).

Definition count_event (name : string) (e : RuntimeEvent) : OM unit :=
  zoom metrics_part (increment name (PFloat (round_to_float 1 0)) [("runtime_id", runtime_id e)]).
(** [self._active_spans.pop(task_id, None)] and the [end_span] that follows *)
Definition close_span (th i : string) (metadata : odict pyval) : OM unit :=
  o <- self get ;;
  self (modify (λ o, with_active (ddel (ob_active o) i) o)) ;;;
  match opt_truthy (dget (ob_active o) i) with
  | Some sid => zoom tracer_part (end_span from_iso th sid metadata)
  | None => ret tt
  end.
(** [ObservabilitySubscriber.__call__], on the thread [th] that publishes; a
    [workflow_instance_id] is a string *)
Definition observe_event (th : string) (e : RuntimeEvent) : OM unit :=
  zoom health_part (on_event e) ;;;
  match data e with
  | TaskSubmitted _ _ _ => count_event "scheduler_tasks_submitted_total" e
  | TaskStarted i =>
      count_event "worker_tasks_started_total" e ;;;
      wf <- of_outcome (as_opt_str (get_or (event_metadata e) "workflow_instance_id" VNone)) ;;
      s <- zoom tracer_part (start_span th ("ExecuteTask:" +:+ i) None (correlation_id e) (causation_id e) wf) ;;
      self (modify (λ o, with_active (dset (ob_active o) i (span_id s)) o))
  | TaskCompleted i =>
      count_event "worker_tasks_completed_total" e ;;;
      close_span th i [("status", VStr "Succeeded"); ("result", get_or (event_metadata e) "result" VNone)]
  | TaskFailed i _ | TaskCancelled i | TaskTimedOut i =>
      count_event "worker_tasks_failed_total" e ;;;
      close_span th i [("status", VStr "Failed"); ("error", get_or (event_metadata e) "error" VNone)]
  | _ => ret tt
  end.

(** ** Correctness *)
Context `{!UuidLaws}.

(** An event as the runtime logs it: no metadata and no causal ids. *)
Definition logged (e : RuntimeEvent) (d : event_data) : Prop :=
  data e = d ∧ event_metadata e = [] ∧ correlation_id e = None ∧ causation_id e = None.

Lemma count_event_run name e o v : ∃ m,
  count_event name e (o, v) = (Ok tt, ({| ob_metrics := m; ob_tracer := ob_tracer o; ob_health := ob_health o;
    ob_active := ob_active o |}, next_tick v)).
Proof.
  unfold count_event, zoom at 1; simpl. unfold increment.
  match goal with |- context [record_point ?a ?b ?c ?d ?f ?g ?h ?s] =>
    pose proof (record_point_points a b c d f g h (ob_metrics o) v name "") as Hp;
    destruct (record_point a b c d f g h s) as [x [r' v']] end.
  destruct Hp as (-> & -> & _). by exists r'.
Qed.
Lemma on_event_quiet e h : (∃ i, data e = TaskStarted i ∨ data e = TaskCompleted i ∨ data e = TaskTimedOut i) →
  on_event e h = (Ok tt, h).
Proof. intros [i [E|[E|E]]]; unfold on_event; by rewrite E. Qed.

(** A start event, as seen by the tracer: a span that is active on its thread. *)
Lemma observe_started th e i o v :
  logged e (TaskStarted i) → tracer_wf (ob_tracer o) v → context_ok (context th (ob_tracer o)) →
  ∃ s o' v', observe_event th e (o, v) = (Ok tt, (o', v')) ∧ tracer_wf (ob_tracer o') v' ∧
    ob_active o' = dset (ob_active o) i (span_id s) ∧
    tc_spans (ob_tracer o') = dset (tc_spans (ob_tracer o)) (span_id s) s ∧
    dget (tc_spans (ob_tracer o)) (span_id s) = None ∧
    parent_span_id s = dget (context th (ob_tracer o)) "span_id" ∧
    (∀ tr, dget (context th (ob_tracer o)) "trace_id" = Some tr → trace_id s = tr) ∧
    str_truthy (span_id s) = true ∧ str_truthy (trace_id s) = true ∧ end_time s = None ∧
    (∀ th', th' ≠ th → context th' (ob_tracer o') = context th' (ob_tracer o)) ∧
    context th (ob_tracer o') =
      dset (dset (context th (ob_tracer o)) "trace_id" (trace_id s)) "span_id" (span_id s).
Proof.
  intros (Hd & Hm & Hco & Hca) Hwf Hc. unfold observe_event. unfold bind at 1, zoom at 1.
  rewrite on_event_quiet by (exists i; by left). cbn [lset health_part]. rewrite Hd.
  unfold bind at 1. destruct (count_event_run "worker_tasks_started_total" e
    {| ob_metrics := ob_metrics o; ob_tracer := ob_tracer o; ob_health := ob_health o; ob_active := ob_active o |} v)
    as [m Hcount]. cbn [fst snd lget health_part]. rewrite Hcount. rewrite Hm, Hco, Hca.
  unfold bind at 1, of_outcome at 1. cbn [as_opt_str get_or dget default from_option id].
  assert (tracer_wf (ob_tracer o) (next_tick v)) as Hwf' by (eapply wf_later; [done|simpl; lia]).
  destruct (start_span_run th ("ExecuteTask:" +:+ i) None None None None (ob_tracer o) (next_tick v) Hwf')
    as (s & t1 & v1 & Hrun & Hwf1 & Hv1 & Hid & Hend & Hpar & Htt & Htr & Hsp & Hcx).
  unfold bind at 1, zoom at 1. cbn [lget lset tracer_part fst snd ob_tracer]. rewrite Hrun.
  unfold zoom, modify. cbn [lget lset self_lens fst snd]. 
  eexists s, _, _. split; [reflexivity|]. cbn [ob_tracer ob_active with_active]. split_and!; try done.
  - rewrite Hid. eapply wf_fresh; [exact Hwf'|done].
  - intros tr Htr'. by apply Htr, context_trace.
  - rewrite Hid. apply uuid4_truthy.
  - intros th' Hth. unfold context. by rewrite Hcx, dget_dset_ne.
  - unfold context. by rewrite Hcx, dget_dset_eq.
Qed.

(** A completion or a time-out, on any thread, ends the task's span. *)
Lemma observe_ended th e i d o v s :
  logged e d → (d = TaskCompleted i ∨ d = TaskTimedOut i) → tracer_wf (ob_tracer o) v →
  dget (ob_active o) i = Some (span_id s) → str_truthy (span_id s) = true →
  dget (tc_spans (ob_tracer o)) (span_id s) = Some s →
  ∃ fin meta o' v', observe_event th e (o, v) = (Ok tt, (o', v')) ∧ tracer_wf (ob_tracer o') v' ∧
    ob_active o' = ddel (ob_active o) i ∧
    tc_spans (ob_tracer o') = dset (tc_spans (ob_tracer o)) (span_id s) (finished from_iso s fin meta) ∧
    dget meta "status" = Some (VStr (match d with TaskCompleted _ => "Succeeded" | _ => "Failed" end)) ∧
    tc_contexts (ob_tracer o') =
      dset (tc_contexts (ob_tracer o)) th (leave_span (span_id s) s (context th (ob_tracer o))).
Proof.
  intros (Hd & Hm & _) Hdd Hwf Hact Ht Hs. unfold observe_event. unfold bind at 1, zoom at 1.
  rewrite on_event_quiet by (exists i; rewrite Hd; destruct Hdd; auto).
  cbn [lset lget health_part fst snd]. rewrite Hd, Hm.
  assert (tracer_wf (ob_tracer o) (next_tick v)) as Hwf' by (eapply wf_later; [done|simpl; lia]).
  destruct Hdd as [-> | ->];
    match goal with |- context [count_event ?n e] => destruct (count_event_run n e
      {| ob_metrics := ob_metrics o; ob_tracer := ob_tracer o; ob_health := ob_health o;
         ob_active := ob_active o |} v) as [m Hcount] end;
    match goal with |- context [close_span th i ?md] =>
      destruct (end_span_run from_iso th (span_id s) md (ob_tracer o) (next_tick v) s Hwf' Hs)
        as (s' & t1 & v1 & Hrun & Hwf1 & Hv1 & -> & Hsp & Hcx); exists (now_iso (env_tick (next_tick v))), md end;
    unfold bind at 1; rewrite Hcount; unfold close_span, bind, zoom, get, modify;
    cbn [lget lset self_lens tracer_part fst snd ob_tracer ob_active with_active];
    rewrite Hact; cbn [opt_truthy]; rewrite Ht; cbn [lget lset tracer_part fst snd ob_tracer with_active];
    rewrite Hrun; (eexists _, _; split; [reflexivity|]); cbn [ob_tracer ob_active with_active];
    split_and!; done.
Qed.

(** A task that starts and completes on one thread leaves every thread's context
    as it was, no active span behind, and its own span ended. *)
Theorem task_span_closed th i e1 e2 o v :
  logged e1 (TaskStarted i) → logged e2 (TaskCompleted i) →
  tracer_wf (ob_tracer o) v → context_ok (context th (ob_tracer o)) → dget (ob_active o) i = None →
  ∃ o1 v1 o2 v2, observe_event th e1 (o, v) = (Ok tt, (o1, v1)) ∧ observe_event th e2 (o1, v1) = (Ok tt, (o2, v2)) ∧
    (∀ th', context th' (ob_tracer o2) = context th' (ob_tracer o)) ∧ ob_active o2 = ob_active o ∧
    ∃ sid s, dget (ob_active o1) i = Some sid ∧ dget (tc_spans (ob_tracer o2)) sid = Some s ∧ is_Some (end_time s).
Proof.
  intros He1 He2 Hwf Hc Hact.
  destruct (observe_started th e1 i o v He1 Hwf Hc)
    as (s & o1 & v1 & Hr1 & Hwf1 & Ha1 & Hsp1 & _ & Hpar & Htr & Hst & _ & _ & Hoth & Hcx1).
  destruct (observe_ended th e2 i (TaskCompleted i) o1 v1 s)
    as (fin & meta & o2 & v2 & Hr2 & Hwf2 & Ha2 & Hsp2 & _ & Hcx2); try done.
  { by left. } { by rewrite Ha1, dget_dset_eq. } { by rewrite Hsp1, dget_dset_eq. }
  exists o1, v1, o2, v2. split_and!; [done..| | |].
  - intros th'. unfold context at 1. rewrite Hcx2, dget_dset. case_decide as Hth.
    + subst th'. simpl. rewrite Hcx1. apply leave_after_enter; [done| |done].
      intros tr Htr'. apply Htr. destruct Hc as [Hc|(? & tr' & _ & Ht & _ & Htt)].
      * rewrite Hc in Htr'. done.
      * rewrite Ht. unfold or_get in Htr'; simpl in Htr'. rewrite Ht in Htr'. simpl in Htr'. rewrite Htt in Htr'. done.
    + fold (context th' (ob_tracer o1)). by apply Hoth.
  - rewrite Ha2, Ha1. apply dget_None in Hact. rewrite dset_fresh by done.
    clear -Hact. revert Hact. generalize (ob_active o). intros d. unfold dkeys.
    induction d as [|[k x] d IH]; csimpl; [by rewrite decide_True|].
    rewrite not_elem_of_cons. intros [? ?]. rewrite decide_False by done. by rewrite IH.
  - exists (span_id s), (finished from_iso s fin meta). rewrite Ha1, Hsp2, !dget_dset_eq.
    split_and!; [done..|by eexists].
Qed.

(** The time-out of a task is published by the time-out thread, which ends the
    span but cannot clean the worker's context: the next task the worker starts
    gets the timed-out task's ended span as its parent, and its trace. *)
Theorem timeout_pollutes_trace th th2 i j e1 e2 e3 o v :
  th ≠ th2 → logged e1 (TaskStarted i) → logged e2 (TaskTimedOut i) → logged e3 (TaskStarted j) →
  tracer_wf (ob_tracer o) v → context th (ob_tracer o) = [] →
  ∃ o1 v1 o2 v2 o3 v3 s1 s3,
    observe_event th e1 (o, v) = (Ok tt, (o1, v1)) ∧ observe_event th2 e2 (o1, v1) = (Ok tt, (o2, v2)) ∧
    observe_event th e3 (o2, v2) = (Ok tt, (o3, v3)) ∧
    dget (tc_spans (ob_tracer o2)) (span_id s1) = Some s1 ∧ is_Some (end_time s1) ∧
    dget (tc_spans (ob_tracer o3)) (span_id s3) = Some s3 ∧
    parent_span_id s3 = Some (span_id s1) ∧ trace_id s3 = trace_id s1.
Proof.
  intros Hth He1 He2 He3 Hwf Hc.
  destruct (observe_started th e1 i o v He1 Hwf)
    as (s & o1 & v1 & Hr1 & Hwf1 & Ha1 & Hsp1 & _ & _ & _ & Hst & Htt & _ & _ & Hcx1); [by left|].
  destruct (observe_ended th2 e2 i (TaskTimedOut i) o1 v1 s)
    as (fin & meta & o2 & v2 & Hr2 & Hwf2 & _ & Hsp2 & _ & Hcx2); try done.
  { by right. } { by rewrite Ha1, dget_dset_eq. } { by rewrite Hsp1, dget_dset_eq. }
  assert (context th (ob_tracer o2) = dset (dset (context th (ob_tracer o)) "trace_id" (trace_id s)) "span_id" (span_id s))
    as Hc2 by (unfold context at 1; by rewrite Hcx2, dget_dset_ne).
  assert (dget (context th (ob_tracer o2)) "span_id" = Some (span_id s) ∧
          dget (context th (ob_tracer o2)) "trace_id" = Some (trace_id s)) as [Hsid Htid].
  { rewrite Hc2. by rewrite dget_dset_eq, dget_dset_ne, dget_dset_eq. }
  destruct (observe_started th e3 j o2 v2 He3 Hwf2)
    as (s3 & o3 & v3 & Hr3 & _ & _ & Hsp3 & _ & Hpar3 & Htr3 & _).
  { right. by exists (span_id s), (trace_id s). }
  exists o1, v1, o2, v2, o3, v3, (finished from_iso s fin meta), s3.
  split_and!; [done..| | | | |].
  - simpl. by rewrite Hsp2, dget_dset_eq.
  - by eexists.
  - by rewrite Hsp3, dget_dset_eq.
  - by rewrite Hpar3, Hsid.
  - simpl. by apply Htr3.
Qed.
End subscriber.

(** * Examples *)
Section examples.
#[local] Existing Instance sample_oracle.
#[local] Existing Instance sample_uuids.

Definition sample_observed : Observed :=
  {| ob_metrics := []; ob_tracer := new_tracer; ob_health := new_health_monitor; ob_active := [] |}.

Lemma publish_reaches_everyone_witness :
  let deliver (i : nat) (e : RuntimeEvent) : M (list (nat * string)) unit :=
    modify (cons (i, event_id e)) ;;; if decide (i = 1%nat) then raise (ValueError "subscriber") else ret tt in
  let es := [plain_event 4 RuntimeStarted []; plain_event 5 RuntimeStopped []] in
  batch_publish deliver [0%nat; 1%nat; 2%nat] es [] =
    (Ok tt, [(2%nat, "5"); (1%nat, "5"); (0%nat, "5"); (2%nat, "4"); (1%nat, "4"); (0%nat, "4")]).
Proof.
  intros deliver es. rewrite (publish_reaches_everyone deliver [0%nat; 1%nat; 2%nat] es []); [reflexivity|].
  intros i e s x. unfold deliver, bind, modify. case_decide; simpl; [intros [= <-]; reflexivity|done].
Defined.

Lemma subscribe_set_witness :
  NoDup (subscribe 3 [1%nat; 3%nat]) ∧ (3%nat ∈ subscribe 3 [1%nat; 3%nat] ↔ 3%nat = 3%nat ∨ 3%nat ∈ [1%nat; 3%nat]) ∧
  subscribe 3 (subscribe 3 [1%nat; 3%nat]) = subscribe 3 [1%nat; 3%nat] ∧
  NoDup (unsubscribe 3 [1%nat; 3%nat]) ∧ (3%nat ∈ unsubscribe 3 [1%nat; 3%nat] ↔ 3%nat ≠ 3%nat ∧ 3%nat ∈ [1%nat; 3%nat]).
Proof. apply subscribe_set. apply (bool_decide_unpack _). vm_compute. exact I. Defined.

Definition proxied : Env := {| env_tasks := ∅; env_tick := 9; env_store := Some sample_table |}.
Lemma proxy_drops_duplicates_witness :
  ∃ v' tbl', proxy_append_batch [sample_event 3 (TaskStarted "a"); sample_event 4 (TaskCompleted "a")] proxied = (Ok tt, v') ∧
    env_store v' = Some tbl' ∧ holds tbl' (sample_batch ++ [sample_event 4 (TaskCompleted "a")]).
Proof.
  destruct (proxy_drops_duplicates sample_batch [sample_event 3 (TaskStarted "a"); sample_event 4 (TaskCompleted "a")]
    proxied sample_table) as (v' & tbl' & Hr & Hs & Hh & _).
  - reflexivity.
  - reflexivity.
  - exact sample_holds.
  - repeat constructor.
  - exists v', tbl'. split; [exact Hr|]. split; [exact Hs|exact Hh].
Defined.

Lemma task_span_closed_witness :
  ∃ o1 v1 o2 v2,
    observe_event no_iso "W-001" (sample_event 1 (TaskStarted "a")) (sample_observed, tracing_env) = (Ok tt, (o1, v1)) ∧
    observe_event no_iso "W-001" (sample_event 2 (TaskCompleted "a")) (o1, v1) = (Ok tt, (o2, v2)) ∧
    (∀ th', context th' (ob_tracer o2) = context th' (ob_tracer sample_observed)) ∧ ob_active o2 = [] ∧
    ∃ sid s, dget (ob_active o1) "a" = Some sid ∧ dget (tc_spans (ob_tracer o2)) sid = Some s ∧ is_Some (end_time s).
Proof.
  apply (task_span_closed no_iso "W-001" "a" (sample_event 1 (TaskStarted "a")) (sample_event 2 (TaskCompleted "a"))
    sample_observed tracing_env); try done.
  - exact new_tracer_wf.
  - by left.
Defined.

Lemma timeout_pollutes_trace_witness :
  ∃ o1 v1 o2 v2 o3 v3 s1 s3,
    observe_event no_iso "W-001" (sample_event 1 (TaskStarted "a")) (sample_observed, tracing_env) = (Ok tt, (o1, v1)) ∧
    observe_event no_iso "TimeoutManager" (sample_event 2 (TaskTimedOut "a")) (o1, v1) = (Ok tt, (o2, v2)) ∧
    observe_event no_iso "W-001" (sample_event 3 (TaskStarted "b")) (o2, v2) = (Ok tt, (o3, v3)) ∧
    dget (tc_spans (ob_tracer o2)) (span_id s1) = Some s1 ∧ is_Some (end_time s1) ∧
    dget (tc_spans (ob_tracer o3)) (span_id s3) = Some s3 ∧
    parent_span_id s3 = Some (span_id s1) ∧ trace_id s3 = trace_id s1.
Proof.
  apply (timeout_pollutes_trace no_iso "W-001" "TimeoutManager" "a" "b" (sample_event 1 (TaskStarted "a"))
    (sample_event 2 (TaskTimedOut "a")) (sample_event 3 (TaskStarted "b")) sample_observed tracing_env); try done.
  exact new_tracer_wf.
Defined.
End examples.
