(* ===== verification/Exporters.v ===== *)
(** [observability/exporters.py]: the JSON and CSV exporters, with the part of
    the standard library's [csv.writer] they use, and a reader of its format. *)
From S2P Require Import Prelude PyNum Values Decode Events EventStore Tasks.
From S2P Require Import Metrics Tracing Monitoring.
From Stdlib Require Import Ascii.
Open Scope Z_scope.

(** * [csv.writer] in its default dialect *)
Definition comma : ascii := ","%char.
Definition quote : ascii := "034"%char.
Definition carriage : ascii := "013"%char.
Definition newline : ascii := "010"%char.
Definition is_special (c : ascii) : bool :=
  Ascii.eqb c comma || Ascii.eqb c quote || Ascii.eqb c carriage || Ascii.eqb c newline.
Fixpoint has_special (s : string) : bool :=
  match s with EmptyString => false | String c s' => is_special c || has_special s' end.
(** quotes inside a field are doubled *)
Fixpoint doubled (s : string) : string :=
  match s with
  | EmptyString => EmptyString
  | String c s' => if Ascii.eqb c quote then String c (String c (doubled s')) else String c (doubled s')
  end.
Definition quoted (s : string) : string := String quote (doubled s +:+ String quote EmptyString).
Definition field_text (s : string) : string := if has_special s then quoted s else s.
Definition crlf : string := String carriage (String newline EmptyString).
(** [writerow]: a row of one empty field is quoted, so that it is no empty line *)
Definition writerow (row : list string) : string :=
  match row with
  | [EmptyString] => quoted EmptyString +:+ crlf
  | _ => String.concat "," (map field_text row) +:+ crlf
  end.
Definition csv_text (rows : list (list string)) : string := String.concat "" (map writerow rows).

(** * The exporters *)
Section exporters.
(** the text [csv] writes for a number, its [repr] *)
Context (num_text : num → string).

Definition opt_text (o : option string) : string := default "" o.

(** ** [CSVExporter] *)
Definition point_row (f : MetricFamily) (key : string) (pt : MetricPoint) : list string :=
  [mf_name f; mf_metric_type f; key; mp_timestamp pt; num_text (mp_value pt)].
Definition metric_rows (families : list MetricFamily) : list (list string) :=
  f ← families; km ← mf_metrics f; point_row f km.1 <$> mt_points km.2.
Definition csv_export_metrics (families : list MetricFamily) : string :=
  csv_text (["FamilyName"; "MetricType"; "MetricKey"; "Timestamp"; "Value"] :: metric_rows families).
Definition span_row (s : Span) : list string :=
  [span_id s; trace_id s; span_name s; start_time s; opt_text (end_time s); opt_text (parent_span_id s)].
Definition csv_export_spans (spans : list Span) : string :=
  csv_text (["SpanID"; "TraceID"; "Name"; "StartTime"; "EndTime"; "ParentSpanID"] :: map span_row spans).
Definition alert_row (a : Alert) : list string :=
  [al_rule_name a; al_severity a; al_message a; al_timestamp a].
Definition csv_export_alerts (alerts : list Alert) : string :=
  csv_text (["RuleName"; "Severity"; "Message"; "Timestamp"] :: map alert_row alerts).

(** ** [JSONExporter] *)
Definition str_dict (d : odict string) : pyval := VDict (map (λ kv, (kv.1, VStr kv.2)) d).
Definition point_to_dict (p : MetricPoint) : odict pyval :=
  [("value", VNum (mp_value p)); ("timestamp", VStr (mp_timestamp p)); ("labels", str_dict (mp_labels p))].
(** [asdict(metric)] *)
Definition metric_to_dict (m : Metric) : odict pyval :=
  [("name", VStr (mt_name m)); ("points", VList (map (λ p, VDict (point_to_dict p)) (mt_points m)))] ++
  match mt_class m with Histogram buckets => [("buckets", VList (map VNum buckets))] | _ => [] end ++
  [("version", VStr "1.0.0")].
(** [MetricFamily.to_dict] *)
Definition family_to_dict (f : MetricFamily) : odict pyval :=
  [("name", VStr (mf_name f)); ("help_text", VStr (mf_help_text f)); ("metric_type", VStr (mf_metric_type f));
   ("metrics", VDict (map (λ km, (km.1, VDict (metric_to_dict km.2))) (mf_metrics f)));
   ("version", VStr "1.0.0")].
(** [Alert.to_dict], [Alert.from_dict]: no code gives an alert metadata or a
    version of its own *)
Definition alert_to_dict (a : Alert) : odict pyval :=
  [("rule_name", VStr (al_rule_name a)); ("message", VStr (al_message a)); ("severity", VStr (al_severity a));
   ("timestamp", VStr (al_timestamp a)); ("metadata", VDict []); ("version", VStr "1.0.0")].
Definition alert_from_dict (d : odict pyval) : outcome Alert :=
  let? r := req_str d "rule_name" in let? m := req_str d "message" in
  let? s := req_str d "severity" in let? t := req_str d "timestamp" in
  Ok {| al_rule_name := r; al_message := m; al_severity := s; al_timestamp := t |}.

Definition json_export_metrics (families : list MetricFamily) : outcome json :=
  dumps (VList (map (λ f, VDict (family_to_dict f)) families)).
Definition json_export_spans (spans : list Span) : outcome json :=
  dumps (VList (map (λ s, VDict (span_to_dict s)) spans)).
Definition json_export_alerts (alerts : list Alert) : outcome json :=
  dumps (VList (map (λ a, VDict (alert_to_dict a)) alerts)).
End exporters.

(** * Reading CSV back

    A reader of the format, character by character: the state tells whether the
    current field is at its start, plain, inside quotes, just after a quote that
    may close it, or whether a line end has begun. *)
Inductive csv_state : Type := Start | Plain | Quoted | Closing | LineEnd.
Fixpoint csv_scan (s : string) (st : csv_state) (field : string) (row : list string) (rows : list (list string)) :
    option (list (list string)) :=
  let add c := field +:+ String c EmptyString in
  let row' := row ++ [field] in
  match s with
  | EmptyString => if st is Start then if decide (row = []) then Some rows else None else None
  | String c s' =>
      match st with
      | Quoted =>
          if Ascii.eqb c quote then csv_scan s' Closing field row rows else csv_scan s' Quoted (add c) row rows
      | LineEnd => if Ascii.eqb c newline then csv_scan s' Start "" [] (rows ++ [row]) else None
      | _ =>
          if Ascii.eqb c comma then csv_scan s' Start "" row' rows
          else if Ascii.eqb c carriage then csv_scan s' LineEnd "" row' rows
          else if Ascii.eqb c quote then
            match st with
            | Start => csv_scan s' Quoted "" row rows
            | Closing => csv_scan s' Quoted (add c) row rows
            | _ => None
            end
          else match st with Closing => None | _ => csv_scan s' Plain (add c) row rows end
      end
  end.
Definition csv_read (s : string) : option (list (list string)) := csv_scan s Start "" [] [].

Lemma str_app_assoc (a b c : string) : (a +:+ b) +:+ c = a +:+ (b +:+ c).
Proof. induction a as [|x a IH]; [done|]. change (String x ((a +:+ b) +:+ c) = String x (a +:+ (b +:+ c))). by rewrite IH. Qed.
Lemma str_app_nil (a : string) : a +:+ "" = a.
Proof. induction a as [|x a IH]; [done|]. change (String x (a +:+ "") = String x a). by rewrite IH. Qed.
Lemma str_cons_app c (a b : string) : String c a +:+ b = String c (a +:+ b).
Proof. done. Qed.

Lemma scan_quoted s field rest row rows :
  csv_scan (doubled s +:+ String quote rest) Quoted field row rows =
  csv_scan rest Closing (field +:+ s) row rows.
Proof.
  revert field. induction s as [|c s IH]; intros field; [simpl; by rewrite str_app_nil|].
  cbn [doubled]. destruct (Ascii.eqb_spec c quote) as [->|Hc]; rewrite !str_cons_app.
  - cbn [csv_scan]. rewrite Ascii.eqb_refl. cbn. rewrite IH. by rewrite str_app_assoc.
  - cbn [csv_scan]. apply Ascii.eqb_neq in Hc as ->. rewrite IH. by rewrite str_app_assoc.
Qed.

Lemma special_cases c : is_special c = false →
  Ascii.eqb c comma = false ∧ Ascii.eqb c carriage = false ∧ Ascii.eqb c quote = false.
Proof. unfold is_special. intros [[[??]%orb_false_iff ?]%orb_false_iff _]%orb_false_iff. done. Qed.

Lemma scan_plain s st field rest row rows :
  (st = Start ∨ st = Plain) → has_special s = false →
  csv_scan (s +:+ rest) st field row rows =
  csv_scan rest (match s with EmptyString => st | _ => Plain end) (field +:+ s) row rows.
Proof.
  revert st field. induction s as [|c s IH]; intros st field Hst Hs; [by rewrite str_app_nil|].
  cbn [has_special] in Hs. apply orb_false_iff in Hs as [(H1 & H2 & H3)%special_cases Hs].
  rewrite str_cons_app. cbn [csv_scan]. rewrite H1, H2, H3.
  assert (Hp : csv_scan (s +:+ rest) Plain (field +:+ String c "") row rows =
               csv_scan rest Plain (field +:+ String c s) row rows).
  { rewrite IH by tauto. rewrite str_app_assoc. by destruct s. }
  by destruct Hst as [-> | ->].
Qed.

(** A field and what ends it. *)
Lemma scan_field f d rest row rows :
  d = comma ∨ d = carriage →
  csv_scan (field_text f +:+ String d rest) Start "" row rows =
  csv_scan rest (if Ascii.eqb d comma then Start else LineEnd) "" (row ++ [f]) rows.
Proof.
  intros Hd. unfold field_text. destruct (has_special f) eqn:Hf.
  - unfold quoted. rewrite str_cons_app. cbn [csv_scan]. rewrite Ascii.eqb_refl. cbn.
    rewrite str_app_assoc. rewrite str_cons_app. rewrite scan_quoted. destruct Hd as [-> | ->]; done.
  - rewrite (scan_plain f Start) by auto. destruct f as [|c f]; destruct Hd as [-> | ->]; done.
Qed.

Lemma scan_fields f fs rest row rows :
  csv_scan (String.concat "," (map field_text (f :: fs)) +:+ crlf +:+ rest) Start "" row rows =
  csv_scan rest Start "" [] (rows ++ [row ++ f :: fs]).
Proof.
  revert f row. induction fs as [|g fs IH]; intros f row.
  - cbn [map String.concat]. unfold crlf. rewrite str_cons_app. rewrite scan_field by auto. done.
  - change (String.concat "," (map field_text (f :: g :: fs))) with
      (field_text f +:+ String comma (String.concat "," (map field_text (g :: fs)))).
    rewrite str_app_assoc, str_cons_app, scan_field by auto. rewrite Ascii.eqb_refl. cbv iota.
    rewrite IH. by rewrite <-app_assoc.
Qed.

Lemma scan_row row rest rows :
  row ≠ [] → csv_scan (writerow row +:+ rest) Start "" [] rows = csv_scan rest Start "" [] (rows ++ [row]).
Proof.
  intros Hne. destruct row as [|f fs]; [done|]. unfold writerow.
  destruct f as [|c f], fs as [|g fs]; [done|..]; rewrite str_app_assoc; apply scan_fields.
Qed.

(** What [csv.writer] writes is read back exactly, whatever the fields contain. *)
Theorem csv_roundtrip rows :
  Forall (λ row, row ≠ []) rows → csv_read (csv_text rows) = Some rows.
Proof.
  intros Hrows. unfold csv_read, csv_text.
  assert (∀ before, csv_scan (String.concat "" (map writerow rows)) Start "" [] before = Some (before ++ rows)) as H.
  { induction Hrows as [|row rows Hrow Hrows IH]; intros before.
    - simpl. by rewrite app_nil_r.
    - assert (String.concat "" (map writerow (row :: rows)) =
              writerow row +:+ String.concat "" (map writerow rows)) as ->.
      { destruct rows; simpl; [by rewrite str_app_nil|done]. }
      rewrite scan_row by done. rewrite IH. by rewrite <-app_assoc. }
  apply H.
Qed.

Section exported.
Context (num_text : num → string).

(** A field of a row that is read, found by its heading. *)
Definition cell (heading row : list string) (column : string) : option string := dget (zip heading row) column.
(** A text reads as a table with these columns, whose rows are the items in
    order. *)
Definition reads_as {A} (text : string) (items : list A) (columns : odict (A → string)) : Prop :=
  ∃ heading rows, csv_read text = Some (heading :: rows) ∧ heading = dkeys columns ∧
    Forall (λ row, length row = length heading) rows ∧
    ∀ c g, dget columns c = Some g → (λ row, cell heading row c) <$> rows = Some ∘ g <$> items.

Lemma reads_rows {A} (columns : odict (A → string)) (to_row : A → list string) items :
  columns ≠ [] → (∀ x, to_row x = (λ cg, cg.2 x) <$> columns) →
  reads_as (csv_text (dkeys columns :: (to_row <$> items))) items columns.
Proof.
  intros Hne Hrow. exists (dkeys columns), (to_row <$> items). split_and!; [|done| |].
  - apply csv_roundtrip. constructor; [by destruct columns as [|[]]|].
    apply Forall_fmap, Forall_true. intros x. simpl. rewrite Hrow. by destruct columns.
  - apply Forall_fmap, Forall_true. intros x. simpl. rewrite Hrow. unfold dkeys. by rewrite !length_fmap.
  - intros c g Hg. rewrite <-list_fmap_compose. apply list_fmap_ext. intros _ x _. simpl. rewrite Hrow.
    unfold cell, dkeys. clear Hne Hrow. revert Hg. induction columns as [|[c' g'] columns IH]; csimpl; [done|].
    case_decide; [by intros [= <-]|done].
Qed.

(** The data points of families, each with its family and its series' key. *)
Definition data_points (families : list MetricFamily) : list (MetricFamily * string * MetricPoint) :=
  f ← families; km ← mf_metrics f; pt ← mt_points km.2; [(f, km.1, pt)].
Lemma metric_rows_points families :
  metric_rows num_text families = (λ x, point_row num_text x.1.1 x.1.2 x.2) <$> data_points families.
Proof.
  unfold metric_rows, data_points. induction families as [|f families IH]; csimpl; [done|].
  rewrite fmap_app, <-IH. f_equal. induction (mf_metrics f) as [|km ms IHm]; csimpl; [done|].
  rewrite fmap_app, <-IHm. f_equal. induction (mt_points km.2) as [|pt pts IHp]; csimpl; [done|]. by rewrite <-IHp.
Qed.

(** C40: The CSV exports can be read back, whatever the texts contain: under each
    heading there is that field of every span, alert or data point, in order,
    and there are no other rows and no other columns; a missing end time or
    parent reads as the empty text. *)
Theorem csv_exports_readable spans alerts families :
  reads_as (csv_export_spans spans) spans
    [("SpanID", span_id); ("TraceID", trace_id); ("Name", span_name); ("StartTime", start_time);
     ("EndTime", λ s, default "" (end_time s)); ("ParentSpanID", λ s, default "" (parent_span_id s))] ∧
  reads_as (csv_export_alerts alerts) alerts
    [("RuleName", al_rule_name); ("Severity", al_severity); ("Message", al_message); ("Timestamp", al_timestamp)] ∧
  reads_as (csv_export_metrics num_text families) (data_points families)
    [("FamilyName", λ x, mf_name x.1.1); ("MetricType", λ x, mf_metric_type x.1.1); ("MetricKey", λ x, x.1.2);
     ("Timestamp", λ x, mp_timestamp x.2); ("Value", λ x, num_text (mp_value x.2))].
Proof.
  split_and!.
  - by eapply (reads_rows [("SpanID", _); ("TraceID", _); ("Name", _); ("StartTime", _); ("EndTime", _);
      ("ParentSpanID", _)] span_row).
  - by eapply (reads_rows [("RuleName", _); ("Severity", _); ("Message", _); ("Timestamp", _)] alert_row).
  - unfold csv_export_metrics. rewrite metric_rows_points.
    by eapply (reads_rows [("FamilyName", _); ("MetricType", _); ("MetricKey", _); ("Timestamp", _); ("Value", _)]).
Qed.

Lemma alert_roundtrip a :
  alert_from_dict (alert_to_dict a) = Ok a ∧ json_ok (VDict (alert_to_dict a)) = true.
Proof. split; [|done]. unfold alert_from_dict, alert_to_dict. read_dict. by destruct a. Qed.

Lemma family_json f : json_ok (VDict (family_to_dict f)) = true.
Proof.
  assert (∀ p, json_ok (VDict (point_to_dict p)) = true) as Hp.
  { intros p. unfold point_to_dict, str_dict. rewrite !json_dict_cons, json_dict_nil.
    rewrite json_dict_map. change (forallb (λ _, true) (mp_labels p) && true = true).
    rewrite andb_true_r. apply forallb_Forall_true, Forall_true. done. }
  assert (∀ m, json_ok (VDict (metric_to_dict m)) = true) as Hm.
  { intros m. unfold metric_to_dict. cbn [app]. rewrite !json_dict_cons.
    replace (json_ok (VList (map (λ p, VDict (point_to_dict p)) (mt_points m)))) with true.
    2:{ symmetry. apply forallb_Forall_true, Forall_map, Forall_true. done. }
    destruct (mt_class m); cbn [app]; rewrite !json_dict_cons; [done..|].
    replace (json_ok (VList (map VNum buckets))) with true; [done|].
    symmetry. apply forallb_Forall_true, Forall_map, Forall_true. done. }
  unfold family_to_dict. rewrite !json_dict_cons.
  rewrite (json_dict_map (λ m, VDict (metric_to_dict m))).
  rewrite (proj2 (forallb_Forall_true _ (mf_metrics f))); [done|]. apply Forall_true. intros km. apply Hm.
Qed.

(** The JSON exports of spans and alerts are lossless: they never fail on JSON
    metadata, and reading them back gives the same spans and alerts.  Metrics
    can always be exported. *)
Theorem json_exports_lossless spans alerts families :
  Forall (λ s, json_ok (VDict (span_metadata s)) = true) spans →
  (∃ j l, json_export_spans spans = Ok j ∧ loads j = VList l ∧
     omapM (λ v, let? d := as_dict v in span_from_dict d) l = Ok spans) ∧
  (∃ j l, json_export_alerts alerts = Ok j ∧ loads j = VList l ∧
     omapM (λ v, let? d := as_dict v in alert_from_dict d) l = Ok alerts) ∧
  ∃ j, json_export_metrics families = Ok j.
Proof.
  intros Hs. unfold json_export_spans, json_export_alerts, json_export_metrics, dumps.
  assert (∀ {A} (f : A → odict pyval) l, Forall (λ x, json_ok (VDict (f x)) = true) l →
            json_ok (VList (map (λ x, VDict (f x)) l)) = true) as Hlist.
  { intros A f l Hl. apply forallb_Forall_true, Forall_map. done. }
  rewrite !Hlist.
  - split_and!; [eexists _, _; split_and!; [done..|]|eexists _, _; split_and!; [done..|]|by eexists].
    + apply omapM_Ok. eapply Forall_impl; [exact Hs|]. intros s H. cbn [as_dict obind]. by apply span_roundtrip.
    + apply omapM_Ok, Forall_true. intros a. cbn [as_dict obind]. apply alert_roundtrip.
  - apply Forall_true, family_json.
  - apply Forall_true. intros a. apply alert_roundtrip.
  - eapply Forall_impl; [exact Hs|]. intros s H. by apply span_roundtrip.
Qed.
End exported.

(** * Examples *)
Definition awkward_rows : list (list string) :=
  [["a,b"; String quote "q"; ""]; [""]; ["x" +:+ crlf +:+ "y"; "plain"]].
Lemma csv_roundtrip_witness : csv_read (csv_text awkward_rows) = Some awkward_rows.
Proof. apply (csv_roundtrip awkward_rows). repeat constructor; discriminate. Defined.

Definition exported_span : Span := {|
  span_id := "1"; trace_id := "t"; span_name := "a,b"; start_time := "2026-01-01"; end_time := None;
  parent_span_id := None; span_metadata := [("status", VStr "Succeeded")] |}.
Lemma json_exports_lossless_witness :
  ∃ j l, json_export_spans [exported_span] = Ok j ∧ loads j = VList l ∧
    omapM (λ v, let? d := as_dict v in span_from_dict d) l = Ok [exported_span].
Proof. apply (json_exports_lossless [exported_span] [] []). repeat constructor. Defined.
