(* ===== verification/Diagnostics.v ===== *)
(** [observability/diagnostics.py]: the summaries read off the database, and
    what they say after a save; and the queue alert, which is raised on them. *)
From S2P Require Import Prelude PyNum Values Decode Events EventStore Transactions RuntimeState Tasks.
From S2P Require Import WorkflowModels Orchestrator Monitoring.
Open Scope Z_scope.

(** * The database, as another connection reads it: what is committed *)
Record Database : Type := {
  db_state : StateTables;
  db_events : EventTable;
  db_workflows : WfTables
}.
Definition row_text (r : row) (col : string) : option string :=
  match dget r col with Some (VStr s) => Some s | _ => None end.
(** the [status] column, which the orchestrator writes next to the JSON text of
    the same instance *)
Definition instance_status (j : json) : option string :=
  match loads j with VDict d => row_text d "status" | _ => None end.

(** * [DiagnosticsService] *)

(** [SELECT COUNT] with a condition on [status] *)
Definition count_status (st : string) (t : odict row) : Z :=
  Z.of_nat (length (filter (λ r, row_text r "status" = Some st) (dvals t))).

(** [_get_runtime_summary] *)
Definition get_runtime_summary (db : Database) : Z := count (db_events db).
(** [_get_workflow_summary]: the groups, by status *)
Definition get_workflow_summary (db : Database) : gmap string Z :=
  let add st (m : gmap string Z) := <[st := default 0 (m !! st) + 1]> m in
  foldr add ∅ (omap instance_status (map_to_list (instance_rows (db_workflows db))).*2).
(** [_get_scheduler_summary], [_get_executor_summary] *)
Definition get_scheduler_summary (db : Database) : Z := count_status "Pending" (tasks_table (db_state db)).
Definition get_executor_summary (db : Database) : Z := count_status "Completed" (tasks_table (db_state db)).

(** [len(ids)] of a JSON value *)
Definition py_len (v : pyval) : outcome Z :=
  match v with
  | VList l => Ok (Z.of_nat (length l))
  | VDict d => Ok (Z.of_nat (length d))
  | VStr s => Ok (Z.of_nat (String.length s))
  | _ => Raise (TypeError "object has no len()")
  end.
(** [_get_queue_summary] *)
Definition get_queue_summary (db : Database) : Z * pyval :=
  match queue_state_row (db_state db) with
  | None => (0, VList [])
  | Some r =>
      let ids := loads (get_or r "queued_task_ids" VNone) in
      match py_len ids with Ok n => (n, ids) | Raise _ => (0, VList []) end
  end.
(** [_get_worker_summary]: the count, and [dict] of the (id, state) rows *)
Definition get_worker_summary (db : Database) : Z * odict string :=
  let t := workers_table (db_state db) in
  (Z.of_nat (length t),
   foldl (λ d r, match row_text r "worker_id", row_text r "state" with
                 | Some i, Some st => dset d i st
                 | _, _ => d
                 end) [] (dvals t)).
(** [_get_persistence_summary] *)
Definition get_persistence_summary (db : Database) : Z :=
  Z.of_nat (length (snapshots_table (db_state db))).

(** [get_diagnostics_summary] *)
Record Diagnostics : Type := {
  dg_events_stored_total : Z;
  dg_instances_by_status : gmap string Z;
  dg_pending_tasks_count : Z;
  dg_queue : Z * pyval;
  dg_completed_tasks_total : Z;
  dg_workers : Z * odict string;
  dg_snapshots_stored_total : Z
}.
Definition get_diagnostics_summary (db : Database) : Diagnostics := {|
  dg_events_stored_total := get_runtime_summary db;
  dg_instances_by_status := get_workflow_summary db;
  dg_pending_tasks_count := get_scheduler_summary db;
  dg_queue := get_queue_summary db;
  dg_completed_tasks_total := get_executor_summary db;
  dg_workers := get_worker_summary db;
  dg_snapshots_stored_total := get_persistence_summary db |}.

(** * What they say *)

(** A table saved row by row, with distinct keys, holds the rows in order. *)
Lemma save_all_rows {A} (key : A → string) (to_row : A → outcome row) l tbl tbl' :
  save_all (λ x t, let? r := to_row x in Ok (replace_row (key x) r t)) l tbl = Ok tbl' →
  NoDup (dkeys tbl ++ map key l) →
  ∃ rs, dvals tbl' = dvals tbl ++ rs ∧ Forall2 (λ x r, to_row x = Ok r) l rs.
Proof.
  revert tbl. induction l as [|x l IH]; intros tbl; simpl.
  { intros [= ->] _. exists []. by rewrite app_nil_r. }
  destruct (to_row x) as [r|] eqn:Hr; cbn [obind]; [|done]. intros Hs Hnd.
  assert (Hx : key x ∉ dkeys tbl).
  { intros Hin. apply NoDup_app in Hnd as (_ & Hd & _). apply (Hd _ Hin). by left. }
  rewrite replace_row_fresh in Hs by done.
  destruct (IH _ Hs) as (rs & Heq & Hrs).
  { unfold dkeys in *. by rewrite fmap_app, <-app_assoc. }
  exists (r :: rs). split; [|by constructor]. rewrite Heq. unfold dvals. by rewrite fmap_app, <-app_assoc.
Qed.

Lemma count_column {A} (f : A → string) (l : list A) rs st :
  Forall2 (λ x r, row_text r "status" = Some (f x)) l rs →
  length (filter (λ r, row_text r "status" = Some st) rs) = length (filter (λ x, f x = st) l).
Proof.
  induction 1 as [|x r l rs Hr _ IH]; [done|]. rewrite !filter_cons, Hr.
  destruct (decide (f x = st)) as [->|Hne]; [rewrite decide_True by done; simpl; by rewrite IH|].
  rewrite decide_False by congruence. done.
Qed.

Section saved.
Context `{!Oracle}.

(** What a successful save leaves in the tables. *)
Lemma save_runtime_state_tables n s c c' :
  save_runtime_state n s c = (Ok tt, c') →
  let t := Tx.committed c in let t' := Tx.committed c' in
  save_all save_task (dvals (rs_tasks s)) [] = Ok (tasks_table t') ∧
  save_all save_worker (dvals (rs_workers s)) [] = Ok (workers_table t') ∧
  (∃ r, queue_state_row t' = Some r ∧ queue_to_row (rs_queue s) = Ok r) ∧
  snapshots_table t' = snapshots_table t.
Proof.
  intros [(t' & _ & _ & Ht & _ & ->)|[(x & [=] & _)|(? & x & [=] & _)]]%store_transaction_cases t t1.
  unfold t1; simpl; clear t1. revert Ht. unfold save_tables, t.
  destruct (save_all save_task _ []) as [tt'|]; cbn [obind]; [|done].
  destruct (save_all save_worker _ []) as [wt'|]; cbn [obind]; [|done].
  destruct (queue_to_row _) as [qr|]; cbn [obind]; [|done].
  destruct (scheduler_to_row _ _) as [sr|]; cbn [obind]; [|done].
  intros [= <-]. split_and!; [done..| |done]. by exists qr.
Qed.

Lemma task_to_row_status x r : task_to_row x = Ok r → row_text r "status" = Some (ts_status x).
Proof. unfold task_to_row. intros Hr. ok_cases Hr. by injection Hr as <-. Qed.
Lemma worker_to_row_texts x r : worker_to_row x = Ok r →
  row_text r "worker_id" = Some (ws_worker_id x) ∧ row_text r "state" = Some (ws_state x).
Proof. unfold worker_to_row. intros Hr. ok_cases Hr. by injection Hr as <-. Qed.

Lemma count_saved ts st t :
  save_all save_task (dvals ts) [] = Ok t → dwf ts → Forall (λ kv, ts_task_id kv.2 = kv.1) ts →
  count_status st t = Z.of_nat (length (filter (λ x, ts_status x = st) (dvals ts))).
Proof.
  intros Hs Hwf Hid. unfold count_status. f_equal.
  destruct (save_all_rows ts_task_id task_to_row _ _ _ Hs) as (rs & -> & Hrs); [by apply keyed_keys|].
  apply (count_column ts_status). eapply Forall2_impl; [exact Hrs|]. apply task_to_row_status.
Qed.

(** The states of the workers, by id. *)
Lemma worker_rows_states (ws d : odict WorkerStateSnapshot) rs (acc : odict string) :
  Forall2 (λ x r, worker_to_row x = Ok r) (dvals ws) rs →
  Forall (λ kv, ws_worker_id kv.2 = kv.1) ws → NoDup (dkeys acc ++ dkeys ws) →
  foldl (λ d r, match row_text r "worker_id", row_text r "state" with
                | Some i, Some st => dset d i st
                | _, _ => d
                end) acc rs = acc ++ map (λ kv, (kv.1, ws_state kv.2)) ws.
Proof.
  intros Hrs Hid. revert acc rs Hrs. induction Hid as [|[k x] ws Hx _ IH]; intros acc rs Hrs Hnd.
  - apply Forall2_nil_inv_l in Hrs as ->. by rewrite app_nil_r.
  - csimpl in Hrs. apply Forall2_cons_inv_l in Hrs as (r & rs' & Hr & Hrs & ->).
    destruct (worker_to_row_texts _ _ Hr) as [Hi Hst]. simpl in *. rewrite Hi, Hst. subst k.
    rewrite dset_fresh.
    + rewrite (IH _ _ Hrs); [by rewrite <-app_assoc|]. unfold dkeys in *. by rewrite fmap_app, <-app_assoc.
    + intros Hin. apply NoDup_app in Hnd as (_ & Hd & _). apply (Hd _ Hin). by left.
Qed.

(** After a save the diagnostics count what was saved: the tasks by status, the
    ids in the queue, and every worker with its state; snapshots, events and
    workflow instances are as they were. *)
Theorem diagnostics_after_save n s c c' ev wf :
  state_keyed s → save_runtime_state n s c = (Ok tt, c') →
  let t := Tx.committed c in let t' := Tx.committed c' in
  let before := get_diagnostics_summary {| db_state := t; db_events := ev; db_workflows := wf |} in
  let g := get_diagnostics_summary {| db_state := t'; db_events := ev; db_workflows := wf |} in
  let counted st := Z.of_nat (length (filter (λ x, ts_status x = st) (dvals (rs_tasks s)))) in
  let ids := qs_queued_task_ids (rs_queue s) in
  dg_pending_tasks_count g = counted "Pending" ∧ dg_completed_tasks_total g = counted "Completed" ∧
  dg_queue g = (Z.of_nat (length ids), strs ids) ∧
  dg_workers g = (Z.of_nat (length (rs_workers s)), map (λ kv, (kv.1, ws_state kv.2)) (rs_workers s)) ∧
  dg_snapshots_stored_total g = dg_snapshots_stored_total before ∧
  dg_events_stored_total g = dg_events_stored_total before ∧
  dg_instances_by_status g = dg_instances_by_status before.
Proof.
  intros [Ht Hti Hw Hwi] Hsave t t' before g counted ids.
  apply save_runtime_state_tables in Hsave as (Hts & Hws & (r & Hr & Hq) & Hsn).
  fold t t' in Hts, Hws, Hr, Hsn. clearbody t t'.
  unfold g, get_diagnostics_summary. simpl.
  split_and!; [by apply count_saved..| | |unfold get_persistence_summary; simpl; by rewrite Hsn|done|done].
  - unfold get_queue_summary. simpl. rewrite Hr. unfold queue_to_row in Hq. ok_cases Hq. injection Hq as <-.
    apply dumps_Ok in E as [-> _]. unfold strs. simpl. by rewrite length_map.
  - destruct (save_all_rows ws_worker_id worker_to_row _ _ _ Hws) as (rs & Hrs & Hall); [by apply keyed_keys|].
    change (dvals [] ++ rs) with rs in Hrs.
    unfold get_worker_summary. simpl. rewrite Hrs.
    rewrite (worker_rows_states (rs_workers s) [] rs []) by done. f_equal. f_equal.
    apply Forall2_length in Hall. rewrite <-(length_fmap snd), <-(length_fmap snd).
    unfold dvals in *. rewrite Hrs. done.
Qed.

(** The alert on the queue: after a save, [AlertEngine.evaluate] on these
    diagnostics raises it just when more ids were queued than the limit, which
    is the first rule's on [queue_size], or 5. *)
Theorem queue_alert_exact num_text n s c c' ev wf h a e m :
  state_keyed s → save_runtime_state n s c = (Ok tt, c') →
  (find (λ r, ar_metric_name r =s? "queue_size") (ae_rules a) = None ∧ m = 5 ∨
   ∃ r, find (λ r, ar_metric_name r =s? "queue_size") (ae_rules a) = Some r ∧ ar_threshold r = PInt m) →
  let g := get_diagnostics_summary {| db_state := Tx.committed c'; db_events := ev; db_workflows := wf |} in
  ∃ alerts s', evaluate num_text h (PInt (dg_queue g).1) (a, e) = (Ok alerts, s') ∧
    ae_alerts s'.1 = ae_alerts a ++ alerts ∧
    ("QueueDepthThresholdExceeded" ∈ map al_rule_name alerts ↔
     m < Z.of_nat (length (qs_queued_task_ids (rs_queue s)))).
Proof.
  intros Hk Hsave Hm g.
  apply save_runtime_state_tables in Hsave as (_ & _ & (r & Hr & Hq) & _).
  assert ((dg_queue g).1 = Z.of_nat (length (qs_queued_task_ids (rs_queue s)))) as ->.
  { unfold g, get_diagnostics_summary, get_queue_summary. simpl. rewrite Hr. unfold queue_to_row in Hq.
    ok_cases Hq. injection Hq as <-. apply dumps_Ok in E as [-> _]. unfold strs. simpl. by rewrite length_map. }
  assert (queue_limit (ae_rules a) = PInt m) as Hlim.
  { unfold queue_limit. destruct Hm as [[-> ->]|(x & -> & ->)]; done. }
  unfold evaluate. run_step. rewrite Hlim, num_lt_int. eexists _, _. split; [done|]. split; [done|].
  rewrite !map_app, !elem_of_app. rewrite map_map. simpl. split.
  - intros [Hin|[Hin|Hin]].
    + apply list_elem_of_fmap in Hin as (? & ? & _). done.
    + case_bool_decide; [done|]. by apply not_elem_of_nil in Hin.
    + case_match; simpl in Hin; [by apply list_elem_of_singleton in Hin|by apply not_elem_of_nil in Hin].
  - intros Hlt. right. left. rewrite bool_decide_eq_true_2 by done. by left.
Qed.
End saved.

(** * Examples *)
Section examples.
#[local] Existing Instance sample_oracle.
Definition backlog : RuntimeState :=
  {| rs_timestamp := "2026-01-01"; rs_tasks := rs_tasks sample_state;
     rs_workers := [("W-001", {| ws_worker_id := "W-001"; ws_state := "IDLE"; ws_current_task_id := None;
                                 ws_heartbeat_time := "2026-01-01"; ws_tasks_processed := 0; ws_failures := 0;
                                 ws_start_time := "2026-01-01"; ws_version := 1 |})];
     rs_queue := {| qs_queued_task_ids := ["a"; "b"; "c"; "d"; "e"; "f"]; qs_size := 6; qs_capacity := None;
                    qs_policy_type := "FIFO"; qs_version := 1 |};
     rs_scheduler := rs_scheduler sample_state; rs_schema_version := 1 |}.
Definition no_workflows : WfTables := {| definition_rows := ∅; instance_rows := ∅ |}.
Definition backlog_saved : StateConn := (save_runtime_state 0 backlog new_conn).2.

Lemma backlog_keyed : state_keyed backlog.
Proof. constructor; try (apply (bool_decide_unpack _); vm_compute; exact I); repeat constructor. Qed.
Lemma backlog_saves : save_runtime_state 0 backlog new_conn = (Ok tt, backlog_saved).
Proof. vm_compute. reflexivity. Qed.

Lemma diagnostics_after_save_witness :
  dg_workers (get_diagnostics_summary
    {| db_state := Tx.committed backlog_saved; db_events := empty_table; db_workflows := no_workflows |}) =
    (1, [("W-001", "IDLE")]).
Proof.
  destruct (diagnostics_after_save 0 backlog new_conn backlog_saved empty_table no_workflows
    backlog_keyed backlog_saves) as (_ & _ & _ & Hw & _).
  exact Hw.
Defined.

Lemma queue_alert_exact_witness :
  ∃ alerts s', evaluate (λ _, "") {| hr_status := "Healthy"; hr_reasons := []; hr_active_workers_count := 0;
                                     hr_workflow_failures := 0 |}
      (PInt 6) ({| ae_rules := []; ae_alerts := [] |}, {| env_tasks := ∅; env_tick := 0; env_store := None |}) =
      (Ok alerts, s') ∧ "QueueDepthThresholdExceeded" ∈ map al_rule_name alerts.
Proof.
  destruct (queue_alert_exact (λ _, "") 0 backlog new_conn backlog_saved empty_table no_workflows
    {| hr_status := "Healthy"; hr_reasons := []; hr_active_workers_count := 0; hr_workflow_failures := 0 |}
    {| ae_rules := []; ae_alerts := [] |} {| env_tasks := ∅; env_tick := 0; env_store := None |} 5
    backlog_keyed backlog_saves (or_introl (conj eq_refl eq_refl))) as (alerts & s' & He & _ & Hin).
  exists alerts, s'. split; [exact He|]. apply Hin. simpl. lia.
Defined.
End examples.
