(* ===== verification/Telemetry.v ===== *)
(** The rest of [observability/]: the telemetry event and its dictionary form
    ([domain/models.py]), the structured log formatter ([logging.py]), and the
    port of [domain/ports.py] that every exporter of [exporters.py] implements,
    those without a back end included. *)
From S2P Require Import Prelude PyNum Values Decode Events EventStore Tasks.
From S2P Require Import Metrics Tracing Monitoring Exporters.
From stdpp Require Import pretty.
Open Scope Z_scope.

(** * Telemetry events *)
Record TelemetryMetadata : Type := {
  tm_runtime_id : string; tm_timestamp : string; tm_version : string; tm_extra : odict pyval
}.
Record TelemetryEvent : Type := {
  te_event_type : string; te_metadata : TelemetryMetadata; te_payload : odict pyval; te_version : string
}.

(** [asdict(metadata)] *)
Definition metadata_to_dict (m : TelemetryMetadata) : odict pyval :=
  [("runtime_id", VStr (tm_runtime_id m)); ("timestamp", VStr (tm_timestamp m));
   ("version", VStr (tm_version m)); ("extra", asdict (VDict (tm_extra m)))].
(** [to_dict]: the payload is not copied *)
Definition telemetry_to_dict (e : TelemetryEvent) : odict pyval :=
  [("event_type", VStr (te_event_type e)); ("metadata", VDict (metadata_to_dict (te_metadata e)));
   ("payload", VDict (te_payload e)); ("version", VStr (te_version e))].

(** [TelemetryMetadata( **d )]: a missing field is a [TypeError] too *)
Definition metadata_of_dict (d : odict pyval) : outcome TelemetryMetadata :=
  let? d := kwargs ["runtime_id"; "timestamp"; "version"; "extra"] d in
  match dget d "runtime_id", dget d "timestamp" with
  | Some r, Some t =>
      let? r := as_str r in let? t := as_str t in
      let? v := as_str (get_or d "version" (VStr "1.0.0")) in
      let? x := as_dict (get_or d "extra" (VDict [])) in
      Ok {| tm_runtime_id := r; tm_timestamp := t; tm_version := v; tm_extra := x |}
  | _, _ => Raise (TypeError "missing required positional argument")
  end.
Definition telemetry_of_dict (d : odict pyval) : outcome TelemetryEvent :=
  let? mv := req d "metadata" in let? md := as_dict mv in
  let? m := metadata_of_dict md in
  let? ty := req_str d "event_type" in
  let? pv := req d "payload" in let? p := as_dict pv in
  let? v := as_str (get_or d "version" (VStr "1.0.0")) in
  Ok {| te_event_type := ty; te_metadata := m; te_payload := p; te_version := v |}.

(** A telemetry event survives its dictionary form, and JSON when its payload
    does. *)
Theorem telemetry_roundtrip e :
  json_ok (VDict (tm_extra (te_metadata e))) = true →
  telemetry_of_dict (telemetry_to_dict e) = Ok e ∧
  (json_ok (VDict (te_payload e)) = true → dumps (VDict (telemetry_to_dict e)) = Ok (VDict (telemetry_to_dict e))).
Proof.
  intros Hx. unfold telemetry_to_dict, metadata_to_dict. rewrite asdict_json_ok by done. split.
  - unfold telemetry_of_dict. read_dict. unfold metadata_of_dict, kwargs. simpl. read_dict. by destruct e as [? [] ? ?].
  - intros Hp. unfold dumps. simpl in *. by rewrite Hx, Hp.
Qed.

(** * Structured log lines *)

(** What [format] reads of a [LogRecord]; [lr_attributes] are the attributes
    set through [extra]. *)
Record LogRecord : Type := {
  lr_time : string; lr_level : string; lr_message : string; lr_name : string; lr_filename : string;
  lr_lineno : Z; lr_attributes : odict pyval
}.
Definition context_keys : list string := ["trace_id"; "span_id"; "correlation_id"; "causation_id"].
Definition extra_keys : list string := ["workflow_id"; "task_id"; "executor_id"; "worker_id"].

(** [if key in ctx and ctx[key]: log_payload[key] = ctx[key]] *)
Definition add_context (ctx : odict string) (key : string) (d : odict pyval) : odict pyval :=
  match dget ctx key with Some v => if str_truthy v then dset d key (VStr v) else d | None => d end.
(** [if hasattr(record, key): ...] *)
Definition add_attribute (attributes : odict pyval) (key : string) (d : odict pyval) : odict pyval :=
  match dget attributes key with Some v => dset d key v | None => d end.
Definition log_payload (ctx : odict string) (r : LogRecord) : odict pyval :=
  let d := [("timestamp", VStr (lr_time r)); ("level", VStr (lr_level r)); ("message", VStr (lr_message r));
            ("logger_name", VStr (lr_name r)); ("filename", VStr (lr_filename r)); ("lineno", VInt (lr_lineno r))] in
  let d := foldl (λ d k, add_context ctx k d) d context_keys in
  foldl (λ d k, add_attribute (lr_attributes r) k d) d extra_keys.
(** [JSONContextFormatter.format] on thread [th] *)
Definition format (th : string) (t : Tracer) (r : LogRecord) : outcome json :=
  dumps (VDict (log_payload (context th t) r)).

Lemma foldl_dset_get (f : string → odict pyval → odict pyval) (val : string → option pyval) (ks : list string) d k :
  (∀ k d, f k d = match val k with Some v => dset d k v | None => d end) →
  dget (foldl (λ d k, f k d) d ks) k = (if decide (k ∈ ks) then match val k with Some v => Some v | None => dget d k end
                                        else dget d k).
Proof.
  intros Hf. revert d. induction ks as [|k' ks IH]; intros d; simpl; [done|]. rewrite IH, Hf.
  destruct (decide (k = k')) as [->|Hne].
  - rewrite (decide_True (P:=k' ∈ k' :: ks)) by left. destruct (val k'); simpl; [|by case_decide].
    case_decide; [done|apply dget_dset_eq].
  - assert (dget (match val k' with Some v => dset d k' v | None => d end) k = dget d k) as ->
      by (destruct (val k'); [by rewrite dget_dset_ne|done]).
    destruct (decide (k ∈ ks)); [by rewrite decide_True by (by right)|].
    rewrite decide_False; [done|]. by intros [->|?]%elem_of_cons.
Qed.

(** Every line carries the record's own fields, the thread's trace context
    where it is not empty, and the record's ids; formatting fails only when an
    id cannot be written as JSON. *)
Theorem log_line_fields th t r :
  match format th t r with
  | Ok j => ∃ d, loads j = VDict d ∧
      dget d "message" = Some (VStr (lr_message r)) ∧ dget d "level" = Some (VStr (lr_level r)) ∧
      (∀ k, k ∈ context_keys →
         dget d k = (v ← dget (context th t) k; if str_truthy v then Some (VStr v) else None)) ∧
      (∀ k, k ∈ extra_keys → dget d k = dget (lr_attributes r) k)
  | Raise x => isinstance x "TypeError" = true ∧ json_ok (VDict (log_payload (context th t) r)) = false
  end.
Proof.
  unfold format, dumps. destruct (json_ok _) eqn:Hj; [|done]. eexists. split; [done|].
  assert (∀ k, dget (log_payload (context th t) r) k =
    let d := [("timestamp", VStr (lr_time r)); ("level", VStr (lr_level r)); ("message", VStr (lr_message r));
              ("logger_name", VStr (lr_name r)); ("filename", VStr (lr_filename r)); ("lineno", VInt (lr_lineno r))] in
    let c := if decide (k ∈ context_keys)
             then match (v ← dget (context th t) k; if str_truthy v then Some (VStr v) else None) with
                  | Some v => Some v | None => dget d k end
             else dget d k in
    if decide (k ∈ extra_keys) then match dget (lr_attributes r) k with Some v => Some v | None => c end else c) as Hd.
  { intros k. unfold log_payload. cbv zeta.
    rewrite (foldl_dset_get (add_attribute (lr_attributes r)) (dget (lr_attributes r))) by done.
    rewrite (foldl_dset_get (add_context (context th t))
      (λ k, v ← dget (context th t) k; if str_truthy v then Some (VStr v) else None)); [done|].
    intros k' d. unfold add_context. destruct (dget _ k') as [v|]; [|done]. simpl. by destruct (str_truthy v). }
  split_and!; [by rewrite Hd|by rewrite Hd| |].
  - intros k Hk. rewrite Hd. cbv zeta. rewrite (decide_True (P:=k ∈ context_keys)) by done.
    repeat (apply elem_of_cons in Hk as [->|Hk]); [..|by apply not_elem_of_nil in Hk];
      rewrite decide_False by (apply (bool_decide_unpack _); vm_compute; exact I); by case_match.
  - intros k Hk. rewrite Hd. cbv zeta. rewrite (decide_True (P:=k ∈ extra_keys)) by done.
    destruct (dget (lr_attributes r) k); [done|].
    repeat (apply elem_of_cons in Hk as [->|Hk]); [..|by apply not_elem_of_nil in Hk]; done.
Qed.

(** * The exporter port *)

(** [ExporterPort] on a process state [S]; an implementation returns what it
    exports, or [None]. *)
Record ExporterPort (S R : Type) : Type := {
  export_metrics : list MetricFamily → M S R;
  export_spans : list Span → M S R;
  export_alerts : list Alert → M S R
}.
Arguments export_metrics {S R}. Arguments export_spans {S R}. Arguments export_alerts {S R}.

(** Standard output, line by line. *)
Definition Console : Type := list string.
Definition print (line : string) : M Console unit := modify (λ c, c ++ [line]).

Definition family_line (f : MetricFamily) : string :=
  "[ConsoleExporter] MetricFamily: " +:+ mf_name f +:+ " (" +:+ mf_metric_type f +:+ ") - " +:+
  pretty (length (mf_metrics f)) +:+ " series".
Definition span_line (s : Span) : string :=
  "[ConsoleExporter] Span: " +:+ span_name s +:+ " (" +:+ span_id s +:+ ") - trace=" +:+ trace_id s.
Definition alert_line (a : Alert) : string :=
  "[ConsoleExporter] Alert: " +:+ al_rule_name a +:+ " - " +:+ al_severity a +:+ ": " +:+ al_message a.
Definition ConsoleExporter : ExporterPort Console unit := {|
  export_metrics families := for_each families (λ f, print (family_line f));
  export_spans spans := for_each spans (λ s, print (span_line s));
  export_alerts alerts := for_each alerts (λ a, print (alert_line a))
|}.
Definition JSONExporter {S} : ExporterPort S json := {|
  export_metrics families := of_outcome (json_export_metrics families);
  export_spans spans := of_outcome (json_export_spans spans);
  export_alerts alerts := of_outcome (json_export_alerts alerts)
|}.
(** [num_text]: the text of a number *)
Definition CSVExporter {S} (num_text : num → string) : ExporterPort S string := {|
  export_metrics families := ret (csv_export_metrics num_text families);
  export_spans spans := ret (csv_export_spans spans);
  export_alerts alerts := ret (csv_export_alerts alerts)
|}.

Definition NotImplementedError (msg : string) : exn :=
  UserExc ["NotImplementedError"; "RuntimeError"; "Exception"] msg.
(** The adapters without a back end: what they do not refuse they ignore. *)
Definition OpenTelemetryExporter {S} : ExporterPort S unit := {|
  export_metrics _ := raise (NotImplementedError
    "OpenTelemetry metrics push requires 'opentelemetry-sdk' integration package.");
  export_spans _ := raise (NotImplementedError
    "OpenTelemetry distributed spans push requires 'opentelemetry-sdk' integration package.");
  export_alerts _ := raise (NotImplementedError
    "OpenTelemetry alerts push requires OTLP logging mapping protocols.")
|}.
Definition PrometheusExporter {S} : ExporterPort S unit := {|
  export_metrics _ := raise (NotImplementedError
    "Prometheus export mapping requires 'prometheus_client' package integration.");
  export_spans _ := ret tt;
  export_alerts _ := ret tt
|}.
Definition GrafanaExporter {S} : ExporterPort S unit := {|
  export_metrics _ := ret tt; export_spans _ := ret tt; export_alerts _ := ret tt
|}.

Lemma print_each {A} (line : A → string) l c :
  for_each l (λ x, print (line x)) c = (Ok tt, c ++ map line l).
Proof.
  revert c. induction l as [|x l IH]; intros c; simpl; [by rewrite app_nil_r|].
  unfold bind. simpl. rewrite IH, <-app_assoc. done.
Qed.

(** The console exporter never fails and prints one line per item, in order. *)
Theorem console_prints_every_item families spans alerts c :
  export_metrics ConsoleExporter families c = (Ok tt, c ++ map family_line families) ∧
  export_spans ConsoleExporter spans c = (Ok tt, c ++ map span_line spans) ∧
  export_alerts ConsoleExporter alerts c = (Ok tt, c ++ map alert_line alerts).
Proof. split_and!; apply print_each. Qed.

Definition sample_event : TelemetryEvent := {|
  te_event_type := "AlertRaised";
  te_metadata := {| tm_runtime_id := "r1"; tm_timestamp := "2026-01-01T00:00:00"; tm_version := "1.0.0";
                    tm_extra := [("host", VStr "a"); ("cores", VInt 4)] |};
  te_payload := [("rule", VStr "spike")]; te_version := "1.0.0"
|}.
Lemma telemetry_roundtrip_witness :
  json_ok (VDict (tm_extra (te_metadata sample_event))) = true ∧
  telemetry_of_dict (telemetry_to_dict sample_event) = Ok sample_event.
Proof. split; [done|]. by apply (telemetry_roundtrip sample_event). Defined.
